(* ===== verification/_CoqProject ===== *)
-Q . S2P
Prelude.v
Text.v
Checksum.v
KeyHash.v
VersionId.v
Erasure.v
XorCode.v
Layout.v
Stripe.v
FileSystem.v
ShardFile.v
Record.v
Device.v
DeviceSpec.v
Cluster.v
Scrub.v
ScrubSpec.v
Frame.v
Handshake.v
Message.v
Lookup.v
Node.v
LocalOps.v
LocalOpsSpec.v
Space.v
Connection.v
Coordinator.v
Log.v
Get.v
StoredObject.v
GetSpec.v
Serving.v
Degraded.v
Put.v
PutSpec.v
Repair.v
RepairSpec.v
Move.v
MoveSpec.v
Inventory.v
ClusterScrub.v
MergeSpec.v
InventorySpec.v
ClusterScrubSpec.v
Admin.v
AdminSpec.v
Recover.v
RecoverSpec.v
RecoverRun.v
Client.v
ClientSpec.v
ClientRun.v
Membership.v
MembershipSpec.v
