(* ===== verification/Prelude.v ===== *)
(** * Distributed-JBOD: a verification library

    Distributed-JBOD stores objects on the disks of a few machines.  An object
    is cut into stripes, each stripe is erasure-coded into k data and m parity
    blocks, and shard [i] of the object is the file of the [i]th blocks.  Next
    to each shard file lies a copy of the object's metadata record.  Nodes
    speak a framed protocol over TCP; the node a client talks to coordinates.
    This library models the parts below in Rocq and proves what makes them
    correct.  Paths are relative to [src/crates/].

    ** Components and files

    - [Prelude], [Text]: results with errors and panics ([res]), machine-width
      integers, bytes, slices, byte-wise order; strings as lists of scalar
      values with their UTF-8 encoding ([djbod-core/src/text.rs]).
    - [Checksum], [KeyHash], [VersionId]: [checksum.rs], [keyhash.rs],
      [version.rs] and the generator of [djbod-node/src/ulid.rs].
    - [Erasure], [XorCode], [Stripe]: [erasure.rs], [stripe.rs].  The
      Reed-Solomon library is the class [ReedSolomonLib] with the law
      [rs_correct]; [XorCode] is an instance (one parity block), which the
      witnesses run.
    - [Layout], [ShardFile], [Record]: [layout.rs], [shardfile.rs], [record.rs].
    - [FileSystem]: the operating system as the program uses it.  A [World]
      holds a tree of files, open offsets, a clock, a list of faults to come and
      the trace of trees gone through; [io E A] is a computation on it, every
      system call may fail with the next fault, and [wp] is its weakest
      precondition with an invariant of every tree of the trace, so a theorem
      stated with it holds after a crash at any instant.
    - [Device], [DeviceSpec]: [device.rs] and the theorems about whole runs.
    - [Cluster]: [cluster.rs], with the standard library's socket address parser.
    - [Scrub], [ScrubSpec]: [scrub.rs].
    - [Frame], [Handshake], [Message]: [djbod-proto/src] and
      [djbod-client/src/wire.rs].
    - [Lookup]: [djbod-node/src/coordinator.rs], which version the record copies
      found on the cluster stand for.
    - [Node]: [djbod-node/src/node.rs], [config.rs].
    - [LocalOps], [LocalOpsSpec]: [djbod-node/src/local_ops.rs], the requests a
      node serves on its own devices, with the connection they arrive on ([Conn]:
      the messages to come, those sent, and when the peer stops reading).
    - [Space]: the space report of [device.rs] with its floating-point arithmetic,
      and the status of a node ([LocalStatus] of [local_ops.rs]).
    - [Connection]: [djbod-client/src/connection.rs].  [net S E A] is a
      computation over the connections of a coordinator: the class [Network] says
      what a dial, a send and a receive do, as any function of the state of the
      network, and [Peers] logs what was sent and received on each connection.
      [None] is a computation still running.
    - [Coordinator], [Get], [Put]: [djbod-node/src/coordinator.rs], the exchanges
      behind lookup, status, list, head, delete, read and write.
    - [Repair], [Move], [Inventory], [ClusterScrub]: the same file, repair, move
      and drain, the inventory and the scrub of the cluster.
    - [Log]: what each exchange adds to the log, as lemmas and a hint database;
      [StoredObject]: an object as the columns of blocks its shards consist of.
    - [GetSpec], [PutSpec], [RepairSpec], [MoveSpec]: what they promise on any network;
      [MergeSpec], [InventorySpec], [ClusterScrubSpec]: the merge of the devices'
      record streams against a reference definition, and what it reports.
    - [Serving], [Degraded]: a network of nodes that answer, and the read of a
      stored object with shards out on it.
    - [Admin], [AdminSpec]: [djbod-client/src/admin.rs], the changes to the cluster
      document from outside, and the protocol they follow as a step relation on
      the documents the nodes hold; [Cluster_network] is a network of such nodes.
    - [Recover], [RecoverSpec], [RecoverRun]: [djbod-recover/src/main.rs] over the
      file system, its [BufWriter] explicit; what it promises under faults, and
      the run that gives an object back.
    - [Client], [ClientSpec], [ClientRun]: the conversations of
      [djbod-client/src/connection.rs] (uploads, downloads, shards, events, with
      the source and the sink of the bytes explicit) and [djbod-client/src/client.rs],
      whose session keeps its state next to the connections of [Peers].
    - [Membership], [MembershipSpec]: [djbod-node/src/membership.rs], on a file
      system and a network together ([Site]).

    ** Conventions

    A Rust [Result] is [res E A]: [Ok], [Err], or [Panic] for an arithmetic
    fault, an index out of range or an [expect].  Integers are [Z]; where the
    release build would wrap, the model does ([wrap64]).  A UUID is the integer
    it encodes; key hashes and version identifiers are byte lists.  A message
    that only formats values is represented by those values.  Libraries (XXH3,
    SHA-256, Reed-Solomon, serde_json, CBOR, UUID and time texts) are classes;
    a theorem that needs a law of one takes it as a hypothesis, and the
    witnesses discharge it with a concrete instance.

    ** What the theorems show

    - Bytes: stripes, shard files, records, frames and messages round-trip, and
      what a decoder accepts is well-formed ([decode_encode_stripe],
      [shard_file_roundtrip], [record_json_roundtrip], [message_roundtrip],
      [open_bytes_sound], [frame_decode_sound], ...).
    - Disk: writes are atomic and deletions ordered under every fault and crash
      ([write_record_atomic], [delete_version_order], [cleanup_only_temporaries],
      [apply_document_durable], [document_history]).
    - Scrub: it changes nothing, is silent on a clean device and names damaged
      stripes exactly.
    - Cluster: which copies may be trusted, and when "not found" may be answered
      ([trusted_versions_sound], [newest_readable_quorum],
      [not_found_means_absent]); validity of documents; one writer per shard.
    - Requests: a shard write is atomic, releases its slot and reads back
      ([put_shard_atomic], [put_shard_releases], [shard_put_get],
      [record_put_get]); no request makes a node panic.
    - Objects: a write that reports success sent every shard, then every record,
      and left what a read needs ([put_object_protocol], [put_stores_object],
      [place_best]); a read that ends without an error delivered the object
      ([get_object_sound]); with up to m shards out it still completes
      ([degraded_read]); a repair writes nothing unverified, in an order that
      keeps the object readable, and puts back what was lost ([repair_ordered],
      [repair_restores]); so does a move ([move_ordered], [move_keeps_record],
      [copy_shard_relays]).
    - Inventory and scrub of the cluster: every version on any device is looked
      at once, with all its copies, and called what it is
      ([merge_inventory_reports], [classify_group_meaning],
      [merge_sources_checks]).
    - Administration: no two documents of one version differ, in any history of
      procedures, lost messages and failures ([one_document_per_version]); every
      procedure follows the protocol ([administration_refines]); one that reports
      success reached every node ([propose_reaches_all]).
    - Membership: joining and adding devices lose nothing on any disk, leave what
      a start needs and follow the protocol of the administration
      ([membership_keeps_data], [join_ready], [membership_refines]); a start goes on
      with a document that is on disk and lists the node where it serves
      ([startup_document]).
    - Space and status: the bytes reported free, and a status that is whole
      whatever the disks do ([space_bounds], [local_status_complete]).
    - Recovery: only the file asked for appears, whole and verified
      ([extract_sound]), and it does whenever every stripe has k undamaged blocks
      ([extract_recovers]).
    - Client: bytes handed out as an object are the object the response named
      ([client_read_honest]); a write reported done is the source's bytes, stored
      ([client_write_stored]); a request goes out at most twice, never twice on
      one connection ([request_sent_once]); all pages together are the listing
      ([list_all_complete]).
    - Defects: theorems that exhibit a behaviour the code does not intend carry
      it in their statement ([key_hash_from_hex_panics], [generator_wraps],
      [shard_geometry_division_by_zero], [remove_temporary_shard_misses],
      [delete_version_stat_fault],
      [repair_deletes_relocated], [empty_object_unreadable],
      [forced_removal_diverges], [client_out_of_step]).

    ** Bounds and fuel

    Loops of the source are recursion on the list they run over, so nothing
    needs fuel but the IPv6 group reader, whose fuel is the number of groups it
    may read, and the decimal printer, whose fuel is the number of digits a
    128-bit value can have;
    and the pages of one lookup or listing and the messages of one download,
    which end when the node says so: [net] gives [None] when the fuel for them is
    used up, and a theorem that a request completes exhibits the result
    ([list_all_complete] says how much fuel is enough).

    ** Not modelled

    The streaming of [LocalScrub], whose engine is [Scrub]; server and transport
    (the accept loop, sockets, TLS, task scheduling); the command line tools, the
    user interface and the Python bindings, which are user interface and glue over
    the client library; the blocking wrapper of the client; the scrub's rate
    limiter, which only sleeps. *)

From stdpp Require Export base decidable list numbers gmap strings sorting.
From Stdlib Require Export ZArith Lia.

Declare Scope djbod_scope.
Delimit Scope djbod_scope with djbod.

#[global] Open Scope Z_scope.
#[global] Open Scope djbod_scope.

(** ** Results

    A Rust [Result<A, E>] is [res E A]; [Panic] is the third outcome of a
    Rust call, an unwinding panic ([expect], an index out of range, a slice
    off a character boundary).  Panic-freedom is a theorem, not an
    assumption of the model. *)

Inductive res (E A : Type) : Type :=
| Ok (a : A)
| Err (e : E)
| Panic.

Arguments Ok {E A} a.
Arguments Err {E A} e.
Arguments Panic {E A}.

#[global] Instance res_ret E : MRet (res E) := λ A a, Ok a.
#[global] Instance res_bind E : MBind (res E) := λ A B f r,
  match r with
  | Ok a => f a
  | Err e => Err e
  | Panic => Panic
  end.
#[global] Instance res_fmap E : FMap (res E) := λ A B f r,
  match r with
  | Ok a => Ok (f a)
  | Err e => Err e
  | Panic => Panic
  end.

(** [Result::map_err] *)
Definition map_err {E F A} (f : E → F) (r : res E A) : res F A :=
  match r with
  | Ok a => Ok a
  | Err e => Err (f e)
  | Panic => Panic
  end.

(** [if !b { return Err(e) }] *)
Definition ensure {E} (b : bool) (e : E) : res E unit :=
  if b then Ok tt else Err e.

(** [Option::ok_or] *)
Definition ok_or {E A} (o : option A) (e : E) : res E A :=
  match o with Some a => Ok a | None => Err e end.

(** [Option::expect] *)
Definition expect {E A} (o : option A) : res E A :=
  match o with Some a => Ok a | None => Panic end.

(** [Result::ok] of a result that cannot panic. *)
Definition ok_of {E A} (r : res E A) : option A :=
  match r with Ok a => Some a | _ => None end.

Definition is_ok {E A} (r : res E A) : bool :=
  match r with Ok _ => true | _ => false end.

(** The call returned, with a value or an error, without panicking. *)
Definition returns {E A} (r : res E A) : Prop := r ≠ Panic.

(** [?] in a loop: stop at the first error. *)
Fixpoint fold_res {E A S} (f : S → A → res E S) (l : list A) (s : S) : res E S :=
  match l with
  | [] => Ok s
  | x :: l => s' ← f s x; fold_res f l s'
  end.

Fixpoint map_res {E A B} (f : A → res E B) (l : list A) : res E (list B) :=
  match l with
  | [] => Ok []
  | x :: l => y ← f x; ys ← map_res f l; Ok (y :: ys)
  end.

(** ** Machine integers

    An unsigned integer of width [w] is a [Z] in [0, 2^w). *)

Definition is_uint (w z : Z) : Prop := 0 ≤ z < 2 ^ w.
#[global] Instance is_uint_dec w z : Decision (is_uint w z).
Proof. unfold is_uint. apply _. Defined.
Abbreviation is_u8 := (is_uint 8) (only parsing).
Abbreviation is_u16 := (is_uint 16) (only parsing).
Abbreviation is_u32 := (is_uint 32) (only parsing).
Abbreviation is_u64 := (is_uint 64) (only parsing).
Abbreviation is_u128 := (is_uint 128) (only parsing).

Definition wrap (w z : Z) : Z := z mod 2 ^ w.
Abbreviation wrap64 := (wrap 64) (only parsing).
Abbreviation wrap128 := (wrap 128) (only parsing).

(** [u64::checked_add] *)
Definition checked_add64 (a b : Z) : option Z :=
  if a + b <? 2 ^ 64 then Some (a + b) else None.

(** [u64::saturating_sub] *)
Definition saturating_sub (a b : Z) : Z := Z.max 0 (a - b).

(** [n.div_ceil(d)] on unsigned integers: quotient, plus one when the
    remainder is not zero. *)
Definition div_ceil (n d : Z) : Z :=
  if 0 <? n mod d then n / d + 1 else n / d.

(** ** Bytes, positional digits, endianness *)

Abbreviation byte_ok := is_u8 (only parsing).
Abbreviation bytes_ok := (Forall is_u8) (only parsing).

(** [n] digits of [z] in base [b], most significant first. *)
Fixpoint to_digits (b : Z) (n : nat) (z : Z) : list Z :=
  match n with
  | O => []
  | S n => to_digits b n (z / b) ++ [z mod b]
  end.

Definition of_digits (b : Z) (l : list Z) : Z :=
  fold_left (λ acc d, acc * b + d) l 0.

Definition be_bytes (n : nat) (z : Z) : list Z := to_digits 256 n z.
Definition of_be (l : list Z) : Z := of_digits 256 l.
Definition le_bytes (n : nat) (z : Z) : list Z := rev (be_bytes n z).
Definition of_le (l : list Z) : Z := of_be (rev l).

(** [buf[off .. off + n]] *)
Definition slice {A} (off n : nat) (l : list A) : list A := take n (drop off l).

(** [buf[off .. off + src.len()].copy_from_slice(src)] *)
Abbreviation put_slice := list_inserts (only parsing).

(** Lexicographic comparison of [Z] sequences: [Ord] of byte arrays, and of
    [str], whose UTF-8 order is the order of its scalar values. *)
Fixpoint lex_compare (a b : list Z) : comparison :=
  match a, b with
  | [], [] => Eq
  | [], _ :: _ => Lt
  | _ :: _, [] => Gt
  | x :: a, y :: b =>
      match x ?= y with
      | Eq => lex_compare a b
      | c => c
      end
  end.

Definition lex_ltb (a b : list Z) : bool :=
  match lex_compare a b with Lt => true | _ => false end.
Definition lex_leb (a b : list Z) : bool :=
  match lex_compare a b with Gt => false | _ => true end.

(** ** Automation *)

Create HintDb djbod discriminated.

(** Split every [if] and [match] on a result in the hypotheses or the goal. *)
Ltac res_step :=
  match goal with
  | H : Ok _ = Ok _ |- _ => injection H as H
  | H : Err _ = Err _ |- _ => injection H as H
  | H : Ok _ = Err _ |- _ => discriminate H
  | H : Err _ = Ok _ |- _ => discriminate H
  | H : Ok _ = Panic |- _ => discriminate H
  | H : Panic = Ok _ |- _ => discriminate H
  | H : Err _ = Panic |- _ => discriminate H
  | H : Panic = Err _ |- _ => discriminate H
  | H : Some _ = None |- _ => discriminate H
  | H : None = Some _ |- _ => discriminate H
  end.

Lemma bind_Ok {E A B} (m : res E A) (f : A → res E B) b :
  m ≫= f = Ok b ↔ ∃ a, m = Ok a ∧ f a = Ok b.
Proof. destruct m; cbn; naive_solver. Qed.

Lemma bind_Err {E A B} (m : res E A) (f : A → res E B) e :
  m ≫= f = Err e ↔ m = Err e ∨ ∃ a, m = Ok a ∧ f a = Err e.
Proof. destruct m; cbn; naive_solver. Qed.

Lemma bind_returns {E A B} (m : res E A) (f : A → res E B) :
  returns m → (∀ a, m = Ok a → returns (f a)) → returns (m ≫= f).
Proof. destruct m; cbn; unfold returns; naive_solver. Qed.

Lemma ensure_Ok {E} b (e : E) u : ensure b e = Ok u ↔ b = true.
Proof. destruct b, u; cbn; naive_solver. Qed.

Lemma ensure_Err {E} b (e e' : E) : ensure b e = Err e' ↔ b = false ∧ e = e'.
Proof. destruct b; cbn; naive_solver. Qed.

Lemma ensure_returns {E} b (e : E) : returns (ensure b e).
Proof. by destruct b. Qed.

Lemma map_err_Ok {E F A} (f : E → F) (r : res E A) a :
  map_err f r = Ok a ↔ r = Ok a.
Proof. destruct r; cbn; naive_solver. Qed.

Lemma map_err_returns {E F A} (f : E → F) (r : res E A) :
  returns (map_err f r) ↔ returns r.
Proof. destruct r; cbn; unfold returns; naive_solver. Qed.

Lemma ok_or_Ok {E A} (o : option A) (e : E) a : ok_or o e = Ok a ↔ o = Some a.
Proof. destruct o; cbn; naive_solver. Qed.

Lemma ok_or_returns {E A} (o : option A) (e : E) : returns (ok_or o e).
Proof. by destruct o. Qed.

Lemma Ok_returns {E A} (a : A) : returns (Ok a : res E A).
Proof. done. Qed.

Lemma Err_returns {E A} (e : E) : returns (Err e : res E A).
Proof. done. Qed.

#[export] Hint Resolve ensure_returns ok_or_returns Ok_returns Err_returns : djbod.

(** Peel the binds off a hypothesis [... = Ok _]. *)
Ltac inv_ok H :=
  repeat match type of H with
  | _ ≫= _ = Ok _ =>
      let a := fresh "a" in let Ha := fresh "H" in
      apply bind_Ok in H; destruct H as (a & Ha & H)
  end.

Section fold_res.
Context {E A S : Type} (f : S → A → res E S).

Lemma fold_res_app l1 l2 s :
  fold_res f (l1 ++ l2) s = fold_res f l1 s ≫= fold_res f l2.
Proof.
  revert s. induction l1 as [|x l1 IH]; intros s; cbn; [done|].
  destruct (f s x); cbn; auto.
Qed.

(** An invariant of the loop body holds at its end. *)
Lemma fold_res_inv (P : S → Prop) l s s' :
  (∀ s x s', x ∈ l → P s → f s x = Ok s' → P s') →
  P s → fold_res f l s = Ok s' → P s'.
Proof.
  revert s. induction l as [|x l IH]; intros s Hstep HP; cbn; [by intros [= <-]|].
  destruct (f s x) as [s1| |] eqn:Hf; cbn; [|done..].
  apply IH; [intros; eapply Hstep; eauto; set_solver|].
  eapply Hstep; eauto; set_solver.
Qed.

Lemma fold_res_returns (P : S → Prop) l s :
  (∀ s x, x ∈ l → P s → returns (f s x) ∧ ∀ s', f s x = Ok s' → P s') →
  P s → returns (fold_res f l s).
Proof.
  revert s. induction l as [|x l IH]; intros s Hstep HP; cbn; [done|].
  destruct (Hstep s x) as [Hr HP']; [set_solver|done|].
  apply bind_returns; [done|].
  intros s1 Hs1. apply IH; [|by apply HP'].
  intros; apply Hstep; set_solver.
Qed.
End fold_res.

(** A loop that collects the keys [g x] of every element, refusing an element
    that fails [ok] or repeats a key. *)
Lemma fold_unique {E A K : Type} (f : list K → A → res E (list K)) (g : A → list K) (ok : A → Prop) :
  (∀ seen x s, NoDup seen → f seen x = Ok s ↔ ok x ∧ NoDup (seen ++ g x) ∧ s = seen ++ g x) →
  ∀ l seen s, NoDup seen →
    fold_res f l seen = Ok s ↔ Forall ok l ∧ NoDup (seen ++ (l ≫= g)) ∧ s = seen ++ (l ≫= g).
Proof.
  intros Hf l. induction l as [|x l IH]; intros seen s Hseen; cbn [fold_res].
  { cbn. rewrite app_nil_r. naive_solver. }
  rewrite bind_Ok, Forall_cons. cbn [mbind list_bind]. rewrite (app_assoc seen). split.
  - intros (s1 & H1 & H2). apply Hf in H1 as (Hx & Hnd & ->); [|done]. apply IH in H2; naive_solver.
  - intros ([Hx Hl] & Hnd & ->). exists (seen ++ g x). pose proof Hnd as [Hg _]%NoDup_app.
    split; [by apply Hf|]. by apply IH.
Qed.

(** A list without repeated images: the image tells the element. *)
Lemma NoDup_fmap_inj {A B} (f : A → B) l x y : NoDup (f <$> l) → x ∈ l → y ∈ l → f x = f y → x = y.
Proof.
  intros Hnd [i Hi]%list_elem_of_lookup [j Hj]%list_elem_of_lookup Hf.
  assert (i = j) as <- by (eapply NoDup_lookup; [exact Hnd|by rewrite list_lookup_fmap, Hi|by rewrite list_lookup_fmap, Hj, Hf]).
  congruence.
Qed.

Section map_res.
Context {E A B : Type} (f : A → res E B).

Lemma map_res_Ok l r : map_res f l = Ok r ↔ Forall2 (λ x y, f x = Ok y) l r.
Proof.
  revert r; induction l as [|x l IH]; intros r; cbn.
  { split; [intros [= <-]; constructor|]. by intros ->%Forall2_nil_inv_l. }
  destruct (f x) as [y| |] eqn:Hf; cbn.
  2,3: split; [done|]; intros (? & ? & ? & ? & ?)%Forall2_cons_inv_l; congruence.
  rewrite bind_Ok. setoid_rewrite IH. split.
  - intros (ys & Hys & [= <-]). by constructor.
  - intros (z & ys & Hz & Hys & ->)%Forall2_cons_inv_l. exists ys. split; [done|]. congruence.
Qed.

Lemma map_res_returns l : (∀ x, x ∈ l → returns (f x)) → returns (map_res f l).
Proof.
  induction l as [|x l IH]; intros Hl; cbn; [done|].
  apply bind_returns; [apply Hl; by left|]. intros y _.
  apply bind_returns; [apply IH; intros; apply Hl; by right|]. done.
Qed.
End map_res.

(** ** Rounding up *)

Lemma div_ceil_spec n d :
  0 < d → 0 ≤ n → 0 ≤ div_ceil n d ∧ n ≤ d * div_ceil n d < n + d.
Proof.
  intros Hd Hn. unfold div_ceil.
  pose proof (Z.div_mod n d ltac:(lia)) as Hdm. pose proof (Z.mod_pos_bound n d Hd) as Hm.
  pose proof (Z.div_pos n d Hn Hd) as Hp. destruct (Z.ltb_spec 0 (n mod d)); nia.
Qed.

Lemma div_ceil_pos n d : 0 < d → 0 < n → 0 < div_ceil n d.
Proof. intros Hd Hn. destruct (div_ceil_spec n d); nia. Qed.

(** [div_ceil n d] is the least quotient that covers [n]. *)
Lemma div_ceil_least n d q : 0 < d → 0 ≤ n → n ≤ d * q < n + d → q = div_ceil n d.
Proof. intros Hd Hn Hq. destruct (div_ceil_spec n d Hd Hn) as [? ?]. nia. Qed.

(** ** Positional digits *)

Section digits.
Context (b : Z) (Hb : 1 < b).

Lemma length_to_digits n z : length (to_digits b n z) = n.
Proof.
  revert z; induction n as [|n IH]; intros z; cbn; [done|].
  rewrite length_app, IH; cbn; lia.
Qed.

Lemma to_digits_range n z : Forall (λ d, 0 ≤ d < b) (to_digits b n z).
Proof.
  revert z; induction n as [|n IH]; intros z; cbn; [constructor|].
  apply Forall_app; split; [done|].
  repeat constructor; apply Z.mod_pos_bound; lia.
Qed.

Lemma of_digits_snoc l d : of_digits b (l ++ [d]) = of_digits b l * b + d.
Proof. unfold of_digits. by rewrite fold_left_app. Qed.

Lemma of_to_digits n z : of_digits b (to_digits b n z) = z mod b ^ Z.of_nat n.
Proof.
  revert z; induction n as [|n IH]; intros z; cbn [to_digits].
  { cbn. by rewrite Z.mod_1_r. }
  rewrite of_digits_snoc, IH, Nat2Z.inj_succ, Z.pow_succ_r by lia.
  rewrite Z.rem_mul_r by (try apply Z.pow_nonzero; lia). lia.
Qed.

Lemma of_digits_range l :
  Forall (λ d, 0 ≤ d < b) l → 0 ≤ of_digits b l < b ^ Z.of_nat (length l).
Proof.
  induction l as [|d l IH] using rev_ind; intros Hl; [cbn; lia|].
  apply Forall_app in Hl as [Hl Hd]. apply Forall_cons in Hd as [Hd _].
  specialize (IH Hl).
  rewrite of_digits_snoc, length_app, Nat2Z.inj_add; cbn [length].
  rewrite Z.pow_add_r, Z.pow_1_r by lia. nia.
Qed.

Lemma to_of_digits l :
  Forall (λ d, 0 ≤ d < b) l → to_digits b (length l) (of_digits b l) = l.
Proof.
  induction l as [|d l IH] using rev_ind; intros Hl; [done|].
  apply Forall_app in Hl as [Hl Hd]. apply Forall_cons in Hd as [Hd _].
  rewrite length_app, Nat.add_comm; cbn [length Nat.add to_digits].
  rewrite of_digits_snoc.
  rewrite Z.div_add_l, (Z.div_small d b), Z.add_0_r by lia.
  rewrite Z.add_comm, Z.mod_add, Z.mod_small by lia. by rewrite IH.
Qed.

Lemma of_digits_cons d l :
  of_digits b (d :: l) = d * b ^ Z.of_nat (length l) + of_digits b l.
Proof.
  induction l as [|e l IH] using rev_ind; [cbn; lia|].
  rewrite app_comm_cons, !of_digits_snoc, IH, length_app, Nat2Z.inj_add.
  cbn [length]. rewrite Z.pow_add_r, Z.pow_1_r by lia. nia.
Qed.

(** Equal-length numerals compare as the numbers they denote. *)
Lemma lex_compare_digits l1 l2 :
  length l1 = length l2 →
  Forall (λ d, 0 ≤ d < b) l1 → Forall (λ d, 0 ≤ d < b) l2 →
  lex_compare l1 l2 = (of_digits b l1 ?= of_digits b l2).
Proof.
  revert l2; induction l1 as [|x l1 IH]; intros [|y l2]; cbn [length]; intros Hlen H1 H2;
    try lia; [done|].
  apply Forall_cons in H1 as [Hx H1]. apply Forall_cons in H2 as [Hy H2].
  injection Hlen as Hlen. cbn [lex_compare].
  rewrite !of_digits_cons, Hlen.
  pose proof (of_digits_range _ H1) as R1. pose proof (of_digits_range _ H2) as R2.
  rewrite Hlen in R1.
  destruct (Z.compare_spec x y) as [->|Hlt|Hgt].
  - rewrite IH by done.
    destruct (Z.compare_spec (of_digits b l1) (of_digits b l2)); symmetry.
    + apply Z.compare_eq_iff; lia.
    + apply Z.compare_lt_iff; lia.
    + apply Z.compare_gt_iff; lia.
  - symmetry; apply Z.compare_lt_iff; nia.
  - symmetry; apply Z.compare_gt_iff; nia.
Qed.
End digits.

(** A strictly increasing map preserves the comparison. *)
Lemma lex_compare_map (P : Z → Prop) (f : Z → Z) l1 l2 :
  (∀ x y, P x → P y → (f x ?= f y) = (x ?= y)) →
  Forall P l1 → Forall P l2 →
  lex_compare (f <$> l1) (f <$> l2) = lex_compare l1 l2.
Proof.
  intros Hf. revert l2.
  induction l1 as [|x l1 IH]; intros [|y l2] H1 H2; [done..|].
  apply Forall_cons in H1 as [Hx H1]. apply Forall_cons in H2 as [Hy H2].
  cbn [fmap list_fmap lex_compare]. rewrite Hf by done.
  destruct (x ?= y); auto.
Qed.

(** ** Little- and big-endian integers *)

Lemma length_be_bytes n z : length (be_bytes n z) = n.
Proof. apply length_to_digits. Qed.

Lemma length_le_bytes n z : length (le_bytes n z) = n.
Proof. unfold le_bytes. by rewrite length_rev, length_be_bytes. Qed.

Lemma be_bytes_ok n z : bytes_ok (be_bytes n z).
Proof. apply (to_digits_range 256). lia. Qed.

Lemma le_bytes_ok n z : bytes_ok (le_bytes n z).
Proof. apply Forall_rev, be_bytes_ok. Qed.

Lemma of_be_bytes n z :
  0 ≤ z < 256 ^ Z.of_nat n → of_be (be_bytes n z) = z.
Proof. intros Hz. unfold of_be, be_bytes. rewrite of_to_digits by lia. by apply Z.mod_small. Qed.

Lemma of_le_bytes n z :
  0 ≤ z < 256 ^ Z.of_nat n → of_le (le_bytes n z) = z.
Proof. intros Hz. unfold of_le, le_bytes. by rewrite rev_involutive, of_be_bytes. Qed.

Lemma be_bytes_of_be l : bytes_ok l → be_bytes (length l) (of_be l) = l.
Proof. intros Hl. apply (to_of_digits 256); [lia|done]. Qed.

Lemma le_bytes_of_le l : bytes_ok l → le_bytes (length l) (of_le l) = l.
Proof.
  intros Hl. unfold le_bytes, of_le. rewrite <- (length_rev l).
  rewrite be_bytes_of_be by (by apply Forall_rev). apply rev_involutive.
Qed.

Lemma of_be_range l : bytes_ok l → 0 ≤ of_be l < 256 ^ Z.of_nat (length l).
Proof. intros Hl. apply (of_digits_range 256); [lia|done]. Qed.

Lemma of_le_range l : bytes_ok l → 0 ≤ of_le l < 256 ^ Z.of_nat (length l).
Proof.
  intros Hl. unfold of_le. rewrite <- (length_rev l). by apply of_be_range, Forall_rev.
Qed.

(** ** Slices of a buffer *)

Section slices.
Context {A : Type}.
Implicit Types l src : list A.

Lemma length_slice off n l : (off + n ≤ length l)%nat → length (slice off n l) = n.
Proof. intros ?. unfold slice. rewrite length_take, length_drop. lia. Qed.

Lemma lookup_slice off n l i :
  (i < n)%nat → slice off n l !! i = l !! (off + i)%nat.
Proof. intros ?. unfold slice. by rewrite lookup_take_lt, lookup_drop by lia. Qed.

Lemma lookup_slice_ge off n l i :
  (n ≤ i)%nat → slice off n l !! i = None.
Proof. intros ?. unfold slice. by rewrite lookup_take_ge by lia. Qed.

Lemma slice_ext off n l1 l2 :
  (∀ i, (off ≤ i < off + n)%nat → l1 !! i = l2 !! i) →
  slice off n l1 = slice off n l2.
Proof.
  intros Heq. apply list_eq; intros i.
  destruct (decide (i < n)%nat).
  - rewrite !lookup_slice by done. apply Heq; lia.
  - by rewrite !lookup_slice_ge by lia.
Qed.

Lemma lookup_put off src l i :
  put_slice off src l !! i =
    if decide (off ≤ i < off + length src ∧ i < length l)%nat
    then src !! (i - off)%nat else l !! i.
Proof.
  case_decide as Hin; [apply list_lookup_inserts; lia|].
  destruct (decide (i < off)%nat); [by apply list_lookup_inserts_lt|].
  destruct (decide (i < length l)%nat); [apply list_lookup_inserts_ge; lia|].
  rewrite !lookup_ge_None_2; [done|lia|rewrite length_inserts; lia].
Qed.

Lemma slice_put off src l :
  (off + length src ≤ length l)%nat →
  slice off (length src) (put_slice off src l) = src.
Proof.
  intros ?. apply list_eq; intros i.
  destruct (decide (i < length src)%nat).
  - rewrite lookup_slice, lookup_put, decide_True by lia. f_equal; lia.
  - by rewrite lookup_slice_ge, lookup_ge_None_2 by lia.
Qed.

Lemma slice_put_ne off n off' src l :
  (off + n ≤ off' ∨ off' + length src ≤ off)%nat →
  slice off n (put_slice off' src l) = slice off n l.
Proof.
  intros ?. apply slice_ext; intros i ?. by rewrite lookup_put, decide_False by lia.
Qed.

Lemma lookup_total_put_ne `{!Inhabited A} i off' src l :
  (i < off' ∨ off' + length src ≤ i)%nat →
  put_slice off' src l !!! i = l !!! i.
Proof.
  intros ?. rewrite !list_lookup_total_alt, lookup_put, decide_False by lia. done.
Qed.

Lemma lookup_total_put `{!Inhabited A} off x l :
  (off < length l)%nat → put_slice off [x] l !!! off = x.
Proof.
  intros ?. rewrite list_lookup_total_alt, lookup_put, decide_True by (cbn; lia).
  by rewrite Nat.sub_diag.
Qed.

Lemma put_put off src src' l :
  length src = length src' →
  put_slice off src (put_slice off src' l) = put_slice off src l.
Proof.
  intros Hlen. apply list_eq; intros i. rewrite !lookup_put, length_inserts, Hlen.
  case_decide; [done|]. done.
Qed.

Lemma put_comm off off' src src' l :
  (off + length src ≤ off' ∨ off' + length src' ≤ off)%nat →
  put_slice off src (put_slice off' src' l) = put_slice off' src' (put_slice off src l).
Proof.
  intros ?. apply list_eq; intros i. rewrite !lookup_put, !length_inserts.
  repeat case_decide; try lia; done.
Qed.

Lemma slice_app_r off n (l1 l2 : list A) :
  (length l1 ≤ off)%nat → slice off n (l1 ++ l2) = slice (off - length l1) n l2.
Proof. intros ?. unfold slice. by rewrite drop_app_ge. Qed.

Lemma slice_app_l off n (l1 l2 : list A) :
  (off + n ≤ length l1)%nat → slice off n (l1 ++ l2) = slice off n l1.
Proof.
  intros ?. unfold slice. rewrite drop_app_le by lia.
  by rewrite take_app_le by (rewrite length_drop; lia).
Qed.

Lemma slice_slice o n off len l :
  (o + n ≤ len)%nat → slice o n (slice off len l) = slice (off + o) n l.
Proof.
  intros ?. apply list_eq. intros i. destruct (decide (i < n)%nat).
  - rewrite !lookup_slice by lia. f_equal. lia.
  - by rewrite !lookup_slice_ge by lia.
Qed.

Lemma Forall_slice (P : A → Prop) off n l : Forall P l → Forall P (slice off n l).
Proof. intros. by apply Forall_take, Forall_drop. Qed.

Lemma slice_all l : slice 0 (length l) l = l.
Proof. unfold slice. by rewrite drop_0, take_ge. Qed.

Lemma slice_cat off a b (l : list A) : slice off a l ++ slice (off + a) b l = slice off (a + b) l.
Proof. unfold slice. by rewrite <- drop_drop, take_take_drop. Qed.

Lemma slice_skip n (l1 l2 : list A) : n = length l2 → slice (length l1) n (l1 ++ l2) = l2.
Proof. intros ->. rewrite slice_app_r, Nat.sub_diag by done. apply slice_all. Qed.

(** Writing back what a slice already holds changes nothing. *)
Lemma put_slice_id off n l :
  (off + n ≤ length l)%nat → put_slice off (slice off n l) l = l.
Proof.
  intros ?. apply list_eq; intros i. rewrite lookup_put, length_slice by done.
  case_decide; [|done]. rewrite lookup_slice by lia. f_equal; lia.
Qed.
End slices.

Lemma length_put {A} off (src l : list A) : length (put_slice off src l) = length l.
Proof. apply length_inserts. Qed.

(** ** Lexicographic order *)

Lemma lex_compare_app a b s t :
  length a = length b →
  lex_compare (a ++ s) (b ++ t) =
    match lex_compare a b with Eq => lex_compare s t | c => c end.
Proof.
  revert b; induction a as [|x a IH]; intros [|y b] Hlen; cbn in *; try done.
  destruct (x ?= y); auto.
Qed.

Lemma lex_compare_refl a : lex_compare a a = Eq.
Proof. induction a as [|x a IH]; cbn; [done|]. by rewrite Z.compare_refl. Qed.

Lemma lex_compare_eq a b : lex_compare a b = Eq ↔ a = b.
Proof.
  split; [|intros ->; apply lex_compare_refl].
  revert b; induction a as [|x a IH]; intros [|y b]; cbn; try done.
  destruct (Z.compare_spec x y) as [->|?|?]; intros Hl; try done. f_equal; auto.
Qed.

Lemma lex_compare_antisym a b : lex_compare b a = CompOpp (lex_compare a b).
Proof.
  revert b; induction a as [|x a IH]; intros [|y b]; cbn; try done.
  rewrite (Z.compare_antisym x y). destruct (x ?= y); cbn; auto.
Qed.

Lemma lex_compare_lt_trans a b c :
  lex_compare a b = Lt → lex_compare b c = Lt → lex_compare a c = Lt.
Proof.
  revert b c; induction a as [|x a IH]; intros [|y b] [|z c]; cbn; try done.
  destruct (Z.compare_spec x y), (Z.compare_spec y z), (Z.compare_spec x z);
    subst; try lia; try done; eauto.
Qed.

Definition lex_le (a b : list Z) : Prop := lex_compare a b ≠ Gt.

#[global] Instance lex_le_dec : RelDecision lex_le.
Proof. intros a b. unfold lex_le. apply _. Defined.

#[global] Instance lex_le_total : Total lex_le.
Proof. intros a b. unfold lex_le. rewrite (lex_compare_antisym a b). destruct (lex_compare a b); cbn; auto. Qed.

#[global] Instance lex_le_po : PartialOrder lex_le.
Proof.
  split; [split|].
  - intros a. unfold lex_le. by rewrite lex_compare_refl.
  - intros a b c. unfold lex_le. intros Hab Hbc Hac.
    destruct (lex_compare a b) eqn:E1; [apply lex_compare_eq in E1; by subst| |done].
    destruct (lex_compare b c) eqn:E2; [apply lex_compare_eq in E2; subst; congruence| |done].
    pose proof (lex_compare_lt_trans _ _ _ E1 E2). congruence.
  - intros a b. unfold lex_le. rewrite (lex_compare_antisym a b). intros H1 H2.
    apply lex_compare_eq. destruct (lex_compare a b); [done|by destruct H2|by destruct H1].
Qed.
