(* ===== verification/Text.v ===== *)
(** Rust's [str]: a sequence of Unicode scalar values with a UTF-8 length,
    and the parsing and formatting the program uses on it.

    A [str] is its list of scalar values.  [str::len] and byte offsets are
    those of the UTF-8 encoding ([as_bytes]); the order of the encodings is
    the order of the scalar values, so [lex_compare] is [Ord for str].

    - [lit] reads an ASCII literal of the source;
    - [str_slice] is [&s[i..j]], [None] where Rust panics because an offset
      is out of range or not on a character boundary;
    - [from_str_radix] is [uN::from_str_radix] (and [parse] at radix 10),
      which accepts a leading ['+'] and any number of leading zeros. *)

From S2P Require Import Prelude.

Abbreviation str := (list Z) (only parsing).

Definition lit (s : string) : str :=
  (λ a, Z.of_N (Ascii.N_of_ascii a)) <$> String.list_ascii_of_string s.

(** ** UTF-8 *)

Definition utf8_char (c : Z) : list Z :=
  if c <? 0x80 then [c]
  else if c <? 0x800 then [0xC0 + c / 64; 0x80 + c mod 64]
  else if c <? 0x10000 then
    [0xE0 + c / 4096; 0x80 + (c / 64) mod 64; 0x80 + c mod 64]
  else
    [0xF0 + c / 262144; 0x80 + (c / 4096) mod 64; 0x80 + (c / 64) mod 64;
     0x80 + c mod 64].

(** [str::as_bytes] *)
Definition as_bytes (s : str) : list Z := s ≫= utf8_char.

(** [str::len] *)
Definition str_len (s : str) : nat := length (as_bytes s).

(** A Unicode scalar value. *)
Definition is_scalar (c : Z) : bool :=
  ((0 <=? c) && (c <? 0xD800)) || ((0xE000 <=? c) && (c <? 0x110000)).

(** A continuation byte. *)
Definition is_cont (b : Z) : bool := (0x80 <=? b) && (b <=? 0xBF).

(** [str::from_utf8]: shortest forms of scalar values only. *)
Fixpoint from_utf8 (b : list Z) : option str :=
  match b with
  | [] => Some []
  | x :: b =>
      if x <? 0x80 then s ← from_utf8 b; Some (x :: s)
      else if x <? 0xE0 then
        match b with
        | y :: b =>
            let c := (x - 0xC0) * 64 + (y - 0x80) in
            if is_cont y && (0x80 <=? c) then s ← from_utf8 b; Some (c :: s) else None
        | _ => None
        end
      else if x <? 0xF0 then
        match b with
        | y :: z :: b =>
            let c := (x - 0xE0) * 4096 + (y - 0x80) * 64 + (z - 0x80) in
            if is_cont y && is_cont z && (0x800 <=? c) && is_scalar c
            then s ← from_utf8 b; Some (c :: s) else None
        | _ => None
        end
      else
        match b with
        | y :: z :: w :: b =>
            let c := (x - 0xF0) * 262144 + (y - 0x80) * 4096 + (z - 0x80) * 64 + (w - 0x80) in
            if is_cont y && is_cont z && is_cont w && (0x10000 <=? c) && is_scalar c
            then s ← from_utf8 b; Some (c :: s) else None
        | _ => None
        end
  end.

(** Split at a byte offset; [None] off a character boundary. *)
Fixpoint split_at_byte (n : nat) (s : str) : option (str * str) :=
  match n, s with
  | O, _ => Some ([], s)
  | S _, [] => None
  | S _, c :: s' =>
      if (length (utf8_char c) <=? n)%nat then
        '(a, b) ← split_at_byte (n - length (utf8_char c)) s'; Some (c :: a, b)
      else None
  end.

(** [&s[i..j]] *)
Definition str_slice (i j : nat) (s : str) : option str :=
  '(_, b) ← split_at_byte i s;
  '(c, _) ← split_at_byte (j - i) b;
  Some c.

(** ** Character classes *)

(** [char::is_whitespace]: the Unicode property [White_Space]. *)
Definition is_whitespace (c : Z) : bool :=
  ((9 <=? c) && (c <=? 13)) || (c =? 0x20) || (c =? 0x85) || (c =? 0xA0)
  || (c =? 0x1680) || ((0x2000 <=? c) && (c <=? 0x200A)) || (c =? 0x2028)
  || (c =? 0x2029) || (c =? 0x202F) || (c =? 0x205F) || (c =? 0x3000).

(** [char::is_control]: the general category [Cc]. *)
Definition is_control (c : Z) : bool :=
  ((0 <=? c) && (c <=? 0x1F)) || ((0x7F <=? c) && (c <=? 0x9F)).

(** [u8::to_ascii_uppercase] *)
Definition to_ascii_uppercase (c : Z) : Z :=
  if (97 <=? c) && (c <=? 122) then c - 32 else c.

(** ** Substrings *)

Definition starts_with (p s : str) : bool := bool_decide (take (length p) s = p).

Definition ends_with (p s : str) : bool :=
  (length p <=? length s)%nat && bool_decide (drop (length s - length p) s = p).

Definition strip_suffix (p s : str) : option str :=
  if ends_with p s then Some (take (length s - length p) s) else None.

(** [str::split_once(c)]: around the first [c]. *)
Fixpoint split_once (c : Z) (s : str) : option (str * str) :=
  match s with
  | [] => None
  | x :: s => if x =? c then Some ([], s)
              else '(a, b) ← split_once c s; Some (x :: a, b)
  end.

Fixpoint trim_start (s : str) : str :=
  match s with
  | c :: s' => if is_whitespace c then trim_start s' else s
  | [] => []
  end.

(** [str::trim] *)
Definition trim (s : str) : str := rev (trim_start (rev (trim_start s))).

(** ** Numbers *)

Definition digit_val (radix c : Z) : option Z :=
  let v := if (48 <=? c) && (c <=? 57) then c - 48
           else if (97 <=? c) && (c <=? 122) then c - 87
           else if (65 <=? c) && (c <=? 90) then c - 55
           else radix in
  if v <? radix then Some v else None.

Fixpoint radix_digits (radix max acc : Z) (s : str) : option Z :=
  match s with
  | [] => Some acc
  | c :: s =>
      d ← digit_val radix c;
      if acc * radix + d <=? max then radix_digits radix max (acc * radix + d) s
      else None
  end.

Definition from_str_radix (radix max : Z) (s : str) : option Z :=
  match s with
  | [] => None
  | 43 :: [] => None
  | 43 :: s' => radix_digits radix max 0 s'
  | _ => radix_digits radix max 0 s
  end.

(** [{}] of an unsigned integer: decimal without leading zeros.  Forty
    digits are more than any [u128] has. *)
Fixpoint dec_digits (fuel : nat) (n : Z) : list Z :=
  match fuel with
  | O => []
  | S fuel => if n <? 10 then [n] else dec_digits fuel (n / 10) ++ [n mod 10]
  end.

Definition fmt_dec (n : Z) : str := (λ d, 48 + d) <$> dec_digits 40 n.

Definition hex_char (d : Z) : Z := if d <? 10 then 48 + d else 87 + d.

(** [{:0wx}] of an integer of at most [w] hex digits. *)
Definition fmt_hex (w : nat) (n : Z) : str := hex_char <$> to_digits 16 w n.

(** [text.rs]: [counted] *)
Definition counted (n : Z) (one many : str) : str :=
  if n =? 1 then lit "1 " ++ one else fmt_dec n ++ lit " " ++ many.

(** ** Lemmas *)

Lemma from_utf8_char c s :
  is_scalar c = true → from_utf8 (utf8_char c ++ s) = (t ← from_utf8 s; Some (c :: t)).
Proof.
  unfold is_scalar. intros Hc. unfold utf8_char.
  destruct (Z.ltb_spec c 0x80) as [H1|H1].
  { cbn. by destruct (Z.ltb_spec c 128); [|lia]. }
  assert (0 ≤ c mod 64 < 64) as M1 by (apply Z.mod_pos_bound; lia).
  assert (0 ≤ (c / 64) mod 64 < 64) as M2 by (apply Z.mod_pos_bound; lia).
  assert (0 ≤ (c / 4096) mod 64 < 64) as M3 by (apply Z.mod_pos_bound; lia).
  pose proof (Z.div_mod c 64 ltac:(lia)) as H0. pose proof (Z.div_mod (c / 64) 64 ltac:(lia)) as H64.
  pose proof (Z.div_mod (c / 4096) 64 ltac:(lia)) as H4096.
  rewrite Z.div_div in H64 by lia. rewrite Z.div_div in H4096 by lia.
  change (64 * 64) with 4096 in H64. change (4096 * 64) with 262144 in H4096.
  destruct (Z.ltb_spec c 0x800) as [H2|H2]; [|destruct (Z.ltb_spec c 0x10000) as [H3|H3]];
    cbn [app from_utf8].
  - destruct (Z.ltb_spec (192 + c / 64) 128); [lia|]. destruct (Z.ltb_spec (192 + c / 64) 224); [|lia].
    replace ((192 + c / 64 - 192) * 64 + (128 + c mod 64 - 128)) with c by lia.
    unfold is_cont. by replace (_ && _) with true by lia.
  - destruct (Z.ltb_spec (224 + c / 4096) 128); [lia|]. destruct (Z.ltb_spec (224 + c / 4096) 224); [lia|].
    destruct (Z.ltb_spec (224 + c / 4096) 240); [|lia].
    replace ((224 + c / 4096 - 224) * 4096 + (128 + (c / 64) mod 64 - 128) * 64 + (128 + c mod 64 - 128))
      with c by lia.
    unfold is_cont, is_scalar. by replace (_ && _) with true by lia.
  - destruct (Z.ltb_spec (240 + c / 262144) 128); [lia|]. destruct (Z.ltb_spec (240 + c / 262144) 224); [lia|].
    destruct (Z.ltb_spec (240 + c / 262144) 240); [lia|].
    replace ((240 + c / 262144 - 240) * 262144 + (128 + (c / 4096) mod 64 - 128) * 4096
      + (128 + (c / 64) mod 64 - 128) * 64 + (128 + c mod 64 - 128)) with c by lia.
    unfold is_cont, is_scalar. by replace (_ && _) with true by lia.
Qed.

(** The UTF-8 bytes of a string decode to it. *)
Lemma from_utf8_as_bytes s : forallb is_scalar s = true → from_utf8 (as_bytes s) = Some s.
Proof.
  unfold as_bytes. induction s as [|c s IH]; [done|]. cbn [forallb]. intros [Hc Hs]%andb_true_iff.
  rewrite bind_cons, from_utf8_char by done. by rewrite IH.
Qed.

Lemma ends_with_true p s : ends_with p s = true ↔ ∃ a, s = a ++ p.
Proof.
  unfold ends_with. rewrite andb_true_iff, Nat.leb_le, bool_decide_eq_true. split.
  - intros [_ Hd]. exists (take (length s - length p) s).
    rewrite <- Hd at 2. by rewrite take_drop.
  - intros [a ->]. rewrite length_app. split; [lia|].
    rewrite drop_app_length'; [done|lia].
Qed.

Lemma strip_suffix_Some p s a : strip_suffix p s = Some a ↔ s = a ++ p.
Proof.
  unfold strip_suffix. destruct (ends_with p s) eqn:He.
  - apply ends_with_true in He as [b ->].
    rewrite take_app_length' by (rewrite length_app; lia).
    split; [by intros [= ->]|by intros ->%app_inv_tail].
  - split; [done|]. intros ->.
    assert (ends_with p (a ++ p) = true) as Ht by (apply ends_with_true; eauto). congruence.
Qed.

Lemma split_once_Some c s a b :
  split_once c s = Some (a, b) ↔ s = a ++ c :: b ∧ c ∉ a.
Proof.
  revert a b; induction s as [|x s IH]; intros a b; cbn.
  { split; [done|]. intros [Heq _]. by destruct a. }
  destruct (Z.eqb_spec x c) as [->|Hne].
  - split.
    + intros [= <- <-]. split; [done|set_solver].
    + intros [Heq Hin]. destruct a as [|y a]; cbn in Heq; [by simplify_eq|].
      injection Heq as -> ->. set_solver.
  - destruct (split_once c s) as [[a' b']|] eqn:Hs; cbn.
    + destruct (IH a' b') as [IH1 _]. destruct (IH1 eq_refl) as [-> Hc].
      split.
      * intros [= <- <-]. split; [done|set_solver].
      * intros [Heq Hin]. destruct a as [|y a]; cbn in Heq; simplify_eq.
        enough (Some (a', b') = Some (a, b)) by congruence.
        apply IH. split; [done|set_solver].
    + split; [done|]. intros [Heq Hin]. destruct a as [|y a]; cbn in Heq; simplify_eq.
      enough (None = Some (a, b)) by congruence.
      apply IH. split; [done|set_solver].
Qed.

Lemma ends_with_app p s : ends_with p (s ++ p) = true.
Proof. apply ends_with_true; eauto. Qed.

Lemma split_once_app c a b : c ∉ a → split_once c (a ++ c :: b) = Some (a, b).
Proof. intros. by apply split_once_Some. Qed.

Lemma starts_with_true p s : starts_with p s = true ↔ ∃ t, s = p ++ t.
Proof.
  unfold starts_with. rewrite bool_decide_eq_true. split.
  - intros Hp. exists (drop (length p) s). rewrite <- Hp at 1. by rewrite take_drop.
  - intros [t ->]. by rewrite take_app_length.
Qed.

Section radix.
Context (radix : Z) (Hradix : 1 < radix).

Lemma digit_val_range c d : digit_val radix c = Some d → 0 ≤ d < radix.
Proof.
  unfold digit_val. intros H.
  repeat match type of H with context [if ?b then _ else _] => destruct b eqn:? end;
    simplify_eq; lia.
Qed.

(** Reading characters that spell digits computes the number they denote. *)
Lemma radix_digits_spec (f : Z → Z) max ds acc :
  (∀ d, 0 ≤ d < radix → digit_val radix (f d) = Some d) →
  Forall (λ d, 0 ≤ d < radix) ds → 0 ≤ acc →
  acc * radix ^ Z.of_nat (length ds) + of_digits radix ds ≤ max →
  radix_digits radix max acc (f <$> ds) =
    Some (acc * radix ^ Z.of_nat (length ds) + of_digits radix ds).
Proof.
  intros Hf. revert acc. induction ds as [|d ds IH]; intros acc Hds Hacc Hmax.
  { cbn. f_equal; lia. }
  apply Forall_cons in Hds as [Hd Hds].
  rewrite of_digits_cons in * by done. cbn [length] in *.
  rewrite Nat2Z.inj_succ, Z.pow_succ_r in * by lia.
  pose proof (of_digits_range radix Hradix ds Hds) as Hr.
  pose proof (Z.pow_pos_nonneg radix (Z.of_nat (length ds))) as Hp.
  cbn [fmap list_fmap radix_digits]. rewrite Hf by done. cbn [mbind option_bind].
  destruct (Z.leb_spec (acc * radix + d) max); [|nia].
  rewrite IH; [f_equal; ring|done|nia|].
  etrans; [|apply Hmax]. apply Z.eq_le_incl. ring.
Qed.

Lemma radix_digits_range max acc s n :
  0 ≤ acc ≤ max → radix_digits radix max acc s = Some n → 0 ≤ n ≤ max.
Proof.
  revert acc; induction s as [|c s IH]; intros acc Hacc; cbn; [naive_solver|].
  destruct (digit_val radix c) as [d|] eqn:Hd; cbn; [|done].
  apply digit_val_range in Hd.
  destruct (Z.leb_spec (acc * radix + d) max); [|done].
  apply IH. nia.
Qed.

Lemma from_str_radix_range max s n :
  0 ≤ max → from_str_radix radix max s = Some n → 0 ≤ n ≤ max.
Proof.
  intros Hmax H.
  assert (∃ s', radix_digits radix max 0 s' = Some n) as [s' Hs'].
  { unfold from_str_radix in H. repeat case_match; simplify_eq; eauto. }
  eapply radix_digits_range, Hs'. lia.
Qed.

(** A text whose first character is a digit has no sign to strip. *)
Lemma from_str_radix_nosign max s c :
  digit_val radix c ≠ None →
  from_str_radix radix max (c :: s) = radix_digits radix max 0 (c :: s).
Proof.
  intros Hc. unfold from_str_radix.
  destruct (decide (c = 43)) as [->|Hne]; [|by repeat case_match; simplify_eq].
  exfalso. apply Hc. unfold digit_val. cbn. by rewrite Z.ltb_irrefl.
Qed.
End radix.

Lemma digit_val_hex_char d : 0 ≤ d < 16 → digit_val 16 (hex_char d) = Some d.
Proof.
  intros Hd. unfold hex_char, digit_val.
  destruct (Z.ltb_spec d 10).
  - replace ((48 <=? 48 + d) && (48 + d <=? 57)) with true by lia.
    replace (48 + d - 48) with d by lia. by replace (d <? 16) with true by lia.
  - replace ((48 <=? 87 + d) && (87 + d <=? 57)) with false by lia.
    replace ((97 <=? 87 + d) && (87 + d <=? 122)) with true by lia.
    replace (87 + d - 87) with d by lia. by replace (d <? 16) with true by lia.
Qed.

Lemma length_fmt_hex w n : length (fmt_hex w n) = w.
Proof. unfold fmt_hex. by rewrite length_fmap, length_to_digits. Qed.

Lemma fmt_hex_ascii w n : Forall (λ c, 0 ≤ c < 0x80) (fmt_hex w n).
Proof.
  unfold fmt_hex. apply Forall_fmap. eapply Forall_impl; [by apply (to_digits_range 16)|].
  intros d Hd. cbn beta in *. unfold compose, hex_char. destruct (Z.ltb_spec d 10); lia.
Qed.

(** [{:0wx}] is read back by [from_str_radix(_, 16)]. *)
Lemma from_str_radix_fmt_hex w n max :
  (0 < w)%nat → 0 ≤ n < 16 ^ Z.of_nat w → n ≤ max →
  from_str_radix 16 max (fmt_hex w n) = Some n.
Proof.
  intros Hw Hn Hmax. unfold fmt_hex.
  pose proof (length_to_digits 16 w n) as Hlen.
  pose proof (to_digits_range 16 ltac:(lia) w n) as Hr.
  pose proof (of_to_digits 16 ltac:(lia) w n) as Hof. rewrite Z.mod_small in Hof by done.
  assert (radix_digits 16 max 0 (hex_char <$> to_digits 16 w n) = Some n) as Hgo.
  { rewrite (radix_digits_spec 16 ltac:(lia) hex_char); rewrite ?Z.mul_0_l, ?Z.add_0_l;
      [by rewrite Hof|apply digit_val_hex_char|done|lia|lia]. }
  destruct (to_digits 16 w n) as [|d ds] eqn:Hds; [cbn in Hlen; lia|].
  apply Forall_cons in Hr as [Hd _].
  cbn [fmap list_fmap] in *. rewrite from_str_radix_nosign; [done|].
  by rewrite digit_val_hex_char.
Qed.

Lemma dec_digits_spec fuel n :
  0 ≤ n < 10 ^ Z.of_nat fuel →
  Forall (λ d, 0 ≤ d < 10) (dec_digits fuel n) ∧ of_digits 10 (dec_digits fuel n) = n
  ∧ (fuel ≠ O → dec_digits fuel n ≠ []).
Proof.
  revert n; induction fuel as [|fuel IH]; intros n Hn; cbn [dec_digits].
  { cbn in *. repeat split; [constructor|lia|done]. }
  rewrite Nat2Z.inj_succ, Z.pow_succ_r in Hn by lia.
  destruct (Z.ltb_spec n 10).
  { repeat split; [repeat constructor; lia|done]. }
  destruct (IH (n / 10)) as (Hr & Hof & _).
  { split; [apply Z.div_pos; lia|apply Z.div_lt_upper_bound; lia]. }
  rewrite of_digits_snoc, Hof. repeat split.
  - apply Forall_app; split; [done|]. repeat constructor; apply Z.mod_pos_bound; lia.
  - pose proof (Z.div_mod n 10). lia.
  - intros _. by destruct (dec_digits fuel (n / 10)).
Qed.

Lemma digit_val_dec d : 0 ≤ d < 10 → digit_val 10 (48 + d) = Some d.
Proof.
  intros Hd. unfold digit_val.
  replace ((48 <=? 48 + d) && (48 + d <=? 57)) with true by lia.
  replace (48 + d - 48) with d by lia. by replace (d <? 10) with true by lia.
Qed.

(** [{}] is read back by [parse]. *)
Lemma from_str_radix_fmt_dec n max :
  0 ≤ n < 2 ^ 128 → n ≤ max → from_str_radix 10 max (fmt_dec n) = Some n.
Proof.
  intros Hn Hmax. unfold fmt_dec.
  destruct (dec_digits_spec 40 n) as (Hr & Hof & Hne); [lia|].
  specialize (Hne ltac:(done)). revert Hr Hof Hne.
  generalize (dec_digits 40 n); intros ds Hr Hof Hne.
  assert (radix_digits 10 max 0 ((λ d, 48 + d) <$> ds) = Some n) as Hgo.
  { rewrite (radix_digits_spec 10 ltac:(lia)); rewrite ?Z.mul_0_l, ?Z.add_0_l;
      [by rewrite Hof|apply digit_val_dec|done|lia|lia]. }
  destruct ds as [|d ds]; [done|]. apply Forall_cons in Hr as [Hd _].
  cbn [fmap list_fmap] in *. rewrite from_str_radix_nosign; [done|].
  by rewrite digit_val_dec.
Qed.
