(* ===== verification/Checksum.v ===== *)
(** [checksum.rs]: the 64-bit block checksum and its hex form.

    The hash function XXH3-64 is a library's; it is the interface [Xxh3].
    [poly_hash] is a concrete function of that type, for evaluation. *)

From S2P Require Import Prelude Text.

Abbreviation BlockChecksum := Z (only parsing).

Class Xxh3 := {
  xxh3_64 : list Z → Z;
  xxh3_u64 : ∀ b, is_u64 (xxh3_64 b);
}.

Definition checksum_block `{Xxh3} (block : list Z) : BlockChecksum := xxh3_64 block.

Definition block_matches_checksum `{Xxh3} (block : list Z) (stored : BlockChecksum) : bool :=
  checksum_block block =? stored.

Definition checksum_to_hex (c : BlockChecksum) : str := fmt_hex 16 c.

Definition checksum_from_hex (hex : str) : option BlockChecksum :=
  if negb (str_len hex =? 16)%nat then None
  else from_str_radix 16 (2 ^ 64 - 1) hex.

(** A concrete hash: the sum of the bytes and their number, cheap to evaluate. *)
Definition poly_hash (b : list Z) : Z :=
  wrap64 (fold_left Z.add b (Z.of_nat (length b))).

Lemma poly_hash_u64 b : is_u64 (poly_hash b).
Proof. apply Z.mod_pos_bound. lia. Qed.

Definition poly_xxh3 : Xxh3 := {| xxh3_64 := poly_hash; xxh3_u64 := poly_hash_u64 |}.

(** ** Lemmas *)

Lemma checksum_block_u64 `{Xxh3} b : is_u64 (checksum_block b).
Proof. apply xxh3_u64. Qed.

Lemma str_len_ascii s : Forall (λ c, 0 ≤ c < 0x80) s → str_len s = length s.
Proof.
  unfold str_len, as_bytes. induction 1 as [|c s Hc _ IH]; [done|].
  cbn. rewrite length_app. unfold utf8_char at 1.
  replace (c <? 128) with true by lia. cbn. by rewrite IH.
Qed.

Lemma checksum_hex_ok c : is_u64 c → checksum_from_hex (checksum_to_hex c) = Some c.
Proof.
  intros Hc. unfold checksum_from_hex, checksum_to_hex.
  rewrite str_len_ascii, length_fmt_hex by apply fmt_hex_ascii. cbn [negb Nat.eqb].
  apply from_str_radix_fmt_hex; [lia|exact Hc|unfold is_uint in Hc; lia].
Qed.
