(* ===== verification/KeyHash.v ===== *)
(** [keyhash.rs]: the SHA-256 key hash and its directory components.

    SHA-256 is a library's; it is the interface [Sha256].  A [KeyHash] is its
    32 bytes.  [KeyHash::from_hex] slices its argument by byte offsets, which
    panics off a character boundary, so its model returns a [res]. *)

From S2P Require Import Prelude Text Checksum.

Abbreviation KeyHash := (list Z) (only parsing).

Class Sha256 := {
  sha256 : list Z → list Z;
  sha256_ok : ∀ b, length (sha256 b) = 32%nat ∧ bytes_ok (sha256 b);
}.

Definition key_hash_ok (h : KeyHash) : Prop := length h = 32%nat ∧ bytes_ok h.

Definition hash_key `{Sha256} (key : list Z) : KeyHash := sha256 key.

Definition hash_to_hex (h : KeyHash) : str := h ≫= fmt_hex 2.

(** The loop [for i in 0..32]; [None] is the early return of [?]. *)
Fixpoint hex_pairs (hex : str) (ixs : list nat) (bytes : list Z)
    : res Empty_set (option KeyHash) :=
  match ixs with
  | [] => Ok (Some bytes)
  | i :: ixs =>
      pair ← expect (str_slice (2 * i) (2 * i + 2) hex);
      match from_str_radix 16 255 pair with
      | None => Ok None
      | Some b => hex_pairs hex ixs (bytes ++ [b])
      end
  end.

Definition hash_from_hex (hex : str) : res Empty_set (option KeyHash) :=
  if negb (str_len hex =? 64)%nat then Ok None
  else hex_pairs hex (seq 0 32) [].

(** [[hex[0..2], hex[2..4], hex]]; the hex text is ASCII, so byte offsets are
    character offsets ([str_slice_ascii]). *)
Definition directory_components (h : KeyHash) : str * str * str :=
  let hex := hash_to_hex h in (slice 0 2 hex, slice 2 2 hex, hex).

(** A concrete hash of the right type: 32 bytes of the polynomial hash. *)
Definition poly_sha (b : list Z) : list Z :=
  replicate 24 0 ++ be_bytes 8 (poly_hash b).

Lemma poly_sha_ok b : length (poly_sha b) = 32%nat ∧ bytes_ok (poly_sha b).
Proof.
  unfold poly_sha. rewrite length_app, length_replicate, length_be_bytes. split; [done|].
  apply Forall_app; split; [apply Forall_replicate; unfold is_uint; lia|apply be_bytes_ok].
Qed.

Definition poly_sha256 : Sha256 := {| sha256 := poly_sha; sha256_ok := poly_sha_ok |}.

(** ** Lemmas *)

Lemma hash_key_ok `{Sha256} key : key_hash_ok (hash_key key).
Proof. apply sha256_ok. Qed.

Lemma split_at_byte_ascii n s :
  Forall (λ c, 0 ≤ c < 0x80) s → (n ≤ length s)%nat →
  split_at_byte n s = Some (take n s, drop n s).
Proof.
  revert n; induction s as [|c s IH]; intros [|n] Hs Hn; cbn in *; [done|lia|done|].
  apply Forall_cons in Hs as [Hc Hs]. unfold utf8_char.
  replace (c <? 128) with true by lia. cbn. rewrite Nat.sub_0_r, IH by (done || lia). done.
Qed.

Lemma str_slice_ascii i j s :
  Forall (λ c, 0 ≤ c < 0x80) s → (i ≤ j ≤ length s)%nat →
  str_slice i j s = Some (slice i (j - i) s).
Proof.
  intros Hs Hij. unfold str_slice. rewrite split_at_byte_ascii by (done || lia). cbn.
  rewrite split_at_byte_ascii; [done|by apply Forall_drop|rewrite length_drop; lia].
Qed.

Lemma hash_to_hex_ascii h : Forall (λ c, 0 ≤ c < 0x80) (hash_to_hex h).
Proof.
  unfold hash_to_hex. induction h as [|b h IH]; [constructor|].
  apply Forall_app; split; [apply fmt_hex_ascii|done].
Qed.

Lemma length_hash_to_hex h : length (hash_to_hex h) = (2 * length h)%nat.
Proof.
  unfold hash_to_hex. induction h as [|b h IH]; [done|].
  rewrite bind_cons, length_app, length_fmt_hex, IH. cbn [length]. lia.
Qed.

Lemma hex_pairs_ascii hex ixs bytes :
  Forall (λ c, 0 ≤ c < 0x80) hex → Forall (λ i, (2 * i + 2 ≤ length hex)%nat) ixs →
  returns (hex_pairs hex ixs bytes).
Proof.
  intros Hh. revert bytes; induction ixs as [|i ixs IH]; intros bytes His; cbn [hex_pairs]; [done|].
  apply Forall_cons in His as [Hi His].
  rewrite str_slice_ascii by (done || lia). cbn [expect mbind res_bind].
  destruct (from_str_radix 16 255 _); [by apply IH|done].
Qed.

(** The loop reads back the hex of [h] pair by pair. *)
Lemma hex_pairs_roundtrip h1 h2 :
  bytes_ok (h1 ++ h2) →
  hex_pairs (hash_to_hex (h1 ++ h2)) (seq (length h1) (length h2)) h1 = Ok (Some (h1 ++ h2)).
Proof.
  revert h1; induction h2 as [|b h2 IH]; intros h1 Hok; [by rewrite app_nil_r|].
  cbn [length seq hex_pairs].
  rewrite str_slice_ascii; [|apply hash_to_hex_ascii|].
  2: { rewrite length_hash_to_hex, length_app. cbn [length]. lia. }
  cbn [expect mbind res_bind].
  replace (slice (2 * length h1) (2 * length h1 + 2 - 2 * length h1) (hash_to_hex (h1 ++ b :: h2)))
    with (fmt_hex 2 b).
  2: { unfold hash_to_hex. rewrite bind_app, bind_cons. unfold slice.
       rewrite drop_app_length' by exact (eq_sym (length_hash_to_hex h1)).
       rewrite take_app_length' by (rewrite length_fmt_hex; lia). done. }
  apply Forall_app in Hok as [Hok1 Hok2]. pose proof Hok2 as Hok2'.
  apply Forall_cons in Hok2' as [Hb _]. unfold is_uint in Hb.
  rewrite from_str_radix_fmt_hex by (cbn; lia).
  replace (h1 ++ b :: h2) with ((h1 ++ [b]) ++ h2) by (by rewrite <- app_assoc).
  replace (S (length h1)) with (length (h1 ++ [b])) by (rewrite length_app; cbn; lia).
  apply IH. rewrite <- app_assoc. by apply Forall_app.
Qed.

Lemma hash_hex_ok h : key_hash_ok h → hash_from_hex (hash_to_hex h) = Ok (Some h).
Proof.
  intros [Hlen Hok]. unfold hash_from_hex.
  rewrite str_len_ascii by apply hash_to_hex_ascii.
  rewrite length_hash_to_hex, Hlen. cbn [Nat.mul Nat.add negb Nat.eqb].
  pose proof (hex_pairs_roundtrip [] h Hok) as H. cbn [app length] in H. by rewrite Hlen in H.
Qed.

(** ** Properties *)

(** The hex forms stored in records and used as directory names lose
    nothing: every 64-bit checksum and every key hash parses back from its
    text. *)
Theorem hex_roundtrip (c : BlockChecksum) (h : KeyHash) :
  is_u64 c → key_hash_ok h →
  checksum_from_hex (checksum_to_hex c) = Some c ∧ hash_from_hex (hash_to_hex h) = Ok (Some h).
Proof. intros Hc Hh. split; [by apply checksum_hex_ok|by apply hash_hex_ok]. Qed.

Lemma hex_roundtrip_witness :
  checksum_from_hex (checksum_to_hex 255) = Some 255
  ∧ hash_from_hex (hash_to_hex (replicate 32 171)) = Ok (Some (replicate 32 171)).
Proof.
  apply (hex_roundtrip 255 (replicate 32 171)); [split; lia|].
  split; [reflexivity|apply Forall_replicate; split; lia].
Defined.

(** Parsing an ASCII text never panics, but a 64-byte text with a
    character across an even byte offset makes [KeyHash::from_hex] slice off
    a character boundary and panic instead of returning [None]. *)
Theorem key_hash_from_hex_panics :
  (∀ s, Forall (λ c, 0 ≤ c < 0x80) s → returns (hash_from_hex s))
  ∧ ∃ s, str_len s = 64%nat ∧ hash_from_hex s = Panic.
Proof.
  split.
  - intros s Hs. unfold hash_from_hex. destruct (str_len s =? 64)%nat eqn:Hl; [|done].
    apply Nat.eqb_eq in Hl. rewrite str_len_ascii in Hl by done. cbn [negb].
    apply hex_pairs_ascii; [done|]. apply Forall_seq. intros. lia.
  - exists (97 :: 233 :: replicate 61 97). by vm_compute.
Qed.

(** The order of the directory names is the order of the hashes (15.2.2). *)
Lemma hash_to_hex_compare h1 h2 :
  length h1 = length h2 → bytes_ok h1 → bytes_ok h2 →
  lex_compare (hash_to_hex h1) (hash_to_hex h2) = lex_compare h1 h2.
Proof.
  revert h2; induction h1 as [|a h1 IH]; intros [|b h2] Hlen H1 H2; cbn in Hlen; try done.
  apply Forall_cons in H1 as [Ha H1]. apply Forall_cons in H2 as [Hb H2].
  change (hash_to_hex (a :: h1)) with (fmt_hex 2 a ++ hash_to_hex h1).
  change (hash_to_hex (b :: h2)) with (fmt_hex 2 b ++ hash_to_hex h2).
  rewrite lex_compare_app by (by rewrite !length_fmt_hex).
  cbn [lex_compare]. rewrite (IH h2) by (done || lia).
  replace (lex_compare (fmt_hex 2 a) (fmt_hex 2 b)) with (a ?= b); [done|].
  unfold fmt_hex. rewrite (lex_compare_map (λ d, 0 ≤ d < 16)).
  - rewrite (lex_compare_digits 16) by (done || (by rewrite !length_to_digits) || (by apply to_digits_range)).
    rewrite !of_to_digits by lia. unfold is_uint in *. by rewrite !Z.mod_small by (cbn; lia).
  - intros x y Hx Hy. cbn beta in *. unfold hex_char.
    destruct (Z.ltb_spec x 10), (Z.ltb_spec y 10); destruct (Z.compare_spec x y);
      subst; first [apply Z.compare_refl|apply Z.compare_lt_iff; lia|apply Z.compare_gt_iff; lia|lia].
  - by apply to_digits_range.
  - by apply to_digits_range.
Qed.
