(* ===== verification/VersionId.v ===== *)
(** [version.rs] and [ulid.rs]: 128-bit version identifiers, their Crockford
    base-32 text form, and the generator that makes them.

    A [VersionId] is its 16 bytes, most significant first.  The generator's
    mutex-protected state is the pair [(ms, random)] of the last identifier;
    the clock reading and the ten random bytes are arguments of a step. *)

From S2P Require Import Prelude Text Checksum.

Abbreviation VersionId := (list Z) (only parsing).

Definition version_ok (v : VersionId) : Prop := length v = 16%nat ∧ bytes_ok v.

Definition ALPHABET : str := lit "0123456789ABCDEFGHJKMNPQRSTVWXYZ".
Definition TEXT_LEN : nat := 26.

Definition decode_char (c : Z) : option Z :=
  let upper := to_ascii_uppercase c in
  (λ p, Z.of_nat p.1) <$> list_find (λ letter, letter = upper) ALPHABET.

Definition to_text (v : VersionId) : str :=
  let value := of_be v in
  (λ i : nat,
    let shift := 5 * (Z.of_nat TEXT_LEN - 1 - Z.of_nat i) in
    let digit := Z.land (Z.shiftr value shift) 0x1F in
    ALPHABET !!! Z.to_nat digit) <$> seq 0 TEXT_LEN.

Fixpoint decode_chars (value : Z) (bytes : list Z) : option Z :=
  match bytes with
  | [] => Some value
  | c :: bytes =>
      d ← decode_char c;
      decode_chars (Z.lor (wrap128 (Z.shiftl value 5)) d) bytes
  end.

Definition from_text (text : str) : option VersionId :=
  let bytes := as_bytes text in
  if negb (length bytes =? TEXT_LEN)%nat then None
  else if negb ((48 <=? bytes !!! 0%nat) && (bytes !!! 0%nat <=? 55)) then None
  else value ← decode_chars 0 bytes; Some (be_bytes 16 value).

(** ** The generator *)

Record VersionGenerator := mkGenerator { last_ms : Z; last_random : Z }.

Definition VersionGenerator_new : VersionGenerator := mkGenerator 0 0.

(** [clock] is the milliseconds since the epoch, [None] when the system
    clock is before it; [bytes] are the ten bytes [rand::random] would give. *)
Definition VersionGenerator_next (g : VersionGenerator) (clock : option Z) (bytes : list Z)
    : VersionId * VersionGenerator :=
  let now_ms := Z.land (default 0 (wrap64 <$> clock)) 0x0000FFFFFFFFFFFF in
  let random :=
    if now_ms >? last_ms g
    then fold_left (λ value b, Z.lor (wrap128 (Z.shiftl value 8)) b) bytes 0
    else Z.land (last_random g + 1) (2 ^ 80 - 1) in
  let ms := Z.max now_ms (last_ms g) in
  let value := Z.lor (wrap128 (Z.shiftl ms 80)) random in
  (be_bytes 16 value, mkGenerator ms random).

Definition generator_ok (g : VersionGenerator) : Prop :=
  0 ≤ last_ms g < 2 ^ 48 ∧ 0 ≤ last_random g < 2 ^ 80.

(** The identifier a generator in state [g] last gave out. *)
Definition generator_id (g : VersionGenerator) : VersionId :=
  be_bytes 16 (last_ms g * 2 ^ 80 + last_random g).

(** ** Digits and letters *)

Lemma lor_low a d w : 0 ≤ w → 0 ≤ d < 2 ^ w → Z.lor (Z.shiftl a w) d = a * 2 ^ w + d.
Proof.
  intros Hw Hd. rewrite <- Z.shiftl_mul_pow2 by done.
  rewrite <- (Z.add_lor_land (Z.shiftl a w) d) at 1.
  replace (Z.land (Z.shiftl a w) d) with 0; [lia|].
  symmetry. apply Z.bits_inj'. intros n Hn. rewrite Z.land_spec, Z.bits_0.
  destruct (decide (n < w)).
  - by rewrite Z.shiftl_spec_low.
  - rewrite <- (Z.mod_small d (2 ^ w)) by done. rewrite Z.mod_pow2_bits_high by lia.
    by rewrite andb_false_r.
Qed.

Definition letter (d : Z) : Z := ALPHABET !!! Z.to_nat d.

Lemma digit_cases (P : Z → Prop) :
  (∀ i, i ∈ seq 0 32 → P (Z.of_nat i)) → ∀ d, 0 ≤ d < 32 → P d.
Proof.
  intros Hall d Hd. rewrite <- (Z2Nat.id d) by lia. apply Hall, elem_of_seq. lia.
Qed.

Lemma letter_spec d :
  0 ≤ d < 32 →
  decode_char (letter d) = Some d ∧ 0 ≤ letter d < 0x80 ∧ to_ascii_uppercase (letter d) = letter d.
Proof.
  revert d. apply digit_cases. intros i Hi.
  assert (forallb (λ i, bool_decide (decode_char (letter (Z.of_nat i)) = Some (Z.of_nat i)
    ∧ 0 ≤ letter (Z.of_nat i) < 0x80
    ∧ to_ascii_uppercase (letter (Z.of_nat i)) = letter (Z.of_nat i))) (seq 0 32) = true) as H
    by (by vm_compute).
  rewrite forallb_forall in H. apply list_elem_of_In in Hi. apply H in Hi.
  by apply bool_decide_eq_true in Hi.
Qed.

Lemma letter_compare x y : 0 ≤ x < 32 → 0 ≤ y < 32 → (letter x ?= letter y) = (x ?= y).
Proof.
  intros Hx Hy. revert y Hy. apply digit_cases; intros j Hj. revert x Hx.
  apply digit_cases; intros i Hi.
  assert (forallb (λ i, forallb (λ j,
    bool_decide ((letter (Z.of_nat i) ?= letter (Z.of_nat j)) = (Z.of_nat i ?= Z.of_nat j)))
    (seq 0 32)) (seq 0 32) = true) as H by (by vm_compute).
  rewrite forallb_forall in H. apply list_elem_of_In in Hi, Hj. apply H in Hi.
  rewrite forallb_forall in Hi. apply Hi in Hj. by apply bool_decide_eq_true in Hj.
Qed.

Lemma letter_le x y : 0 ≤ x ≤ y → y < 32 → letter x ≤ letter y.
Proof. intros Hx Hy. unfold Z.le at 1. rewrite letter_compare by lia. apply Z.compare_le_iff. lia. Qed.

Lemma decode_char_Some c d :
  decode_char c = Some d → 0 ≤ d < 32 ∧ letter d = to_ascii_uppercase c.
Proof.
  unfold decode_char. intros ((i & l) & Hf & ->)%fmap_Some.
  apply list_find_Some in Hf as (Hl & -> & _). cbn.
  pose proof (lookup_lt_Some _ _ _ Hl) as Hlt. change (length ALPHABET) with 32%nat in Hlt.
  split; [lia|]. unfold letter. by rewrite Nat2Z.id, (list_lookup_total_correct _ _ _ Hl).
Qed.

Lemma to_digits_seq b n z :
  0 < b → to_digits b n z = (λ i, (z / b ^ (Z.of_nat n - 1 - Z.of_nat i)) mod b) <$> seq 0 n.
Proof.
  intros Hb. revert z; induction n as [|n IH]; intros z; [done|].
  cbn [to_digits]. rewrite IH, seq_S, fmap_app. cbn [fmap list_fmap Nat.add]. f_equal.
  - apply list_fmap_ext. intros i j [-> Hj]%lookup_seq. f_equal.
    replace (Z.of_nat (S n) - 1 - Z.of_nat (0 + i)) with (Z.succ (Z.of_nat n - 1 - Z.of_nat (0 + i))) by lia.
    rewrite Z.pow_succ_r, Z.div_div by (try apply Z.pow_pos_nonneg; lia). done.
  - f_equal. replace (Z.of_nat (S n) - 1 - Z.of_nat n) with 0 by lia. by rewrite Z.pow_0_r, Z.div_1_r.
Qed.

Lemma to_text_digits v : to_text v = letter <$> to_digits 32 26 (of_be v).
Proof.
  unfold to_text. rewrite to_digits_seq by lia. rewrite <- list_fmap_compose.
  apply list_fmap_ext. intros i j [-> Hj]%lookup_seq. unfold compose, letter.
  f_equal. f_equal. change 0x1F with (Z.ones 5).
  rewrite Z.land_ones, Z.shiftr_div_pow2 by (unfold TEXT_LEN in *; lia).
  rewrite Z.pow_mul_r by (unfold TEXT_LEN in *; lia). done.
Qed.

Lemma length_to_text v : length (to_text v) = 26%nat.
Proof. rewrite to_text_digits, length_fmap. apply length_to_digits. Qed.

Lemma to_text_ascii v : Forall (λ c, 0 ≤ c < 0x80) (to_text v).
Proof.
  rewrite to_text_digits. apply Forall_fmap.
  eapply Forall_impl; [by apply (to_digits_range 32)|].
  intros d Hd. by apply letter_spec.
Qed.

Lemma as_bytes_ascii s : Forall (λ c, 0 ≤ c < 0x80) s → as_bytes s = s.
Proof.
  unfold as_bytes. induction 1 as [|c s Hc _ IH]; [done|].
  rewrite bind_cons, IH. unfold utf8_char. by replace (c <? 128) with true by lia.
Qed.

Lemma version_value v : version_ok v → 0 ≤ of_be v < 2 ^ 128.
Proof. intros [Hlen Hok]. pose proof (of_be_range v Hok) as Hr. rewrite Hlen in Hr. lia. Qed.

(** Decoding letters accumulates base-32 digits, without loss while the
    number stays below 2^128. *)
Lemma decode_chars_digits ds acc cs :
  Forall2 (λ c d, decode_char c = Some d) cs ds →
  Forall (λ d, 0 ≤ d < 32) ds → 0 ≤ acc →
  acc * 32 ^ Z.of_nat (length ds) + of_digits 32 ds < 2 ^ 128 →
  decode_chars acc cs = Some (acc * 32 ^ Z.of_nat (length ds) + of_digits 32 ds).
Proof.
  intros Hcs. revert acc; induction Hcs as [|c d cs ds Hc Hcs IH]; intros acc Hds Hacc Hmax.
  { cbn. f_equal. lia. }
  apply Forall_cons in Hds as [Hd Hds]. rewrite of_digits_cons in * by lia. cbn [length] in *.
  rewrite Nat2Z.inj_succ, Z.pow_succ_r in * by lia.
  pose proof (of_digits_range 32 ltac:(lia) ds Hds) as Hr.
  pose proof (Z.pow_pos_nonneg 32 (Z.of_nat (length ds)) ltac:(lia) ltac:(lia)) as Hp.
  cbn [decode_chars]. rewrite Hc. cbn [mbind option_bind].
  assert (acc * 32 + d < 2 ^ 128) as Hlt by nia.
  replace (wrap128 (Z.shiftl acc 5)) with (Z.shiftl acc 5).
  2: { unfold wrap. rewrite Z.shiftl_mul_pow2 by lia. rewrite Z.mod_small by lia. done. }
  rewrite lor_low by lia. change (2 ^ 5) with 32.
  rewrite IH; [f_equal; ring|done|lia|].
  replace ((acc * 32 + d) * 32 ^ Z.of_nat (length ds) + of_digits 32 ds)
    with (acc * (32 * 32 ^ Z.of_nat (length ds)) + (d * 32 ^ Z.of_nat (length ds) + of_digits 32 ds))
    by ring. done.
Qed.

(** Any accepted text spells digits, whose first is at most 7. *)
Lemma decode_chars_inv acc cs r :
  decode_chars acc cs = Some r → ∃ ds, Forall2 (λ c d, decode_char c = Some d) cs ds.
Proof.
  revert acc; induction cs as [|c cs IH]; intros acc; cbn [decode_chars]; [by eexists|].
  destruct (decode_char c) as [d|] eqn:Hc; cbn [mbind option_bind]; [|done].
  intros [ds Hds]%IH. exists (d :: ds). by constructor.
Qed.

Lemma of_digits_first d ds :
  Forall (λ d, 0 ≤ d < 32) ds → length ds = 25%nat → 0 ≤ d ≤ 7 →
  0 ≤ of_digits 32 (d :: ds) < 2 ^ 128.
Proof.
  intros Hds Hlen Hd. rewrite of_digits_cons by lia.
  pose proof (of_digits_range 32 ltac:(lia) ds Hds) as Hr. rewrite Hlen in *. lia.
Qed.

Lemma first_digit c d : (48 <=? c) && (c <=? 55) = true → decode_char c = Some d → 0 ≤ d ≤ 7.
Proof.
  intros Hc Hd.
  assert (forallb (λ i, match decode_char (48 + Z.of_nat i) with
    Some d => (0 <=? d) && (d <=? 7) | None => false end) (seq 0 8) = true) as H by (by vm_compute).
  rewrite forallb_forall in H. specialize (H (Z.to_nat (c - 48))).
  rewrite <- list_elem_of_In in H. specialize (H ltac:(apply elem_of_seq; lia)).
  replace (48 + Z.of_nat (Z.to_nat (c - 48))) with c in H by lia.
  rewrite Hd in H. lia.
Qed.

(** What [from_text] accepts: 26 letters, read as base-32 digits whose value
    fits 128 bits. *)
Lemma from_text_spec t v :
  from_text t = Some v →
  ∃ ds, Forall2 (λ c d, decode_char c = Some d) (as_bytes t) ds
    ∧ length ds = 26%nat ∧ Forall (λ d, 0 ≤ d < 32) ds
    ∧ 0 ≤ of_digits 32 ds < 2 ^ 128 ∧ v = be_bytes 16 (of_digits 32 ds).
Proof.
  unfold from_text, TEXT_LEN. destruct (Nat.eqb_spec (length (as_bytes t)) 26) as [Hlen|]; cbn [negb]; [|done].
  destruct ((48 <=? _) && _) eqn:Hfirst; cbn [negb]; [|done].
  intros (value & Hval & [= <-])%bind_Some. pose proof Hval as Hval'.
  apply decode_chars_inv in Hval' as [ds Hds]. exists ds.
  pose proof (Forall2_length _ _ _ Hds) as Hl. rewrite Hlen in Hl.
  assert (Forall (λ d, 0 ≤ d < 32) ds) as Hr.
  { eapply Forall2_Forall_r; [exact Hds|]. apply Forall_true. intros c d Hc.
    by apply decode_char_Some in Hc as [? _]. }
  destruct (as_bytes t) as [|c cs]; [done|]. destruct ds as [|d ds]; [done|].
  pose proof Hds as Hds'. apply Forall2_cons in Hds' as [Hc Hcs].
  pose proof Hr as Hr'. apply Forall_cons in Hr' as [_ Hr'].
  assert (0 ≤ of_digits 32 (d :: ds) < 2 ^ 128) as Hv.
  { apply of_digits_first; [done|cbn in Hl; lia|]. by eapply first_digit. }
  rewrite (decode_chars_digits (d :: ds)) in Hval; [|done|done|lia|lia].
  injection Hval as <-. rewrite Z.mul_0_l, Z.add_0_l. split_and!; (done || lia).
Qed.

Lemma from_text_to_text v : version_ok v → from_text (to_text v) = Some v.
Proof.
  intros Hok. pose proof (version_value v Hok) as Hv.
  unfold from_text. rewrite as_bytes_ascii by apply to_text_ascii.
  rewrite length_to_text. cbn [negb Nat.eqb TEXT_LEN].
  pose proof (length_to_digits 32 26 (of_be v)) as Hl.
  pose proof (to_digits_range 32 ltac:(lia) 26 (of_be v)) as Hr.
  pose proof (of_to_digits 32 ltac:(lia) 26 (of_be v)) as Hof.
  rewrite Z.mod_small in Hof by lia.
  rewrite to_text_digits. revert Hl Hr Hof. generalize (to_digits 32 26 (of_be v)).
  intros ds Hl Hr Hof.
  assert (decode_chars 0 (letter <$> ds) = Some (of_be v)) as ->.
  { rewrite (decode_chars_digits ds), Z.mul_0_l, Z.add_0_l, Hof; [done| |done|lia|lia].
    rewrite Forall2_fmap_l. apply Forall_Forall2_diag. eapply Forall_impl; [exact Hr|].
    intros d Hd. by apply letter_spec. }
  destruct ds as [|d ds]; [done|]. apply Forall_cons in Hr as [Hd Hr].
  assert (d ≤ 7) as Hd7.
  { rewrite of_digits_cons in Hof by lia. pose proof (of_digits_range 32 ltac:(lia) ds Hr).
    replace (length ds) with 25%nat in * by (cbn in Hl; lia). lia. }
  assert ((48 <=? letter d) && (letter d <=? 55) = true) as Hld.
  { assert (letter 0 ≤ letter d) by (apply letter_le; lia).
    assert (letter d ≤ letter 7) by (apply letter_le; lia).
    change (letter 0) with 48 in *. change (letter 7) with 55 in *. lia. }
  cbn [fmap list_fmap]. cbn [lookup_total list_lookup_total]. rewrite Hld. cbn [negb mbind option_bind].
  f_equal. destruct Hok as [Hlen Hb]. rewrite <- Hlen. by apply be_bytes_of_be.
Qed.

(** An accepted text, in upper case, is the text form of what it parsed to. *)
Lemma from_text_sound t v :
  from_text t = Some v →
  version_ok v ∧ to_text v = to_ascii_uppercase <$> as_bytes t.
Proof.
  intros (ds & Hds & Hl & Hr & Hv & ->)%from_text_spec. split.
  { split; [apply length_be_bytes|apply be_bytes_ok]. }
  rewrite to_text_digits, of_be_bytes by lia. rewrite <- Hl, to_of_digits by (done || lia).
  clear -Hds. induction Hds as [|c d cs ds Hc _ IH]; [done|].
  cbn. f_equal; [by apply decode_char_Some in Hc as [_ ?]|done].
Qed.

(** ** Properties *)

(** The text form of every version identifier parses back to it, and
    parsing accepts nothing else: an accepted text, in upper case, is the
    text form of the well-formed identifier it parsed to. *)
Theorem version_text_roundtrip (t : str) (v : VersionId) :
  (version_ok v → from_text (to_text v) = Some v)
  ∧ (from_text t = Some v →
     version_ok v ∧ to_text v = to_ascii_uppercase <$> as_bytes t).
Proof. split; [apply from_text_to_text|apply from_text_sound]. Qed.

(** Sorting the text forms sorts the identifiers: the two orders agree
    on every pair, so sorting file names sorts by creation time. *)
Theorem version_text_order (v w : VersionId) :
  version_ok v → version_ok w →
  lex_compare (to_text v) (to_text w) = lex_compare v w.
Proof.
  intros Hv Hw. rewrite !to_text_digits.
  rewrite (lex_compare_map (λ d, 0 ≤ d < 32)); [|intros; by apply letter_compare|by apply to_digits_range..].
  rewrite (lex_compare_digits 32) by (done || (by rewrite !length_to_digits) || (by apply to_digits_range)).
  pose proof (version_value v Hv). pose proof (version_value w Hw).
  rewrite !of_to_digits by lia. rewrite !Z.mod_small by lia.
  destruct Hv as [Hlv Hbv], Hw as [Hlw Hbw]. symmetry.
  apply (lex_compare_digits 256); [lia|lia|done|done].
Qed.

Lemma version_text_order_witness :
  lex_compare (to_text (replicate 16 7)) (to_text (replicate 16 8)) = Lt.
Proof.
  rewrite (version_text_order (replicate 16 7) (replicate 16 8));
    [reflexivity|split; [reflexivity|apply Forall_replicate; split; lia]..].
Defined.

(** ** The generator: lemmas *)

Lemma be_bytes_compare n a b :
  0 ≤ a < 256 ^ Z.of_nat n → 0 ≤ b < 256 ^ Z.of_nat n →
  lex_compare (be_bytes n a) (be_bytes n b) = (a ?= b).
Proof.
  intros Ha Hb. unfold be_bytes.
  rewrite (lex_compare_digits 256) by (done || (by rewrite !length_to_digits) || (by apply to_digits_range)).
  rewrite !of_to_digits by lia. by rewrite !Z.mod_small.
Qed.

Lemma fold_bytes bytes acc :
  bytes_ok bytes → 0 ≤ acc →
  acc * 256 ^ Z.of_nat (length bytes) + of_be bytes < 2 ^ 128 →
  fold_left (λ value b, Z.lor (wrap128 (Z.shiftl value 8)) b) bytes acc
  = acc * 256 ^ Z.of_nat (length bytes) + of_be bytes.
Proof.
  revert acc; induction bytes as [|b bytes IH]; intros acc Hok Hacc Hmax; [cbn; lia|].
  apply Forall_cons in Hok as [Hb Hok]. unfold of_be in *. rewrite of_digits_cons in * by lia.
  cbn [length fold_left] in *. rewrite Nat2Z.inj_succ, Z.pow_succ_r in * by lia.
  pose proof (of_be_range bytes Hok) as Hr. unfold of_be, is_uint in *.
  pose proof (Z.pow_pos_nonneg 256 (Z.of_nat (length bytes)) ltac:(lia) ltac:(lia)) as Hp.
  replace (wrap128 (Z.shiftl acc 8)) with (Z.shiftl acc 8).
  2: { unfold wrap. rewrite Z.shiftl_mul_pow2 by lia. rewrite Z.mod_small by nia. done. }
  rewrite lor_low by lia. change (2 ^ 8) with 256 in *.
  rewrite IH; [ring|done|lia|].
  replace ((acc * 256 + b) * 256 ^ Z.of_nat (length bytes) + of_digits 256 bytes)
    with (acc * (256 * 256 ^ Z.of_nat (length bytes)) + (b * 256 ^ Z.of_nat (length bytes) + of_digits 256 bytes))
    by ring. done.
Qed.

Definition random_ok (bytes : list Z) : Prop := length bytes = 10%nat ∧ bytes_ok bytes.

Lemma masked_clock x : 0 ≤ Z.land x 0x0000FFFFFFFFFFFF < 2 ^ 48.
Proof. change 0x0000FFFFFFFFFFFF with (Z.ones 48). rewrite Z.land_ones by lia. apply Z.mod_pos_bound. lia. Qed.

(** One step: the invariant is kept, the identifier is the new state's, and
    within a millisecond the random part is the successor modulo 2^80. *)
Lemma VersionGenerator_next_spec g clock bytes id g' :
  generator_ok g → random_ok bytes → VersionGenerator_next g clock bytes = (id, g') →
  generator_ok g' ∧ id = generator_id g' ∧
  (last_ms g < last_ms g' ∧ last_random g' = of_be bytes
   ∨ last_ms g' = last_ms g ∧ last_random g' = (last_random g + 1) mod 2 ^ 80).
Proof.
  intros [Hms Hr] [Hlen Hok]. unfold VersionGenerator_next.
  set (now := Z.land _ _). pose proof (masked_clock (default 0 (wrap64 <$> clock))) as Hnow. fold now in Hnow.
  pose proof (of_be_range bytes Hok) as Hb. rewrite Hlen in Hb.
  rewrite fold_bytes by (done || (rewrite ?Hlen; lia)). rewrite Z.mul_0_l, Z.add_0_l.
  change (2 ^ 80 - 1) with (Z.ones 80). rewrite Z.land_ones by lia.
  pose proof (Z.mod_pos_bound (last_random g + 1) (2 ^ 80) ltac:(lia)) as Hm.
  intros [= <- <-]. unfold generator_ok, generator_id. cbn [last_ms last_random].
  set (random := if now >? last_ms g then of_be bytes else (last_random g + 1) mod 2 ^ 80).
  assert (0 ≤ random < 2 ^ 80) as Hrand by (unfold random; destruct (now >? last_ms g); lia).
  split_and!; [lia|lia|lia|lia| |].
  - f_equal. replace (wrap128 _) with (Z.shiftl (Z.max now (last_ms g)) 80).
    + rewrite lor_low by lia. done.
    + unfold wrap. rewrite Z.shiftl_mul_pow2 by lia. by rewrite Z.mod_small by lia.
  - unfold random. destruct (Z.gtb_spec now (last_ms g)); [left|right]; split; lia.
Qed.

Lemma generator_id_compare g g' :
  generator_ok g → generator_ok g' →
  lex_compare (generator_id g) (generator_id g')
  = (last_ms g * 2 ^ 80 + last_random g ?= last_ms g' * 2 ^ 80 + last_random g').
Proof. intros [? ?] [? ?]. apply be_bytes_compare; lia. Qed.

(** Successive identifiers of one generator. *)
Fixpoint generate (g : VersionGenerator) (inputs : list (option Z * list Z)) : list VersionId :=
  match inputs with
  | [] => []
  | (clock, bytes) :: inputs =>
      let '(id, g') := VersionGenerator_next g clock bytes in id :: generate g' inputs
  end.

Lemma generate_step g inputs id :
  generator_ok g → Forall (λ i, random_ok i.2) inputs →
  last_random g + Z.of_nat (length inputs) < 2 ^ 80 →
  Forall (λ i, of_be i.2 + Z.of_nat (length inputs) < 2 ^ 80) inputs →
  id = generator_id g →
  Sorted (λ v w, lex_compare v w = Lt) (id :: generate g inputs).
Proof.
  revert g id; induction inputs as [|[clock bytes] inputs IH]; intros g id Hg Hin Hr Hfresh ->.
  { repeat constructor. }
  apply Forall_cons in Hin as [Hb Hin]. pose proof Hfresh as Hfresh'.
  apply Forall_cons in Hfresh as [Hf Hfresh]. cbn [length snd] in *. rewrite Nat2Z.inj_succ in *.
  cbn [generate]. destruct (VersionGenerator_next g clock bytes) as [id' g'] eqn:Hn.
  destruct (VersionGenerator_next_spec _ _ _ _ _ Hg Hb Hn) as (Hg' & -> & Hor).
  assert (last_random g' + Z.of_nat (length inputs) < 2 ^ 80 ∧
          last_ms g * 2 ^ 80 + last_random g < last_ms g' * 2 ^ 80 + last_random g') as [Hr' Hlt].
  { destruct Hg as [? ?], Hg' as [? ?]. destruct Hor as [[? Heq]|[Heq Hm]]; [lia|].
    rewrite Z.mod_small in Hm by lia. lia. }
  constructor.
  - apply IH; [done|done|done| |done]. eapply Forall_impl; [exact Hfresh|]. cbn. intros; lia.
  - constructor. rewrite generator_id_compare by done. by apply Z.compare_lt_iff.
Qed.

(** The identifiers one generator gives out are strictly increasing,
    whatever the clock does, as long as no draw of the 80 random bits comes
    within the number of identifiers of 2^80. *)
Theorem generator_increasing (inputs : list (option Z * list Z)) :
  Forall (λ i, random_ok i.2) inputs →
  Forall (λ i, of_be i.2 + Z.of_nat (length inputs) < 2 ^ 80) inputs →
  Z.of_nat (length inputs) < 2 ^ 80 →
  StronglySorted (λ v w, lex_compare v w = Lt) (generate VersionGenerator_new inputs).
Proof.
  intros Hin Hfresh Hlen.
  assert (generator_ok VersionGenerator_new) as Hg by (split; cbn; lia).
  apply Sorted_StronglySorted; [intros a b c; apply lex_compare_lt_trans|].
  pose proof (generate_step VersionGenerator_new inputs (generator_id VersionGenerator_new) Hg Hin
    ltac:(cbn; lia) Hfresh eq_refl) as Hs. by apply Sorted_inv in Hs as [? _].
Qed.

(** At the top of the random range the increment wraps to zero within the
    same millisecond, so the next identifier sorts before the previous one. *)
Theorem generator_wraps (g : VersionGenerator) (clock : option Z) (bytes : list Z) :
  generator_ok g → random_ok bytes → last_random g = 2 ^ 80 - 1 →
  Z.land (default 0 (wrap64 <$> clock)) 0x0000FFFFFFFFFFFF ≤ last_ms g →
  lex_compare (VersionGenerator_next g clock bytes).1 (generator_id g) = Lt.
Proof.
  intros Hg Hb Hr Hclock.
  destruct (VersionGenerator_next g clock bytes) as [id g'] eqn:Hn. cbn [fst].
  destruct (VersionGenerator_next_spec _ _ _ _ _ Hg Hb Hn) as (Hg' & -> & Hor).
  assert (last_ms g' = last_ms g) as Hms.
  { apply (f_equal snd) in Hn. cbn [snd] in Hn. subst g'. cbn [VersionGenerator_next snd last_ms]. lia. }
  destruct Hor as [[? _]|[_ Hr']]; [lia|]. rewrite generator_id_compare by done.
  rewrite Hms, Hr', Hr. apply Z.compare_lt_iff. change ((2 ^ 80 - 1 + 1) mod 2 ^ 80) with 0. lia.
Qed.

(** Three identifiers, the clock standing still and then going back. *)
Definition ticks3 : list (option Z * list Z) :=
  [(Some 1000, replicate 10 5); (Some 1000, replicate 10 3); (Some 900, replicate 10 200)].

Lemma ticks3_random : Forall (λ i, random_ok i.2) ticks3.
Proof.
  repeat (apply List.Forall_cons; [split; [reflexivity|apply Forall_replicate; split; lia]|]). apply List.Forall_nil.
Defined.

Lemma generator_increasing_witness :
  StronglySorted (λ v w, lex_compare v w = Lt) (generate VersionGenerator_new ticks3).
Proof.
  apply (generator_increasing ticks3); [apply ticks3_random| |reflexivity].
  repeat (apply List.Forall_cons; [reflexivity|]). apply List.Forall_nil.
Defined.

Lemma generator_wraps_witness :
  lex_compare (VersionGenerator_next (mkGenerator 1000 (2 ^ 80 - 1)) (Some 1000) (replicate 10 5)).1
    (generator_id (mkGenerator 1000 (2 ^ 80 - 1))) = Lt.
Proof.
  apply (generator_wraps (mkGenerator 1000 (2 ^ 80 - 1)) (Some 1000) (replicate 10 5));
    [split; cbn; lia|split; [reflexivity|apply Forall_replicate; split; lia]|reflexivity|].
  intros Hc. vm_compute in Hc. discriminate.
Defined.
