(* ===== verification/Erasure.v ===== *)
(** [erasure.rs]: coding schemes and the Reed-Solomon wrapper.

    The library [reed-solomon-erasure] is not part of the program; it is the
    interface [ReedSolomonLib], and what the program relies on from it is the
    predicate [rs_correct k m], its documented contract for one scheme: the
    constructor accepts the scheme, encoding validated blocks succeeds, and
    from any [k] or more shards of a codeword every other shard is rebuilt.
    The wrapper's own work, the positional layout, every validation with its
    typed error, the [m = 0] case, is modelled and proved. *)

From S2P Require Import Prelude.

Abbreviation block := (list Z) (only parsing).
Abbreviation ShardIndex := Z (only parsing).

(** ** Schemes *)

Definition MAX_DATA_SHARDS : Z := 32.
Definition MAX_PARITY_SHARDS : Z := 8.
Definition MAX_TOTAL_SHARDS : Z := 64.

Record Scheme := mkScheme { data_shards : Z; parity_shards : Z }.

#[global] Instance Scheme_eq_dec : EqDecision Scheme.
Proof. solve_decision. Defined.

Inductive SchemeError :=
| NoDataShards
| TooManyDataShards (k : Z)
| TooManyParityShards (m : Z)
| TooManyShards (total : Z).

#[global] Instance SchemeError_eq_dec : EqDecision SchemeError.
Proof. solve_decision. Defined.

Definition Scheme_new (k m : Z) : res SchemeError Scheme :=
  _ ← ensure (negb (k =? 0)) NoDataShards;
  _ ← ensure (negb (k >? MAX_DATA_SHARDS)) (TooManyDataShards k);
  _ ← ensure (negb (m >? MAX_PARITY_SHARDS)) (TooManyParityShards m);
  let total := k + m in
  _ ← ensure (negb (total >? MAX_TOTAL_SHARDS)) (TooManyShards total);
  Ok (mkScheme k m).

Definition total_shards (s : Scheme) : Z := data_shards s + parity_shards s.

Definition contains (s : Scheme) (i : ShardIndex) : bool := i <? total_shards s.
Definition is_data (s : Scheme) (i : ShardIndex) : bool := i <? data_shards s.
Definition is_parity (s : Scheme) (i : ShardIndex) : bool :=
  contains s i && negb (is_data s i).

(** [ShardIndex(i as u8)] for [i] in [0 .. n]. *)
Definition indices_upto (n : Z) : list ShardIndex :=
  (λ i, wrap 8 (Z.of_nat i)) <$> seq 0 (Z.to_nat n).

Definition shard_indices (s : Scheme) : list ShardIndex := indices_upto (total_shards s).
Definition data_shard_indices (s : Scheme) : list ShardIndex := indices_upto (data_shards s).

(** A scheme [Scheme_new] returns. *)
Definition scheme_ok (s : Scheme) : Prop :=
  1 ≤ data_shards s ≤ MAX_DATA_SHARDS ∧ 0 ≤ parity_shards s ≤ MAX_PARITY_SHARDS.

(** ** The library *)

Class ReedSolomonLib := {
  rs_obj : Type;
  rs_new : nat → nat → option rs_obj;
  (** [encode_sep(data, parity)]: the parity buffers after the call. *)
  rs_encode_sep : rs_obj → list block → list block → option (list block);
  (** [reconstruct_data(slots)] and [reconstruct(slots)]: the slots after. *)
  rs_reconstruct_data : rs_obj → list (option block) → option (list (option block));
  rs_reconstruct : rs_obj → list (option block) → option (list (option block));
}.

Definition uniform (len : nat) (bs : list block) : Prop :=
  Forall (λ b, length b = len) bs.

Definition present_count (slots : list (option block)) : nat :=
  length (filter is_Some slots).

(** Every filled slot holds the codeword's block. *)
Definition agrees (slots : list (option block)) (word : list block) : Prop :=
  length slots = length word ∧
  ∀ i b, slots !! i = Some (Some b) → word !! i = Some b.

Record rs_correct `{ReedSolomonLib} (k m : nat) : Prop := {
  rs_new_ok : ∃ rs, rs_new k m = Some rs;
  (** encoding [k] equal non-empty blocks into [m] buffers of their length *)
  rs_encode_ok : ∀ rs len data parity,
    rs_new k m = Some rs → (0 < len)%nat →
    length data = k → uniform len data → length parity = m → uniform len parity →
    ∃ out, rs_encode_sep rs data parity = Some out ∧ length out = m ∧ uniform len out
           ∧ (Forall (Forall is_u8) data → Forall (Forall is_u8) out);
  (** from at least [k] equal non-empty shards the calls succeed and fill
      the slots they promise to *)
  rs_reconstruct_data_total : ∀ rs len slots,
    rs_new k m = Some rs → (0 < len)%nat → length slots = (k + m)%nat →
    (∀ i b, slots !! i = Some (Some b) → length b = len) →
    (k ≤ present_count slots)%nat →
    ∃ out, rs_reconstruct_data rs slots = Some out ∧ length out = (k + m)%nat
           ∧ (∀ i b, slots !! i = Some (Some b) → out !! i = Some (Some b))
           ∧ (∀ i, (i < k)%nat → ∃ b, out !! i = Some (Some b));
  rs_reconstruct_total : ∀ rs len slots,
    rs_new k m = Some rs → (0 < len)%nat → length slots = (k + m)%nat →
    (∀ i b, slots !! i = Some (Some b) → length b = len) →
    (k ≤ present_count slots)%nat →
    ∃ out, rs_reconstruct rs slots = Some out ∧ length out = (k + m)%nat
           ∧ (∀ i b, slots !! i = Some (Some b) → out !! i = Some (Some b))
           ∧ (∀ i, (i < k + m)%nat → ∃ b, out !! i = Some (Some b));
  (** any [k] shards of a codeword determine the rest *)
  rs_reconstruct_data_word : ∀ rs len data parity0 parity slots out i b,
    rs_new k m = Some rs → (0 < len)%nat → length data = k → uniform len data →
    length parity0 = m → uniform len parity0 →
    rs_encode_sep rs data parity0 = Some parity → agrees slots (data ++ parity) →
    (k ≤ present_count slots)%nat →
    rs_reconstruct_data rs slots = Some out → out !! i = Some (Some b) →
    (data ++ parity) !! i = Some b;
  rs_reconstruct_word : ∀ rs len data parity0 parity slots out i b,
    rs_new k m = Some rs → (0 < len)%nat → length data = k → uniform len data →
    length parity0 = m → uniform len parity0 →
    rs_encode_sep rs data parity0 = Some parity → agrees slots (data ++ parity) →
    (k ≤ present_count slots)%nat →
    rs_reconstruct rs slots = Some out → out !! i = Some (Some b) →
    (data ++ parity) !! i = Some b;
}.

(** ** The code for one scheme *)

Inductive CodingError :=
| WrongDataBlockCount (expected actual : Z)
| UnequalBlockLengths
| EmptyBlocks
| IndexOutOfRange (i : ShardIndex)
| DuplicateIndex (i : ShardIndex)
| TooFewShardsPresent (present needed : Z).

#[global] Instance CodingError_eq_dec : EqDecision CodingError.
Proof. solve_decision. Defined.

Section code.
Context `{ReedSolomonLib}.

Record ReedSolomonCode := mkCode { scheme : Scheme; reed_solomon : option rs_obj }.

Definition ReedSolomonCode_new (s : Scheme) : res Empty_set ReedSolomonCode :=
  if parity_shards s =? 0 then Ok (mkCode s None)
  else
    rs ← expect (rs_new (Z.to_nat (data_shards s)) (Z.to_nat (parity_shards s)));
    Ok (mkCode s (Some rs)).

Definition compute_parity (code : ReedSolomonCode) (data_blocks : list block)
    : res CodingError (list block) :=
  let s := scheme code in
  let n := Z.of_nat (length data_blocks) in
  _ ← ensure (n =? data_shards s) (WrongDataBlockCount (data_shards s) n);
  first ← expect (data_blocks !! 0%nat);
  let block_len := length first in
  _ ← ensure (negb (block_len =? 0)%nat) EmptyBlocks;
  _ ← ensure (forallb (λ b, (length b =? block_len)%nat) data_blocks) UnequalBlockLengths;
  let parity_blocks := replicate (Z.to_nat (parity_shards s)) (replicate block_len 0) in
  match reed_solomon code with
  | Some rs => expect (rs_encode_sep rs data_blocks parity_blocks)
  | None => Ok parity_blocks
  end.

(** One iteration of the loop that lays the present blocks out. *)
Definition lay_out (s : Scheme) (st : list (option block) * option nat)
    (p : ShardIndex * block) : res CodingError (list (option block) * option nat) :=
  let '(slots, block_len) := st in
  let '(index, bytes) := p in
  _ ← ensure (contains s index) (IndexOutOfRange index);
  slot ← expect (slots !! Z.to_nat index);
  _ ← ensure (bool_decide (slot = None)) (DuplicateIndex index);
  block_len' ← match block_len with
               | None => Ok (length bytes)
               | Some len => _ ← ensure (len =? length bytes)%nat UnequalBlockLengths; Ok len
               end;
  Ok (<[Z.to_nat index := Some bytes]> slots, Some block_len').

(** [slots[index].is_none()]; out of range is a panic. *)
Definition slot_missing (slots : list (option block)) (index : ShardIndex)
    : res CodingError bool :=
  slot ← expect (slots !! Z.to_nat index); Ok (bool_decide (slot = None)).

(** The body of [if needs_reconstruction]: the library call, after the
    checks that make its [expect]s unreachable. *)
Definition fill_missing (code : ReedSolomonCode) (n : Z) (block_len : option nat)
    (wanted : list ShardIndex) (slots : list (option block))
    : res CodingError (list (option block)) :=
  let s := scheme code in
  _ ← ensure (negb (n <? data_shards s)) (TooFewShardsPresent n (data_shards s));
  _ ← ensure (bool_decide (block_len ≠ Some 0%nat)) EmptyBlocks;
  rs ← expect (reed_solomon code);
  let only_data_wanted := forallb (λ index, negb (is_parity s index)) wanted in
  if only_data_wanted then expect (rs_reconstruct_data rs slots)
  else expect (rs_reconstruct rs slots).

Definition reconstruct (code : ReedSolomonCode) (present : list (ShardIndex * block))
    (wanted : list ShardIndex) : res CodingError (list block) :=
  let s := scheme code in
  let total := total_shards s in
  '(slots, block_len) ← fold_res (lay_out s) present (replicate (Z.to_nat total) None, None);
  _ ← fold_res (λ _ index, ensure (contains s index) (IndexOutOfRange index)) wanted tt;
  needs_reconstruction ←
    fold_res (λ acc index, m ← slot_missing slots index; Ok (acc || m)) wanted false;
  slots ←
    (if needs_reconstruction : bool then
       fill_missing code (Z.of_nat (length present)) block_len wanted slots
     else Ok slots);
  map_res (λ index,
    slot ← expect (slots !! Z.to_nat index);
    expect slot) wanted.
End code.

Arguments ReedSolomonCode {_}.
Arguments mkCode {_} _ _.

(** ** Schemes: lemmas *)

Lemma Scheme_new_Ok k m s :
  is_u8 k → is_u8 m →
  Scheme_new k m = Ok s ↔ s = mkScheme k m ∧ scheme_ok s.
Proof.
  intros Hk Hm. unfold is_uint in *. unfold Scheme_new, scheme_ok.
  unfold MAX_DATA_SHARDS, MAX_PARITY_SHARDS, MAX_TOTAL_SHARDS. split.
  - intros H. inv_ok H. injection H as <-.
    rewrite !ensure_Ok in *. cbn. split; [done|]. lia.
  - intros [-> [Hk' Hm']]. cbn in Hk', Hm'.
    assert (negb (k =? 0) = true) as -> by lia.
    assert (negb (k >? 32) = true) as -> by lia.
    assert (negb (m >? 8) = true) as -> by lia.
    cbn. by assert (negb (k + m >? 64) = true) as -> by lia.
Qed.

Lemma Scheme_new_ok s : scheme_ok s → Scheme_new (data_shards s) (parity_shards s) = Ok s.
Proof.
  intros Hs. pose proof Hs as [Hk Hm]. unfold MAX_DATA_SHARDS, MAX_PARITY_SHARDS in *.
  apply Scheme_new_Ok; [unfold is_uint; lia..|]. split; [by destruct s|done].
Qed.

Lemma Scheme_new_returns k m : returns (Scheme_new k m).
Proof. unfold Scheme_new. repeat (apply bind_returns; [auto with djbod|intros _ _]). done. Qed.

Lemma contains_true s i : contains s i = true ↔ i < total_shards s.
Proof. unfold contains. lia. Qed.

Lemma scheme_ok_total s : scheme_ok s → 1 ≤ total_shards s ≤ 40.
Proof. unfold scheme_ok, total_shards, MAX_DATA_SHARDS, MAX_PARITY_SHARDS. lia. Qed.

Lemma indices_upto_eq n : n ≤ 256 → indices_upto n = Z.of_nat <$> seq 0 (Z.to_nat n).
Proof.
  intros Hn. unfold indices_upto. apply list_fmap_ext. intros i j Hj.
  apply lookup_seq in Hj as [-> Hlt]. unfold wrap. apply Z.mod_small. lia.
Qed.

Lemma length_indices_upto n : length (indices_upto n) = Z.to_nat n.
Proof. unfold indices_upto. by rewrite length_fmap, length_seq. Qed.

Lemma lookup_indices_upto n i :
  n ≤ 256 → (i < Z.to_nat n)%nat → indices_upto n !! i = Some (Z.of_nat i).
Proof.
  intros Hn Hi. rewrite indices_upto_eq, list_lookup_fmap, lookup_seq_lt by done. done.
Qed.

Lemma elem_of_indices_upto n i : n ≤ 256 → i ∈ indices_upto n ↔ 0 ≤ i < n.
Proof.
  intros Hn. rewrite indices_upto_eq, list_elem_of_fmap by done. split.
  - intros (j & -> & Hj). apply elem_of_seq in Hj. lia.
  - intros Hi. exists (Z.to_nat i). rewrite elem_of_seq. lia.
Qed.

Lemma NoDup_indices_upto n : n ≤ 256 → NoDup (indices_upto n).
Proof.
  intros Hn. rewrite indices_upto_eq by done. apply NoDup_fmap_2; [apply _|apply NoDup_seq].
Qed.

(** ** Tables indexed by shard *)

(** The table holds [f i] at every index of the scheme. *)
Definition tabulates {A} (s : Scheme) (l : list A) (f : Z → A) : Prop :=
  length l = Z.to_nat (total_shards s) ∧
  ∀ i, 0 ≤ i < total_shards s → l !! Z.to_nat i = Some (f i).

Lemma tabulates_replicate {A} s (x : A) :
  tabulates s (replicate (Z.to_nat (total_shards s)) x) (λ _, x).
Proof. split; [apply length_replicate|]. intros i Hi. apply lookup_replicate_2. lia. Qed.

Lemma tabulates_insert {A} s (l : list A) f g i x :
  tabulates s l f → 0 ≤ i < total_shards s →
  g i = x → (∀ j, j ≠ i → g j = f j) → tabulates s (<[Z.to_nat i := x]> l) g.
Proof.
  intros [Hlen Hf] Hi Hx Hg. split; [by rewrite length_insert|]. intros j Hj.
  destruct (decide (j = i)) as [->|Hne].
  - rewrite list_lookup_insert_eq by lia. by rewrite Hx.
  - rewrite list_lookup_insert_ne by lia. rewrite Hf by done. by rewrite Hg.
Qed.

(** ** Slots: lemmas *)

Lemma present_count_insert slots i b :
  slots !! i = Some None →
  present_count (<[i := Some b]> slots) = S (present_count slots).
Proof.
  unfold present_count. revert i; induction slots as [|o slots IH]; intros [|i] Hi; [done..| |].
  - injection Hi as ->. change (<[0%nat:=Some b]> (None :: slots)) with (Some b :: slots).
    rewrite filter_cons_True by eauto. rewrite filter_cons_False by (by intros [? ?]). done.
  - change (<[S i:=Some b]> (o :: slots)) with (o :: <[i:=Some b]> slots). cbn in Hi. specialize (IH i Hi).
    destruct o as [c|].
    + rewrite !filter_cons_True by eauto. cbn [length]. by rewrite IH.
    + rewrite !filter_cons_False by (by intros [? ?]). done.
Qed.

Lemma present_count_replicate n : present_count (replicate n None) = O.
Proof.
  unfold present_count. induction n; [done|]. cbn [replicate].
  by rewrite filter_cons_False by (by intros [? ?]).
Qed.

Lemma present_count_le slots : (present_count slots ≤ length slots)%nat.
Proof. apply length_filter. Qed.

(** When every slot is counted, none is empty. *)
Lemma present_count_full slots i :
  present_count slots = length slots → slots !! i ≠ Some None.
Proof.
  unfold present_count. revert i; induction slots as [|o slots IH]; intros i Hlen; [done|].
  destruct o as [c|].
  - rewrite filter_cons_True in Hlen by eauto. cbn [length] in Hlen.
    destruct i as [|i]; [done|]. cbn. apply IH. lia.
  - rewrite filter_cons_False in Hlen by (by intros [? ?]).
    pose proof (present_count_le slots). unfold present_count in *. cbn [length] in Hlen. lia.
Qed.

(** ** The wrapper: lemmas *)

Section code_lemmas.
Context `{ReedSolomonLib}.
Implicit Types (code : ReedSolomonCode) (s : Scheme).

Definition kn code : nat := Z.to_nat (data_shards (scheme code)).
Definition mn code : nat := Z.to_nat (parity_shards (scheme code)).

(** What [ReedSolomonCode_new] establishes: a valid scheme, and a library
    object for it exactly when there is parity. *)
Definition code_ok code : Prop :=
  scheme_ok (scheme code) ∧
  if decide (mn code = O) then reed_solomon code = None
  else rs_correct (kn code) (mn code) ∧
       ∃ rs, rs_new (kn code) (mn code) = Some rs ∧ reed_solomon code = Some rs.

Lemma ReedSolomonCode_new_Ok s :
  scheme_ok s →
  (0 < parity_shards s →
   rs_correct (Z.to_nat (data_shards s)) (Z.to_nat (parity_shards s))) →
  ∃ code, ReedSolomonCode_new s = Ok code ∧ scheme code = s ∧ code_ok code.
Proof.
  intros Hs Hrs. unfold ReedSolomonCode_new.
  destruct (Z.eqb_spec (parity_shards s) 0) as [Hm|Hm].
  - eexists. split_and!; [done|done|]. split; [done|].
    rewrite decide_True; [done|]. unfold mn; cbn. lia.
  - assert (0 < parity_shards s) as Hpos by (destruct Hs; lia). specialize (Hrs Hpos).
    destruct (rs_new_ok _ _ Hrs) as [rs Hnew]. rewrite Hnew. cbn.
    eexists. split_and!; [done|done|]. split; [done|].
    rewrite decide_False by (unfold mn; cbn; lia). split; [done|]. eauto.
Qed.

Lemma code_ok_k code : code_ok code → (1 ≤ kn code ≤ 32)%nat.
Proof. intros [[Hk _] _]. unfold kn, MAX_DATA_SHARDS in *. lia. Qed.

Lemma code_ok_total code : code_ok code → Z.to_nat (total_shards (scheme code)) = (kn code + mn code)%nat.
Proof. intros [[Hk Hm] _]. unfold kn, mn, total_shards. lia. Qed.

(** Encoding validated blocks: [m] blocks of the same length. *)
Lemma compute_parity_Ok code data len :
  code_ok code → (0 < len)%nat → length data = kn code → uniform len data →
  ∃ parity, compute_parity code data = Ok parity
    ∧ length parity = mn code ∧ uniform len parity
    ∧ (Forall (Forall is_u8) data → Forall (Forall is_u8) parity)
    ∧ ∀ rs, reed_solomon code = Some rs →
        rs_encode_sep rs data (replicate (mn code) (replicate len 0)) = Some parity.
Proof.
  intros Hok Hlen Hdata Huni. pose proof (code_ok_k _ Hok) as Hk.
  unfold compute_parity. fold (mn code).
  destruct (lookup_lt_is_Some_2 data 0) as [b0 Hd]; [lia|].
  assert (Z.of_nat (length data) =? data_shards (scheme code) = true) as ->
    by (unfold kn in *; destruct Hok as [[]]; lia).
  assert (length b0 = len) as Hb0 by exact (Forall_lookup_1 _ _ _ _ Huni Hd).
  cbn [ensure mbind res_bind]. rewrite Hd. cbn [expect mbind res_bind].
  rewrite Hb0. assert (negb (len =? 0)%nat = true) as -> by (destruct (Nat.eqb_spec len 0); lia).
  assert (forallb (λ b, (length b =? len)%nat) data = true) as ->.
  { apply forallb_forall. intros b Hb. apply Nat.eqb_eq.
    unfold uniform in Huni. rewrite Forall_forall in Huni. apply Huni. by apply list_elem_of_In. }
  cbn [ensure mbind res_bind].
  assert (uniform len (replicate (mn code) (replicate len 0))) as Hrep.
  { apply Forall_replicate. apply length_replicate. }
  destruct Hok as [Hs Hrs]. destruct (decide (mn code = O)) as [Hm|Hm].
  - rewrite Hrs. eexists. split_and!; [done|by rewrite length_replicate|done| |by intros].
    intros _. rewrite Hm. constructor.
  - destruct Hrs as [Hrs (rs & Hnew & ->)].
    destruct (rs_encode_ok _ _ Hrs rs len data (replicate (mn code) (replicate len 0)))
      as (out & Henc & Hout & Huout & Hbytes); [done|done|done|done|by rewrite length_replicate|done|].
    rewrite Henc. cbn. eexists; split_and!; [done..|]. by intros ? [= <-].
Qed.

(** The layout loop.  [filled] relates the slots to the pairs laid out. *)
Definition filled (present : list (ShardIndex * block)) (slots : list (option block)) : Prop :=
  ∀ i b, slots !! i = Some (Some b) ↔ (Z.of_nat i, b) ∈ present.

Lemma lay_out_Ok s slots bl index bytes slots' bl' :
  lay_out s (slots, bl) (index, bytes) = Ok (slots', bl') ↔
  contains s index = true ∧ slots !! Z.to_nat index = Some None
  ∧ (bl = None ∨ bl = Some (length bytes))
  ∧ slots' = <[Z.to_nat index := Some bytes]> slots ∧ bl' = Some (length bytes).
Proof.
  unfold lay_out. destruct (contains s index); cbn; [|naive_solver].
  destruct (slots !! Z.to_nat index) as [[c|]|]; cbn; [naive_solver| |naive_solver].
  destruct bl as [len|]; cbn; [|naive_solver].
  destruct (Nat.eqb_spec len (length bytes)) as [->|]; cbn; naive_solver.
Qed.

Lemma filled_insert laid slots index bytes :
  filled laid slots → 0 ≤ index → slots !! Z.to_nat index = Some None →
  filled (laid ++ [(index, bytes)]) (<[Z.to_nat index := Some bytes]> slots).
Proof.
  intros Hfill Hi Hnone i b. rewrite elem_of_app, list_elem_of_singleton, <- (Hfill i b).
  destruct (decide (i = Z.to_nat index)) as [->|Hne].
  - rewrite list_lookup_insert_eq by (by eapply lookup_lt_Some).
    rewrite Hnone, Z2Nat.id by done. naive_solver.
  - rewrite list_lookup_insert_ne by done. split; [by left|].
    intros [?|?]; [done|]. simplify_eq. lia.
Qed.

Lemma lay_out_loop s present slots0 bl0 laid slots bl :
  filled laid slots0 →
  (∀ p, p ∈ laid → bl0 = Some (length p.2)) →
  Forall (λ p, 0 ≤ p.1) present →
  fold_res (lay_out s) present (slots0, bl0) = Ok (slots, bl) →
  length slots = length slots0 ∧ filled (laid ++ present) slots
  ∧ (∀ p, p ∈ laid ++ present → bl = Some (length p.2))
  ∧ present_count slots = (present_count slots0 + length present)%nat.
Proof.
  revert slots0 bl0 laid. induction present as [|[index bytes] present IH];
    intros slots0 bl0 laid Hfill Hbl Hpos Hfold.
  { cbn in Hfold. injection Hfold as -> ->. rewrite app_nil_r. cbn. split_and!; [done..|lia]. }
  apply Forall_cons in Hpos as [Hi Hpos]. cbn [fold_res] in Hfold.
  apply bind_Ok in Hfold as ([slots1 bl1] & Hstep & Hfold).
  apply lay_out_Ok in Hstep as (_ & Hnone & Hblor & -> & ->).
  apply (IH _ _ (laid ++ [(index, bytes)])) in Hfold as (Hlen & Hfill' & Hbl' & Hcnt);
    [|by apply filled_insert| |done].
  - rewrite <- app_assoc in *. cbn [app] in *. rewrite length_insert in Hlen.
    split_and!; [done..|]. rewrite Hcnt, present_count_insert by done. cbn [length]. lia.
  - intros p [Hp| ->%list_elem_of_singleton]%elem_of_app; [|done].
    specialize (Hbl p Hp). destruct Hblor; congruence.
Qed.

Lemma lay_out_spec code present slots bl :
  Forall (λ p, 0 ≤ p.1) present →
  fold_res (lay_out (scheme code)) present
    (replicate (Z.to_nat (total_shards (scheme code))) None, None) = Ok (slots, bl) →
  length slots = Z.to_nat (total_shards (scheme code)) ∧ filled present slots
  ∧ (∀ p, p ∈ present → bl = Some (length p.2))
  ∧ present_count slots = length present.
Proof.
  intros Hpos Hfold. apply (lay_out_loop _ _ _ _ []) in Hfold as (H1 & H2 & H3 & H4); [..|done].
  - rewrite length_replicate in H1. rewrite present_count_replicate in H4. done.
  - intros i b. split; [|by intros ?%not_elem_of_nil].
    intros [? ?]%lookup_replicate. done.
  - by intros p ?%not_elem_of_nil.
Qed.

Lemma lay_out_complete s present slots0 bl0 laid len :
  filled laid slots0 → length slots0 = Z.to_nat (total_shards s) →
  (∀ p, p ∈ laid → bl0 = Some len) → (bl0 = None ∨ bl0 = Some len) →
  Forall (λ p, 0 ≤ p.1 < total_shards s ∧ length p.2 = len) present →
  NoDup (laid ++ present).*1 →
  ∃ slots bl, fold_res (lay_out s) present (slots0, bl0) = Ok (slots, bl).
Proof.
  revert slots0 bl0 laid. induction present as [|[index bytes] present IH];
    intros slots0 bl0 laid Hfill Hlen Hbl Hbl0 Hok Hnd; [by do 2 eexists|].
  apply Forall_cons in Hok as [[Hi Hb] Hok]. cbn in Hi, Hb. cbn [fold_res].
  assert (slots0 !! Z.to_nat index = Some None) as Hnone.
  { destruct (lookup_lt_is_Some_2 slots0 (Z.to_nat index)) as [o Ho]; [lia|].
    destruct o as [c|]; [|done]. exfalso.
    apply Hfill in Ho. rewrite Z2Nat.id in Ho by lia.
    rewrite fmap_app, fmap_cons in Hnd. cbn in Hnd.
    apply NoDup_app in Hnd as (_ & Hdisj & _). eapply Hdisj; [|by left].
    apply list_elem_of_fmap. by exists (index, c). }
  assert (lay_out s (slots0, bl0) (index, bytes)
          = Ok (<[Z.to_nat index := Some bytes]> slots0, Some (length bytes))) as ->.
  { apply lay_out_Ok. rewrite contains_true. rewrite Hb. split_and!; [lia|done|done|done|done]. }
  cbn [mbind res_bind]. rewrite Hb. apply (IH _ _ (laid ++ [(index, bytes)])).
  - apply filled_insert; [done|lia|done].
  - by rewrite length_insert.
  - done.
  - by right.
  - done.
  - by rewrite <- app_assoc.
Qed.

(** A slot is missing, so at least [k] present shards mean there is parity:
    the [expect] on the library object cannot fail, nor can the calls. *)
Lemma fill_missing_spec code slots bl wanted present :
  code_ok code → length slots = (kn code + mn code)%nat →
  filled present slots → (∀ p, p ∈ present → bl = Some (length p.2)) →
  present_count slots = length present →
  (∃ i, slots !! i = Some None) →
  let r := fill_missing code (Z.of_nat (length present)) bl wanted slots in
  returns r ∧ ∀ out, r = Ok out →
    length out = (kn code + mn code)%nat
    ∧ (∀ i b, slots !! i = Some (Some b) → out !! i = Some (Some b))
    ∧ (∀ w, w ∈ wanted → 0 ≤ w → contains (scheme code) w = true →
         ∃ b, out !! Z.to_nat w = Some (Some b)).
Proof.
  intros Hok Hlen Hfill Hbl Hcnt [i Hi]. cbn zeta. unfold fill_missing.
  pose proof (code_ok_k _ Hok) as Hk.
  destruct (Z.ltb_spec (Z.of_nat (length present)) (data_shards (scheme code))) as [|Hge]; cbn;
    [by split|].
  assert (kn code ≤ present_count slots)%nat as Hcount by (unfold kn; lia).
  destruct present as [|p0 present'] eqn:Hpres; [cbn in *; lia|]. rewrite <- Hpres in *.
  pose proof Hbl as Hbl'. rewrite (Hbl p0) in Hbl' |- * by (rewrite Hpres; by left).
  case_bool_decide as Hz; cbn; [|by split].
  assert (0 < length p0.2)%nat as Hpos by (destruct (length p0.2); [done|lia]).
  assert (∀ j b, slots !! j = Some (Some b) → length b = length p0.2) as Huni.
  { intros j b Hj%Hfill. specialize (Hbl' _ Hj). cbn in Hbl'. congruence. }
  destruct Hok as [Hs Hrs]. destruct (decide (mn code = O)) as [Hm|Hm].
  { exfalso. apply (present_count_full slots i); [|done].
    pose proof (present_count_le slots). lia. }
  destruct Hrs as [Hrs (rs & Hnew & ->)]. cbn.
  destruct (forallb _ wanted) eqn:Hall.
  - destruct (rs_reconstruct_data_total _ _ Hrs rs (length p0.2) slots)
      as (out & -> & Hlo & Hpresv & Hdata); [done..|].
    split; [done|]. intros ? [= <-]. split_and!; [done|done|].
    intros w Hw Hw0 Hc. apply Hdata. rewrite forallb_forall in Hall.
    specialize (Hall w). rewrite <- list_elem_of_In in Hall. specialize (Hall Hw).
    unfold is_parity, is_data in Hall. rewrite Hc in Hall. cbn in Hall. unfold kn. lia.
  - destruct (rs_reconstruct_total _ _ Hrs rs (length p0.2) slots)
      as (out & -> & Hlo & Hpresv & Hdata); [done..|].
    split; [done|]. intros ? [= <-]. split_and!; [done|done|].
    intros w Hw Hw0 Hc. apply Hdata. apply contains_true in Hc.
    unfold total_shards, kn, mn in *. destruct Hs. lia.
Qed.

Lemma wanted_in_range s wanted u :
  fold_res (λ _ index, ensure (contains s index) (IndexOutOfRange index)) wanted tt = Ok u
  ↔ Forall (λ w, contains s w = true) wanted.
Proof.
  destruct u. induction wanted as [|w wanted IH]; cbn; [split; [constructor|done]|].
  rewrite Forall_cons. destruct (contains s w); cbn; [rewrite IH|]; naive_solver.
Qed.

Lemma wanted_returns s wanted :
  returns (fold_res (λ _ index, ensure (contains s index) (IndexOutOfRange index)) wanted tt).
Proof. apply (fold_res_returns _ (λ _, True)); [|done]. by split; [auto with djbod|]. Qed.

Lemma needs_spec slots wanted acc :
  Forall (λ w, is_Some (slots !! Z.to_nat w)) wanted →
  fold_res (λ acc index, m ← slot_missing slots index; Ok (acc || m)) wanted acc
  = Ok (acc || existsb (λ w, bool_decide (slots !! Z.to_nat w = Some None)) wanted).
Proof.
  revert acc; induction wanted as [|w wanted IH]; intros acc Hall; cbn [fold_res existsb];
    [by rewrite orb_false_r|].
  apply Forall_cons in Hall as [[o Ho] Hall].
  assert (slot_missing slots w = Ok (bool_decide (o = None))) as ->
    by (unfold slot_missing; by rewrite Ho).
  cbn [mbind res_bind]. rewrite IH by done. f_equal.
  rewrite orb_assoc. f_equal. f_equal. apply bool_decide_ext. naive_solver.
Qed.

Lemma lay_out_returns code present :
  code_ok code → Forall (λ p, 0 ≤ p.1) present →
  returns (fold_res (lay_out (scheme code)) present
    (replicate (Z.to_nat (total_shards (scheme code))) None, None)).
Proof.
  intros Hok Hpos.
  apply (fold_res_returns _
    (λ st, length st.1 = Z.to_nat (total_shards (scheme code)))); [|apply length_replicate].
  intros [slots bl] [index bytes] Hin Hlen. cbn in Hlen.
  rewrite Forall_forall in Hpos. specialize (Hpos _ Hin). cbn in Hpos. split.
  - unfold lay_out. apply bind_returns; [auto with djbod|]. intros _ Hc%ensure_Ok.
    apply contains_true in Hc.
    destruct (lookup_lt_is_Some_2 slots (Z.to_nat index)) as [o ->]; [lia|]. cbn.
    apply bind_returns; [auto with djbod|]. intros _ _.
    destruct bl as [len|]; [|done]. by destruct (len =? length bytes)%nat.
  - intros [slots' bl'] (_ & _ & _ & -> & _)%lay_out_Ok. cbn. by rewrite length_insert.
Qed.

Definition pick_block (slots : list (option block)) (index : ShardIndex) : res CodingError block :=
  slot ← expect (slots !! Z.to_nat index); expect slot.

Definition refill code (present : list (ShardIndex * block)) bl wanted slots :=
  if existsb (λ w : ShardIndex, bool_decide ((slots : list (option block)) !! Z.to_nat w = Some None)) wanted
  then fill_missing code (Z.of_nat (length present)) bl wanted slots
  else Ok slots.

Lemma existsb_missing (slots : list (option block)) wanted :
  existsb (λ w, bool_decide (slots !! Z.to_nat w = Some None)) wanted = false →
  ∀ w, w ∈ wanted → slots !! Z.to_nat w ≠ Some None.
Proof.
  intros He w Hw Heq. apply not_true_iff_false in He. apply He.
  apply existsb_exists. exists w. split; [by apply list_elem_of_In|].
  by apply bool_decide_eq_true.
Qed.

Lemma wanted_slots code (slots : list (option block)) wanted :
  code_ok code → length slots = (kn code + mn code)%nat →
  Forall (λ w, 0 ≤ w) wanted → Forall (λ w, contains (scheme code) w = true) wanted →
  Forall (λ w, is_Some (slots !! Z.to_nat w)) wanted.
Proof.
  intros Hok Hlen Hpos Hrange. rewrite Forall_forall in Hrange, Hpos |- *.
  intros w Hw. apply lookup_lt_is_Some.
  specialize (Hrange w Hw). specialize (Hpos w Hw). apply contains_true in Hrange.
  rewrite Hlen, <- code_ok_total by done. lia.
Qed.

(** [reconstruct] once its arguments have passed the checks. *)
Lemma reconstruct_eq code present wanted slots bl :
  code_ok code → Forall (λ p, 0 ≤ p.1) present → Forall (λ w, 0 ≤ w) wanted →
  fold_res (lay_out (scheme code)) present
    (replicate (Z.to_nat (total_shards (scheme code))) None, None) = Ok (slots, bl) →
  Forall (λ w, contains (scheme code) w = true) wanted →
  reconstruct code present wanted =
    refill code present bl wanted slots ≫= (λ out, map_res (pick_block out) wanted).
Proof.
  intros Hok Hpos Hwpos Hlay Hrange.
  destruct (lay_out_spec _ _ _ _ Hpos Hlay) as (Hlen & _).
  rewrite code_ok_total in Hlen by done.
  unfold reconstruct. rewrite Hlay. cbn [mbind res_bind].
  rewrite (proj2 (wanted_in_range (scheme code) wanted tt) Hrange). cbn [mbind res_bind].
  rewrite needs_spec by (by eapply wanted_slots). done.
Qed.

Lemma refill_spec code present wanted slots bl :
  code_ok code → Forall (λ p, 0 ≤ p.1) present → Forall (λ w, 0 ≤ w) wanted →
  fold_res (lay_out (scheme code)) present
    (replicate (Z.to_nat (total_shards (scheme code))) None, None) = Ok (slots, bl) →
  Forall (λ w, contains (scheme code) w = true) wanted →
  returns (refill code present bl wanted slots) ∧
  ∀ out, refill code present bl wanted slots = Ok out →
    ∀ w, w ∈ wanted → ∃ b, out !! Z.to_nat w = Some (Some b).
Proof.
  intros Hok Hpos Hwpos Hlay Hrange.
  destruct (lay_out_spec _ _ _ _ Hpos Hlay) as (Hlen & Hfill & Hbl & Hcnt).
  rewrite code_ok_total in Hlen by done. unfold refill.
  pose proof (wanted_slots _ _ _ Hok Hlen Hwpos Hrange) as Hsome.
  destruct (existsb _ wanted) eqn:Hex.
  - apply existsb_exists in Hex as (w & _ & Hw%bool_decide_eq_true).
    destruct (fill_missing_spec code slots bl wanted present) as [Hr Hout]; [done..|eauto|].
    split; [done|]. intros out Hfm w' Hw'. destruct (Hout out Hfm) as (_ & _ & Hall).
    rewrite Forall_forall in Hwpos, Hrange. apply Hall; auto.
  - split; [done|]. intros ? [= <-] w Hw. rewrite Forall_forall in Hsome.
    destruct (Hsome w Hw) as [[b|] Hb]; [eauto|]. by destruct (existsb_missing _ _ Hex w Hw).
Qed.

Lemma reconstruct_no_panic code present wanted :
  code_ok code → Forall (λ p, 0 ≤ p.1) present → Forall (λ w, 0 ≤ w) wanted →
  returns (reconstruct code present wanted).
Proof.
  intros Hok Hpos Hwpos.
  pose proof (lay_out_returns _ _ Hok Hpos) as Hlr.
  destruct (fold_res (lay_out (scheme code)) present _) as [[slots bl]|e|] eqn:Hlay; [|unfold reconstruct; by rewrite Hlay|done].
  destruct (decide (Forall (λ w, contains (scheme code) w = true) wanted)) as [Hrange|Hrange].
  - rewrite (reconstruct_eq _ _ _ _ _ Hok Hpos Hwpos Hlay Hrange).
    destruct (refill_spec _ _ _ _ _ Hok Hpos Hwpos Hlay Hrange) as [Hr Hout].
    apply bind_returns; [done|]. intros out Hout'. apply map_res_returns.
    intros w Hw. destruct (Hout _ Hout' w Hw) as [b Hb]. unfold pick_block. by rewrite Hb.
  - unfold reconstruct. rewrite Hlay. cbn [mbind res_bind].
    pose proof (wanted_returns (scheme code) wanted) as Hr.
    destruct (fold_res _ wanted tt) as [[]|e|] eqn:Hw; [|done..].
    by apply wanted_in_range in Hw.
Qed.

(** The shards of one codeword: [k] data blocks of length [len] and the
    parity [compute_parity] gives for them. *)
Definition codeword code (len : nat) (data parity : list block) : Prop :=
  (0 < len)%nat ∧ length data = kn code ∧ uniform len data
  ∧ compute_parity code data = Ok parity.

Lemma codeword_parity code len data parity :
  code_ok code → codeword code len data parity →
  length parity = mn code ∧ uniform len parity ∧
  ∀ rs, reed_solomon code = Some rs →
    rs_encode_sep rs data (replicate (mn code) (replicate len 0)) = Some parity.
Proof.
  intros Hok (Hlen & Hd & Hu & Hp).
  destruct (compute_parity_Ok code data len) as (p & Hp' & ? & ? & _ & ?); [done..|].
  assert (p = parity) as -> by congruence. done.
Qed.

Lemma codeword_uniform code len data parity i b :
  code_ok code → codeword code len data parity →
  (data ++ parity) !! i = Some b → length b = len.
Proof.
  intros Hok Hcw Hi. destruct (codeword_parity _ _ _ _ Hok Hcw) as (_ & Hup & _).
  destruct Hcw as (_ & _ & Hud & _).
  apply (Forall_lookup_1 (λ b, length b = len) (data ++ parity) i b); [|done].
  by apply Forall_app.
Qed.

(** Blocks rebuilt from shards of a codeword are the codeword's. *)
Lemma refill_word code present wanted slots bl out len data parity i b :
  code_ok code → codeword code len data parity →
  length slots = (kn code + mn code)%nat → filled present slots →
  present_count slots = length present →
  Forall (λ p, (data ++ parity) !! Z.to_nat p.1 = Some p.2) present →
  refill code present bl wanted slots = Ok out →
  out !! i = Some (Some b) → (data ++ parity) !! i = Some b.
Proof.
  intros Hok Hcw Hlen Hfill Hcnt Hword Hre Hi.
  destruct (codeword_parity _ _ _ _ Hok Hcw) as (Hpl & Hup & Henc).
  assert (agrees slots (data ++ parity)) as Hag.
  { destruct Hcw as (_ & Hdl & _). split; [rewrite length_app; lia|].
    intros j c Hj%Hfill. rewrite Forall_forall in Hword. specialize (Hword _ Hj).
    cbn in Hword. by rewrite Nat2Z.id in Hword. }
  unfold refill in Hre. destruct (existsb _ wanted); [|simplify_eq; by apply Hag].
  unfold fill_missing in Hre. inv_ok Hre. rewrite !ensure_Ok in *.
  destruct (reed_solomon code) as [rs|] eqn:Hrs; [|done]. cbn in *. simplify_eq.
  destruct Hok as [Hs Hif]. destruct (decide (mn code = O)); [congruence|].
  destruct Hif as [Hc (rs' & Hnew & ?)]. simplify_eq.
  destruct Hcw as (Hlpos & Hdl & Hud & _).
  assert (kn code ≤ present_count slots)%nat as Hk by (unfold kn; lia).
  assert (uniform len (replicate (mn code) (replicate len 0))) as Hu0
    by (apply Forall_replicate, length_replicate).
  specialize (Henc _ eq_refl).
  destruct (forallb _ wanted).
  - destruct (rs_reconstruct_data _ slots) as [o|] eqn:Ho; [|done]. cbn in Hre. simplify_eq.
    eapply (rs_reconstruct_data_word _ _ Hc);
      [exact Hnew|exact Hlpos|done|done|apply length_replicate|exact Hu0|done|done|done|done|done].
  - destruct (rs_reconstruct _ slots) as [o|] eqn:Ho; [|done]. cbn in Hre. simplify_eq.
    eapply (rs_reconstruct_word _ _ Hc);
      [exact Hnew|exact Hlpos|done|done|apply length_replicate|exact Hu0|done|done|done|done|done].
Qed.

(** Shards of a codeword pass the layout loop. *)
Lemma lay_out_codeword code len data parity present :
  code_ok code → codeword code len data parity →
  Forall (λ p, 0 ≤ p.1 ∧ (data ++ parity) !! Z.to_nat p.1 = Some p.2) present →
  NoDup present.*1 →
  ∃ slots bl, fold_res (lay_out (scheme code)) present
    (replicate (Z.to_nat (total_shards (scheme code))) None, None) = Ok (slots, bl).
Proof.
  intros Hok Hcw Hpres Hnd.
  destruct (codeword_parity _ _ _ _ Hok Hcw) as (Hpl & _ & _).
  apply (lay_out_complete _ _ _ _ [] len).
  - intros i b. split; [|by intros ?%not_elem_of_nil]. by intros [? ?]%lookup_replicate.
  - apply length_replicate.
  - by intros p ?%not_elem_of_nil.
  - by left.
  - eapply Forall_impl; [exact Hpres|]. intros [j c] [Hj Hc]. cbn in *. split.
    + apply lookup_lt_Some in Hc. rewrite length_app in Hc.
      pose proof (code_ok_total _ Hok). destruct Hcw as (_ & Hdl & _). lia.
    + by eapply codeword_uniform.
  - done.
Qed.

Lemma refill_not_Err code present bl wanted slots e :
  (∀ p, p ∈ present → bl = Some (length p.2)) →
  Forall (λ p, (0 < length p.2)%nat) present →
  (1 ≤ kn code ≤ length present)%nat →
  refill code present bl wanted slots ≠ Err e.
Proof.
  intros Hbl Hpos Hk. unfold refill, fill_missing. destruct (existsb _ wanted); [|done].
  destruct present as [|p present]; [cbn in Hk; lia|].
  rewrite (Hbl p) by (by left). apply Forall_cons in Hpos as [Hp _].
  destruct (Z.ltb_spec (Z.of_nat (length (p :: present))) (data_shards (scheme code)));
    [unfold kn in *; lia|].
  cbn. rewrite bool_decide_eq_true_2 by (intros [= ?]; lia). cbn.
  destruct (reed_solomon code) as [rs|]; cbn; [|done].
  destruct (forallb _ _);
    [destruct (rs_reconstruct_data _ _)|destruct (rs_reconstruct _ _)]; done.
Qed.

Lemma reconstruct_codeword code len data parity present wanted :
  code_ok code → codeword code len data parity →
  Forall (λ p, 0 ≤ p.1 ∧ (data ++ parity) !! Z.to_nat p.1 = Some p.2) present →
  NoDup present.*1 → (kn code ≤ length present)%nat →
  Forall (λ w, 0 ≤ w < total_shards (scheme code)) wanted →
  ∃ out, reconstruct code present wanted = Ok out ∧
         Forall2 (λ w b, (data ++ parity) !! Z.to_nat w = Some b) wanted out.
Proof.
  intros Hok Hcw Hpres Hnd Hk Hwant. pose proof (code_ok_k _ Hok) as Hk1.
  assert (Forall (λ p : Z * block, 0 ≤ p.1) present) as Hpos by (eapply Forall_impl; [exact Hpres|]; by intros p [? ?]).
  assert (Forall (λ w, 0 ≤ w) wanted) as Hwpos by (eapply Forall_impl; [exact Hwant|]; by intros w [? ?]).
  assert (Forall (λ w, contains (scheme code) w = true) wanted) as Hrange
    by (eapply Forall_impl; [exact Hwant|]; intros w [? ?]; by apply contains_true).
  destruct (lay_out_codeword _ _ _ _ _ Hok Hcw Hpres Hnd) as (slots & bl & Hlay).
  destruct (lay_out_spec _ _ _ _ Hpos Hlay) as (Hlen & Hfill & Hbl & Hcnt).
  rewrite code_ok_total in Hlen by done.
  rewrite (reconstruct_eq _ _ _ _ _ Hok Hpos Hwpos Hlay Hrange).
  destruct (refill_spec _ _ _ _ _ Hok Hpos Hwpos Hlay Hrange) as [Hr Hall].
  destruct (refill code present bl wanted slots) as [out|e|] eqn:Hre; [|exfalso|done].
  - cbn. pose proof (λ i b, refill_word code present wanted slots bl out len data parity i b
      Hok Hcw Hlen Hfill Hcnt (Forall_impl _ _ _ Hpres (λ p Hp, proj2 Hp)) Hre) as Hword.
    assert (∃ r, Forall2 (λ w b, out !! Z.to_nat w = Some (Some b)) wanted r) as [r Hr2].
    { clear -Hall. specialize (Hall out eq_refl). induction wanted as [|w wanted IH]; [by exists []|].
      destruct (Hall w) as [b Hb]; [by left|]. destruct IH as [r ?]; [intros; apply Hall; by right|].
      exists (b :: r). by constructor. }
    exists r. split; [|eapply Forall2_impl; [exact Hr2|]; intros; by apply Hword].
    apply map_res_Ok. eapply Forall2_impl; [exact Hr2|]. intros w b Hb. unfold pick_block. by rewrite Hb.
  - apply (refill_not_Err code present bl wanted slots e); [exact Hbl| |lia|exact Hre].
    eapply Forall_impl; [exact Hpres|]. intros p [_ Hp].
    rewrite (codeword_uniform _ _ _ _ _ _ Hok Hcw Hp). by destruct Hcw.
Qed.
End code_lemmas.
