(* ===== verification/XorCode.v ===== *)
(** A concrete library for [ReedSolomonLib]: one parity block, the exclusive
    or of the data blocks.  It is a genuine erasure code for every scheme
    [k + 1], satisfies [rs_correct k 1], and is what the witnesses of the
    theorems about coding run on. *)

From S2P Require Import Prelude Erasure.

Definition xor_block (a b : block) : block := zip_with Z.lxor a b.

Definition xor_all (len : nat) (bs : list block) : block :=
  foldr xor_block (replicate len 0) bs.

Definition slots_len (slots : list (option block)) : nat :=
  match omap id slots with b :: _ => length b | [] => O end.

Definition xor_fill (slots : list (option block)) : list (option block) :=
  let x := xor_all (slots_len slots) (omap id slots) in
  (λ o : option block, Some (default x o)) <$> slots.

#[global] Instance xor_lib : ReedSolomonLib := {|
  rs_obj := unit;
  rs_new k m := if decide (m = 1%nat) then Some tt else None;
  rs_encode_sep _ data parity :=
    match parity with
    | buf :: _ => Some [xor_all (length buf) data]
    | [] => None
    end;
  rs_reconstruct_data _ slots := Some (xor_fill slots);
  rs_reconstruct _ slots := Some (xor_fill slots);
|}.

(** ** Exclusive or of equal-length blocks *)

Lemma length_xor_block a b len : length a = len → length b = len → length (xor_block a b) = len.
Proof. intros. unfold xor_block. rewrite length_zip_with. lia. Qed.

Lemma length_xor_all len bs : uniform len bs → length (xor_all len bs) = len.
Proof.
  induction bs as [|b bs IH]; intros Hu; [apply length_replicate|].
  apply Forall_cons in Hu as [Hb Hu]. by apply length_xor_block; [|apply IH].
Qed.

Lemma xor_block_assoc a b c : xor_block a (xor_block b c) = xor_block (xor_block a b) c.
Proof.
  revert b c; induction a as [|x a IH]; intros [|y b] [|z c]; cbn; try done.
  f_equal; [by rewrite Z.lxor_assoc|apply IH].
Qed.

Lemma xor_block_comm a b : xor_block a b = xor_block b a.
Proof.
  revert b; induction a as [|x a IH]; intros [|y b]; cbn; try done.
  f_equal; [apply Z.lxor_comm|apply IH].
Qed.

Lemma xor_block_0_r len a : length a = len → xor_block a (replicate len 0) = a.
Proof.
  revert len; induction a as [|x a IH]; intros [|len] Hl; cbn in *; try done.
  rewrite Z.lxor_0_r. f_equal. apply IH. lia.
Qed.

Lemma xor_block_self len a : length a = len → xor_block a a = replicate len 0.
Proof.
  revert len; induction a as [|x a IH]; intros [|len] Hl; cbn in *; try done.
  rewrite Z.lxor_nilpotent. f_equal. apply IH. lia.
Qed.

(** [a xor b = 0] only for [a = b]. *)
Lemma xor_block_eq len a b :
  length a = len → length b = len → xor_block a b = replicate len 0 → a = b.
Proof.
  intros Ha Hb Hx. rewrite <- (xor_block_0_r len a Ha), <- Hx, xor_block_assoc.
  rewrite (xor_block_self len a Ha), xor_block_comm. by rewrite xor_block_0_r.
Qed.

(** A codeword sums to zero. *)
Lemma xor_codeword len data :
  uniform len data → xor_all len (data ++ [xor_all len data]) = replicate len 0.
Proof.
  intros Hu. unfold xor_all at 1. rewrite foldr_app. cbn.
  rewrite xor_block_0_r by (by apply length_xor_all).
  assert (∀ y, length y = len → foldr xor_block y data = xor_block y (xor_all len data)) as Hf.
  { clear -Hu. induction data as [|b data IH]; intros y Hy; cbn; [by rewrite xor_block_0_r|].
    apply Forall_cons in Hu as [Hb Hu]. rewrite (IH Hu y Hy).
    rewrite !xor_block_assoc. f_equal. apply xor_block_comm. }
  rewrite Hf by (by apply length_xor_all). by apply xor_block_self, length_xor_all.
Qed.

Lemma agrees_cons o slots x word :
  agrees (o :: slots) (x :: word) →
  agrees slots word ∧ ∀ c, o = Some c → c = x.
Proof.
  intros [Hlen Hag]. cbn in Hlen. split; [split; [lia|]|].
  - intros j b Hj. by apply (Hag (S j)).
  - intros c ->. specialize (Hag O c eq_refl). cbn in Hag. congruence.
Qed.

Lemma omap_full slots word :
  agrees slots word → present_count slots = length slots → omap id slots = word.
Proof.
  revert word; induction slots as [|o slots IH]; intros word Hag Hfull;
    destruct word as [|x word]; try (by destruct Hag).
  destruct o as [c|]; [|by destruct (present_count_full (None :: slots) 0 Hfull)].
  unfold present_count in *. rewrite filter_cons_True in Hfull by eauto. cbn [length] in Hfull.
  apply agrees_cons in Hag as [Hag Hc]. cbn. rewrite (Hc c) by done. f_equal. apply IH; [done|lia].
Qed.

(** With one slot empty, its block and the sum of the others is the whole sum. *)
Lemma xor_slots len slots word i w :
  agrees slots word → slots !! i = Some None → word !! i = Some w →
  (length slots ≤ S (present_count slots))%nat →
  xor_block w (xor_all len (omap id slots)) = xor_all len word.
Proof.
  revert i word; induction slots as [|o slots IH]; intros i word Hag Hi Hw Hcnt; [done|].
  destruct word as [|x word]; [done|]. apply agrees_cons in Hag as [Hag Hc].
  unfold present_count in Hcnt. destruct o as [c|].
  - rewrite filter_cons_True in Hcnt by eauto. cbn [length] in Hcnt.
    destruct i as [|i]; [done|]. cbn in Hi, Hw. rewrite (Hc c) by done.
    change (xor_block w (xor_block x (xor_all len (omap id slots)))
            = xor_block x (xor_all len word)).
    rewrite xor_block_assoc, (xor_block_comm w x), <- xor_block_assoc. f_equal.
    apply (IH i); [done..|]. unfold present_count. lia.
  - rewrite filter_cons_False in Hcnt by (by intros [? ?]). cbn [length] in Hcnt.
    assert (present_count slots = length slots) as Hfull.
    { pose proof (present_count_le slots). unfold present_count in *. lia. }
    destruct i as [|i]; [|by destruct (present_count_full slots i Hfull)].
    cbn in Hw. simplify_eq. cbn. by rewrite (omap_full slots word).
Qed.

(** ** The contract *)

Lemma slots_len_uniform len slots :
  (∀ i b, slots !! i = Some (Some b) → length b = len) →
  (0 < present_count slots)%nat → slots_len slots = len.
Proof.
  intros Hu Hc. unfold slots_len. induction slots as [|[b|] slots IH].
  - cbn in Hc. lia.
  - cbn. by apply (Hu O).
  - cbn. apply IH; [intros i b Hi; by apply (Hu (S i))|].
    unfold present_count in *. by rewrite filter_cons_False in Hc by (by intros [? ?]).
Qed.

Lemma xor_fill_spec slots :
  length (xor_fill slots) = length slots
  ∧ (∀ i b, slots !! i = Some (Some b) → xor_fill slots !! i = Some (Some b))
  ∧ (∀ i, (i < length slots)%nat → ∃ b, xor_fill slots !! i = Some (Some b)).
Proof.
  unfold xor_fill. rewrite length_fmap. split_and!; [done|..].
  - intros i b Hi. by rewrite list_lookup_fmap, Hi.
  - intros i Hi. rewrite list_lookup_fmap.
    destruct (lookup_lt_is_Some_2 slots i Hi) as [o ->]. cbn. eauto.
Qed.

Lemma xor_fill_word k len data parity0 parity slots i b :
  (0 < k)%nat → length data = k → uniform len data → length parity0 = 1%nat → uniform len parity0 →
  rs_encode_sep tt data parity0 = Some parity → agrees slots (data ++ parity) →
  (k ≤ present_count slots)%nat →
  xor_fill slots !! i = Some (Some b) → (data ++ parity) !! i = Some b.
Proof.
  intros Hk Hd Hu Hp0 Hu0 Henc Hag Hcnt Hi.
  destruct parity0 as [|buf [|? ?]]; [done| |done]. cbn in Henc. injection Henc as <-.
  apply Forall_cons in Hu0 as [Hbuf _]. rewrite Hbuf in *.
  assert (uniform len (data ++ [xor_all len data])) as Huw.
  { apply Forall_app; split; [done|]. repeat constructor. by apply length_xor_all. }
  assert (length slots = S k) as Hsl.
  { destruct Hag as [-> _]. rewrite length_app. cbn. lia. }
  unfold xor_fill in Hi. rewrite list_lookup_fmap in Hi.
  destruct (slots !! i) as [[c|]|] eqn:Hs; cbn in Hi; [|..|done].
  - simplify_eq. by apply Hag.
  - destruct (lookup_lt_is_Some_2 (data ++ [xor_all len data]) i) as [w Hw].
    { destruct Hag as [<- _]. by eapply lookup_lt_Some. }
    rewrite Hw. f_equal. assert (length w = len) as Hwl by exact (Forall_lookup_1 _ _ _ _ Huw Hw).
    assert (∀ j c, slots !! j = Some (Some c) → length c = len) as Hsu.
    { intros j c Hj. apply Hag in Hj. exact (Forall_lookup_1 _ _ _ _ Huw Hj). }
    rewrite (slots_len_uniform len) in Hi by (done || lia). injection Hi as <-.
    apply (xor_block_eq len); [done|apply length_xor_all|].
    + apply Forall_forall. intros c Hc. apply list_elem_of_omap in Hc as (o & Ho & Heq).
      apply list_elem_of_lookup in Ho as [j Hj]. cbn in Heq. subst o. by eapply Hsu.
    + rewrite (xor_slots len slots _ i) by (done || lia). by apply xor_codeword.
Qed.

Lemma xor_byte a b : is_u8 a → is_u8 b → is_u8 (Z.lxor a b).
Proof.
  unfold is_uint. intros Ha Hb. split; [apply Z.lxor_nonneg; lia|].
  destruct (decide (Z.lxor a b = 0)) as [->|Hne]; [lia|].
  apply Z.log2_lt_pow2; [|].
  { pose proof (proj2 (Z.lxor_nonneg a b)). lia. }
  eapply Z.le_lt_trans; [apply Z.log2_lxor; lia|].
  assert (∀ x, 0 ≤ x < 256 → Z.log2 x < 8) as Hl.
  { intros x Hx. destruct (decide (x = 0)) as [->|]; [done|]. apply Z.log2_lt_pow2; lia. }
  apply Z.max_lub_lt; apply Hl; lia.
Qed.

Lemma xor_all_bytes len bs : Forall (Forall is_u8) bs → Forall is_u8 (xor_all len bs).
Proof.
  induction bs as [|b bs IH]; intros Hb; cbn.
  { apply Forall_replicate. unfold is_uint. lia. }
  apply Forall_cons in Hb as [Hb Hbs]. specialize (IH Hbs).
  change (Forall is_u8 (xor_block b (xor_all len bs))). revert IH.
  generalize (xor_all len bs); intros c Hc. revert b Hb.
  induction Hc as [|y c Hy Hc IH]; intros [|x b] Hb; cbn; try constructor.
  - apply Forall_cons in Hb as [Hx _]. by apply xor_byte.
  - apply Forall_cons in Hb as [_ Hb]. by apply IH.
Qed.

Lemma xor_correct k : (0 < k)%nat → rs_correct k 1.
Proof.
  intros Hk. constructor.
  - by exists tt.
  - intros rs len data parity _ Hlen Hd Hu Hp Hup.
    destruct parity as [|buf [|? ?]]; [done| |done]. apply Forall_cons in Hup as [Hbuf _].
    eexists. split; [done|]. rewrite Hbuf. split_and!; [done| |].
    + repeat constructor. by apply length_xor_all.
    + intros Hb. repeat constructor. by apply xor_all_bytes.
  - intros rs len slots _ Hlen Hl Hu Hc. destruct (xor_fill_spec slots) as (H1 & H2 & H3).
    eexists; split_and!; [done|by rewrite H1|done|]. intros i Hi. apply H3. lia.
  - intros rs len slots _ Hlen Hl Hu Hc. destruct (xor_fill_spec slots) as (H1 & H2 & H3).
    eexists; split_and!; [done|by rewrite H1|done|]. intros i Hi. apply H3. lia.
  - intros [] len data parity0 parity slots out i b _ Hl Hd Hu Hp0 Hu0 Henc Hag Hc [= <-] Hi.
    by eapply (xor_fill_word k len).
  - intros [] len data parity0 parity slots out i b _ Hl Hd Hu Hp0 Hu0 Henc Hag Hc [= <-] Hi.
    by eapply (xor_fill_word k len).
Qed.
