(* ===== verification/Layout.v ===== *)
(** [layout.rs]: the names of the files and directories under a device root.

    A path is the list of its components from the root of the file system;
    [Path::join] of one plain name appends it.  The bucket and every name the
    program joins are such names. *)

From S2P Require Import Prelude Text Checksum KeyHash VersionId Erasure.

Abbreviation path := (list (list Z)) (only parsing).

(** [Path::join] with a plain name *)
Definition join (p : path) (name : str) : path := p ++ [name].

Definition OBJECTS_DIR : str := lit "objects".
Definition DEFAULT_BUCKET : str := lit "default".
Definition RECORD_SUFFIX : str := lit ".meta.json".
Definition SHARD_SUFFIX : str := lit ".shard".
Definition DOT : Z := 46.

Definition object_directory (device_root : path) (bucket : str) (key_hash : KeyHash) : path :=
  let '(first, second, full) := directory_components key_hash in
  join (join (join (join (join device_root OBJECTS_DIR) bucket) first) second) full.

Definition record_file_name (version : VersionId) : str := to_text version ++ RECORD_SUFFIX.

Definition shard_file_name (version : VersionId) (index : ShardIndex) : str :=
  to_text version ++ DOT :: fmt_dec index ++ SHARD_SUFFIX.

Definition parse_shard_file_name (name : str) : option (VersionId * ShardIndex) :=
  stem ← strip_suffix SHARD_SUFFIX name;
  '(version_text, index_text) ← split_once DOT stem;
  version ← from_text version_text;
  index ← from_str_radix 10 255 index_text;
  Some (version, index).

Definition parse_record_file_name (name : str) : option VersionId :=
  version_text ← strip_suffix RECORD_SUFFIX name;
  from_text version_text.

(** ** Lemmas *)

Lemma object_directory_inj root bucket h1 h2 :
  key_hash_ok h1 → key_hash_ok h2 →
  object_directory root bucket h1 = object_directory root bucket h2 → h1 = h2.
Proof.
  intros [Hl1 H1] [Hl2 H2]. unfold object_directory, directory_components, join.
  intros [_ Heq]%app_inj_tail.
  pose proof (hex_pairs_roundtrip [] h1 H1) as R1. pose proof (hex_pairs_roundtrip [] h2 H2) as R2.
  cbn [app length] in R1, R2. rewrite Hl1, Heq in R1. rewrite Hl2 in R2. congruence.
Qed.

Lemma dot_not_in_text v : DOT ∉ to_text v.
Proof.
  rewrite to_text_digits. intros (d & Hd & Hin)%list_elem_of_fmap.
  pose proof (to_digits_range 32 ltac:(lia) 26 (of_be v)) as Hr.
  rewrite Forall_forall in Hr. specialize (Hr _ Hin).
  assert (letter 0 ≤ letter d) by (apply letter_le; lia). change (letter 0) with 48 in *.
  unfold DOT in *. lia.
Qed.

Lemma dec_digits_nodot fuel n : 0 ≤ n < 10 ^ Z.of_nat fuel → DOT ∉ (λ d, 48 + d) <$> dec_digits fuel n.
Proof.
  intros Hn (d & Hd & Hin)%list_elem_of_fmap.
  destruct (dec_digits_spec fuel n Hn) as (Hr & _). rewrite Forall_forall in Hr.
  specialize (Hr _ Hin). unfold DOT in *. lia.
Qed.

Lemma parse_record_Some name v :
  parse_record_file_name name = Some v ↔
  ∃ t, name = t ++ RECORD_SUFFIX ∧ from_text t = Some v.
Proof.
  unfold parse_record_file_name. rewrite bind_Some. by setoid_rewrite strip_suffix_Some.
Qed.

Lemma parse_shard_Some name v i :
  parse_shard_file_name name = Some (v, i) ↔
  ∃ t d, name = t ++ DOT :: d ++ SHARD_SUFFIX ∧ DOT ∉ t
    ∧ from_text t = Some v ∧ from_str_radix 10 255 d = Some i.
Proof.
  unfold parse_shard_file_name. rewrite bind_Some. setoid_rewrite strip_suffix_Some. split.
  - intros (stem & -> & H). apply bind_Some in H as ([t d] & [-> Hdot]%split_once_Some & H).
    apply bind_Some in H as (v' & Hv & H). apply bind_Some in H as (i' & Hi & [= -> ->]).
    exists t, d. by rewrite <- app_assoc.
  - intros (t & d & -> & Hdot & Hv & Hi). exists (t ++ DOT :: d). split; [by rewrite <- app_assoc|].
    rewrite split_once_app by done. cbn [mbind option_bind]. by rewrite Hv, Hi.
Qed.

(** The two suffixes end in different characters. *)
Lemma suffix_disjoint s t : s ++ RECORD_SUFFIX ≠ t ++ SHARD_SUFFIX.
Proof.
  intros Heq. apply (f_equal last) in Heq. rewrite !last_app in Heq. done.
Qed.

Lemma parse_shard_shard v i :
  version_ok v → is_u8 i → parse_shard_file_name (shard_file_name v i) = Some (v, i).
Proof.
  intros Hv Hi. unfold is_uint in Hi. apply parse_shard_Some. exists (to_text v), (fmt_dec i).
  split_and!; [done|apply dot_not_in_text|by apply from_text_to_text|].
  apply from_str_radix_fmt_dec; lia.
Qed.

Lemma parse_record_record v :
  version_ok v → parse_record_file_name (record_file_name v) = Some v.
Proof. intros Hv. apply parse_record_Some. exists (to_text v). split; [done|by apply from_text_to_text]. Qed.

Lemma shard_file_name_inj v i w j :
  version_ok v → is_u8 i → version_ok w → is_u8 j →
  shard_file_name v i = shard_file_name w j → v = w ∧ i = j.
Proof.
  intros Hv Hi Hw Hj Heq. pose proof (parse_shard_shard v i Hv Hi) as H1.
  rewrite Heq, parse_shard_shard in H1 by done. naive_solver.
Qed.

Lemma record_file_name_inj v w :
  version_ok v → version_ok w → record_file_name v = record_file_name w → v = w.
Proof.
  intros Hv Hw Heq. pose proof (parse_record_record v Hv) as H1.
  rewrite Heq, parse_record_record in H1 by done. naive_solver.
Qed.

Lemma record_not_shard v : parse_shard_file_name (record_file_name v) = None.
Proof.
  destruct (parse_shard_file_name _) as [[w j]|] eqn:Hp; [|done].
  apply parse_shard_Some in Hp as (t & d & Heq & _).
  exfalso. apply (suffix_disjoint (to_text v) (t ++ DOT :: d)). by rewrite <- app_assoc.
Qed.

Lemma shard_not_record v i : parse_record_file_name (shard_file_name v i) = None.
Proof.
  destruct (parse_record_file_name _) as [w|] eqn:Hp; [|done].
  apply parse_record_Some in Hp as (t & Heq & _).
  exfalso. apply (suffix_disjoint t (to_text v ++ DOT :: fmt_dec i)).
  rewrite <- Heq. unfold shard_file_name. by rewrite <- app_assoc.
Qed.

Lemma parse_shard_ok name v i :
  parse_shard_file_name name = Some (v, i) → version_ok v ∧ is_u8 i.
Proof.
  intros (t & d & _ & _ & Ht & Hd)%parse_shard_Some. split; [by eapply from_text_sound|].
  apply from_str_radix_range in Hd; unfold is_uint; lia.
Qed.

Lemma parse_record_ok name v : parse_record_file_name name = Some v → version_ok v.
Proof. intros (t & _ & Ht)%parse_record_Some. by eapply from_text_sound. Qed.

(** ** Properties *)

(** A directory listing is read back exactly: the name of a record or of
    a shard parses to the version (and index) it was made from, and never as
    a name of the other kind. *)
Theorem file_names_roundtrip (v : VersionId) (i : ShardIndex) :
  version_ok v → is_u8 i →
  parse_record_file_name (record_file_name v) = Some v
  ∧ parse_shard_file_name (shard_file_name v i) = Some (v, i)
  ∧ parse_shard_file_name (record_file_name v) = None
  ∧ parse_record_file_name (shard_file_name v i) = None.
Proof.
  intros Hv Hi. split_and!;
    [by apply parse_record_record|by apply parse_shard_shard|apply record_not_shard|apply shard_not_record].
Qed.

Lemma file_names_roundtrip_witness :
  let v := replicate 16 7 in
  parse_record_file_name (record_file_name v) = Some v
  ∧ parse_shard_file_name (shard_file_name v 5) = Some (v, 5)
  ∧ parse_shard_file_name (record_file_name v) = None
  ∧ parse_record_file_name (shard_file_name v 5) = None.
Proof.
  apply (file_names_roundtrip (replicate 16 7) 5); [|split; lia].
  split; [reflexivity|]. apply Forall_replicate. split; lia.
Defined.

(** Distinct objects never share a file: two keys hashed apart have
    different directories, and two shards or records different names. *)
Theorem file_paths_injective (root : path) (bucket : str) (h1 h2 : KeyHash)
    (v1 v2 : VersionId) (i1 i2 : ShardIndex) :
  key_hash_ok h1 → key_hash_ok h2 → version_ok v1 → version_ok v2 → is_u8 i1 → is_u8 i2 →
  (join (object_directory root bucket h1) (shard_file_name v1 i1)
   = join (object_directory root bucket h2) (shard_file_name v2 i2)
   → h1 = h2 ∧ v1 = v2 ∧ i1 = i2)
  ∧ (join (object_directory root bucket h1) (record_file_name v1)
     = join (object_directory root bucket h2) (record_file_name v2) → h1 = h2 ∧ v1 = v2)
  ∧ join (object_directory root bucket h1) (record_file_name v1)
    ≠ join (object_directory root bucket h2) (shard_file_name v2 i2).
Proof.
  intros Hh1 Hh2 Hv1 Hv2 Hi1 Hi2. unfold join at 1 2 3 4 5 6. split_and!.
  - intros [Hd Hn]%app_inj_tail. apply object_directory_inj in Hd; [|done..].
    apply shard_file_name_inj in Hn as [-> ->]; done.
  - intros [Hd Hn]%app_inj_tail. apply object_directory_inj in Hd; [|done..].
    by apply record_file_name_inj in Hn.
  - intros [_ Hn]%app_inj_tail. pose proof (record_not_shard v1) as H1.
    rewrite Hn, parse_shard_shard in H1; done.
Qed.

Lemma file_paths_injective_witness :
  let h1 := replicate 32 1 in let h2 := replicate 32 2 in let v := replicate 16 7 in
  join (object_directory [] DEFAULT_BUCKET h1) (shard_file_name v 0)
  ≠ join (object_directory [] DEFAULT_BUCKET h2) (shard_file_name v 0).
Proof.
  intros h1 h2 v Heq.
  destruct (file_paths_injective [] DEFAULT_BUCKET h1 h2 v v 0 0) as [H _];
    [..|destruct (H Heq) as [Hh _]; discriminate Hh].
  1-4: split; [reflexivity|apply Forall_replicate; split; lia].
  all: split; lia.
Defined.
