(* ===== verification/Stripe.v ===== *)
(** [stripe.rs]: encoding a stripe of an object into shard blocks, and
    decoding it from the blocks a read received.

    The loops of [decode_stripe] are [note_requested], [index_received] and
    [examine]; an index into [was_requested] or [by_index] is an [expect], so
    that a read out of range would be a [Panic] of the model.  [verdict] and
    [usable_blocks]/[block_faults] say what the loops compute. *)

From S2P Require Import Prelude Text Checksum Erasure XorCode.

Record ShardBlock := mkShardBlock {
  sb_index : ShardIndex;
  sb_bytes : block;
  sb_checksum : BlockChecksum;
}.

#[global] Instance ShardBlock_eq_dec : EqDecision ShardBlock.
Proof. solve_decision. Defined.

Inductive FaultKind :=
| Missing
| Unreadable (reason : str)
| Unavailable (reason : str)
| WrongLength (expected actual : Z)
| ChecksumMismatch (stored computed : BlockChecksum).

#[global] Instance FaultKind_eq_dec : EqDecision FaultKind.
Proof. solve_decision. Defined.

Record BlockFault := mkFault { bf_index : ShardIndex; bf_kind : FaultKind }.

#[global] Instance BlockFault_eq_dec : EqDecision BlockFault.
Proof. solve_decision. Defined.

Inductive DecodedStripe :=
| Intact (data : list Z)
| Repaired (data : list Z) (faults : list BlockFault)
| Unrecoverable (usable needed : Z) (faults : list BlockFault).

Inductive StripeError :=
| StripeEmpty
| StripeTooLarge (actual max : Z)
| StripeCoding (e : CodingError)
| UnrequestedBlock (i : ShardIndex).

Section stripe.
Context `{ReedSolomonLib} `{Xxh3}.

Definition block_length_for (code : ReedSolomonCode) (data_len : Z) : Z :=
  div_ceil data_len (data_shards (scheme code)).

(** The body of the loop over the data shards. *)
Definition cut_block (data : list Z) (block_len i : nat) : block :=
  let start := (i * block_len)%nat in
  let end_ := Nat.min (start + block_len) (length data) in
  let block := if (start <? length data)%nat then slice start (end_ - start) data else [] in
  resize block_len 0 block.

Definition encode_stripe (code : ReedSolomonCode) (data : list Z) (block_size : Z)
    : res StripeError (list ShardBlock) :=
  let s := scheme code in
  let len := Z.of_nat (length data) in
  _ ← ensure (negb (len =? 0)) StripeEmpty;
  let max := wrap64 (data_shards s * block_size) in
  _ ← ensure (negb (len >? max)) (StripeTooLarge len max);
  let block_len := Z.to_nat (block_length_for code len) in
  let blocks := cut_block data block_len <$> seq 0 (Z.to_nat (data_shards s)) in
  parity ← map_err StripeCoding (compute_parity code blocks);
  Ok (imap (λ i bytes, mkShardBlock (wrap 8 (Z.of_nat i)) bytes (checksum_block bytes))
           (blocks ++ parity)).

Definition note_requested (s : Scheme) (was_requested : list bool) (index : ShardIndex)
    : res StripeError (list bool) :=
  _ ← ensure (contains s index) (StripeCoding (IndexOutOfRange index));
  seen ← expect (was_requested !! Z.to_nat index);
  _ ← ensure (negb seen) (StripeCoding (DuplicateIndex index));
  Ok (<[Z.to_nat index := true]> was_requested).

Definition index_received (s : Scheme) (was_requested : list bool)
    (by_index : list (option ShardBlock)) (b : ShardBlock)
    : res StripeError (list (option ShardBlock)) :=
  _ ← ensure (contains s (sb_index b)) (StripeCoding (IndexOutOfRange (sb_index b)));
  req ← expect (was_requested !! Z.to_nat (sb_index b));
  _ ← ensure req (UnrequestedBlock (sb_index b));
  old ← expect (by_index !! Z.to_nat (sb_index b));
  _ ← ensure (bool_decide (old = None)) (StripeCoding (DuplicateIndex (sb_index b)));
  Ok (<[Z.to_nat (sb_index b) := Some b]> by_index).

Definition examine (was_requested : list bool) (by_index : list (option ShardBlock))
    (block_len : Z) (st : list (ShardIndex * block) * list BlockFault) (index : ShardIndex)
    : res StripeError (list (ShardIndex * block) * list BlockFault) :=
  let '(usable, faults) := st in
  req ← expect (was_requested !! Z.to_nat index);
  if negb req then Ok (usable, faults)
  else
    slot ← expect (by_index !! Z.to_nat index);
    match slot with
    | None => Ok (usable, faults ++ [mkFault index Missing])
    | Some b =>
        let actual := Z.of_nat (length (sb_bytes b)) in
        if negb (actual =? block_len)
        then Ok (usable, faults ++ [mkFault index (WrongLength block_len actual)])
        else
          let computed := checksum_block (sb_bytes b) in
          if negb (computed =? sb_checksum b)
          then Ok (usable, faults ++ [mkFault index (ChecksumMismatch (sb_checksum b) computed)])
          else Ok (usable ++ [(index, sb_bytes b)], faults)
    end.

Definition decode_stripe (code : ReedSolomonCode) (requested : list ShardIndex)
    (received : list ShardBlock) (data_len : Z) : res StripeError DecodedStripe :=
  let s := scheme code in
  _ ← ensure (negb (data_len =? 0)) StripeEmpty;
  let block_len := block_length_for code data_len in
  let total := Z.to_nat (total_shards s) in
  was_requested ← fold_res (note_requested s) requested (replicate total false);
  by_index ← fold_res (index_received s was_requested) received (replicate total None);
  '(usable, faults) ←
    fold_res (examine was_requested by_index block_len) (shard_indices s) ([], []);
  let n := Z.of_nat (length usable) in
  if n <? data_shards s then Ok (Unrecoverable n (data_shards s) faults)
  else
    data_blocks ← map_err StripeCoding (reconstruct code usable (data_shard_indices s));
    let data := take (Z.to_nat data_len) (concat data_blocks) in
    match faults with
    | [] => Ok (Intact data)
    | _ => Ok (Repaired data faults)
    end.

(** ** What the loops compute *)

Inductive verdict :=
| Usable (bytes : block)
| Faulty (kind : FaultKind).

(** The block received for an index. *)
Definition block_at (received : list ShardBlock) (index : ShardIndex) : option ShardBlock :=
  snd <$> list_find (λ b, sb_index b = index) received.

Definition verdict_of (received : list ShardBlock) (block_len : Z) (index : ShardIndex) : verdict :=
  match block_at received index with
  | None => Faulty Missing
  | Some b =>
      if decide (Z.of_nat (length (sb_bytes b)) ≠ block_len)
      then Faulty (WrongLength block_len (Z.of_nat (length (sb_bytes b))))
      else if decide (checksum_block (sb_bytes b) ≠ sb_checksum b)
      then Faulty (ChecksumMismatch (sb_checksum b) (checksum_block (sb_bytes b)))
      else Usable (sb_bytes b)
  end.

(** The requested indices, in shard order. *)
Definition examined (s : Scheme) (requested : list ShardIndex) : list ShardIndex :=
  filter (λ i, i ∈ requested) (shard_indices s).

Definition usable_blocks s requested received block_len : list (ShardIndex * block) :=
  omap (λ i, match verdict_of received block_len i with
             | Usable b => Some (i, b) | Faulty _ => None end) (examined s requested).

Definition block_faults s requested received block_len : list BlockFault :=
  omap (λ i, match verdict_of received block_len i with
             | Usable _ => None | Faulty k => Some (mkFault i k) end) (examined s requested).

(** The protocol between a reader and the decoder: distinct indices of the
    scheme were requested, and distinct ones of those received. *)
Definition exchange_ok (s : Scheme) (requested : list ShardIndex) (received : list ShardBlock) : Prop :=
  NoDup requested ∧ Forall (λ i, 0 ≤ i < total_shards s) requested
  ∧ NoDup (sb_index <$> received) ∧ Forall (λ b, sb_index b ∈ requested) received.
End stripe.

Arguments verdict : clear implicits.

(** ** The loops *)

Section loops.
Context `{ReedSolomonLib} `{Xxh3}.
Implicit Types (s : Scheme) (code : ReedSolomonCode).

Lemma note_requested_loop s todo seen l :
  tabulates s l (λ i, bool_decide (i ∈ seen)) → NoDup (seen ++ todo) →
  Forall (λ i, 0 ≤ i < total_shards s) todo →
  ∃ l', fold_res (note_requested s) todo l = Ok l'
    ∧ tabulates s l' (λ i, bool_decide (i ∈ seen ++ todo)).
Proof.
  revert seen l. induction todo as [|i todo IH]; intros seen l Ht Hnd Hr.
  { rewrite app_nil_r. by exists l. }
  apply Forall_cons in Hr as [Hi Hr]. cbn [fold_res]. unfold note_requested at 2.
  rewrite (proj2 (contains_true s i)) by lia. rewrite (proj2 Ht i Hi).
  assert (i ∉ seen) as Hni by (apply NoDup_app in Hnd as (_ & Hd & _); intros ?%Hd; set_solver).
  rewrite bool_decide_eq_false_2 by done. cbn [ensure expect negb mbind res_bind].
  destruct (IH (seen ++ [i]) (<[Z.to_nat i:=true]> l)) as (l' & Hl' & Ht').
  - eapply tabulates_insert; [exact Ht|done| |]; cbn beta.
    + apply bool_decide_eq_true_2. set_solver.
    + intros j Hj. apply bool_decide_ext. set_solver.
  - by rewrite <- app_assoc.
  - done.
  - rewrite <- app_assoc in Ht'. by exists l'.
Qed.

Lemma block_at_snoc received b i :
  block_at received i = None →
  block_at (received ++ [b]) i = if decide (i = sb_index b) then Some b else None.
Proof.
  unfold block_at. intros Hn%fmap_None. rewrite list_find_app_r by done. cbn.
  case_decide as Hd; [rewrite decide_True by done|rewrite decide_False by done]; done.
Qed.

Lemma block_at_app received received' i b :
  block_at received i = Some b → block_at (received ++ received') i = Some b.
Proof.
  unfold block_at. intros ((j & b') & Hf & ->)%fmap_Some.
  by rewrite (list_find_app_l _ _ _ _ _ Hf).
Qed.

Lemma block_at_None received i : block_at received i = None ↔ i ∉ sb_index <$> received.
Proof.
  unfold block_at. rewrite fmap_None, list_find_None, list_elem_of_fmap, Forall_forall. naive_solver.
Qed.

Lemma block_at_Some received i b : block_at received i = Some b → b ∈ received ∧ sb_index b = i.
Proof.
  unfold block_at. intros ((j & b') & Hf & ->)%fmap_Some.
  apply list_find_Some in Hf as (Hl & Hi & _). split; [by eapply list_elem_of_lookup_2|done].
Qed.

Lemma block_at_elem received b :
  NoDup (sb_index <$> received) → b ∈ received → block_at received (sb_index b) = Some b.
Proof.
  intros Hnd Hb. destruct (block_at received (sb_index b)) as [c|] eqn:Hc.
  - apply block_at_Some in Hc as [Hc Hi]. f_equal.
    apply list_elem_of_lookup in Hb as [x Hx], Hc as [y Hy].
    assert (x = y) as ->; [|congruence].
    eapply NoDup_lookup; [exact Hnd| |]; rewrite list_lookup_fmap; [by rewrite Hx|].
    rewrite Hy. cbn. by rewrite Hi.
  - apply block_at_None in Hc. destruct Hc. apply list_elem_of_fmap. eauto.
Qed.

Lemma index_received_loop s (requested : list ShardIndex) was todo seen l :
  tabulates s was (λ i, bool_decide (i ∈ requested)) →
  Forall (λ i, 0 ≤ i < total_shards s) requested →
  tabulates s l (block_at seen) → NoDup (sb_index <$> seen ++ todo) →
  Forall (λ b, sb_index b ∈ requested) todo →
  ∃ l', fold_res (index_received s was) todo l = Ok l' ∧ tabulates s l' (block_at (seen ++ todo)).
Proof.
  intros Hwas Hreq. revert seen l. induction todo as [|b todo IH]; intros seen l Ht Hnd Hr.
  { rewrite app_nil_r. by exists l. }
  apply Forall_cons in Hr as [Hb Hr]. cbn [fold_res]. unfold index_received at 2.
  assert (0 ≤ sb_index b < total_shards s) as Hi by (rewrite Forall_forall in Hreq; by apply Hreq).
  rewrite (proj2 (contains_true s _)) by lia. rewrite (proj2 Hwas _ Hi).
  rewrite bool_decide_eq_true_2 by done. rewrite (proj2 Ht _ Hi).
  assert (block_at seen (sb_index b) = None) as Hnone.
  { apply block_at_None. rewrite fmap_app in Hnd. apply NoDup_app in Hnd as (_ & Hd & _).
    intros Hin. apply (Hd _ Hin). rewrite fmap_cons. by left. }
  rewrite Hnone. cbn [ensure expect mbind res_bind].
  rewrite bool_decide_eq_true_2 by done. cbn [ensure expect mbind res_bind].
  destruct (IH (seen ++ [b]) (<[Z.to_nat (sb_index b):=Some b]> l)) as (l' & Hl' & Ht').
  - eapply tabulates_insert; [exact Ht|done| |].
    + rewrite block_at_snoc by done. by rewrite decide_True.
    + intros j Hj. destruct (block_at seen j) as [c|] eqn:Hc; [by apply block_at_app|].
      rewrite block_at_snoc by done. by rewrite decide_False.
  - by rewrite <- app_assoc.
  - done.
  - rewrite <- app_assoc in Ht'. by exists l'.
Qed.

Lemma examine_loop s (requested : list ShardIndex) received was by_ix block_len ixs usable faults :
  tabulates s was (λ i, bool_decide (i ∈ requested)) → tabulates s by_ix (block_at received) →
  Forall (λ i, 0 ≤ i < total_shards s) ixs →
  fold_res (examine was by_ix block_len) ixs (usable, faults) =
  Ok (usable ++ omap (λ i, match verdict_of received block_len i with
              | Usable b => Some (i, b) | Faulty _ => None end) (filter (λ i, i ∈ requested) ixs),
      faults ++ omap (λ i, match verdict_of received block_len i with
              | Usable _ => None | Faulty k => Some (mkFault i k) end) (filter (λ i, i ∈ requested) ixs)).
Proof.
  intros Hwas Hby. revert usable faults. induction ixs as [|i ixs IH]; intros usable faults Hr.
  { cbn. by rewrite !app_nil_r. }
  apply Forall_cons in Hr as [Hi Hr]. cbn [fold_res]. unfold examine at 2.
  rewrite (proj2 Hwas i Hi), (proj2 Hby i Hi). cbn [expect mbind res_bind].
  rewrite filter_cons. destruct (decide (i ∈ requested)) as [Hin|Hin].
  2: { rewrite bool_decide_eq_false_2 by done. cbn [negb mbind res_bind]. by rewrite IH. }
  rewrite bool_decide_eq_true_2 by done. cbn [negb omap list_omap]. unfold verdict_of.
  destruct (block_at received i) as [b|].
  2: { cbn [mbind res_bind]. rewrite IH by done. by rewrite <- app_assoc. }
  destruct (Z.eqb_spec (Z.of_nat (length (sb_bytes b))) block_len) as [Hl|Hl].
  2: { rewrite decide_True by done. cbn [negb mbind res_bind]. rewrite IH by done. by rewrite <- app_assoc. }
  rewrite decide_False by tauto. cbn [negb].
  destruct (Z.eqb_spec (checksum_block (sb_bytes b)) (sb_checksum b)) as [Hc|Hc].
  - rewrite decide_False by tauto. cbn [negb mbind res_bind]. rewrite IH by done. by rewrite <- app_assoc.
  - rewrite decide_True by done. cbn [negb mbind res_bind]. rewrite IH by done. by rewrite <- app_assoc.
Qed.

Lemma shard_indices_range s : scheme_ok s → Forall (λ i, 0 ≤ i < total_shards s) (shard_indices s).
Proof.
  intros Hs. apply Forall_forall. intros i Hi.
  apply elem_of_indices_upto in Hi; [done|]. apply scheme_ok_total in Hs. lia.
Qed.

(** [decode_stripe] on a well-formed exchange, before reconstruction. *)
Lemma decode_stripe_eq code requested received data_len :
  scheme_ok (scheme code) → 0 < data_len → exchange_ok (scheme code) requested received →
  let s := scheme code in let bl := block_length_for code data_len in
  let usable := usable_blocks s requested received bl in
  let faults := block_faults s requested received bl in
  let n := Z.of_nat (length usable) in
  decode_stripe code requested received data_len =
  if n <? data_shards s then Ok (Unrecoverable n (data_shards s) faults)
  else
    data_blocks ← map_err StripeCoding (reconstruct code usable (data_shard_indices s));
    let data := take (Z.to_nat data_len) (concat data_blocks) in
    match faults with [] => Ok (Intact data) | _ => Ok (Repaired data faults) end.
Proof.
  intros Hs Hlen (Hnd & Hr & Hnd' & Hr'). cbn zeta. unfold decode_stripe.
  destruct (Z.eqb_spec data_len 0); [lia|]. cbn [negb ensure mbind res_bind].
  destruct (note_requested_loop (scheme code) requested [] (replicate (Z.to_nat (total_shards (scheme code))) false))
    as (was & -> & Hwas); [|done|done|].
  { apply tabulates_replicate. }
  cbn [mbind res_bind].
  destruct (index_received_loop (scheme code) requested was received [] (replicate (Z.to_nat (total_shards (scheme code))) None))
    as (by_ix & -> & Hby); [done|done|apply tabulates_replicate|done|done|].
  cbn [mbind res_bind].
  rewrite (examine_loop (scheme code) requested received) by (done || by apply shard_indices_range).
  done.
Qed.
End loops.

(** ** Cutting and encoding *)

Lemma cut_block_eq data bl i : cut_block data bl i = resize bl 0 (drop (i * bl) data).
Proof.
  unfold cut_block. destruct (Nat.ltb_spec (i * bl) (length data)) as [Hlt|Hge].
  - unfold slice. destruct (decide (i * bl + bl ≤ length data)%nat).
    + replace (Nat.min (i * bl + bl) (length data) - i * bl)%nat with bl by lia.
      by rewrite resize_take_eq.
    + rewrite (take_ge (drop _ _)) by (rewrite length_drop; lia). done.
  - by rewrite drop_ge by done.
Qed.

Lemma concat_cut data bl n : concat (cut_block data bl <$> seq 0 n) = resize (n * bl) 0 data.
Proof.
  induction n as [|n IH]; [by rewrite resize_0|].
  rewrite seq_S, fmap_app, concat_app, IH. cbn. rewrite app_nil_r, cut_block_eq.
  replace (bl + n * bl)%nat with (n * bl + bl)%nat by lia. by rewrite resize_add.
Qed.

Lemma cut_uniform data bl n : uniform bl (cut_block data bl <$> seq 0 n).
Proof.
  apply Forall_fmap, Forall_true. intros i. unfold compose, cut_block. apply length_resize.
Qed.

Section encode.
Context `{ReedSolomonLib} `{Xxh3}.
Implicit Types (code : ReedSolomonCode).

Definition cut_blocks code (data : list Z) : list block :=
  cut_block data (Z.to_nat (block_length_for code (Z.of_nat (length data)))) <$> seq 0 (kn code).

Definition seal (blocks : list block) : list ShardBlock :=
  imap (λ i bytes, mkShardBlock (wrap 8 (Z.of_nat i)) bytes (checksum_block bytes)) blocks.

Lemma concat_cut_blocks code data :
  scheme_ok (scheme code) →
  take (length data) (concat (cut_blocks code data)) = data.
Proof.
  intros [Hk _]. unfold cut_blocks. rewrite concat_cut.
  destruct (div_ceil_spec (Z.of_nat (length data)) (data_shards (scheme code))) as (? & ? & ?); [lia|lia|].
  unfold block_length_for.
  assert (length data ≤ kn code * Z.to_nat (div_ceil (Z.of_nat (length data)) (data_shards (scheme code))))%nat
    as Hle by (unfold kn; nia).
  rewrite resize_ge by done. by rewrite take_app_length.
Qed.

(** What an accepted stripe is encoded to: the sealed codeword of its
    blocks. *)
Lemma encode_stripe_inv code data bs blocks :
  code_ok code → encode_stripe code data bs = Ok blocks →
  ∃ parity,
    let len := Z.of_nat (length data) in
    0 < len ≤ wrap64 (data_shards (scheme code) * bs)
    ∧ codeword code (Z.to_nat (block_length_for code len)) (cut_blocks code data) parity
    ∧ blocks = seal (cut_blocks code data ++ parity).
Proof.
  intros Hok Henc. pose proof Hok as [[Hk _] _]. unfold encode_stripe in Henc. inv_ok Henc.
  rewrite ensure_Ok in *. rewrite map_err_Ok in *. injection Henc as <-.
  exists a1. cbn zeta. split_and!; [lia|lia| |done].
  split_and!; [|by unfold cut_blocks; rewrite length_fmap, length_seq|apply cut_uniform|done].
  assert (0 < block_length_for code (Z.of_nat (length data))); [|lia].
  apply div_ceil_pos; lia.
Qed.

Lemma lookup_seal blocks i b :
  (length blocks ≤ 256)%nat → seal blocks !! i = Some b ↔
  ∃ bytes, blocks !! i = Some bytes ∧ b = mkShardBlock (Z.of_nat i) bytes (checksum_block bytes).
Proof.
  intros Hlen. unfold seal. rewrite list_lookup_imap, fmap_Some.
  split; intros (bytes & Hb & ->); exists bytes; (split; [done|]).
  all: apply lookup_lt_Some in Hb; unfold wrap; by rewrite Z.mod_small by lia.
Qed.

Lemma seal_bytes blocks : sb_bytes <$> seal blocks = blocks.
Proof.
  unfold seal. rewrite fmap_imap. apply list_eq. intros i. rewrite list_lookup_imap.
  by destruct (_ !! i).
Qed.

Lemma seal_index s blocks :
  length blocks = Z.to_nat (total_shards s) → sb_index <$> seal blocks = shard_indices s.
Proof.
  intros Hlen. apply list_eq. intros i. unfold seal, shard_indices, indices_upto.
  rewrite !list_lookup_fmap, list_lookup_imap.
  destruct (decide (i < length blocks)%nat) as [Hlt|Hge].
  - destruct (lookup_lt_is_Some_2 _ _ Hlt) as [b ->]. by rewrite lookup_seq_lt by lia.
  - rewrite !lookup_ge_None_2; [done|rewrite length_seq; lia|lia].
Qed.

(** A stripe within the limits is accepted. *)
Lemma encode_stripe_accepts code data bs :
  code_ok code → 0 < Z.of_nat (length data) ≤ wrap64 (data_shards (scheme code) * bs) →
  ∃ parity, encode_stripe code data bs = Ok (seal (cut_blocks code data ++ parity))
    ∧ codeword code (Z.to_nat (block_length_for code (Z.of_nat (length data))))
        (cut_blocks code data) parity.
Proof.
  intros Hok [Hpos Hle]. pose proof Hok as [[Hk _] _].
  assert (0 < Z.to_nat (block_length_for code (Z.of_nat (length data))))%nat as Hbl.
  { pose proof (div_ceil_pos (Z.of_nat (length data)) (data_shards (scheme code))).
    unfold block_length_for. lia. }
  assert (length (cut_blocks code data) = kn code) as Hlen
    by (unfold cut_blocks; by rewrite length_fmap, length_seq).
  pose proof (cut_uniform data (Z.to_nat (block_length_for code (Z.of_nat (length data)))) (kn code)) as Hu.
  destruct (compute_parity_Ok code (cut_blocks code data) _ Hok Hbl Hlen Hu) as (parity & Hp & _).
  exists parity. split; [|by split_and!]. unfold encode_stripe.
  destruct (Z.eqb_spec (Z.of_nat (length data)) 0); [lia|]. cbn [negb ensure mbind res_bind].
  destruct (Z.gtb_spec (Z.of_nat (length data)) (wrap64 (data_shards (scheme code) * bs))); [lia|].
  cbn [negb ensure mbind res_bind]. fold (kn code). fold (cut_blocks code data). by rewrite Hp.
Qed.

Lemma codeword_length code len data parity :
  code_ok code → codeword code len data parity →
  length (data ++ parity) = Z.to_nat (total_shards (scheme code)) ∧ (length (data ++ parity) ≤ 40)%nat.
Proof.
  intros Hok Hcw. destruct (codeword_parity _ _ _ _ Hok Hcw) as (Hp & _).
  destruct Hcw as (_ & Hd & _). pose proof (code_ok_total _ Hok) as Ht.
  destruct Hok as [Hs _]. apply scheme_ok_total in Hs.
  rewrite length_app. lia.
Qed.

(** A usable verdict comes from a received block that passes the checks. *)
Lemma verdict_Usable received bl i bytes :
  verdict_of received bl i = Usable bytes →
  ∃ b, b ∈ received ∧ sb_index b = i ∧ sb_bytes b = bytes
    ∧ Z.of_nat (length bytes) = bl ∧ checksum_block bytes = sb_checksum b.
Proof.
  unfold verdict_of. destruct (block_at received i) as [b|] eqn:Hb; [|done].
  apply block_at_Some in Hb as [Hb Hi]. repeat case_decide; intros [= <-]; [].
  exists b. split_and!; (done || tauto || idtac).
  all: by apply dec_stable.
Qed.

Lemma usable_fst s (requested : list ShardIndex) received bl :
  (usable_blocks s requested received bl).*1 `sublist_of` examined s requested.
Proof.
  unfold usable_blocks. induction (examined s requested) as [|i l IH]; [done|].
  cbn. destruct (verdict_of received bl i); cbn; [by apply sublist_skip|by apply sublist_cons].
Qed.

Lemma usable_NoDup s (requested : list ShardIndex) received bl :
  scheme_ok s → NoDup (usable_blocks s requested received bl).*1.
Proof.
  intros Hs%scheme_ok_total. eapply sublist_NoDup; [|apply usable_fst].
  apply NoDup_filter, NoDup_indices_upto. lia.
Qed.

Lemma usable_spec s (requested : list ShardIndex) received bl i bytes :
  scheme_ok s → (i, bytes) ∈ usable_blocks s requested received bl →
  0 ≤ i < total_shards s ∧ verdict_of received bl i = Usable bytes.
Proof.
  intros Hs (j & Hj & Hv)%list_elem_of_omap.
  destruct (verdict_of received bl j) as [b|] eqn:E; [|done]. injection Hv as -> ->.
  split; [|done]. apply list_elem_of_filter in Hj as [_ Hj].
  apply elem_of_indices_upto in Hj; [done|]. apply scheme_ok_total in Hs. lia.
Qed.

(** Reconstruction from blocks of an encoded stripe gives its data blocks. *)
Lemma reconstruct_cut code data parity len usable :
  code_ok code → codeword code len (cut_blocks code data) parity →
  Forall (λ p, 0 ≤ p.1 ∧ (cut_blocks code data ++ parity) !! Z.to_nat p.1 = Some p.2) usable →
  NoDup usable.*1 → (kn code ≤ length usable)%nat →
  reconstruct code usable (data_shard_indices (scheme code)) = Ok (cut_blocks code data).
Proof.
  intros Hok Hcw Hu Hnd Hk. pose proof Hok as [Hs _]. pose proof (scheme_ok_total _ Hs) as Ht.
  destruct (reconstruct_codeword code len (cut_blocks code data) parity usable
    (data_shard_indices (scheme code))) as (out & Hout & Hf); [done..| |].
  { apply Forall_forall. intros i Hi. destruct Hs as [? ?].
    apply elem_of_indices_upto in Hi; unfold total_shards in *; lia. }
  rewrite Hout. f_equal. destruct Hcw as (_ & Hlen & _).
  pose proof (Forall2_length _ _ _ Hf) as Hl. unfold data_shard_indices in Hl.
  rewrite length_indices_upto in Hl. fold (kn code) in Hl.
  apply list_eq_same_length with (kn code); [done|done|]. intros i x y Hi Hx Hy.
  assert (data_shard_indices (scheme code) !! i = Some (Z.of_nat i)) as Hix.
  { apply lookup_indices_upto; [unfold total_shards in Ht; destruct Hs; lia|done]. }
  destruct (Forall2_lookup_l _ _ _ _ _ Hf Hix) as (z & Hz & Hw).
  rewrite Nat2Z.id, lookup_app_l in Hw by lia. congruence.
Qed.
End encode.

(** ** Properties *)

Section properties.
Context `{ReedSolomonLib} `{Xxh3}.
Implicit Types (code : ReedSolomonCode) (requested : list ShardIndex).

(** The received blocks that pass the checks are blocks of the encoded
    stripe: no corruption went undetected. *)
Definition corruption_detected (blocks received : list ShardBlock) (bl : Z) : Prop :=
  ∀ b, b ∈ received → Z.of_nat (length (sb_bytes b)) = bl →
    checksum_block (sb_bytes b) = sb_checksum b → b ∈ blocks.

Lemma usable_codeword code data parity len requested received bl :
  code_ok code → codeword code len (cut_blocks code data) parity →
  corruption_detected (seal (cut_blocks code data ++ parity)) received bl →
  Forall (λ p, 0 ≤ p.1 ∧ (cut_blocks code data ++ parity) !! Z.to_nat p.1 = Some p.2)
    (usable_blocks (scheme code) requested received bl).
Proof.
  intros Hok Hcw Hdet. pose proof Hok as [Hs _]. apply Forall_forall. intros [i bytes] Hin.
  apply usable_spec in Hin as [Hi Hv]; [|done]. cbn. split; [lia|].
  apply verdict_Usable in Hv as (b & Hb & <- & <- & Hl & Hc).
  specialize (Hdet b Hb Hl Hc). apply list_elem_of_lookup in Hdet as [j Hj].
  destruct (codeword_length _ _ _ _ Hok Hcw) as [_ H40].
  apply lookup_seal in Hj as (bytes & Hj & ->); [|lia]. cbn. by rewrite Nat2Z.id.
Qed.

(** Every block of an encoded stripe passes the checks. *)
Lemma verdict_encoded code data parity received b :
  code_ok code →
  codeword code (Z.to_nat (block_length_for code (Z.of_nat (length data)))) (cut_blocks code data) parity →
  NoDup (sb_index <$> received) → b ∈ received → b ∈ seal (cut_blocks code data ++ parity) →
  verdict_of received (block_length_for code (Z.of_nat (length data))) (sb_index b) = Usable (sb_bytes b).
Proof.
  intros Hok Hcw Hnd Hb Hin. pose proof Hok as [[Hk _] _]. unfold verdict_of. rewrite block_at_elem by done.
  destruct (codeword_length _ _ _ _ Hok Hcw) as [_ H40].
  apply list_elem_of_lookup in Hin as [j Hj]. apply lookup_seal in Hj as (bytes & Hj & ->); [|lia]. cbn.
  rewrite (codeword_uniform _ _ _ _ _ _ Hok Hcw Hj).
  assert (0 ≤ block_length_for code (Z.of_nat (length data)))
    by (unfold block_length_for; destruct (div_ceil_spec (Z.of_nat (length data)) (data_shards (scheme code))); lia).
  rewrite decide_False by lia. by rewrite decide_False by tauto.
Qed.

(** The block of each shard of an encoded stripe. *)
Lemma encoded_block code data block_size blocks i :
  code_ok code → encode_stripe code data block_size = Ok blocks → 0 ≤ i < total_shards (scheme code) →
  ∃ bytes, blocks !! Z.to_nat i = Some (mkShardBlock i bytes (checksum_block bytes)).
Proof.
  intros Hok Henc Hi. destruct (encode_stripe_inv _ _ _ _ Hok Henc) as (parity & _ & Hcw & ->).
  destruct (codeword_length _ _ _ _ Hok Hcw) as [Hl H40].
  destruct (lookup_lt_is_Some_2 (cut_blocks code data ++ parity) (Z.to_nat i)) as [bytes Hb]; [lia|].
  exists bytes. apply lookup_seal; [lia|]. exists bytes. by rewrite Z2Nat.id by lia.
Qed.

Lemma encoded_blocks_length code data block_size blocks :
  code_ok code → encode_stripe code data block_size = Ok blocks → length blocks = Z.to_nat (total_shards (scheme code)).
Proof.
  intros Hok Henc. destruct (encode_stripe_inv _ _ _ _ Hok Henc) as (parity & _ & Hcw & ->).
  destruct (codeword_length _ _ _ _ Hok Hcw) as [Hl _]. unfold seal. by rewrite length_imap.
Qed.

(** Decoding from [k] or more untouched blocks. *)
Lemma decode_untouched code data block_size blocks requested received :
  code_ok code → encode_stripe code data block_size = Ok blocks →
  NoDup requested → Forall (λ i, 0 ≤ i < total_shards (scheme code)) requested →
  sb_index <$> received = requested → Forall (λ b, b ∈ blocks) received →
  data_shards (scheme code) ≤ Z.of_nat (length requested) →
  decode_stripe code requested received (Z.of_nat (length data)) = Ok (Intact data).
Proof.
  intros Hok Henc Hnd Hr Hi Hin Hk. pose proof Hok as [Hs _].
  destruct (encode_stripe_inv _ _ _ _ Hok Henc) as (parity & [Hpos _] & Hcw & ->).
  set (bl := block_length_for code (Z.of_nat (length data))) in *.
  assert (NoDup (sb_index <$> received)) as Hnd' by (by rewrite Hi).
  assert (∀ i, i ∈ requested → ∃ bytes, verdict_of received bl i = Usable bytes) as Hv.
  { intros i Hix. rewrite <- Hi in Hix. apply list_elem_of_fmap in Hix as (b & -> & Hb). exists (sb_bytes b).
    rewrite Forall_forall in Hin. eapply verdict_encoded; [done|exact Hcw|done|done|by apply Hin]. }
  assert (∀ i, i ∈ examined (scheme code) requested → i ∈ requested) as Hex
    by (intros i Hx; apply list_elem_of_filter in Hx; tauto).
  assert (block_faults (scheme code) requested received bl = []) as Hf.
  { unfold block_faults. revert Hex. generalize (examined (scheme code) requested). intros l Hex.
    induction l as [|i l IH]; [done|]. cbn [omap list_omap].
    destruct (Hv i) as [bytes ->]; [by apply Hex, list_elem_of_here|]. apply IH. intros j Hj. by apply Hex, list_elem_of_further. }
  assert (length (usable_blocks (scheme code) requested received bl) = length requested) as Hu.
  { transitivity (length (examined (scheme code) requested)).
    - unfold usable_blocks. revert Hex. generalize (examined (scheme code) requested). intros l Hex.
      induction l as [|i l IH]; [done|]. cbn [omap list_omap].
      destruct (Hv i) as [bytes ->]; [by apply Hex, list_elem_of_here|]. cbn. f_equal.
      apply IH. intros j Hj. by apply Hex, list_elem_of_further.
    - apply Permutation_length, NoDup_Permutation; [apply NoDup_filter, NoDup_indices_upto; apply scheme_ok_total in Hs; lia|done|].
      intros i. unfold examined. rewrite list_elem_of_filter. split; [tauto|]. intros Hx. split; [done|].
      rewrite Forall_forall in Hr. unfold shard_indices. apply elem_of_indices_upto; [apply scheme_ok_total in Hs; lia|by apply Hr]. }
  rewrite decode_stripe_eq; [|done|done|]. 2: { split_and!; [done|done|done|].
    apply Forall_forall. intros b Hb. rewrite <- Hi. by apply list_elem_of_fmap_2. }
  fold bl. rewrite Hf, Hu, (proj2 (Z.ltb_ge _ _)) by done.
  erewrite reconstruct_cut; [|exact Hok|exact Hcw| |by apply usable_NoDup|unfold kn; rewrite Hu; lia].
  - cbn [map_err mbind res_bind]. by rewrite Nat2Z.id, concat_cut_blocks.
  - eapply usable_codeword; [done|done|]. intros b Hb _ _. rewrite Forall_forall in Hin. by apply Hin.
Qed.

(** What decoding makes of the blocks of an encoded stripe. *)
Lemma decode_damaged code data block_size blocks requested received :
  code_ok code → encode_stripe code data block_size = Ok blocks →
  exchange_ok (scheme code) requested received →
  corruption_detected blocks received (block_length_for code (Z.of_nat (length data))) →
  let k := data_shards (scheme code) in
  let bl := block_length_for code (Z.of_nat (length data)) in
  let n := Z.of_nat (length (usable_blocks (scheme code) requested received bl)) in
  let faults := block_faults (scheme code) requested received bl in
  decode_stripe code requested received (Z.of_nat (length data)) =
  Ok (if n <? k then Unrecoverable n k faults
      else match faults with [] => Intact data | _ => Repaired data faults end).
Proof.
  intros Hok Henc Hex Hdet. cbn zeta. pose proof Hok as [Hs _].
  destruct (encode_stripe_inv _ _ _ _ Hok Henc) as (parity & [Hpos _] & Hcw & ->).
  rewrite decode_stripe_eq by done. destruct (Z.ltb_spec (Z.of_nat (length (usable_blocks
    (scheme code) requested received (block_length_for code (Z.of_nat (length data))))))
    (data_shards (scheme code))) as [Hn|Hn]; [done|].
  erewrite reconstruct_cut; [|exact Hok|exact Hcw|by eapply usable_codeword|by apply usable_NoDup|unfold kn; lia].
  cbn [map_err mbind res_bind]. rewrite Nat2Z.id, concat_cut_blocks by done.
  by destruct (block_faults _ _ _ _).
Qed.

(** Whatever data comes out is the stripe. *)
Lemma decoded_data code data block_size blocks received decoded :
  code_ok code → encode_stripe code data block_size = Ok blocks →
  exchange_ok (scheme code) (shard_indices (scheme code)) received →
  corruption_detected blocks received (block_length_for code (Z.of_nat (length data))) →
  decode_stripe code (shard_indices (scheme code)) received (Z.of_nat (length data)) = Ok decoded →
  match decoded with Intact d | Repaired d _ => d = data | Unrecoverable _ _ _ => True end.
Proof.
  intros Hok Henc Hex Hdet. rewrite (decode_damaged code data block_size blocks) by done. cbn zeta. intros [= <-].
  destruct (_ <? _); [done|]. by destruct (block_faults _ _ _ _).
Qed.

(** C15. Decoding recovers the stripe: from the blocks of an encoded stripe,
    of which any may be missing, of the wrong length or fail their checksum,
    [decode_stripe] returns exactly the encoded bytes whenever at least [k]
    requested blocks are usable, [Intact] when every requested block was, and
    otherwise [Repaired] with the faults of precisely the unusable ones; with
    fewer than [k] it returns [Unrecoverable] and no data. *)
Theorem decode_encode_stripe code data block_size blocks requested received :
  code_ok code → encode_stripe code data block_size = Ok blocks →
  exchange_ok (scheme code) requested received →
  corruption_detected blocks received (block_length_for code (Z.of_nat (length data))) →
  let k := data_shards (scheme code) in
  let bl := block_length_for code (Z.of_nat (length data)) in
  let n := Z.of_nat (length (usable_blocks (scheme code) requested received bl)) in
  let faults := block_faults (scheme code) requested received bl in
  decode_stripe code requested received (Z.of_nat (length data)) =
  Ok (if n <? k then Unrecoverable n k faults
      else match faults with [] => Intact data | _ => Repaired data faults end).
Proof. apply decode_damaged. Qed.

(** The decoder's loops keep their tables at the size of the scheme. *)
Lemma note_requested_returns s requested :
  Forall is_u8 requested →
  returns (fold_res (note_requested s) requested (replicate (Z.to_nat (total_shards s)) false)).
Proof.
  intros Hu. apply (fold_res_returns _ (λ l, length l = Z.to_nat (total_shards s)));
    [|apply length_replicate].
  intros l i Hi Hl. rewrite Forall_forall in Hu. specialize (Hu i Hi). unfold is_uint in Hu.
  unfold note_requested. destruct (contains s i) eqn:Hc; [|by split].
  apply contains_true in Hc. cbn [ensure mbind res_bind].
  destruct (lookup_lt_is_Some_2 l (Z.to_nat i)) as [o ->]; [lia|]. cbn [expect mbind res_bind].
  destruct o; cbn; [by split|]. split; [done|]. intros l' [= <-]. by rewrite length_insert.
Qed.

Lemma note_requested_length s requested l l' :
  fold_res (note_requested s) requested l = Ok l' → length l' = length l.
Proof.
  apply (fold_res_inv _ (λ l', length l' = length l)); [|done].
  intros l1 i l2 _ <- Hn. unfold note_requested in Hn. inv_ok Hn. injection Hn as <-.
  by rewrite length_insert.
Qed.

Lemma index_received_returns s was received :
  Forall (λ b, is_u8 (sb_index b)) received → length was = Z.to_nat (total_shards s) →
  returns (fold_res (index_received s was) received (replicate (Z.to_nat (total_shards s)) None)).
Proof.
  intros Hu Hw. apply (fold_res_returns _ (λ l, length l = Z.to_nat (total_shards s)));
    [|apply length_replicate].
  intros l b Hb Hl. rewrite Forall_forall in Hu. specialize (Hu b Hb). unfold is_uint in Hu.
  unfold index_received. destruct (contains s (sb_index b)) eqn:Hc; [|by split].
  apply contains_true in Hc. cbn [ensure mbind res_bind].
  destruct (lookup_lt_is_Some_2 was (Z.to_nat (sb_index b))) as [r ->]; [lia|].
  cbn [expect mbind res_bind]. destruct r; cbn; [|by split].
  destruct (lookup_lt_is_Some_2 l (Z.to_nat (sb_index b))) as [o ->]; [lia|].
  cbn. destruct (bool_decide (o = None)); cbn; [|by split].
  split; [done|]. intros l' [= <-]. by rewrite length_insert.
Qed.

Lemma index_received_length s was received l l' :
  fold_res (index_received s was) received l = Ok l' → length l' = length l.
Proof.
  apply (fold_res_inv _ (λ l', length l' = length l)); [|done].
  intros l1 i l2 _ <- Hn. unfold index_received in Hn. inv_ok Hn. injection Hn as <-.
  by rewrite length_insert.
Qed.

(** The examination of a shard index keeps the usable indices in range. *)
Lemma examine_step was by_ix bl usable faults i n :
  length was = n → length by_ix = n → 0 ≤ i < Z.of_nat n → Forall (λ p, 0 ≤ p.1) usable →
  ∃ usable' faults', examine was by_ix bl (usable, faults) i = Ok (usable', faults')
    ∧ Forall (λ p, 0 ≤ p.1) usable'.
Proof.
  intros Hw Hb Hi Hu. unfold examine.
  destruct (lookup_lt_is_Some_2 was (Z.to_nat i)) as [r ->]; [lia|].
  destruct (lookup_lt_is_Some_2 by_ix (Z.to_nat i)) as [o ->]; [lia|].
  cbn [expect mbind res_bind]. destruct r; cbn [negb]; [|by do 2 eexists].
  destruct o as [b|]; [|by do 2 eexists].
  destruct (negb _); [by do 2 eexists|]. destruct (negb _); [by do 2 eexists|].
  do 2 eexists. split; [done|]. apply Forall_app. split; [done|]. repeat constructor. cbn. lia.
Qed.

(** The decoder never panics: whatever indices, blocks and length it is
    given, every index it reads is in range, no [expect] fires, and it
    returns a stripe or a typed error. *)
Theorem decode_stripe_no_panic code requested received data_len :
  code_ok code → Forall is_u8 requested → Forall (λ b, is_u8 (sb_index b)) received →
  returns (decode_stripe code requested received data_len).
Proof.
  intros Hok Hreq Hrec. pose proof Hok as [Hs _]. unfold decode_stripe.
  apply bind_returns; [auto with djbod|]. intros _ _.
  apply bind_returns; [by apply note_requested_returns|]. intros was Hwas.
  apply note_requested_length in Hwas. rewrite length_replicate in Hwas.
  apply bind_returns; [by apply index_received_returns|]. intros by_ix Hby.
  apply index_received_length in Hby. rewrite length_replicate in Hby.
  assert (∀ ixs usable faults, Forall (λ i, 0 ≤ i < total_shards (scheme code)) ixs →
    Forall (λ p, 0 ≤ p.1) usable →
    ∃ usable' faults',
      fold_res (examine was by_ix (block_length_for code data_len)) ixs (usable, faults)
      = Ok (usable', faults') ∧ Forall (λ p, 0 ≤ p.1) usable') as Hloop.
  { induction ixs as [|i ixs IH]; intros usable faults Hi Hu; [by do 2 eexists|].
    apply Forall_cons in Hi as [Hi His]. cbn [fold_res].
    destruct (examine_step was by_ix (block_length_for code data_len) usable faults i
      (Z.to_nat (total_shards (scheme code)))) as (u & f & -> & Hu'); [done|done|lia|done|].
    by apply IH. }
  destruct (Hloop (shard_indices (scheme code)) [] []) as (u & f & -> & Hu);
    [by apply shard_indices_range|constructor|].
  cbn [mbind res_bind]. destruct (_ <? _); [done|].
  apply bind_returns; [|by intros; destruct f].
  apply map_err_returns, reconstruct_no_panic; [done|done|].
  apply Forall_forall. intros i Hi. apply elem_of_indices_upto in Hi; [lia|].
  destruct Hs as [Hk _]. unfold MAX_DATA_SHARDS in Hk. lia.
Qed.

(** Encoding succeeds on exactly the stripes it promises to: one byte to
    [k * block_size] bytes, with a typed error outside.  The result is one
    block per shard in index order, all of length [ceil(len / k)], each with
    the checksum of its bytes, and the first [k] hold the data in sequence. *)
Theorem encode_stripe_spec code data block_size :
  code_ok code → 0 ≤ block_size → data_shards (scheme code) * block_size < 2 ^ 64 →
  let len := Z.of_nat (length data) in
  let max := data_shards (scheme code) * block_size in
  (len = 0 → encode_stripe code data block_size = Err StripeEmpty)
  ∧ (max < len → encode_stripe code data block_size = Err (StripeTooLarge len max))
  ∧ (0 < len ≤ max → ∃ blocks, encode_stripe code data block_size = Ok blocks
      ∧ sb_index <$> blocks = shard_indices (scheme code)
      ∧ Forall (λ b, Z.of_nat (length (sb_bytes b)) = block_length_for code len
                     ∧ sb_checksum b = checksum_block (sb_bytes b)) blocks
      ∧ take (length data) (concat (sb_bytes <$> blocks)) = data).
Proof.
  intros Hok Hbs Hmax. cbn zeta. pose proof Hok as [Hs _]. pose proof Hs as [Hk _].
  assert (wrap64 (data_shards (scheme code) * block_size) = data_shards (scheme code) * block_size) as Hwrap
    by (unfold wrap; apply Z.mod_small; nia).
  split_and!.
  - intros Hz. unfold encode_stripe. by rewrite Hz.
  - intros Hlt. unfold encode_stripe. rewrite Hwrap.
    destruct (Z.eqb_spec (Z.of_nat (length data)) 0); [nia|]. cbn [negb ensure mbind res_bind].
    by destruct (Z.gtb_spec (Z.of_nat (length data)) (data_shards (scheme code) * block_size)); [|lia].
  - intros Hlen. destruct (encode_stripe_accepts code data block_size) as (parity & Henc & Hcw);
      [done|lia|].
    exists (seal (cut_blocks code data ++ parity)). split; [done|].
    destruct (codeword_length _ _ _ _ Hok Hcw) as [Htotal H40]. rewrite seal_bytes. split_and!.
    + by apply seal_index.
    + apply Forall_lookup. intros i b (bytes & Hb & ->)%lookup_seal; [|lia]. cbn. split; [|done].
      rewrite (codeword_uniform _ _ _ _ _ _ Hok Hcw Hb).
      pose proof (div_ceil_pos (Z.of_nat (length data)) (data_shards (scheme code))).
      unfold block_length_for. lia.
    + pose proof (concat_cut_blocks code data Hs) as Hc.
      rewrite concat_app, take_app_le; [done|]. apply (f_equal length) in Hc.
      rewrite length_take in Hc. lia.
Qed.
End properties.

(** ** Witnesses: the scheme 2 + 1, five bytes in three blocks *)

Section witnesses.
#[local] Existing Instance poly_xxh3.

Definition code21 : ReedSolomonCode (H := xor_lib) := mkCode (mkScheme 2 1) (Some tt).
Definition data5 : list Z := [10; 20; 30; 40; 50].
Definition blocks5 : list ShardBlock :=
  match encode_stripe code21 data5 4 with Ok b => b | _ => [] end.
(** The first block is corrupt, the second intact, the parity intact. *)
Definition received5 : list ShardBlock :=
  mkShardBlock 0 [10; 20; 31] (checksum_block [10; 20; 30]) :: drop 1 blocks5.

Lemma code21_ok : code_ok code21.
Proof.
  split; [by vm_compute|]. rewrite decide_False by done. split; [apply xor_correct; unfold kn; cbn; lia|].
  exists tt. split; reflexivity.
Defined.

Lemma exchange5_ok : exchange_ok (scheme code21) [2; 0; 1] received5.
Proof.
  split_and!; [by apply (bool_decide_unpack _); vm_compute|repeat constructor; cbn; lia
    |by apply (bool_decide_unpack _); vm_compute|by apply (bool_decide_unpack _); vm_compute].
Defined.

Lemma detected5 : corruption_detected blocks5 received5 3.
Proof.
  intros b [->|Hb]%elem_of_cons _ Hc; [by vm_compute in Hc|].
  rewrite <- (take_drop 1 blocks5). apply elem_of_app. by right.
Defined.

Lemma decode_encode_stripe_witness :
  decode_stripe code21 [2; 0; 1] received5 5 =
  Ok (Repaired data5 [mkFault 0 (ChecksumMismatch (poly_hash [10; 20; 30]) (poly_hash [10; 20; 31]))]).
Proof.
  pose proof (decode_encode_stripe code21 data5 4 blocks5 [2; 0; 1] received5 code21_ok eq_refl
    exchange5_ok detected5) as Hd. cbn zeta in Hd. etransitivity; [exact Hd|]. by vm_compute.
Defined.

Lemma decode_stripe_no_panic_witness :
  returns (decode_stripe code21 [2; 0; 1] received5 77).
Proof.
  apply (decode_stripe_no_panic code21 [2; 0; 1] received5 77 code21_ok).
  - repeat constructor; lia.
  - repeat constructor; vm_compute; congruence.
Defined.

Lemma encode_stripe_spec_witness :
  encode_stripe code21 [] 4 = Err StripeEmpty
  ∧ encode_stripe code21 (data5 ++ data5) 4 = Err (StripeTooLarge 10 8).
Proof.
  split.
  - destruct (encode_stripe_spec code21 [] 4 code21_ok) as [H1 _]; [lia|cbn; lia|]. by apply H1.
  - destruct (encode_stripe_spec code21 (data5 ++ data5) 4 code21_ok) as [_ [H2 _]]; [lia|cbn; lia|].
    apply H2. cbn. lia.
Defined.
End witnesses.
