(* ===== verification/FileSystem.v ===== *)
(** The part of [std::fs] the device layer uses: a tree of directories and
    files, the system calls on it, and the reasoning principle for code that
    makes several of them.

    - A [World] is the tree, the offsets of the files being written, the
      process's clock, identifier and temporary-name counter, and a list of
      faults: a call takes the next entry and fails with it if there is one, so
      a theorem about every list of faults is about every pattern of failures.
      A failing write may have written a prefix, a failing recursive removal
      may have removed some entries.
    - [w_trace] is ghost state: every tree the calls have gone through, newest
      first.  A process that dies, or a concurrent reader, sees one of them.
    - [io E A] is the state-and-result monad of code that calls the system.
    - [wp Inv m w Post]: running [m] from [w] ends in [Post], and every tree
      it goes through satisfies [Inv].

    A handle is named by its path: the program writes only to files under
    temporary names no one else uses, and closes them before renaming.  What a
    power failure does to data not yet synced is not modelled: [sync_all] can
    fail but changes nothing. *)

From S2P Require Import Prelude Text Layout.

(** ** Nodes, errors, worlds *)

Inductive node :=
| Dir
| File (contents : list Z) (modified : Z).

#[global] Instance node_eq_dec : EqDecision node.
Proof. solve_decision. Defined.

Abbreviation tree := (gmap (list (list Z)) node) (only parsing).

(** A fault the environment can inject, with how much of a write or of a
    recursive removal was done before it. *)
Inductive fault_kind := StorageFull | DeviceFailure | PermissionDenied.

#[global] Instance fault_kind_eq_dec : EqDecision fault_kind.
Proof. solve_decision. Defined.

Record fault := mkIoFault { f_kind : fault_kind; f_done : nat }.

(** [io::ErrorKind] *)
Inductive io_error :=
| NotFound
| AlreadyExists
| NotADirectory
| IsADirectory
| DirectoryNotEmpty
| UnexpectedEof
| InvalidData
| Failed (k : fault_kind).

#[global] Instance io_error_eq_dec : EqDecision io_error.
Proof. solve_decision. Defined.

Record World := mkWorld {
  w_tree : tree;
  w_offset : gmap (list (list Z)) nat;
  w_clock : Z;
  w_pid : Z;
  w_counter : Z;
  w_faults : list (option fault);
  w_trace : list tree;
}.

(** ** The monad *)

Definition io (E A : Type) : Type := World → res E A * World.

#[global] Instance io_ret E : MRet (io E) := λ A a w, (Ok a, w).
#[global] Instance io_bind E : MBind (io E) := λ A B f m w,
  match m w with
  | (Ok a, w') => f a w'
  | (Err e, w') => (Err e, w')
  | (Panic, w') => (Panic, w')
  end.

Definition lift {E A} (r : res E A) : io E A := λ w, (r, w).
Definition throw {E A} (e : E) : io E A := lift (Err e).

Definition io_map_err {E F A} (f : E → F) (m : io E A) : io F A := λ w,
  let '(r, w') := m w in (map_err f r, w').

(** [match m { Ok .. , Err .. }]: the error becomes a value. *)
Definition attempt {E F A} (m : io E A) : io F (res E A) := λ w,
  match m w with
  | (Panic, w') => (Panic, w')
  | (r, w') => (Ok r, w')
  end.

(** [let _ = m] *)
Definition ignore {E F A} (m : io E A) : io F unit := _ ← attempt m; mret tt.

Fixpoint io_fold {E A S} (f : S → A → io E S) (l : list A) (s : S) : io E S :=
  match l with
  | [] => mret s
  | x :: l => s' ← f s x; io_fold f l s'
  end.

(** ** Path arithmetic *)

(** [Path::parent] of a path with a file name *)
Definition parent (p : path) : path := removelast p.
Definition file_name (p : path) : option str := last p.
Definition with_file_name (p : path) (n : str) : path := join (parent p) n.

(** The error of a lookup that finds nothing: a file used as a directory, or
    nothing there. *)
Definition missing (t : tree) (p : path) : io_error :=
  if existsb (λ n, match t !! take n p with Some (File _ _) => true | _ => false end)
       (seq 0 (length p))
  then NotADirectory else NotFound.

Definition is_dir_node (o : option node) : bool := match o with Some Dir => true | _ => false end.
Definition is_file_node (o : option node) : bool := match o with Some (File _ _) => true | _ => false end.

(** The names in a directory, in an order the caller must not rely on. *)
Definition children (t : tree) (p : path) : list str :=
  omap (λ q, if bool_decide (length q = S (length p) ∧ take (length p) q = p)
             then last q else None) (map_to_list t).*1.

Definition deeper (a b : path) : Prop := (length b ≤ length a)%nat.
#[global] Instance deeper_dec : RelDecision deeper.
Proof. intros a b. unfold deeper. apply _. Defined.

(** The paths of a directory's subtree, deepest first. *)
Definition subtree (t : tree) (p : path) : list path :=
  merge_sort deeper
    (filter (λ q, take (length p) q = p) (map_to_list t).*1).

(** ** System calls *)

Definition get {E : Type} : io E World := λ w, (Ok w, w).

Definition next_fault : io io_error (option fault) := λ w,
  match w_faults w with
  | [] => (Ok None, w)
  | f :: fs => (Ok f, mkWorld (w_tree w) (w_offset w) (w_clock w) (w_pid w) (w_counter w) fs (w_trace w))
  end.

(** A call that either fails with the next fault or goes through. *)
Definition may_fail : io io_error unit :=
  f ← next_fault;
  match f with
  | Some f => throw (Failed (f_kind f))
  | None => mret tt
  end.

Definition put_tree {E : Type} (t : tree) : io E unit := λ w,
  (Ok tt, mkWorld t (w_offset w) (w_clock w) (w_pid w) (w_counter w) (w_faults w) (t :: w_trace w)).

Definition put_offset {E : Type} (p : path) (n : nat) : io E unit := λ w,
  (Ok tt, mkWorld (w_tree w) (<[p := n]> (w_offset w)) (w_clock w) (w_pid w) (w_counter w)
            (w_faults w) (w_trace w)).

(** [COUNTER.fetch_add(1)] *)
Definition fetch_counter {E : Type} : io E Z := λ w,
  (Ok (w_counter w),
   mkWorld (w_tree w) (w_offset w) (w_clock w) (w_pid w) (wrap64 (w_counter w + 1)) (w_faults w) (w_trace w)).

Definition fs_metadata (p : path) : io io_error node :=
  _ ← may_fail; w ← get;
  match w_tree w !! p with Some n => mret n | None => throw (missing (w_tree w) p) end.

(** [Path::exists], [is_dir], [is_file]: [false] on any error. *)
Definition fs_test {E : Type} (f : option node → bool) (p : path) : io E bool :=
  r ← attempt (fs_metadata p);
  mret (match r with Ok n => f (Some n) | _ => false end).
Definition fs_exists {E : Type} : path → io E bool := fs_test (λ o, bool_decide (is_Some o)).
Definition fs_is_dir {E : Type} : path → io E bool := fs_test is_dir_node.
Definition fs_is_file {E : Type} : path → io E bool := fs_test is_file_node.

Definition fs_read_dir (p : path) : io io_error (list str) :=
  _ ← may_fail; w ← get;
  match w_tree w !! p with
  | Some Dir => mret (children (w_tree w) p)
  | Some (File _ _) => throw NotADirectory
  | None => throw (missing (w_tree w) p)
  end.

Definition fs_read (p : path) : io io_error (list Z) :=
  _ ← may_fail; w ← get;
  match w_tree w !! p with
  | Some (File c _) => mret c
  | Some Dir => throw IsADirectory
  | None => throw (missing (w_tree w) p)
  end.

(** The parent must be a directory. *)
Definition need_parent (t : tree) (p : path) : io io_error unit :=
  match t !! parent p with
  | Some Dir => mret tt
  | Some (File _ _) => throw NotADirectory
  | None => throw (missing t (parent p))
  end.

(** [File::create]: empty the file or make it, at offset 0. *)
Definition fs_create (p : path) : io io_error unit :=
  _ ← may_fail; w ← get;
  match w_tree w !! p with
  | Some Dir => throw IsADirectory
  | Some (File _ _) =>
      _ ← put_tree (<[p := File [] (w_clock w)]> (w_tree w)); put_offset p 0
  | None =>
      _ ← need_parent (w_tree w) p;
      _ ← put_tree (<[p := File [] (w_clock w)]> (w_tree w)); put_offset p 0
  end.

(** Bytes written at an offset, the file growing as needed. *)
Definition overwrite (off : nat) (bytes c : list Z) : list Z :=
  resize off 0 c ++ bytes ++ drop (off + length bytes) c.

Definition write_bytes {E : Type} (p : path) (bytes : list Z) : io E unit :=
  w ← get;
  let off := default O (w_offset w !! p) in
  match w_tree w !! p with
  | Some (File c _) =>
      _ ← put_tree (<[p := File (overwrite off bytes c) (w_clock w)]> (w_tree w));
      put_offset p (off + length bytes)
  | _ => put_offset p (off + length bytes)   (* unlinked: no one can see the data *)
  end.

(** [write_all] on an open file *)
Definition fs_write_all (p : path) (bytes : list Z) : io io_error unit :=
  f ← next_fault;
  match f with
  | Some f => _ ← write_bytes p (take (f_done f) bytes); throw (Failed (f_kind f))
  | None => write_bytes p bytes
  end.

(** [fallocate] with mode 0 from offset 0: the file is at least [n] long. *)
Definition fs_fallocate (p : path) (n : nat) : io io_error unit :=
  _ ← may_fail; w ← get;
  match w_tree w !! p with
  | Some (File c m) => put_tree (<[p := File (resize (Nat.max n (length c)) 0 c) m]> (w_tree w))
  | _ => mret tt
  end.

(** [sync_all] on an open file or directory *)
Definition fs_sync (p : path) : io io_error unit := may_fail.

(** [File::open] of a directory or file *)
Definition fs_open (p : path) : io io_error unit := _ ← fs_metadata p; mret tt.

(** [rename] of a file, replacing a file *)
Definition fs_rename (a b : path) : io io_error unit :=
  _ ← may_fail; w ← get;
  match w_tree w !! a with
  | Some (File c m) =>
      match w_tree w !! b with
      | Some Dir => throw IsADirectory
      | Some (File _ _) => put_tree (<[b := File c m]> (delete a (w_tree w)))
      | None =>
          _ ← need_parent (w_tree w) b;
          put_tree (<[b := File c m]> (delete a (w_tree w)))
      end
  | Some Dir => throw IsADirectory
  | None => throw (missing (w_tree w) a)
  end.

Definition fs_remove_file (p : path) : io io_error unit :=
  _ ← may_fail; w ← get;
  match w_tree w !! p with
  | Some (File _ _) => put_tree (delete p (w_tree w))
  | Some Dir => throw IsADirectory
  | None => throw (missing (w_tree w) p)
  end.

Definition fs_create_dir (p : path) : io io_error unit :=
  _ ← may_fail; w ← get;
  match w_tree w !! p with
  | Some _ => throw AlreadyExists
  | None => _ ← need_parent (w_tree w) p; put_tree (<[p := Dir]> (w_tree w))
  end.

(** [create_dir_all]: every ancestor below the depth [n] that is missing. *)
Definition fs_create_dir_all (n : nat) (p : path) : io io_error unit :=
  io_fold (λ _ i,
    r ← attempt (fs_create_dir (take i p));
    match r with
    | Err AlreadyExists =>
        w ← get;
        if is_dir_node (w_tree w !! take i p) then mret tt else throw AlreadyExists
    | Err e => throw e
    | _ => mret tt
    end) (seq n (S (length p) - n)) tt.

Definition fs_remove_dir (p : path) : io io_error unit :=
  _ ← may_fail; w ← get;
  match w_tree w !! p with
  | Some Dir =>
      if bool_decide (children (w_tree w) p = []) then put_tree (delete p (w_tree w))
      else throw DirectoryNotEmpty
  | Some (File _ _) => throw NotADirectory
  | None => throw (missing (w_tree w) p)
  end.

Definition fs_remove_dir_all (p : path) : io io_error unit :=
  f ← next_fault; w ← get;
  match w_tree w !! p with
  | Some Dir =>
      let doomed := subtree (w_tree w) p in
      let n := match f with Some f => f_done f | None => length doomed end in
      _ ← io_fold (λ _ q, w ← get; put_tree (delete q (w_tree w))) (take n doomed) tt;
      match f with Some f => throw (Failed (f_kind f)) | None => mret tt end
  | Some (File _ _) => throw NotADirectory
  | None => throw (missing (w_tree w) p)
  end.

(** ** Weakest preconditions *)

Definition wp {E A : Type} (Inv : tree → Prop) (m : io E A) (w : World)
    (Post : res E A → World → Prop) : Prop :=
  let '(r, w') := m w in
  Post r w' ∧ ∃ new, w_trace w' = new ++ w_trace w ∧ Forall Inv new.

Section wp.
Context {E : Type} (Inv : tree → Prop).

Lemma wp_mono {A} (m : io E A) w (P Q : res E A → World → Prop) :
  wp Inv m w P → (∀ r w', P r w' → Q r w') → wp Inv m w Q.
Proof. unfold wp. destruct (m w). naive_solver. Qed.

Lemma wp_weaken {A : Type} (Inv' : tree → Prop) (m : io E A) w (P : res E A → World → Prop) :
  (∀ t, Inv' t → Inv t) → wp Inv' m w P → wp Inv m w P.
Proof.
  unfold wp. destruct (m w). intros HI [HP (new & Hn & Hf)]. split; [done|]. exists new. split; [done|].
  by eapply Forall_impl.
Qed.

Lemma wp_ret {A} (a : A) w (Post : res E A → World → Prop) :
  Post (Ok a) w → wp Inv (mret a) w Post.
Proof. intros HP. split; [done|]. by exists []. Qed.

Lemma wp_lift {A} (r : res E A) w (Post : res E A → World → Prop) :
  Post r w → wp Inv (lift r) w Post.
Proof. intros HP. split; [done|]. by exists []. Qed.

Lemma wp_bind {A B} (m : io E A) (f : A → io E B) w (Post : res E B → World → Prop) :
  wp Inv m w (λ r w', match r with
    | Ok a => wp Inv (f a) w' Post
    | Err e => Post (Err e) w'
    | Panic => Post Panic w'
    end) →
  wp Inv (m ≫= f) w Post.
Proof.
  unfold wp, mbind, io_bind. destruct (m w) as [[a|e|] w1]; [|by cbn..].
  destruct (f a w1) as [r w2]. intros [[HP (n2 & Ht2 & H2)] (n1 & Ht1 & H1)].
  split; [done|]. exists (n2 ++ n1). rewrite Ht2, Ht1, app_assoc. split; [done|].
  by apply Forall_app.
Qed.

Lemma wp_attempt {F A} (m : io F A) w (Post : res E (res F A) → World → Prop) :
  wp Inv m w (λ r w', match r with Panic => Post Panic w' | r => Post (Ok r) w' end) →
  wp Inv (attempt m) w Post.
Proof. unfold wp, attempt. by destruct (m w) as [[a|e|] w1]. Qed.

Lemma wp_map_err {F A} (f : F → E) (m : io F A) w (Post : res E A → World → Prop) :
  wp Inv m w (λ r w', Post (map_err f r) w') → wp Inv (io_map_err f m) w Post.
Proof. unfold wp, io_map_err. by destruct (m w). Qed.

Lemma wp_get w (Post : res E World → World → Prop) : Post (Ok w) w → wp Inv get w Post.
Proof. intros HP. split; [done|]. by exists []. Qed.

Lemma wp_put_tree t w (Post : res E unit → World → Prop) :
  Inv t →
  Post (Ok tt) (mkWorld t (w_offset w) (w_clock w) (w_pid w) (w_counter w) (w_faults w) (t :: w_trace w)) →
  wp Inv (put_tree t) w Post.
Proof. intros HI HP. split; [done|]. exists [t]. split; [done|]. by constructor. Qed.

Lemma wp_put_offset p n w (Post : res E unit → World → Prop) :
  Post (Ok tt) (mkWorld (w_tree w) (<[p := n]> (w_offset w)) (w_clock w) (w_pid w) (w_counter w)
                 (w_faults w) (w_trace w)) →
  wp Inv (put_offset p n) w Post.
Proof. intros HP. split; [done|]. by exists []. Qed.

Lemma wp_fetch_counter w (Post : res E Z → World → Prop) :
  Post (Ok (w_counter w))
    (mkWorld (w_tree w) (w_offset w) (w_clock w) (w_pid w) (wrap64 (w_counter w + 1)) (w_faults w) (w_trace w)) →
  wp Inv fetch_counter w Post.
Proof. intros HP. split; [done|]. by exists []. Qed.

(** A loop whose body keeps a relation between the state and the world. *)
Lemma wp_fold {A S} (f : S → A → io E S) (P : S → World → Prop) l s w
    (Post : res E S → World → Prop) :
  P s w →
  (∀ s x w, x ∈ l → P s w → wp Inv (f s x) w (λ r w', match r with
    | Ok s' => P s' w' | Err e => Post (Err e) w' | Panic => Post Panic w' end)) →
  (∀ s w, P s w → Post (Ok s) w) →
  wp Inv (io_fold f l s) w Post.
Proof.
  intros HP Hstep Hend. revert s w HP. induction l as [|x l IH]; intros s w HP; cbn [io_fold].
  { by apply wp_ret, Hend. }
  apply wp_bind. eapply wp_mono; [apply Hstep; [by left|done]|].
  intros [s'| |] w' H; [|done..]. apply IH; [|done].
  intros; apply Hstep; [by right|done].
Qed.
End wp.

(** What a call did: the tree and offsets it left, the process untouched. *)
Definition moved (t : tree) (o : gmap (list (list Z)) nat) (w w' : World) : Prop :=
  w_tree w' = t ∧ w_offset w' = o
  ∧ w_clock w' = w_clock w ∧ w_pid w' = w_pid w ∧ w_counter w' = w_counter w.

Abbreviation unmoved w := (moved (w_tree w) (w_offset w) w) (only parsing).

Definition offset_of (w : World) (p : path) : nat := default O (w_offset w !! p).

Section calls.
Context (Inv : tree → Prop).

Lemma wp_next_fault w (Post : res io_error (option fault) → World → Prop) :
  (∀ f w', unmoved w w' → Post (Ok f) w') → wp Inv next_fault w Post.
Proof.
  intros HP. unfold wp, next_fault. destruct (w_faults w) as [|f fs] eqn:Hf.
  - split; [by apply HP|by exists []].
  - split; [by apply HP|by exists []].
Qed.

Lemma wp_may_fail w (Post : res io_error unit → World → Prop) :
  (∀ w', unmoved w w' → Post (Ok tt) w') →
  (∀ k w', unmoved w w' → Post (Err (Failed k)) w') →
  wp Inv may_fail w Post.
Proof.
  intros Hok Herr. apply wp_bind, wp_next_fault. intros [f|] w' Hw.
  - by apply wp_lift, Herr.
  - by apply wp_ret, Hok.
Qed.

(** Every call: one fault point, then the tree is read. *)
Ltac call w1 Hw1 Herr :=
  apply wp_bind, wp_may_fail; [intros w1 Hw1|intros; by apply Herr];
  apply wp_bind, wp_get; rewrite (proj1 Hw1).

Lemma missing_kind t p e : missing t p = e → e = NotADirectory ∨ e = NotFound.
Proof. unfold missing. destruct (existsb _ _); naive_solver. Qed.

(** A file is read whole, or the call fails and the error is one of a
    missing file only if it is missing. *)
Lemma wp_fs_read p w (Post : res io_error (list Z) → World → Prop) :
  (∀ c m w', w_tree w !! p = Some (File c m) → unmoved w w' → Post (Ok c) w') →
  (∀ e w', unmoved w w' → (e = NotFound → w_tree w !! p = None) → Post (Err e) w') →
  wp Inv (fs_read p) w Post.
Proof.
  intros Hok Herr. call w' Hw Herr. destruct (w_tree w !! p) as [[|c m]|] eqn:Hp.
  - apply wp_lift. by apply Herr.
  - apply wp_ret. by eapply Hok.
  - apply wp_lift. by apply Herr.
Qed.

Lemma wp_fs_metadata p w (Post : res io_error node → World → Prop) :
  (∀ n w', w_tree w !! p = Some n → unmoved w w' → Post (Ok n) w') →
  (∀ e w', unmoved w w' → (e = NotFound → w_tree w !! p = None) → Post (Err e) w') →
  wp Inv (fs_metadata p) w Post.
Proof.
  intros Hok Herr. call w' Hw Herr. destruct (w_tree w !! p) as [n|] eqn:Hp.
  - apply wp_ret. by eapply Hok.
  - apply wp_lift. by apply Herr.
Qed.

Lemma wp_fs_test {E : Type} f p w (Post : res E bool → World → Prop) :
  (∀ b w', unmoved w w' → (b = true → f (w_tree w !! p) = true) → Post (Ok b) w') →
  wp Inv (fs_test f p) w Post.
Proof.
  intros HP. apply wp_bind, wp_attempt, wp_fs_metadata.
  - intros n w' Hp Hw. apply wp_ret, HP; [done|]. by rewrite Hp.
  - intros e w' Hw _. apply wp_ret, HP; [done|]. done.
Qed.

Lemma wp_fs_read_dir p w (Post : res io_error (list str) → World → Prop) :
  (∀ w', w_tree w !! p = Some Dir → unmoved w w' → Post (Ok (children (w_tree w) p)) w') →
  (∀ e w', unmoved w w' → (e = NotFound → w_tree w !! p = None) → Post (Err e) w') →
  wp Inv (fs_read_dir p) w Post.
Proof.
  intros Hok Herr. call w' Hw Herr. destruct (w_tree w !! p) as [[|c m]|] eqn:Hp.
  - apply wp_ret. by eapply Hok.
  - apply wp_lift. by apply Herr.
  - apply wp_lift. by apply Herr.
Qed.

Lemma wp_fs_create p w (Post : res io_error unit → World → Prop) :
  Inv (<[p := File [] (w_clock w)]> (w_tree w)) →
  (∀ w', moved (<[p := File [] (w_clock w)]> (w_tree w)) (<[p := O]> (w_offset w)) w w' →
     Post (Ok tt) w') →
  (∀ e w', unmoved w w' → Post (Err e) w') →
  wp Inv (fs_create p) w Post.
Proof.
  intros HI Hok Herr. unfold fs_create. apply wp_bind, wp_may_fail; [|intros; by apply Herr].
  intros w1 Hw1. apply wp_bind, wp_get. pose proof Hw1 as (-> & Ho & -> & Hrest).
  assert (wp Inv (_ ← put_tree (<[p:=File [] (w_clock w)]> (w_tree w)); put_offset p 0) w1 Post) as Hmake.
  { apply wp_bind, wp_put_tree; [done|]. apply wp_put_offset, Hok.
    destruct Hw1 as (? & ? & ? & ? & ?). split_and!; cbn; congruence. }
  destruct (w_tree w !! p) as [[|c m]|]; [apply wp_lift; by apply Herr|done|].
  apply wp_bind. unfold need_parent.
  destruct (w_tree w !! parent p) as [[|c m]|];
    [by apply wp_ret|apply wp_lift; by apply Herr|apply wp_lift; by apply Herr].
Qed.

(** The tree and offsets after [bytes] were written to the file [p]. *)
Definition wrote (p : path) (bytes c : list Z) (w w' : World) : Prop :=
  moved (<[p := File (overwrite (offset_of w p) bytes c) (w_clock w)]> (w_tree w))
    (<[p := (offset_of w p + length bytes)%nat]> (w_offset w)) w w'.

Lemma wp_write_bytes {E : Type} p bytes c m w0 w (Post : res E unit → World → Prop) :
  w_tree w0 !! p = Some (File c m) → unmoved w0 w →
  Inv (<[p := File (overwrite (offset_of w0 p) bytes c) (w_clock w0)]> (w_tree w0)) →
  (∀ w', wrote p bytes c w0 w' → Post (Ok tt) w') →
  wp Inv (write_bytes p bytes) w Post.
Proof.
  intros Hp (Ht & Ho & Hc & Hpid & Hcnt) HI Hok. unfold write_bytes. apply wp_bind, wp_get.
  rewrite Ht, Hp. unfold offset_of in *. rewrite Ho, Hc.
  apply wp_bind, wp_put_tree; [done|]. apply wp_put_offset, Hok.
  split_and!; cbn; unfold offset_of; congruence.
Qed.

Lemma wp_fs_write_all p bytes c m w (Post : res io_error unit → World → Prop) :
  w_tree w !! p = Some (File c m) →
  (∀ bs, Inv (<[p := File (overwrite (offset_of w p) bs c) (w_clock w)]> (w_tree w))) →
  (∀ w', wrote p bytes c w w' → Post (Ok tt) w') →
  (∀ k n w', wrote p (take n bytes) c w w' → Post (Err (Failed k)) w') →
  wp Inv (fs_write_all p bytes) w Post.
Proof.
  intros Hp HI Hok Herr. apply wp_bind, wp_next_fault. intros [f|] w1 Hw.
  - apply wp_bind. eapply wp_write_bytes; [done|done|apply HI|].
    intros w2 Hw2. by eapply wp_lift, Herr.
  - by eapply wp_write_bytes.
Qed.

Lemma wp_fs_fallocate p n c m w (Post : res io_error unit → World → Prop) :
  w_tree w !! p = Some (File c m) →
  Inv (<[p := File (resize (Nat.max n (length c)) 0 c) m]> (w_tree w)) →
  (∀ w', moved (<[p := File (resize (Nat.max n (length c)) 0 c) m]> (w_tree w)) (w_offset w) w w' →
     Post (Ok tt) w') →
  (∀ k w', unmoved w w' → Post (Err (Failed k)) w') →
  wp Inv (fs_fallocate p n) w Post.
Proof.
  intros Hp HI Hok Herr. unfold fs_fallocate. call w1 Hw1 Herr.
  destruct Hw1 as (Ht & Ho & Hc & Hpid & Hcnt). rewrite Hp. apply wp_put_tree; [done|]. apply Hok.
  split_and!; cbn; congruence.
Qed.

(** [rename] of a file: the target has its contents and the source is gone,
    or nothing changed. *)
Lemma wp_fs_rename a b c m w (Post : res io_error unit → World → Prop) :
  w_tree w !! a = Some (File c m) →
  Inv (<[b := File c m]> (delete a (w_tree w))) →
  (∀ w', moved (<[b := File c m]> (delete a (w_tree w))) (w_offset w) w w' → Post (Ok tt) w') →
  (∀ e w', unmoved w w' → Post (Err e) w') →
  wp Inv (fs_rename a b) w Post.
Proof.
  intros Ha HI Hok Herr. unfold fs_rename. call w1 Hw1 Herr. rewrite Ha.
  assert (wp Inv (put_tree (<[b:=File c m]> (delete a (w_tree w)))) w1 Post) as Hmake.
  { apply wp_put_tree; [done|]. apply Hok. destruct Hw1 as (? & ? & ? & ? & ?).
    split_and!; cbn; congruence. }
  destruct (w_tree w !! b) as [[|cb mb]|]; [apply wp_lift; by apply Herr|done|].
  apply wp_bind. unfold need_parent.
  destruct (w_tree w !! parent b) as [[|c' m']|];
    [by apply wp_ret|apply wp_lift; by apply Herr|apply wp_lift; by apply Herr].
Qed.

Lemma wp_fs_remove_file p w (Post : res io_error unit → World → Prop) :
  (is_file_node (w_tree w !! p) = true → Inv (delete p (w_tree w))) →
  (∀ w', is_file_node (w_tree w !! p) = true →
     moved (delete p (w_tree w)) (w_offset w) w w' → Post (Ok tt) w') →
  (∀ e w', unmoved w w' → (e = NotFound → w_tree w !! p = None) → Post (Err e) w') →
  wp Inv (fs_remove_file p) w Post.
Proof.
  intros HI Hok Herr. unfold fs_remove_file. call w1 Hw1 Herr. destruct (w_tree w !! p) as [[|c m]|] eqn:Hp.
  - apply wp_lift. by apply Herr.
  - apply wp_put_tree; [by apply HI|]. apply Hok; [done|].
    destruct Hw1 as (? & ? & ? & ? & ?). split_and!; cbn; congruence.
  - apply wp_lift. by apply Herr.
Qed.

Lemma wp_fs_create_dir p w (Post : res io_error unit → World → Prop) :
  (w_tree w !! p = None → Inv (<[p := Dir]> (w_tree w))) →
  (∀ w', w_tree w !! p = None → w_tree w !! parent p = Some Dir →
     moved (<[p := Dir]> (w_tree w)) (w_offset w) w w' → Post (Ok tt) w') →
  (∀ e w', unmoved w w' → (e = AlreadyExists → is_Some (w_tree w !! p)) →
     (e = NotFound → w_tree w !! p = None ∧ w_tree w !! parent p = None) → Post (Err e) w') →
  wp Inv (fs_create_dir p) w Post.
Proof.
  intros HI Hok Herr. unfold fs_create_dir. call w1 Hw1 Herr. destruct (w_tree w !! p) as [n|] eqn:Hp.
  { apply wp_lift. by apply Herr. }
  apply wp_bind. unfold need_parent. destruct (w_tree w !! parent p) as [[|c m]|] eqn:Hpar.
  - apply wp_ret. apply wp_put_tree; [by apply HI|]. apply Hok; [done|done|].
    destruct Hw1 as (? & ? & ? & ? & ?). split_and!; cbn; congruence.
  - apply wp_lift. by apply Herr.
  - apply wp_lift. apply Herr; [done| |done]. intros He.
    destruct (missing_kind _ _ _ He); done.
Qed.

Lemma wp_fs_remove_dir p w (Post : res io_error unit → World → Prop) :
  (w_tree w !! p = Some Dir → children (w_tree w) p = [] → Inv (delete p (w_tree w))) →
  (∀ w', w_tree w !! p = Some Dir → children (w_tree w) p = [] →
     moved (delete p (w_tree w)) (w_offset w) w w' → Post (Ok tt) w') →
  (∀ e w', unmoved w w' →
     (e = DirectoryNotEmpty → w_tree w !! p = Some Dir ∧ children (w_tree w) p ≠ []) → Post (Err e) w') →
  wp Inv (fs_remove_dir p) w Post.
Proof.
  intros HI Hok Herr. unfold fs_remove_dir. call w1 Hw1 Herr. destruct (w_tree w !! p) as [[|c m]|] eqn:Hp.
  - case_bool_decide as Hch; [|apply wp_lift; by apply Herr].
    apply wp_put_tree; [by apply HI|]. apply Hok; [done|done|].
    destruct Hw1 as (? & ? & ? & ? & ?). split_and!; cbn; congruence.
  - apply wp_lift. by apply Herr.
  - apply wp_lift. apply Herr; [done|]. intros He. destruct (missing_kind _ _ _ He); done.
Qed.

Lemma wp_ignore {E F A : Type} (m : io F A) w (Post : res E unit → World → Prop) :
  wp Inv m w (λ r w', match r with Panic => Post Panic w' | _ => Post (Ok tt) w' end) →
  wp Inv (ignore m) w Post.
Proof.
  intros Hm. apply wp_bind, wp_attempt. eapply wp_mono; [exact Hm|].
  intros [a|e|] w'; [intros; by apply wp_ret..|done].
Qed.
End calls.

(** Without faults every fault point is passed. *)
Definition no_faults (w : World) : Prop := w_faults w = [].

(** Directory listings *)
Lemma elem_of_children t p n : n ∈ children t p ↔ is_Some (t !! join p n).
Proof.
  unfold children, join. rewrite list_elem_of_omap. split.
  - intros (q & Hq & Hn). case_bool_decide as Hd; [|done]. destruct Hd as [Hl Ht].
    apply list_elem_of_fmap in Hq as ([q' v] & -> & Hq). apply elem_of_map_to_list in Hq. cbn in *.
    assert (q' = p ++ [n]) as <-; [|by exists v].
    rewrite <- (take_drop (length p) q'), Ht. f_equal.
    pose proof (length_drop q' (length p)) as Hld. rewrite Hl in Hld.
    replace (S (length p) - length p)%nat with 1%nat in Hld by lia.
    destruct (drop (length p) q') as [|x [|y l]] eqn:Hdr; try done.
    rewrite <- (take_drop (length p) q'), Hdr, last_snoc in Hn. by injection Hn as ->.
  - intros [v Hv]. exists (p ++ [n]). split.
    + apply list_elem_of_fmap. exists (p ++ [n], v). split; [done|]. by apply elem_of_map_to_list.
    + rewrite bool_decide_eq_true_2; [by rewrite last_snoc|].
      split; [rewrite length_app; cbn; lia|]. by rewrite take_app_length.
Qed.

(** Only the file [p] changed. *)
Definition touched (p : path) (w w' : World) : Prop :=
  (∃ c m, w_tree w' = <[p := File c m]> (w_tree w))
  ∧ w_clock w' = w_clock w ∧ w_pid w' = w_pid w ∧ w_counter w' = w_counter w.

Lemma touched_trans p w1 w2 w3 : touched p w1 w2 → touched p w2 w3 → touched p w1 w3.
Proof.
  intros [(c & m & H1) ?] [(c' & m' & H2) ?]. split; [|intuition congruence].
  exists c', m'. by rewrite H2, H1, insert_insert_eq.
Qed.

Lemma moved_touched p c m o w w' :
  moved (<[p := File c m]> (w_tree w)) o w w' → touched p w w'.
Proof. intros (? & _ & ?). split; [by do 2 eexists|done]. Qed.

Lemma unmoved_touched p c m w w' : w_tree w !! p = Some (File c m) → unmoved w w' → touched p w w'.
Proof.
  intros Hp (Ht & _ & ?). split; [|done]. exists c, m. by rewrite Ht, insert_id.
Qed.

Lemma touched_file p w w' : touched p w w' → ∃ c m, w_tree w' !! p = Some (File c m).
Proof. intros [(c & m & ->) _]. exists c, m. by rewrite lookup_insert_eq. Qed.

(** Writing at the end of a prefix of a file that may be longer. *)
Lemma overwrite_prefix (pre bs c : list Z) r :
  take (length pre) c = pre → length c = Nat.max r (length pre) →
  overwrite (length pre) bs c = (pre ++ bs) ++ drop (length pre + length bs) c
  ∧ length (overwrite (length pre) bs c) = Nat.max r (length (pre ++ bs)).
Proof.
  intros Ht Hl. unfold overwrite. rewrite resize_le by lia. rewrite Ht, app_assoc. split; [done|].
  rewrite !length_app, length_drop. lia.
Qed.

(** Nothing but the path [p] changed. *)
Definition framed (p : path) (w w' : World) : Prop :=
  (∀ q, q ≠ p → w_tree w' !! q = w_tree w !! q)
  ∧ w_clock w' = w_clock w ∧ w_pid w' = w_pid w ∧ w_counter w' = w_counter w.

Lemma touched_framed p w w' : touched p w w' → framed p w w'.
Proof. intros [(c & m & Ht) ?]. split; [|done]. intros q Hq. by rewrite Ht, lookup_insert_ne. Qed.

Lemma unmoved_framed p w w' : unmoved w w' → framed p w w'.
Proof. intros (Ht & _ & ?). split; [|done]. by rewrite Ht. Qed.

Lemma moved_delete_framed p o w w' : moved (delete p (w_tree w)) o w w' → framed p w w'.
Proof. intros (Ht & _ & ?). split; [|done]. intros q Hq. by rewrite Ht, lookup_delete_ne. Qed.

Lemma framed_trans p w1 w2 w3 : framed p w1 w2 → framed p w2 w3 → framed p w1 w3.
Proof. intros [H1 ?] [H2 ?]. split; [|intuition congruence]. intros q Hq. by rewrite H2, H1. Qed.

(** ** Programs that only read *)

Definition read_only {E A : Type} (m : io E A) : Prop :=
  ∀ w, w_tree (m w).2 = w_tree w ∧ w_trace (m w).2 = w_trace w.

Create HintDb reads discriminated.

Section reads.
Context {E : Type}.

Lemma read_only_ret {A : Type} (a : A) : read_only (E := E) (mret a).
Proof. done. Qed.

Lemma read_only_lift {A : Type} (r : res E A) : read_only (lift r).
Proof. done. Qed.

Lemma read_only_throw {A : Type} (e : E) : read_only (A := A) (throw e).
Proof. done. Qed.

Lemma read_only_get : read_only (E := E) get.
Proof. done. Qed.

Lemma read_only_bind {A B : Type} (m : io E A) (f : A → io E B) :
  read_only m → (∀ a, read_only (f a)) → read_only (m ≫= f).
Proof.
  intros Hm Hf w. unfold mbind, io_bind. specialize (Hm w). destruct (m w) as [[a|e|] w1]; [|done|done].
  cbn in Hm. destruct (Hf a w1) as [-> ->]. done.
Qed.

Lemma read_only_attempt {F A : Type} (m : io F A) : read_only m → read_only (E := E) (attempt m).
Proof. intros Hm w. unfold attempt. specialize (Hm w). by destruct (m w) as [[a|e|] w1]. Qed.

Lemma read_only_map_err {F A : Type} (f : F → E) (m : io F A) : read_only m → read_only (io_map_err f m).
Proof. intros Hm w. unfold io_map_err. specialize (Hm w). by destruct (m w) as [r w1]. Qed.

Lemma read_only_fold {A S : Type} (f : S → A → io E S) l s :
  (∀ s x, read_only (f s x)) → read_only (io_fold f l s).
Proof.
  intros Hf. revert s. induction l as [|x l IH]; intros s; cbn [io_fold]; [done|]. by apply read_only_bind.
Qed.
End reads.

Lemma read_only_may_fail : read_only may_fail.
Proof. intros w. unfold may_fail, next_fault, mbind, io_bind. by destruct (w_faults w) as [|[f|] fs]. Qed.

#[export] Hint Resolve read_only_ret read_only_lift read_only_throw read_only_get read_only_may_fail : reads.

(** Follow the program's structure. *)
Ltac reads :=
  repeat first
    [ progress intros
    | solve [auto with reads]
    | apply read_only_bind
    | apply read_only_attempt
    | apply read_only_map_err
    | apply read_only_fold
    | case_match ].

Lemma read_only_metadata p : read_only (fs_metadata p).
Proof. unfold fs_metadata. reads. Qed.
Lemma read_only_read_dir p : read_only (fs_read_dir p).
Proof. unfold fs_read_dir. reads. Qed.
Lemma read_only_read p : read_only (fs_read p).
Proof. unfold fs_read. reads. Qed.
#[export] Hint Resolve read_only_metadata read_only_read_dir read_only_read : reads.

Lemma read_only_test {E : Type} f p : read_only (E := E) (fs_test f p).
Proof. unfold fs_test. reads. Qed.
#[export] Hint Resolve read_only_test : reads.
