(* ===== verification/ShardFile.v ===== *)
(** [shardfile.rs]: the shard file, its codec, its writer and its reader.

    A buffer write ([copy_from_slice] at a constant offset of a buffer of
    known size) is [put_slice]; a buffer read out of range is a [Panic].
    Integers are [u64]: sums and products wrap as they do in a release build,
    a division by zero panics.  The writer and reader run on [FileSystem]. *)

From S2P Require Import Prelude Text Checksum KeyHash VersionId Erasure Layout Stripe FileSystem.

Definition MAGIC : list Z := lit "DJBOD-SF".
Definition FORMAT_VERSION : Z := 1.
Definition CHECKSUM_ALGORITHM_XXH3_64 : Z := 1.

Definition HEADER_LEN : Z := 4096.
Definition FOOTER_FIXED_LEN : Z := 40.
Definition TRAILER_LEN : Z := 16.

Definition OFF_HEADER_MAGIC : nat := 0.
Definition OFF_HEADER_FORMAT_VERSION : nat := 8.
Definition OFF_HEADER_CHECKSUM_ALGORITHM : nat := 12.
Definition OFF_HEADER_FLAGS : nat := 16.
Definition OFF_HEADER_K : nat := 20.
Definition OFF_HEADER_M : nat := 21.
Definition OFF_HEADER_SHARD_INDEX : nat := 22.
Definition OFF_HEADER_BLOCK_LENGTH : nat := 24.
Definition OFF_HEADER_KEY_HASH : nat := 32.
Definition OFF_HEADER_VERSION_ID : nat := 64.
Definition OFF_HEADER_CHECKSUM : nat := 80.

Definition OFF_FOOTER_BLOCK_COUNT : nat := 0.
Definition OFF_FOOTER_LAST_BLOCK_LENGTH : nat := 8.
Definition OFF_FOOTER_OBJECT_SIZE : nat := 16.
Definition OFF_FOOTER_OBJECT_CHECKSUM : nat := 24.
Definition OFF_FOOTER_CHECKSUM : nat := 32.
Definition OFF_FOOTER_TABLE : nat := 40.

Record ShardFileHeader := mkHeader {
  sh_scheme : Scheme;
  sh_index : ShardIndex;
  sh_block_length : Z;
  sh_key_hash : KeyHash;
  sh_version : VersionId;
}.

#[global] Instance ShardFileHeader_eq_dec : EqDecision ShardFileHeader.
Proof. solve_decision. Defined.

Record ShardFileFooter := mkFooter {
  sf_block_count : Z;
  sf_last_block_length : Z;
  sf_object_size : Z;
  sf_object_checksum : BlockChecksum;
  sf_checksums : list BlockChecksum;
}.

#[global] Instance ShardFileFooter_eq_dec : EqDecision ShardFileFooter.
Proof. solve_decision. Defined.

Record ShardGeometry := mkGeometry { g_block_count : Z; g_last_block_length : Z }.

#[global] Instance ShardGeometry_eq_dec : EqDecision ShardGeometry.
Proof. solve_decision. Defined.

(** The reason text of [InconsistentFooter], by its format arguments. *)
Inductive FooterReason :=
| TableEntries (block_count table_entries : Z)
| LastBlock (last_block_length block_length : Z)
| FooterOffset (block_count block_length last expected actual : Z).

#[global] Instance FooterReason_eq_dec : EqDecision FooterReason.
Proof. solve_decision. Defined.

Inductive ShardFileError :=
| SfIo (e : io_error)
| TooShort (len : Z)
| BadMagic
| UnsupportedFormatVersion (v : Z)
| UnsupportedChecksumAlgorithm (a : Z)
| HeaderChecksumMismatch
| InvalidScheme (e : SchemeError)
| ShardIndexOutOfRange (i : ShardIndex)
| TrailerInvariant (footer_offset footer_length file_length : Z)
| BadFooterLength (len : Z)
| FooterChecksumMismatch
| InconsistentFooter (reason : FooterReason)
| BlockOutOfRange (index count : Z)
| WrongShardIndex (expected actual : ShardIndex)
| BadBlockLength (actual max : Z)
| BlockAfterShortBlock
| SuppliedChecksumMismatch (supplied computed : BlockChecksum)
| NoBlocks
| GeometryMismatch (object_size expected_blocks expected_last actual_blocks actual_last : Z).

#[global] Instance ShardFileError_eq_dec : EqDecision ShardFileError.
Proof. solve_decision. Defined.

(** ** Geometry *)

Definition shard_geometry {E : Type} (s : Scheme) (block_length object_size : Z)
    : res E (option ShardGeometry) :=
  if (object_size =? 0) || (block_length =? 0) then Ok None
  else
    let k := data_shards s in
    let stripe_bytes := wrap64 (k * block_length) in
    if stripe_bytes =? 0 then Panic   (* division by zero *)
    else
      let block_count := div_ceil object_size stripe_bytes in
      let last_stripe_bytes := wrap64 (object_size - wrap64 ((block_count - 1) * stripe_bytes)) in
      Ok (Some (mkGeometry block_count (div_ceil last_stripe_bytes k))).

Definition shard_file_length {E : Type} (s : Scheme) (block_length object_size : Z)
    : res E (option Z) :=
  g ← shard_geometry s block_length object_size;
  match g with
  | None => Ok None
  | Some g =>
      Ok (Some (wrap64 (HEADER_LEN + (g_block_count g - 1) * block_length
                        + g_last_block_length g + FOOTER_FIXED_LEN
                        + 8 * g_block_count g + TRAILER_LEN)))
  end.

(** ** Fields of a buffer *)

Definition write_u32 (off : nat) (v : Z) (buf : list Z) : list Z := put_slice off (le_bytes 4 v) buf.
Definition write_u64 (off : nat) (v : Z) (buf : list Z) : list Z := put_slice off (le_bytes 8 v) buf.
Definition write_u8 (off : nat) (v : Z) (buf : list Z) : list Z := put_slice off [v] buf.

(** [buf[off .. off + n]] *)
Definition sub {E : Type} (off n : nat) (buf : list Z) : res E (list Z) :=
  if (off + n <=? length buf)%nat then Ok (slice off n buf) else Panic.

Definition read_u32 {E : Type} (buf : list Z) (off : nat) : res E Z := of_le <$> sub off 4 buf.
Definition read_u64 {E : Type} (buf : list Z) (off : nat) : res E Z := of_le <$> sub off 8 buf.
Definition read_u8 {E : Type} (buf : list Z) (off : nat) : res E Z := expect (buf !! off).

Section codec.
Context `{Xxh3}.

Definition checksum_with_field_zeroed (bytes : list Z) (zeroed_at : nat) : BlockChecksum :=
  checksum_block (put_slice zeroed_at (replicate 8 0) bytes).

(** ** Header *)

Definition ShardFileHeader_encode (h : ShardFileHeader) : list Z :=
  let page := replicate (Z.to_nat HEADER_LEN) 0 in
  let page := put_slice OFF_HEADER_MAGIC MAGIC page in
  let page := write_u32 OFF_HEADER_FORMAT_VERSION FORMAT_VERSION page in
  let page := write_u32 OFF_HEADER_CHECKSUM_ALGORITHM CHECKSUM_ALGORITHM_XXH3_64 page in
  let page := write_u32 OFF_HEADER_FLAGS 0 page in
  let page := write_u8 OFF_HEADER_K (wrap 8 (data_shards (sh_scheme h))) page in
  let page := write_u8 OFF_HEADER_M (wrap 8 (parity_shards (sh_scheme h))) page in
  let page := write_u8 OFF_HEADER_SHARD_INDEX (sh_index h) page in
  let page := write_u64 OFF_HEADER_BLOCK_LENGTH (sh_block_length h) page in
  let page := put_slice OFF_HEADER_KEY_HASH (sh_key_hash h) page in
  let page := put_slice OFF_HEADER_VERSION_ID (sh_version h) page in
  let checksum := checksum_with_field_zeroed page OFF_HEADER_CHECKSUM in
  write_u64 OFF_HEADER_CHECKSUM checksum page.

Definition ShardFileHeader_decode (page : list Z) : res ShardFileError ShardFileHeader :=
  let len := Z.of_nat (length page) in
  _ ← ensure (len =? HEADER_LEN) (TooShort len);
  magic ← sub OFF_HEADER_MAGIC 8 page;
  _ ← ensure (bool_decide (magic = MAGIC)) BadMagic;
  format_version ← read_u32 page OFF_HEADER_FORMAT_VERSION;
  _ ← ensure (format_version =? FORMAT_VERSION) (UnsupportedFormatVersion format_version);
  checksum_algorithm ← read_u32 page OFF_HEADER_CHECKSUM_ALGORITHM;
  _ ← ensure (checksum_algorithm =? CHECKSUM_ALGORITHM_XXH3_64)
        (UnsupportedChecksumAlgorithm checksum_algorithm);
  stored ← read_u64 page OFF_HEADER_CHECKSUM;
  _ ← ensure (checksum_with_field_zeroed page OFF_HEADER_CHECKSUM =? stored) HeaderChecksumMismatch;
  k ← read_u8 page OFF_HEADER_K;
  m ← read_u8 page OFF_HEADER_M;
  scheme ← map_err InvalidScheme (Scheme_new k m);
  shard_index ← read_u8 page OFF_HEADER_SHARD_INDEX;
  _ ← ensure (contains scheme shard_index) (ShardIndexOutOfRange shard_index);
  key_hash ← sub OFF_HEADER_KEY_HASH 32 page;
  version_id ← sub OFF_HEADER_VERSION_ID 16 page;
  block_length ← read_u64 page OFF_HEADER_BLOCK_LENGTH;
  Ok (mkHeader scheme shard_index block_length key_hash version_id).

(** ** Footer and trailer *)

Definition encoded_length (f : ShardFileFooter) : Z :=
  wrap64 (FOOTER_FIXED_LEN + 8 * Z.of_nat (length (sf_checksums f))).

Fixpoint write_table (i : nat) (checksums : list BlockChecksum) (buf : list Z) : list Z :=
  match checksums with
  | [] => buf
  | c :: checksums => write_table (S i) checksums (write_u64 (OFF_FOOTER_TABLE + 8 * i) c buf)
  end.

Definition encode_with_trailer (f : ShardFileFooter) (footer_offset : Z) : list Z :=
  let footer_len := Z.to_nat (encoded_length f) in
  let bytes := replicate (footer_len + Z.to_nat TRAILER_LEN) 0 in
  let bytes := write_u64 OFF_FOOTER_BLOCK_COUNT (sf_block_count f) bytes in
  let bytes := write_u64 OFF_FOOTER_LAST_BLOCK_LENGTH (sf_last_block_length f) bytes in
  let bytes := write_u64 OFF_FOOTER_OBJECT_SIZE (sf_object_size f) bytes in
  let bytes := write_u64 OFF_FOOTER_OBJECT_CHECKSUM (sf_object_checksum f) bytes in
  let bytes := write_table 0 (sf_checksums f) bytes in
  let bytes := write_u64 footer_len (Z.of_nat footer_len) bytes in
  let bytes := write_u64 (footer_len + 8) footer_offset bytes in
  let checksum := checksum_with_field_zeroed bytes OFF_FOOTER_CHECKSUM in
  write_u64 OFF_FOOTER_CHECKSUM checksum bytes.

(** [!(n - FOOTER_FIXED_LEN).is_multiple_of(8)] after the [<] test *)
Definition footer_length_ok (n : Z) : bool :=
  negb ((n <? FOOTER_FIXED_LEN) || negb ((n - FOOTER_FIXED_LEN) mod 8 =? 0)).

Definition decode_with_trailer (bytes : list Z) : res ShardFileError ShardFileFooter :=
  let footer_len := wrap64 (Z.of_nat (length bytes) - TRAILER_LEN) in
  _ ← ensure (footer_length_ok footer_len) (BadFooterLength footer_len);
  stored ← read_u64 bytes OFF_FOOTER_CHECKSUM;
  _ ← ensure (checksum_with_field_zeroed bytes OFF_FOOTER_CHECKSUM =? stored) FooterChecksumMismatch;
  block_count ← read_u64 bytes OFF_FOOTER_BLOCK_COUNT;
  let table_entries := (footer_len - FOOTER_FIXED_LEN) / 8 in
  _ ← ensure (block_count =? table_entries)
        (InconsistentFooter (TableEntries block_count table_entries));
  _ ← ensure (negb (block_count =? 0)) NoBlocks;
  checksums ← map_res (λ i, read_u64 bytes (OFF_FOOTER_TABLE + 8 * i)) (seq 0 (Z.to_nat block_count));
  last_block_length ← read_u64 bytes OFF_FOOTER_LAST_BLOCK_LENGTH;
  object_size ← read_u64 bytes OFF_FOOTER_OBJECT_SIZE;
  object_checksum ← read_u64 bytes OFF_FOOTER_OBJECT_CHECKSUM;
  Ok (mkFooter block_count last_block_length object_size object_checksum checksums).

(** ** Writer *)

Record ShardFileWriter := mkWriter {
  sw_file : path;
  sw_header : ShardFileHeader;
  sw_checksums : list BlockChecksum;
  sw_last_block_length : Z;
  sw_short_block_written : bool;
}.

Definition create_with_reservation (p : path) (header : ShardFileHeader) (reserve_length : option Z)
    : io ShardFileError ShardFileWriter :=
  _ ← lift (ensure (contains (sh_scheme header) (sh_index header))
              (ShardIndexOutOfRange (sh_index header)));
  _ ← io_map_err SfIo (fs_create p);
  _ ← match reserve_length with
      | None => mret tt
      | Some length =>
          reserved ← attempt (fs_fallocate p (Z.to_nat length));
          match reserved with
          | Err errno => _ ← ignore (fs_remove_file p); throw (SfIo errno)
          | _ => mret tt
          end
      end;
  _ ← io_map_err SfIo (fs_write_all p (ShardFileHeader_encode header));
  mret (mkWriter p header [] 0 false).

Definition create (p : path) (header : ShardFileHeader) : io ShardFileError ShardFileWriter :=
  create_with_reservation p header None.

(** The checks of [append_block], before anything is written. *)
Definition accept_block (w : ShardFileWriter) (b : ShardBlock) : res ShardFileError unit :=
  let header := sw_header w in
  _ ← ensure (sb_index b =? sh_index header) (WrongShardIndex (sh_index header) (sb_index b));
  _ ← ensure (negb (sw_short_block_written w)) BlockAfterShortBlock;
  let len := Z.of_nat (length (sb_bytes b)) in
  _ ← ensure (negb ((len =? 0) || (len >? sh_block_length header)))
        (BadBlockLength len (sh_block_length header));
  let computed := checksum_block (sb_bytes b) in
  ensure (computed =? sb_checksum b) (SuppliedChecksumMismatch (sb_checksum b) computed).

(** The writer after a block was written. *)
Definition pushed (w : ShardFileWriter) (b : ShardBlock) : ShardFileWriter :=
  let len := Z.of_nat (length (sb_bytes b)) in
  mkWriter (sw_file w) (sw_header w) (sw_checksums w ++ [checksum_block (sb_bytes b)]) len
    (sw_short_block_written w || (len <? sh_block_length (sw_header w))).

Definition append_block (w : ShardFileWriter) (b : ShardBlock) : io ShardFileError ShardFileWriter :=
  _ ← lift (accept_block w b);
  _ ← io_map_err SfIo (fs_write_all (sw_file w) (sb_bytes b));
  mret (pushed w b).

Definition geometry_matches (g : option ShardGeometry) (blocks last : Z) : bool :=
  match g with
  | Some g => (g_block_count g =? blocks) && (g_last_block_length g =? last)
  | None => false
  end.

Definition geometry_mismatch (g : option ShardGeometry) (object_size blocks last : Z) : ShardFileError :=
  let '(expected_blocks, expected_last) :=
    match g with Some g => (g_block_count g, g_last_block_length g) | None => (0, 0) end in
  GeometryMismatch object_size expected_blocks expected_last blocks last.

(** Where the footer sits. *)
Definition footer_offset_of (block_count block_length last : Z) : Z :=
  wrap64 (HEADER_LEN + (block_count - 1) * block_length + last).

(** The checks of [finish], and the footer it will write. *)
Definition seal_footer (w : ShardFileWriter) (object_size : Z) (object_checksum : BlockChecksum)
    : res ShardFileError ShardFileFooter :=
  _ ← ensure (bool_decide (sw_checksums w ≠ [])) NoBlocks;
  let actual_blocks := Z.of_nat (length (sw_checksums w)) in
  expected ← shard_geometry (sh_scheme (sw_header w)) (sh_block_length (sw_header w)) object_size;
  _ ← ensure (geometry_matches expected actual_blocks (sw_last_block_length w))
        (geometry_mismatch expected object_size actual_blocks (sw_last_block_length w));
  Ok (mkFooter actual_blocks (sw_last_block_length w) object_size object_checksum (sw_checksums w)).

Definition finish (w : ShardFileWriter) (object_size : Z) (object_checksum : BlockChecksum)
    : io ShardFileError ShardFileFooter :=
  footer ← lift (seal_footer w object_size object_checksum);
  let footer_offset := footer_offset_of (sf_block_count footer) (sh_block_length (sw_header w))
                         (sf_last_block_length footer) in
  _ ← io_map_err SfIo (fs_write_all (sw_file w) (encode_with_trailer footer footer_offset));
  _ ← io_map_err SfIo (fs_sync (sw_file w));
  mret footer.

(** ** Reader *)

Record ShardFileReader := mkReader {
  sr_file : list Z;
  sr_header : ShardFileHeader;
  sr_footer : ShardFileFooter;
}.

(** [read_exact_at] *)
Definition read_exact_at (file : list Z) (n off : Z) : res ShardFileError (list Z) :=
  if off + n <=? Z.of_nat (length file) then Ok (slice (Z.to_nat off) (Z.to_nat n) file)
  else Err (SfIo UnexpectedEof).

(** [ShardFileReader::open], once the file's bytes can be read. *)
Definition open_bytes (file : list Z) : res ShardFileError ShardFileReader :=
  let file_length := Z.of_nat (length file) in
  _ ← ensure (negb (file_length <? HEADER_LEN + 1 + FOOTER_FIXED_LEN + 8 + TRAILER_LEN))
        (TooShort file_length);
  trailer ← read_exact_at file TRAILER_LEN (file_length - TRAILER_LEN);
  footer_length ← read_u64 trailer 0;
  footer_offset ← read_u64 trailer 8;
  let described_length := n ← checked_add64 footer_offset footer_length; checked_add64 n TRAILER_LEN in
  _ ← ensure (bool_decide (described_length = Some file_length))
        (TrailerInvariant footer_offset footer_length file_length);
  _ ← ensure (footer_length_ok footer_length) (BadFooterLength footer_length);
  footer_bytes ← read_exact_at file (footer_length + TRAILER_LEN) footer_offset;
  footer ← decode_with_trailer footer_bytes;
  page ← read_exact_at file HEADER_LEN 0;
  header ← ShardFileHeader_decode page;
  let last := sf_last_block_length footer in
  _ ← ensure (negb ((last =? 0) || (last >? sh_block_length header)))
        (InconsistentFooter (LastBlock last (sh_block_length header)));
  let expected_footer_offset :=
    footer_offset_of (sf_block_count footer) (sh_block_length header) last in
  _ ← ensure (expected_footer_offset =? footer_offset)
        (InconsistentFooter (FooterOffset (sf_block_count footer) (sh_block_length header) last
                               expected_footer_offset footer_offset));
  geometry ← shard_geometry (sh_scheme header) (sh_block_length header) (sf_object_size footer);
  _ ← ensure (geometry_matches geometry (sf_block_count footer) last)
        (geometry_mismatch geometry (sf_object_size footer) (sf_block_count footer) last);
  Ok (mkReader file header footer).

Definition ShardFileReader_open (p : path) : io ShardFileError ShardFileReader :=
  file ← io_map_err SfIo (fs_read p);
  lift (open_bytes file).

Definition block_count (r : ShardFileReader) : Z := sf_block_count (sr_footer r).

Definition block_length (r : ShardFileReader) (index : Z) : res ShardFileError Z :=
  _ ← ensure (negb (index >=? block_count r)) (BlockOutOfRange index (block_count r));
  if index =? block_count r - 1 then Ok (sf_last_block_length (sr_footer r))
  else Ok (sh_block_length (sr_header r)).

Definition block_bytes (r : ShardFileReader) (index : Z) : res ShardFileError ShardBlock :=
  length ← block_length r index;
  bytes ← read_exact_at (sr_file r) length
            (wrap64 (HEADER_LEN + index * sh_block_length (sr_header r)));
  checksum ← expect (sf_checksums (sr_footer r) !! Z.to_nat index);
  Ok (mkShardBlock (sh_index (sr_header r)) bytes checksum).

(** [read_block]: the read itself may fail. *)
Definition read_block (r : ShardFileReader) (index : Z) : io ShardFileError ShardBlock :=
  _ ← lift (block_length r index);
  _ ← io_map_err SfIo may_fail;
  lift (block_bytes r index).
End codec.

(** ** Fields: lemmas *)

Lemma slice_put_eq {A} off n (src l : list A) :
  length src = n → (off + n ≤ length l)%nat → slice off n (put_slice off src l) = src.
Proof. intros <-. apply slice_put. Qed.

Lemma lookup_put_ne {A} i off (src l : list A) :
  (i < off ∨ off + length src ≤ i)%nat → put_slice off src l !! i = l !! i.
Proof. intros ?. by rewrite lookup_put, decide_False by lia. Qed.

Lemma lookup_put_eq {A} off x (l : list A) :
  (off < length l)%nat → put_slice off [x] l !! off = Some x.
Proof. intros ?. rewrite lookup_put, decide_True by (cbn; lia). by rewrite Nat.sub_diag. Qed.

Lemma sub_Ok {E} off n buf : (off + n ≤ length buf)%nat → sub (E := E) off n buf = Ok (slice off n buf).
Proof. intros ?. unfold sub. by rewrite (proj2 (Nat.leb_le _ _)). Qed.

Lemma sub_inv {E} off n buf r :
  sub (E := E) off n buf = Ok r → (off + n ≤ length buf)%nat ∧ r = slice off n buf.
Proof. unfold sub. destruct (Nat.leb_spec (off + n) (length buf)); naive_solver. Qed.

(** Evaluate reads of a buffer built by writes at constant offsets. *)
Ltac put_len := rewrite ?length_put, ?length_le_bytes, ?length_replicate; cbn [length]; try lia.
Ltac read_field :=
  repeat first
    [ rewrite slice_put_ne by put_len
    | rewrite slice_put_eq by put_len
    | rewrite lookup_put_ne by put_len
    | rewrite lookup_put_eq by put_len ].

Definition header_ok (h : ShardFileHeader) : Prop :=
  scheme_ok (sh_scheme h) ∧ 0 ≤ sh_index h < total_shards (sh_scheme h)
  ∧ is_u64 (sh_block_length h) ∧ key_hash_ok (sh_key_hash h) ∧ version_ok (sh_version h).

Section header.
Context `{Xxh3}.

Lemma zeroed_put bytes at_ v :
  checksum_with_field_zeroed (write_u64 at_ v bytes) at_ = checksum_with_field_zeroed bytes at_.
Proof.
  unfold checksum_with_field_zeroed, write_u64. f_equal. apply put_put.
  by rewrite length_replicate, length_le_bytes.
Qed.

Lemma checksum_zeroed_u64 bytes at_ : is_u64 (checksum_with_field_zeroed bytes at_).
Proof. apply checksum_block_u64. Qed.

Lemma length_header_encode h : length (ShardFileHeader_encode h) = Z.to_nat 4096.
Proof.
  unfold ShardFileHeader_encode, write_u64, write_u32, write_u8. rewrite !length_put.
  apply length_replicate.
Qed.

Lemma of_le_u64 v : is_u64 v → of_le (le_bytes 8 v) = v.
Proof. intros Hv. apply of_le_bytes. exact Hv. Qed.

Lemma header_zeroed h :
  read_u64 (E := ShardFileError) (ShardFileHeader_encode h) OFF_HEADER_CHECKSUM
  = Ok (checksum_with_field_zeroed (ShardFileHeader_encode h) OFF_HEADER_CHECKSUM).
Proof.
  unfold read_u64. rewrite sub_Ok by (rewrite length_header_encode; unfold OFF_HEADER_CHECKSUM; lia).
  cbn [fmap res_fmap]. f_equal. unfold ShardFileHeader_encode at 2. rewrite zeroed_put.
  unfold ShardFileHeader_encode. unfold write_u64 at 1.
  rewrite slice_put_eq; [apply of_le_u64, checksum_zeroed_u64|apply length_le_bytes|].
  unfold write_u64, write_u32, write_u8. rewrite !length_put, length_replicate.
  unfold HEADER_LEN, OFF_HEADER_CHECKSUM. lia.
Qed.

(** The fields of an encoded header, as [decode] reads them. *)
Lemma header_fields h :
  header_ok h →
  let page := ShardFileHeader_encode h in
  slice OFF_HEADER_MAGIC 8 page = MAGIC
  ∧ slice OFF_HEADER_FORMAT_VERSION 4 page = le_bytes 4 FORMAT_VERSION
  ∧ slice OFF_HEADER_CHECKSUM_ALGORITHM 4 page = le_bytes 4 CHECKSUM_ALGORITHM_XXH3_64
  ∧ page !! OFF_HEADER_K = Some (data_shards (sh_scheme h))
  ∧ page !! OFF_HEADER_M = Some (parity_shards (sh_scheme h))
  ∧ page !! OFF_HEADER_SHARD_INDEX = Some (sh_index h)
  ∧ slice OFF_HEADER_BLOCK_LENGTH 8 page = le_bytes 8 (sh_block_length h)
  ∧ slice OFF_HEADER_KEY_HASH 32 page = sh_key_hash h
  ∧ slice OFF_HEADER_VERSION_ID 16 page = sh_version h.
Proof.
  intros ([Hk Hm] & Hi & Hbl & [Hhl _] & [Hvl _]). cbn zeta. unfold ShardFileHeader_encode.
  set (page0 := replicate (Z.to_nat HEADER_LEN) 0).
  assert (length page0 = Z.to_nat 4096) as H0 by apply length_replicate. clearbody page0.
  set (ck := checksum_with_field_zeroed _ _). clearbody ck.
  unfold OFF_HEADER_MAGIC, OFF_HEADER_FORMAT_VERSION,
    OFF_HEADER_CHECKSUM_ALGORITHM, OFF_HEADER_FLAGS, OFF_HEADER_CHECKSUM, OFF_HEADER_KEY_HASH,
    OFF_HEADER_VERSION_ID, OFF_HEADER_BLOCK_LENGTH, OFF_HEADER_K, OFF_HEADER_M, OFF_HEADER_SHARD_INDEX,
    write_u64, write_u32, write_u8, MAX_DATA_SHARDS, MAX_PARITY_SHARDS in *.
  assert (length MAGIC = 8%nat) as Hmag by done.
  unfold wrap. rewrite (Z.mod_small (data_shards _)), (Z.mod_small (parity_shards _)) by lia.
  split_and!; read_field; done.
Qed.

Lemma header_roundtrip h : header_ok h → ShardFileHeader_decode (ShardFileHeader_encode h) = Ok h.
Proof.
  intros Hok. pose proof Hok as (Hs & Hi & Hbl & _).
  destruct (header_fields h Hok) as (F1 & F2 & F3 & F4 & F5 & F6 & F7 & F8 & F9).
  pose proof (length_header_encode h) as Hlen. pose proof (header_zeroed h) as Hz.
  unfold ShardFileHeader_decode. revert Hlen Hz F1 F2 F3 F4 F5 F6 F7 F8 F9.
  generalize (ShardFileHeader_encode h); intros page Hlen Hz F1 F2 F3 F4 F5 F6 F7 F8 F9.
  rewrite Hlen. change (Z.of_nat (Z.to_nat 4096) =? HEADER_LEN) with true. cbn [ensure mbind res_bind].
  rewrite Hz. unfold read_u32, read_u64, read_u8.
  rewrite !sub_Ok by (rewrite Hlen; unfold OFF_HEADER_MAGIC, OFF_HEADER_FORMAT_VERSION,
    OFF_HEADER_CHECKSUM_ALGORITHM, OFF_HEADER_KEY_HASH, OFF_HEADER_VERSION_ID, OFF_HEADER_BLOCK_LENGTH; lia).
  rewrite F1, F2, F3, F4, F5, F6, F7, F8, F9. cbn [mbind res_bind fmap res_fmap expect].
  rewrite bool_decide_eq_true_2 by done.
  rewrite (of_le_bytes 4 FORMAT_VERSION), (of_le_bytes 4 CHECKSUM_ALGORITHM_XXH3_64)
    by (unfold FORMAT_VERSION, CHECKSUM_ALGORITHM_XXH3_64; lia).
  cbn [ensure mbind res_bind].
  rewrite !Z.eqb_refl. cbn [ensure mbind res_bind fmap res_fmap].
  rewrite Scheme_new_ok by done.
  cbn [map_err mbind res_bind]. rewrite (proj2 (contains_true _ _)) by lia. cbn [ensure mbind res_bind].
  rewrite of_le_u64 by done. by destruct h.
Qed.
End header.

Definition footer_ok (f : ShardFileFooter) : Prop :=
  sf_block_count f = Z.of_nat (length (sf_checksums f)) ∧ 0 < sf_block_count f
  ∧ 8 * sf_block_count f + 56 < 2 ^ 64
  ∧ is_u64 (sf_last_block_length f) ∧ is_u64 (sf_object_size f) ∧ is_u64 (sf_object_checksum f)
  ∧ Forall is_u64 (sf_checksums f).

Section table.
Lemma length_write_table i cs buf : length (write_table i cs buf) = length buf.
Proof.
  revert i buf; induction cs as [|c cs IH]; intros i buf; [done|]. cbn [write_table].
  rewrite IH. apply length_put.
Qed.

Lemma write_table_ne off n i cs buf :
  (off + n ≤ 40 + 8 * i ∨ 40 + 8 * (i + length cs) ≤ off)%nat →
  slice off n (write_table i cs buf) = slice off n buf.
Proof.
  revert i buf; induction cs as [|c cs IH]; intros i buf Hoff; [done|]. cbn [write_table length] in *.
  rewrite IH by lia. unfold write_u64, OFF_FOOTER_TABLE. apply slice_put_ne.
  rewrite length_le_bytes. lia.
Qed.

Lemma write_table_lookup i cs buf j c :
  cs !! j = Some c → (40 + 8 * (i + length cs) ≤ length buf)%nat →
  slice (OFF_FOOTER_TABLE + 8 * (i + j)) 8 (write_table i cs buf) = le_bytes 8 c.
Proof.
  unfold OFF_FOOTER_TABLE.
  revert i j buf; induction cs as [|c' cs IH]; intros i j buf Hj Hlen; [done|].
  cbn [write_table length] in *. destruct j as [|j].
  - injection Hj as ->. rewrite write_table_ne by lia. unfold write_u64, OFF_FOOTER_TABLE.
    rewrite Nat.add_0_r. apply slice_put_eq; [apply length_le_bytes|lia].
  - replace (40 + 8 * (i + S j))%nat with (40 + 8 * (S i + j))%nat by lia.
    apply IH; [done|]. unfold write_u64. rewrite length_put. lia.
Qed.
End table.

(** Read a field of a footer buffer, also across the checksum table. *)
Ltac footer_len := rewrite ?length_put, ?length_write_table, ?length_put, ?length_le_bytes; lia.
Ltac read_footer :=
  repeat first
    [ rewrite slice_put_ne by footer_len
    | rewrite slice_put_eq by footer_len
    | rewrite write_table_ne by footer_len ].

Section footer.
Context `{Xxh3}.
Implicit Types f : ShardFileFooter.

Definition footer_nat f : nat := (40 + 8 * length (sf_checksums f))%nat.

Lemma encoded_length_ok f :
  footer_ok f → Z.to_nat (encoded_length f) = footer_nat f
    ∧ encoded_length f = 40 + 8 * sf_block_count f.
Proof.
  intros (Hbc & Hpos & Hmax & _). unfold encoded_length, FOOTER_FIXED_LEN, wrap, footer_nat.
  rewrite Z.mod_small by lia. lia.
Qed.

Lemma length_encode_footer f off :
  footer_ok f → length (encode_with_trailer f off) = (footer_nat f + 16)%nat.
Proof.
  intros Hok. unfold encode_with_trailer, write_u64. rewrite !length_put, length_write_table.
  unfold write_u64. rewrite !length_put, length_replicate. rewrite (proj1 (encoded_length_ok f Hok)).
  unfold TRAILER_LEN. lia.
Qed.

Lemma footer_zeroed f off :
  footer_ok f →
  read_u64 (E := ShardFileError) (encode_with_trailer f off) OFF_FOOTER_CHECKSUM
  = Ok (checksum_with_field_zeroed (encode_with_trailer f off) OFF_FOOTER_CHECKSUM).
Proof.
  intros Hok. pose proof (length_encode_footer f off Hok) as Hlen. unfold footer_nat in Hlen.
  unfold read_u64. rewrite sub_Ok by (rewrite Hlen; unfold OFF_FOOTER_CHECKSUM; lia).
  cbn [fmap res_fmap]. f_equal. unfold encode_with_trailer at 2. rewrite zeroed_put.
  unfold encode_with_trailer in *. unfold write_u64 at 1.
  rewrite slice_put_eq; [apply of_le_u64, checksum_zeroed_u64|apply length_le_bytes|].
  unfold write_u64 at 1 in Hlen. rewrite length_put in Hlen. rewrite Hlen.
  unfold OFF_FOOTER_CHECKSUM. lia.
Qed.

Lemma footer_fields f off :
  footer_ok f →
  let bytes := encode_with_trailer f off in
  slice OFF_FOOTER_BLOCK_COUNT 8 bytes = le_bytes 8 (sf_block_count f)
  ∧ slice OFF_FOOTER_LAST_BLOCK_LENGTH 8 bytes = le_bytes 8 (sf_last_block_length f)
  ∧ slice OFF_FOOTER_OBJECT_SIZE 8 bytes = le_bytes 8 (sf_object_size f)
  ∧ slice OFF_FOOTER_OBJECT_CHECKSUM 8 bytes = le_bytes 8 (sf_object_checksum f)
  ∧ (∀ j c, sf_checksums f !! j = Some c → slice (OFF_FOOTER_TABLE + 8 * j) 8 bytes = le_bytes 8 c)
  ∧ slice (footer_nat f) 8 bytes = le_bytes 8 (encoded_length f)
  ∧ slice (footer_nat f + 8) 8 bytes = le_bytes 8 off.
Proof.
  intros Hok. cbn zeta. unfold encode_with_trailer.
  destruct (encoded_length_ok f Hok) as [Hn Hz]. rewrite Hn.
  replace (Z.of_nat (footer_nat f)) with (encoded_length f)
    by (destruct Hok as (? & ? & _); unfold footer_nat; lia).
  set (page0 := replicate _ 0).
  assert (length page0 = (footer_nat f + 16)%nat) as H0
    by (unfold page0; rewrite length_replicate; unfold TRAILER_LEN; lia). clearbody page0.
  set (ck := checksum_with_field_zeroed _ _). clearbody ck.
  unfold footer_nat in *.
  unfold OFF_FOOTER_BLOCK_COUNT, OFF_FOOTER_LAST_BLOCK_LENGTH, OFF_FOOTER_OBJECT_SIZE,
    OFF_FOOTER_OBJECT_CHECKSUM, OFF_FOOTER_CHECKSUM, write_u64.
  split_and!; [read_footer; done..| |read_footer; done|read_footer; done].
  intros j c Hj. pose proof (lookup_lt_Some _ _ _ Hj). unfold OFF_FOOTER_TABLE in *. read_footer.
  apply (write_table_lookup 0); [done|]. put_len.
Qed.

Lemma read_u64_field {E} buf off v :
  (off + 8 ≤ length buf)%nat → slice off 8 buf = le_bytes 8 v → is_u64 v →
  read_u64 (E := E) buf off = Ok v.
Proof.
  intros Hlen Hs Hv. unfold read_u64. rewrite sub_Ok by done. cbn. by rewrite Hs, of_le_u64.
Qed.

Lemma footer_length_ok_mul n : 0 ≤ n → footer_length_ok (40 + 8 * n) = true.
Proof.
  intros Hn. unfold footer_length_ok, FOOTER_FIXED_LEN.
  replace (40 + 8 * n - 40) with (n * 8) by lia. rewrite Z.mod_mul by lia.
  destruct (Z.ltb_spec (40 + 8 * n) 40); [lia|done].
Qed.

Lemma footer_roundtrip f off :
  footer_ok f → decode_with_trailer (encode_with_trailer f off) = Ok f.
Proof.
  intros Hok. pose proof Hok as (Hbc & Hpos & Hmax & Hl & Hos & Hoc & Hcs).
  destruct (footer_fields f off Hok) as (F1 & F2 & F3 & F4 & F5 & _).
  pose proof (length_encode_footer f off Hok) as Hlen. pose proof (footer_zeroed f off Hok) as Hz.
  unfold decode_with_trailer. revert Hlen Hz F1 F2 F3 F4 F5.
  generalize (encode_with_trailer f off); intros bytes Hlen Hz F1 F2 F3 F4 F5. unfold footer_nat in Hlen.
  rewrite Hz. replace (wrap64 (Z.of_nat (length bytes) - TRAILER_LEN)) with (40 + 8 * sf_block_count f)
    by (unfold wrap, TRAILER_LEN; rewrite Z.mod_small by lia; lia).
  rewrite footer_length_ok_mul by lia. cbn [ensure mbind res_bind]. rewrite Z.eqb_refl.
  cbn [ensure mbind res_bind].
  rewrite (read_u64_field bytes OFF_FOOTER_BLOCK_COUNT (sf_block_count f)),
    (read_u64_field bytes OFF_FOOTER_LAST_BLOCK_LENGTH (sf_last_block_length f)),
    (read_u64_field bytes OFF_FOOTER_OBJECT_SIZE (sf_object_size f)),
    (read_u64_field bytes OFF_FOOTER_OBJECT_CHECKSUM (sf_object_checksum f))
    by (done || (unfold OFF_FOOTER_OBJECT_SIZE, OFF_FOOTER_OBJECT_CHECKSUM, OFF_FOOTER_BLOCK_COUNT,
      OFF_FOOTER_LAST_BLOCK_LENGTH, is_uint; lia)).
  cbn [mbind res_bind]. unfold FOOTER_FIXED_LEN.
  replace (40 + 8 * sf_block_count f - 40) with (sf_block_count f * 8) by lia.
  rewrite Z.div_mul, Z.eqb_refl by lia. destruct (Z.eqb_spec (sf_block_count f) 0); [lia|].
  cbn [negb ensure mbind res_bind].
  erewrite (proj2 (map_res_Ok _ _ (sf_checksums f))); [by destruct f|].
  apply Forall2_same_length_lookup. split; [rewrite length_seq; lia|].
  intros j i c [-> Hj]%lookup_seq Hc. rewrite Nat.add_0_l. apply read_u64_field.
  - unfold OFF_FOOTER_TABLE. rewrite Hlen. lia.
  - by apply F5.
  - by eapply Forall_lookup_1 in Hcs.
Qed.
End footer.

(** ** Geometry: lemmas *)

(** What [shard_geometry] computes when [k * block_length] fits a [u64]. *)
Lemma shard_geometry_spec {E} s bl size :
  scheme_ok s → 0 < bl → data_shards s * bl < 2 ^ 64 → 0 < size < 2 ^ 64 →
  let stripe := data_shards s * bl in
  let n := div_ceil size stripe in
  let last_stripe := size - (n - 1) * stripe in
  shard_geometry (E := E) s bl size = Ok (Some (mkGeometry n (div_ceil last_stripe (data_shards s))))
  ∧ 0 < n ∧ 0 < last_stripe ≤ stripe ∧ 1 ≤ div_ceil last_stripe (data_shards s) ≤ bl.
Proof.
  intros [Hk _] Hbl Hfit Hsize. cbn zeta.
  assert (0 < data_shards s * bl) as Hst by nia.
  destruct (div_ceil_spec size (data_shards s * bl) Hst ltac:(lia)) as (Hn0 & Hn1 & Hn2).
  pose proof (div_ceil_pos size (data_shards s * bl) Hst ltac:(lia)) as Hn.
  set (n := div_ceil size (data_shards s * bl)) in *.
  assert (0 < size - (n - 1) * (data_shards s * bl) ≤ data_shards s * bl) as Hls by nia.
  split_and!; [|done|lia|lia| |].
  - unfold shard_geometry. destruct (Z.eqb_spec size 0); [lia|]. destruct (Z.eqb_spec bl 0); [lia|].
    cbn [orb]. unfold wrap. rewrite (Z.mod_small (data_shards s * bl)) by lia.
    destruct (Z.eqb_spec (data_shards s * bl) 0); [lia|]. fold n.
    rewrite (Z.mod_small ((n - 1) * _)) by nia. by rewrite Z.mod_small by nia.
  - pose proof (div_ceil_pos (size - (n - 1) * (data_shards s * bl)) (data_shards s)). lia.
  - destruct (div_ceil_spec (size - (n - 1) * (data_shards s * bl)) (data_shards s)) as (? & ? & ?); [lia..|].
    nia.
Qed.

(** ** The image of a finished file *)

(** Blocks cut as the geometry wants: full ones and a last one. *)
Definition blocks_fit (bl last : Z) (blocks : list block) : Prop :=
  ∃ full final, blocks = full ++ [final] ∧ uniform (Z.to_nat bl) full
    ∧ length final = Z.to_nat last ∧ 0 < last ≤ bl.

Lemma length_concat_uniform n (bs : list block) : uniform n bs → length (concat bs) = (length bs * n)%nat.
Proof. induction 1 as [|b bs Hb _ IH]; [done|]. cbn. rewrite length_app, IH. lia. Qed.

Lemma length_concat_same (l l' : list block) :
  Forall2 (λ a b, length a = length b) l l' → length (concat l) = length (concat l').
Proof. induction 1 as [|a b l l' Hab _ IH]; [done|]. cbn [concat]. rewrite !length_app. lia. Qed.

Lemma blocks_fit_length bl last blocks :
  blocks_fit bl last blocks →
  (0 < length blocks)%nat ∧
  length (concat blocks) = ((length blocks - 1) * Z.to_nat bl + Z.to_nat last)%nat.
Proof.
  intros (full & final & -> & Hu & Hf & _). rewrite concat_app, !length_app. cbn.
  rewrite app_nil_r, (length_concat_uniform _ _ Hu), Hf. lia.
Qed.

Lemma slice_concat n (bs : list block) rest i b :
  uniform n bs → bs !! i = Some b → slice (i * n) n (concat bs ++ rest) = b.
Proof.
  intros Hu. revert i. induction Hu as [|c bs Hc Hu IH]; intros i Hi; [done|].
  cbn [concat]. rewrite <- app_assoc. destruct i as [|i].
  - injection Hi as ->. cbn. rewrite slice_app_l by lia. rewrite <- Hc. apply slice_all.
  - cbn [Nat.mul]. rewrite slice_app_r by lia.
    replace (n + i * n - length c)%nat with (i * n)%nat by lia. by apply IH.
Qed.

(** Block [i] is at offset [i * bl] of the block area. *)
Lemma slice_blocks bl last blocks rest i b :
  blocks_fit bl last blocks → blocks !! i = Some b →
  slice (i * Z.to_nat bl) (length b) (concat blocks ++ rest) = b.
Proof.
  intros (full & final & -> & Hu & Hf & _) Hi. rewrite concat_app, <- app_assoc.
  destruct (decide (i < length full)%nat) as [Hlt|Hge].
  - rewrite lookup_app_l in Hi by done. rewrite (Forall_lookup_1 _ _ _ _ Hu Hi).
    by eapply slice_concat.
  - rewrite lookup_app_r in Hi by lia. apply list_lookup_singleton_Some in Hi as [Hi <-].
    assert (i = length full) as -> by lia. rewrite <- (length_concat_uniform _ _ Hu).
    cbn [concat]. rewrite app_nil_r. rewrite slice_app_r, Nat.sub_diag by done.
    rewrite slice_app_l by lia. apply slice_all.
Qed.

Section image.
Context `{Xxh3}.

Definition footer_for (blocks : list block) (last size : Z) (ock : BlockChecksum) : ShardFileFooter :=
  mkFooter (Z.of_nat (length blocks)) last size ock (checksum_block <$> blocks).

Definition shard_image (h : ShardFileHeader) (blocks : list block) (last size : Z) (ock : BlockChecksum)
    : list Z :=
  ShardFileHeader_encode h ++ concat blocks
  ++ encode_with_trailer (footer_for blocks last size ock)
       (footer_offset_of (Z.of_nat (length blocks)) (sh_block_length h) last).

(** The length of the whole file. *)
Definition image_length (h : ShardFileHeader) (blocks : list block) (last : Z) : Z :=
  4096 + (Z.of_nat (length blocks) - 1) * sh_block_length h + last
  + 40 + 8 * Z.of_nat (length blocks) + 16.

(** A shard of an object of [size] bytes, of a size a [u64] can address. *)
Record shard_ok (h : ShardFileHeader) (blocks : list block) (last size : Z) (ock : BlockChecksum)
    : Prop := {
  so_header : header_ok h;
  so_size : 0 < size < 2 ^ 64;
  so_ock : is_u64 ock;
  so_bl : 0 < sh_block_length h;
  so_fit : data_shards (sh_scheme h) * sh_block_length h < 2 ^ 64;
  so_blocks : blocks_fit (sh_block_length h) last blocks;
  so_geometry : shard_geometry (E := ShardFileError) (sh_scheme h) (sh_block_length h) size
                = Ok (Some (mkGeometry (Z.of_nat (length blocks)) last));
  so_length : image_length h blocks last < 2 ^ 64;
}.

Context (h : ShardFileHeader) (blocks : list block) (last size : Z) (ock : BlockChecksum).
Context (Hok : shard_ok h blocks last size ock).

Lemma shard_last : 0 < last ≤ sh_block_length h.
Proof. destruct Hok as [_ _ _ _ _ (? & ? & _ & _ & _ & ?) _ _]. done. Qed.

Lemma shard_count : 0 < Z.of_nat (length blocks).
Proof. destruct (blocks_fit_length _ _ _ (so_blocks _ _ _ _ _ Hok)). lia. Qed.

Lemma shard_body : Z.of_nat (length (concat blocks)) = (Z.of_nat (length blocks) - 1) * sh_block_length h + last.
Proof.
  destruct (blocks_fit_length _ _ _ (so_blocks _ _ _ _ _ Hok)) as [? ->].
  pose proof shard_last. nia.
Qed.

Lemma shard_footer_ok : footer_ok (footer_for blocks last size ock).
Proof.
  destruct Hok as [_ Hs Ho Hbl _ _ _ Hl]. pose proof shard_last. pose proof shard_count.
  unfold image_length in Hl.
  assert (Forall is_u64 (checksum_block <$> blocks)) as Hcs
    by (apply Forall_fmap, Forall_true; intros b; apply checksum_block_u64).
  assert (0 ≤ (Z.of_nat (length blocks) - 1) * sh_block_length h) by nia.
  unfold is_uint in Ho. unfold footer_ok, footer_for, is_uint;
    cbn [sf_block_count sf_last_block_length sf_object_size sf_object_checksum sf_checksums].
  rewrite length_fmap. split_and!; (done || lia).
Qed.

Lemma shard_footer_offset :
  footer_offset_of (Z.of_nat (length blocks)) (sh_block_length h) last
  = 4096 + Z.of_nat (length (concat blocks)).
Proof.
  pose proof shard_body as Hb. pose proof shard_count. pose proof shard_last.
  destruct Hok as [_ _ _ _ _ _ _ Hl]. unfold image_length in Hl.
  unfold footer_offset_of, wrap, HEADER_LEN. rewrite Z.mod_small; nia.
Qed.

Lemma length_shard_image : Z.of_nat (length (shard_image h blocks last size ock)) = image_length h blocks last.
Proof.
  unfold shard_image. rewrite !length_app, length_header_encode, length_encode_footer by apply shard_footer_ok.
  pose proof shard_body. unfold footer_nat, image_length. cbn. rewrite length_fmap. lia.
Qed.

Lemma read_exact_at_Ok file n off :
  0 ≤ off → 0 ≤ n → off + n ≤ Z.of_nat (length file) →
  read_exact_at file n off = Ok (slice (Z.to_nat off) (Z.to_nat n) file).
Proof. intros. unfold read_exact_at. by destruct (Z.leb_spec (off + n) (Z.of_nat (length file))); [|lia]. Qed.

Abbreviation image := (shard_image h blocks last size ock).
Abbreviation footer := (footer_for blocks last size ock).
Abbreviation footer_off := (4096 + Z.of_nat (length (concat blocks))).

Lemma image_at off n :
  (Z.to_nat 4096 + length (concat blocks) ≤ off)%nat →
  slice off n image = slice (off - (Z.to_nat 4096 + length (concat blocks))) n
    (encode_with_trailer footer footer_off).
Proof.
  intros Hoff. unfold shard_image. rewrite shard_footer_offset.
  rewrite slice_app_r by (rewrite length_header_encode; lia).
  rewrite slice_app_r by (rewrite length_header_encode; lia). f_equal. rewrite length_header_encode. lia.
Qed.

Lemma image_footer_length :
  length (encode_with_trailer footer footer_off) = (56 + 8 * length blocks)%nat
  ∧ encoded_length footer = 40 + 8 * Z.of_nat (length blocks).
Proof.
  rewrite length_encode_footer by apply shard_footer_ok. unfold footer_nat. cbn. rewrite length_fmap.
  split; [lia|]. by destruct (encoded_length_ok footer shard_footer_ok) as [_ ->].
Qed.

(** The trailer's two words. *)
Lemma image_trailer :
  let len := Z.of_nat (length image) in
  ∃ trailer, read_exact_at image TRAILER_LEN (len - TRAILER_LEN) = Ok trailer
    ∧ read_u64 (E := ShardFileError) trailer 0 = Ok (encoded_length footer)
    ∧ read_u64 (E := ShardFileError) trailer 8 = Ok footer_off.
Proof.
  cbn zeta. pose proof shard_body as Hb. pose proof shard_count as Hc. pose proof shard_last as Hla.
  pose proof length_shard_image as Hlen. destruct image_footer_length as [Hfl Hel].
  pose proof (so_length _ _ _ _ _ Hok) as Hmax. unfold image_length in *.
  destruct (footer_fields footer footer_off shard_footer_ok) as (_ & _ & _ & _ & _ & F6 & F7).
  unfold footer_nat in F6, F7. cbn in F6, F7. rewrite length_fmap in F6, F7.
  unfold TRAILER_LEN. rewrite read_exact_at_Ok by nia. eexists. split; [done|].
  rewrite image_at by nia. set (o := (_ - _)%nat).
  assert (o = 40 + 8 * length blocks)%nat as -> by (unfold o; nia).
  assert (length (slice (40 + 8 * length blocks) (Z.to_nat 16) (encode_with_trailer footer footer_off)) = 16%nat) as Hl16
    by (apply length_slice; rewrite Hfl; lia).
  split; apply read_u64_field; rewrite ?Hl16; try lia.
  - rewrite slice_slice by lia. rewrite Nat.add_0_r. exact F6.
  - unfold is_uint. nia.
  - rewrite slice_slice by lia. exact F7.
  - unfold is_uint. nia.
Qed.

Lemma image_footer_bytes :
  read_exact_at image (encoded_length footer + TRAILER_LEN) footer_off
  = Ok (encode_with_trailer footer footer_off).
Proof.
  pose proof shard_body as Hb. pose proof shard_count as Hc. pose proof shard_last as Hla.
  pose proof length_shard_image as Hlen. destruct image_footer_length as [Hfl Hel].
  unfold image_length in Hlen. unfold TRAILER_LEN.
  rewrite read_exact_at_Ok by nia. f_equal. rewrite image_at by lia.
  replace (Z.to_nat footer_off - _)%nat with O by lia.
  rewrite Hel. replace (Z.to_nat _) with (length (encode_with_trailer footer footer_off)) by lia.
  apply slice_all.
Qed.

Lemma image_header : read_exact_at image HEADER_LEN 0 = Ok (ShardFileHeader_encode h).
Proof.
  pose proof shard_body. pose proof shard_count. pose proof shard_last.
  pose proof length_shard_image as Hlen. unfold image_length in Hlen. unfold HEADER_LEN.
  rewrite read_exact_at_Ok by nia. f_equal. unfold shard_image. change (Z.to_nat 0) with O.
  rewrite slice_app_l by (rewrite length_header_encode; lia).
  rewrite <- (length_header_encode h). apply slice_all.
Qed.

(** A file with the header and footer of a finished one opens with them. *)
Lemma open_from_reads file :
  length file = length image →
  (∀ n off, 0 ≤ n → 0 ≤ off → off + n ≤ 4096 ∨ footer_off ≤ off →
     read_exact_at file n off = read_exact_at image n off) →
  open_bytes file = Ok (mkReader file h footer).
Proof.
  intros Hsame Hread.
  pose proof shard_body as Hb. pose proof shard_count as Hc. pose proof shard_last as Hla.
  pose proof length_shard_image as Hlen. destruct image_footer_length as [Hfl Hel].
  destruct image_trailer as (trailer & Ht & Ht0 & Ht8).
  pose proof (so_length _ _ _ _ _ Hok) as Hmax. unfold image_length in *.
  assert (0 ≤ (Z.of_nat (length blocks) - 1) * sh_block_length h) as Hpos by nia.
  unfold open_bytes. rewrite Hsame, (Hread TRAILER_LEN), Ht by (unfold TRAILER_LEN; lia).
  destruct (Z.ltb_spec (Z.of_nat (length image)) (HEADER_LEN + 1 + FOOTER_FIXED_LEN + 8 + TRAILER_LEN));
    [unfold HEADER_LEN, FOOTER_FIXED_LEN, TRAILER_LEN in *; nia|].
  cbn [negb ensure mbind res_bind]. rewrite Ht0, Ht8. cbn [mbind res_bind].
  rewrite bool_decide_eq_true_2.
  2: { unfold checked_add64, TRAILER_LEN. destruct (Z.ltb_spec (footer_off + encoded_length footer) (2 ^ 64)); [|nia].
       cbn [mbind option_bind]. destruct (Z.ltb_spec (footer_off + encoded_length footer + 16) (2 ^ 64)); [|nia].
       f_equal. nia. }
  cbn [ensure mbind res_bind]. rewrite Hel, footer_length_ok_mul by lia.
  rewrite (Hread (_ + TRAILER_LEN)) by (unfold TRAILER_LEN; lia). rewrite <- Hel, image_footer_bytes.
  cbn [ensure mbind res_bind]. rewrite footer_roundtrip by apply shard_footer_ok.
  cbn [mbind res_bind]. rewrite Hread, image_header by (unfold HEADER_LEN; lia). cbn [mbind res_bind].
  rewrite header_roundtrip by apply Hok. cbn [mbind res_bind footer_for sf_last_block_length sf_block_count sf_object_size].
  destruct (Z.eqb_spec last 0); [lia|]. destruct (Z.gtb_spec last (sh_block_length h)); [lia|].
  cbn [orb negb ensure mbind res_bind]. rewrite shard_footer_offset, Z.eqb_refl. cbn [ensure mbind res_bind].
  rewrite (so_geometry _ _ _ _ _ Hok). cbn [mbind res_bind geometry_matches g_block_count g_last_block_length].
  by rewrite !Z.eqb_refl.
Qed.

Lemma open_image : open_bytes image = Ok (mkReader image h footer).
Proof. by apply open_from_reads. Qed.

Lemma image_block_length i b :
  blocks !! i = Some b →
  block_length (mkReader image h footer) (Z.of_nat i) = Ok (Z.of_nat (length b)).
Proof.
  intros Hi. pose proof (lookup_lt_Some _ _ _ Hi) as Hlt.
  unfold block_length, block_count. cbn.
  destruct (Z.geb_spec (Z.of_nat i) (Z.of_nat (length blocks))); [lia|]. cbn.
  destruct (so_blocks _ _ _ _ _ Hok) as (full & final & -> & Hu & Hf & ?).
  rewrite length_app in *. cbn in *.
  destruct (Z.eqb_spec (Z.of_nat i) (Z.of_nat (length full + 1) - 1)) as [He|He].
  - rewrite lookup_app_r in Hi by lia. apply list_lookup_singleton_Some in Hi as [_ <-]. f_equal. lia.
  - rewrite lookup_app_l in Hi by lia. rewrite (Forall_lookup_1 _ _ _ _ Hu Hi). f_equal. lia.
Qed.

(** Every block lies inside the block area. *)
Lemma image_block_range i b :
  blocks !! i = Some b →
  Z.of_nat i * sh_block_length h + Z.of_nat (length b) ≤ Z.of_nat (length (concat blocks)).
Proof.
  intros Hi. pose proof (lookup_lt_Some _ _ _ Hi) as Hlt. pose proof shard_body as Hb.
  destruct (so_blocks _ _ _ _ _ Hok) as (full & final & -> & Hu & Hf & ?).
  rewrite length_app in *. cbn in Hlt, Hb. destruct (decide (i < length full)%nat) as [Hl|Hl].
  - rewrite lookup_app_l in Hi by lia. rewrite (Forall_lookup_1 _ _ _ _ Hu Hi). nia.
  - rewrite lookup_app_r in Hi by lia. apply list_lookup_singleton_Some in Hi as [_ <-].
    assert (i = length full) as -> by lia. nia.
Qed.

Lemma read_image i b :
  blocks !! i = Some b →
  block_bytes (mkReader image h footer) (Z.of_nat i)
  = Ok (mkShardBlock (sh_index h) b (checksum_block b)).
Proof.
  intros Hi. pose proof shard_body as Hb. pose proof shard_count as Hc. pose proof shard_last as Hla.
  pose proof length_shard_image as Hlen. pose proof (so_length _ _ _ _ _ Hok) as Hmax.
  pose proof (image_block_range i b Hi) as Hin. unfold image_length in *.
  unfold block_bytes. rewrite (image_block_length i b Hi). cbn [mbind res_bind sr_file sr_header sr_footer].
  replace (wrap64 (HEADER_LEN + Z.of_nat i * sh_block_length h)) with (4096 + Z.of_nat i * sh_block_length h)
    by (unfold wrap, HEADER_LEN; rewrite Z.mod_small; nia).
  rewrite read_exact_at_Ok by nia. cbn [mbind res_bind footer_for sf_checksums].
  rewrite !Nat2Z.id, list_lookup_fmap, Hi.
  cbn [fmap option_fmap option_map expect mbind res_bind]. do 2 f_equal. unfold shard_image.
  rewrite slice_app_r by (rewrite length_header_encode; nia). rewrite length_header_encode.
  replace (Z.to_nat (4096 + Z.of_nat i * sh_block_length h) - Z.to_nat 4096)%nat
    with (i * Z.to_nat (sh_block_length h))%nat by nia.
  eapply slice_blocks; [by apply Hok|done].
Qed.

(** ** Damage to the block area *)

Context (stored : list block) (Hstored : Forall2 (λ a b, length a = length b) stored blocks).

(** The same header and footer around other block contents. *)
Definition damaged_image : list Z :=
  ShardFileHeader_encode h ++ concat stored
  ++ encode_with_trailer footer (footer_offset_of (Z.of_nat (length blocks)) (sh_block_length h) last).

Lemma length_concat_stored : length (concat stored) = length (concat blocks).
Proof. by apply length_concat_same. Qed.

Lemma length_damaged : length damaged_image = length image.
Proof. unfold damaged_image, shard_image. rewrite !length_app, length_concat_stored. lia. Qed.

Lemma open_damaged : open_bytes damaged_image = Ok (mkReader damaged_image h footer).
Proof.
  apply open_from_reads; [apply length_damaged|]. intros n off Hn Ho Hcase.
  unfold read_exact_at. rewrite length_damaged. case_match; [|done]. f_equal.
  unfold damaged_image, shard_image. destruct Hcase.
  - by rewrite !(slice_app_l _ _ (ShardFileHeader_encode h)) by (rewrite length_header_encode; lia).
  - rewrite !(slice_app_r _ _ (ShardFileHeader_encode h)) by (rewrite length_header_encode; lia).
    rewrite length_header_encode.
    rewrite !slice_app_r by (rewrite ?length_concat_stored; lia). by rewrite length_concat_stored.
Qed.

Lemma stored_fit : blocks_fit (sh_block_length h) last stored.
Proof.
  destruct (so_blocks _ _ _ _ _ Hok) as (full & final & Hb & Hu & Hrest).
  rewrite Hb in Hstored. apply Forall2_app_inv_r in Hstored as (full' & l & Hf & Hl & ->).
  apply Forall2_cons_inv_r in Hl as (final' & l' & Hfl & Hnil & ->).
  apply Forall2_nil_inv_r in Hnil as ->. exists full', final'. split; [done|]. rewrite Hfl. split; [|done].
  clear -Hf Hu. unfold uniform in *. induction Hf as [|a b l l' Hab _ IH]; [constructor|].
  apply Forall_cons in Hu as [Hb Hu]. constructor; [by rewrite Hab|by apply IH].
Qed.

Lemma read_damaged i b b' :
  blocks !! i = Some b → stored !! i = Some b' →
  block_bytes (mkReader damaged_image h footer) (Z.of_nat i)
  = Ok (mkShardBlock (sh_index h) b' (checksum_block b)).
Proof.
  intros Hi Hi'. pose proof (image_block_range i b Hi) as Hin. pose proof shard_body as Hb.
  pose proof (Forall2_lookup_lr _ _ _ _ _ _ Hstored Hi' Hi) as Hsame. cbn in Hsame.
  pose proof length_shard_image as Hlen. pose proof (so_length _ _ _ _ _ Hok) as Hmax.
  pose proof shard_count. pose proof shard_last. pose proof length_damaged. unfold image_length in *.
  unfold block_bytes. change (block_length (mkReader damaged_image h footer) (Z.of_nat i))
    with (block_length (mkReader image h footer) (Z.of_nat i)).
  rewrite (image_block_length i b Hi). cbn [mbind res_bind sr_file sr_header sr_footer].
  replace (wrap64 (HEADER_LEN + Z.of_nat i * sh_block_length h)) with (4096 + Z.of_nat i * sh_block_length h)
    by (unfold wrap, HEADER_LEN; rewrite Z.mod_small; nia).
  rewrite read_exact_at_Ok by nia. cbn [mbind res_bind footer_for sf_checksums].
  rewrite !Nat2Z.id, list_lookup_fmap, Hi.
  cbn [fmap option_fmap option_map expect mbind res_bind]. do 2 f_equal. unfold damaged_image.
  rewrite slice_app_r by (rewrite length_header_encode; nia). rewrite length_header_encode.
  replace (Z.to_nat (4096 + Z.of_nat i * sh_block_length h) - Z.to_nat 4096)%nat
    with (i * Z.to_nat (sh_block_length h))%nat by nia.
  rewrite <- Hsame. eapply slice_blocks; [apply stored_fit|done].
Qed.
End image.

(** ** The writer *)

Section writer.
Context `{Xxh3} (Inv : tree → Prop).
Implicit Types (sw : ShardFileWriter) (blocks : list block).

(** What a writer knows after the blocks it has accepted. *)
Definition writer_ok sw blocks : Prop :=
  sw_checksums sw = checksum_block <$> blocks ∧
  ((blocks = [] ∧ sw_short_block_written sw = false) ∨
   ∃ full final, blocks = full ++ [final] ∧ uniform (Z.to_nat (sh_block_length (sw_header sw))) full
     ∧ sw_last_block_length sw = Z.of_nat (length final)
     ∧ 0 < Z.of_nat (length final) ≤ sh_block_length (sw_header sw)
     ∧ sw_short_block_written sw = (Z.of_nat (length final) <? sh_block_length (sw_header sw))).

Lemma accept_block_Ok sw b :
  accept_block sw b = Ok tt ↔
  sb_index b = sh_index (sw_header sw) ∧ sw_short_block_written sw = false
  ∧ 0 < Z.of_nat (length (sb_bytes b)) ≤ sh_block_length (sw_header sw)
  ∧ checksum_block (sb_bytes b) = sb_checksum b.
Proof.
  unfold accept_block. rewrite !bind_Ok. setoid_rewrite ensure_Ok.
  setoid_rewrite bind_Ok. setoid_rewrite ensure_Ok. setoid_rewrite bind_Ok. setoid_rewrite ensure_Ok.
  split.
  - intros (_ & H1 & _ & H2 & _ & H3 & H4). split_and!; [lia|by destruct (sw_short_block_written sw)|lia..].
  - intros (H1 & H2 & H3 & H4). exists tt. split; [lia|]. exists tt. rewrite H2. split; [done|].
    exists tt. split; lia.
Qed.

Lemma pushed_ok sw blocks b :
  writer_ok sw blocks → accept_block sw b = Ok tt →
  writer_ok (pushed sw b) (blocks ++ [sb_bytes b]).
Proof.
  intros [Hcs Hst] (Hi & Hshort & Hlen & Hck)%accept_block_Ok. split.
  { cbn. rewrite fmap_app, Hcs. done. }
  right. exists blocks, (sb_bytes b). cbn. rewrite Hshort. split_and!; try done; try lia.
  destruct Hst as [[-> _]|(full & final & -> & Hu & _ & Hf & Hs)]; [constructor|].
  apply Forall_app. split; [done|]. rewrite Hshort in Hs. constructor; [|constructor]. lia.
Qed.

(** The file under construction: the header and the blocks so far, then
    what is left of the reservation. *)
Definition writing (w : World) sw blocks (reserve : nat) : Prop :=
  let pre := ShardFileHeader_encode (sw_header sw) ++ concat blocks in
  ∃ c m, w_tree w !! sw_file sw = Some (File c m) ∧ offset_of w (sw_file sw) = length pre
    ∧ take (length pre) c = pre ∧ length c = Nat.max reserve (length pre).

Lemma wp_append_block sw b blocks reserve w :
  writing w sw blocks reserve →
  (∀ c m, Inv (<[sw_file sw := File c m]> (w_tree w))) →
  wp Inv (append_block sw b) w (λ r w', touched (sw_file sw) w w' ∧
    match r with
    | Ok sw' => accept_block sw b = Ok tt ∧ sw' = pushed sw b
        ∧ writing w' sw' (blocks ++ [sb_bytes b]) reserve
    | Err _ => True
    | Panic => False
    end).
Proof.
  intros (c & m & Hp & Hoff & Htake & Hlen) HI. unfold append_block. apply wp_bind, wp_lift.
  assert (returns (accept_block sw b)) as Hret
    by (unfold accept_block; repeat (apply bind_returns; [auto with djbod|intros _ _]); auto with djbod).
  destruct (accept_block sw b) as [[]|e|] eqn:Ha; [|split; [|done]; by eapply unmoved_touched|done].
  apply wp_bind, wp_map_err. eapply wp_fs_write_all; [done|intros; apply HI| |].
  - intros w' Hw. apply wp_ret. split; [by eapply moved_touched|]. split_and!; [done|done|].
    destruct Hw as (Ht & Ho & _). rewrite Hoff in *.
    destruct (overwrite_prefix _ (sb_bytes b) _ _ Htake Hlen) as [Heq Hl].
    unfold writing. cbn [pushed sw_header sw_file]. rewrite Ht, lookup_insert_eq, concat_app. cbn [concat].
    rewrite app_nil_r, app_assoc. do 2 eexists. split; [done|]. split_and!; [| |done].
    + unfold offset_of. rewrite Ho, lookup_insert_eq, (length_app _ (sb_bytes b)). done.
    + rewrite Heq. by rewrite take_app_length.
  - intros k n w' Hw. split; [by eapply moved_touched|done].
Qed.

Lemma seal_footer_Ok sw blocks size ock f :
  writer_ok sw blocks → seal_footer sw size ock = Ok f →
  let h := sw_header sw in
  ∃ last, f = footer_for blocks last size ock ∧ blocks_fit (sh_block_length h) last blocks
    ∧ shard_geometry (E := ShardFileError) (sh_scheme h) (sh_block_length h) size
      = Ok (Some (mkGeometry (Z.of_nat (length blocks)) last)).
Proof.
  intros [Hcs Hst] Hseal. cbn zeta. unfold seal_footer in Hseal. inv_ok Hseal.
  rewrite ensure_Ok in *. injection Hseal as <-. apply bool_decide_eq_true in H0.
  destruct Hst as [[-> _]|(full & final & Hb & Hu & Hl & Hf & Hs)]; [by rewrite Hcs in H0|].
  rewrite Hcs, length_fmap in *. exists (sw_last_block_length sw). split_and!; [done| |].
  - exists full, final. split_and!; [done|done|lia..].
  - rewrite H1. destruct a0 as [[n l]|]; [|done]. cbn in H2. do 3 f_equal; lia.
Qed.

Lemma seal_footer_returns_geometry sw size ock :
  returns (shard_geometry (E := ShardFileError) (sh_scheme (sw_header sw)) (sh_block_length (sw_header sw)) size) →
  returns (seal_footer sw size ock).
Proof.
  intros Hg. unfold seal_footer. apply bind_returns; [auto with djbod|]. intros _ _.
  apply bind_returns; [done|]. intros g _. apply bind_returns; [auto with djbod|]. done.
Qed.

(** Finishing writes the footer after the blocks: when the reservation was
    the file's length, the file is exactly the image. *)
Lemma wp_finish sw blocks reserve size ock w :
  writing w sw blocks reserve → writer_ok sw blocks →
  returns (shard_geometry (E := ShardFileError) (sh_scheme (sw_header sw)) (sh_block_length (sw_header sw)) size) →
  (∀ c m, Inv (<[sw_file sw := File c m]> (w_tree w))) →
  wp Inv (finish sw size ock) w (λ r w', touched (sw_file sw) w w' ∧
    match r with
    | Ok f => ∃ last, f = footer_for blocks last size ock
        ∧ blocks_fit (sh_block_length (sw_header sw)) last blocks
        ∧ shard_geometry (E := ShardFileError) (sh_scheme (sw_header sw)) (sh_block_length (sw_header sw)) size
          = Ok (Some (mkGeometry (Z.of_nat (length blocks)) last))
        ∧ ((reserve ≤ length (shard_image (sw_header sw) blocks last size ock))%nat →
           ∃ m, w_tree w' !! sw_file sw = Some (File (shard_image (sw_header sw) blocks last size ock) m))
    | Err _ => True
    | Panic => False
    end).
Proof.
  intros (c & m & Hp & Hoff & Htake & Hlen) Hwok Hgeo HI. unfold finish. apply wp_bind, wp_lift.
  pose proof (seal_footer_returns_geometry sw size ock Hgeo) as Hret.
  destruct (seal_footer sw size ock) as [f|e|] eqn:Hseal; [|split; [|done]; by eapply unmoved_touched|done].
  destruct (seal_footer_Ok _ _ _ _ _ Hwok Hseal) as (last & -> & Hfit & Hg).
  apply wp_bind, wp_map_err. eapply wp_fs_write_all; [done|intros; apply HI| |].
  2: { intros k n w' Hw. split; [by eapply moved_touched|done]. }
  intros w1 Hw1. apply wp_bind, wp_map_err, wp_may_fail.
  - intros w2 Hw2. apply wp_ret. pose proof (moved_touched _ _ _ _ _ _ Hw1) as Ht1.
    destruct (touched_file _ _ _ Ht1) as (c1 & m1 & Hc1).
    split; [eapply touched_trans; [exact Ht1|by eapply unmoved_touched]|].
    exists last. split_and!; [done..|]. intros Hres. rewrite (proj1 Hw2), (proj1 Hw1), lookup_insert_eq.
    eexists. do 3 f_equal. rewrite Hoff.
    destruct (overwrite_prefix _ (encode_with_trailer (footer_for blocks last size ock)
      (footer_offset_of (sf_block_count (footer_for blocks last size ock)) (sh_block_length (sw_header sw))
         (sf_last_block_length (footer_for blocks last size ock)))) _ _ Htake Hlen) as [-> _].
    unfold shard_image in *. rewrite <- app_assoc, drop_ge; [by rewrite app_nil_r, <- app_assoc|].
    rewrite Hlen. rewrite !length_app in *. cbn [sf_block_count sf_last_block_length footer_for] in *. lia.
  - intros k w2 Hw2. pose proof (moved_touched _ _ _ _ _ _ Hw1) as Ht1.
    destruct (touched_file _ _ _ Ht1) as (c1 & m1 & Hc1).
    split; [eapply touched_trans; [exact Ht1|by eapply unmoved_touched]|done].
Qed.

Lemma wp_create_with_reservation p header reserve w :
  (∀ t, (∀ q, q ≠ p → t !! q = w_tree w !! q) → Inv t) →
  wp Inv (create_with_reservation p header (Some reserve)) w (λ r w', framed p w w' ∧
    match r with
    | Ok sw => sw = mkWriter p header [] 0 false
        ∧ contains (sh_scheme header) (sh_index header) = true
        ∧ writing w' sw [] (Z.to_nat reserve)
    | Err _ => True
    | Panic => False
    end).
Proof.
  intros HI.
  assert (∀ c m, Inv (<[p := File c m]> (w_tree w))) as HI'
    by (intros c m; apply HI; intros q Hq; by rewrite lookup_insert_ne).
  unfold create_with_reservation. apply wp_bind, wp_lift.
  destruct (contains _ _) eqn:Hc; [|by split; [apply unmoved_framed|]]. cbn [ensure].
  apply wp_bind, wp_map_err. apply wp_fs_create; [apply HI'| |].
  2: { intros e w' Hw. split; [by apply unmoved_framed|done]. }
  intros w1 Hw1. pose proof (moved_touched _ _ _ _ _ _ Hw1) as T1. destruct Hw1 as (Ht1 & Ho1 & _).
  assert (w_tree w1 !! p = Some (File [] (w_clock w))) as Hp1 by (by rewrite Ht1, lookup_insert_eq).
  assert (∀ c m, Inv (<[p := File c m]> (w_tree w1))) as HI1
    by (intros c m; rewrite Ht1, insert_insert_eq; apply HI').
  apply wp_bind, wp_bind, wp_attempt. eapply wp_fs_fallocate; [exact Hp1|apply HI1| |].
  - intros w2 Hw2. apply wp_ret. pose proof (moved_touched _ _ _ _ _ _ Hw2) as T2.
    destruct Hw2 as (Ht2 & Ho2 & _). cbn [length] in *. rewrite Nat.max_0_r in Ht2.
    apply wp_bind, wp_map_err.
    eapply wp_fs_write_all; [by rewrite Ht2, lookup_insert_eq|intros; rewrite Ht2, insert_insert_eq; apply HI1| |].
    + intros w3 Hw3. apply wp_ret. pose proof (moved_touched _ _ _ _ _ _ Hw3) as T3.
      split; [by eapply touched_framed, touched_trans; [|eapply touched_trans]|]. split_and!; [done..|].
      destruct Hw3 as (Ht3 & Ho3 & _).
      assert (offset_of w2 p = O) as Hoff by (unfold offset_of; by rewrite Ho2, Ho1, lookup_insert_eq).
      rewrite Hoff in *. unfold writing. cbn [sw_header sw_file concat]. rewrite app_nil_r.
      do 2 eexists. split; [by rewrite Ht3, lookup_insert_eq|].
      destruct (overwrite_prefix [] (ShardFileHeader_encode header) (resize (Z.to_nat reserve) 0 []) (Z.to_nat reserve))
        as [Heq Hl]; [done|by rewrite length_resize; cbn; lia|]. cbn [length app] in Heq, Hl.
      split_and!; [unfold offset_of; by rewrite Ho3, lookup_insert_eq| |done].
      rewrite Heq. by rewrite take_app_length.
    + intros k n w3 Hw3. pose proof (moved_touched _ _ _ _ _ _ Hw3) as T3.
      split; [by eapply touched_framed, touched_trans; [|eapply touched_trans]|done].
  - intros k w2 Hw2. apply wp_bind, wp_ignore.
    assert (framed p w w2) as F2 by (eapply framed_trans; [by apply touched_framed|by apply unmoved_framed]).
    apply wp_fs_remove_file.
    + intros _. apply HI. intros q Hq. rewrite lookup_delete_ne by done. by apply F2.
    + intros w3 _ Hw3. apply wp_lift. split; [|done].
      eapply framed_trans; [exact F2|by eapply moved_delete_framed].
    + intros e w3 Hw3 _. apply wp_lift. split; [|done].
      eapply framed_trans; [exact F2|by eapply unmoved_framed].
Qed.
End writer.

(** ** Panic-freedom of the decoders *)

Section safety.
Context `{Xxh3}.

Lemma sub_returns {E} off n buf : (off + n ≤ length buf)%nat → returns (sub (E := E) off n buf).
Proof. intros. by rewrite sub_Ok. Qed.

Lemma read_u64_returns {E} buf off : (off + 8 ≤ length buf)%nat → returns (read_u64 (E := E) buf off).
Proof. intros. unfold read_u64. by rewrite sub_Ok. Qed.

Lemma read_u32_returns {E} buf off : (off + 4 ≤ length buf)%nat → returns (read_u32 (E := E) buf off).
Proof. intros. unfold read_u32. by rewrite sub_Ok. Qed.

Lemma read_u8_returns {E} buf off : (off < length buf)%nat → returns (read_u8 (E := E) buf off).
Proof. intros Hl. unfold read_u8. by destruct (lookup_lt_is_Some_2 _ _ Hl) as [x ->]. Qed.

Lemma header_decode_returns page : returns (ShardFileHeader_decode page).
Proof.
  unfold ShardFileHeader_decode. apply bind_returns; [auto with djbod|].
  intros _ Hlen%ensure_Ok. apply Z.eqb_eq in Hlen. unfold HEADER_LEN in Hlen.
  unfold OFF_HEADER_MAGIC, OFF_HEADER_FORMAT_VERSION,
    OFF_HEADER_CHECKSUM_ALGORITHM, OFF_HEADER_CHECKSUM, OFF_HEADER_KEY_HASH,
    OFF_HEADER_VERSION_ID, OFF_HEADER_BLOCK_LENGTH, OFF_HEADER_K, OFF_HEADER_M, OFF_HEADER_SHARD_INDEX.
  repeat (apply bind_returns;
    [first [apply ensure_returns | apply sub_returns; lia | apply read_u32_returns; lia
           | apply read_u64_returns; lia | apply read_u8_returns; lia
           | apply map_err_returns, Scheme_new_returns]|intros ? _]).
  done.
Qed.

Lemma footer_length_ok_true n :
  footer_length_ok n = true ↔ 40 ≤ n ∧ (n - 40) mod 8 = 0.
Proof. unfold footer_length_ok, FOOTER_FIXED_LEN. lia. Qed.

Lemma footer_decode_returns bytes :
  16 ≤ Z.of_nat (length bytes) < 2 ^ 64 → returns (decode_with_trailer bytes).
Proof.
  intros Hlen. unfold decode_with_trailer.
  replace (wrap64 (Z.of_nat (length bytes) - TRAILER_LEN)) with (Z.of_nat (length bytes) - 16)
    by (unfold wrap, TRAILER_LEN; rewrite Z.mod_small; lia).
  apply bind_returns; [auto with djbod|]. intros _ [Hf Hm]%ensure_Ok%footer_length_ok_true.
  unfold OFF_FOOTER_CHECKSUM, OFF_FOOTER_BLOCK_COUNT, OFF_FOOTER_LAST_BLOCK_LENGTH,
    OFF_FOOTER_OBJECT_SIZE, OFF_FOOTER_OBJECT_CHECKSUM, FOOTER_FIXED_LEN.
  apply bind_returns; [apply read_u64_returns; lia|]. intros stored _.
  apply bind_returns; [auto with djbod|]. intros _ _.
  apply bind_returns; [apply read_u64_returns; lia|]. intros n _.
  apply bind_returns; [auto with djbod|]. intros _ Hn%ensure_Ok. apply Z.eqb_eq in Hn.
  apply bind_returns; [auto with djbod|]. intros _ _.
  apply bind_returns.
  { apply map_res_returns. intros i Hi. apply elem_of_seq in Hi. apply read_u64_returns.
    unfold OFF_FOOTER_TABLE. pose proof (Z.mul_div_le (Z.of_nat (length bytes) - 16 - 40) 8). lia. }
  intros cs _. repeat (apply bind_returns; [apply read_u64_returns; lia|intros ? _]). done.
Qed.

Lemma read_u64_range {E} buf off v : bytes_ok buf → read_u64 (E := E) buf off = Ok v → is_u64 v.
Proof.
  intros Hb. unfold read_u64. destruct (sub off 8 buf) as [l| |] eqn:Hs; cbn; [|done..].
  intros [= <-]. apply sub_inv in Hs as [Hl ->].
  pose proof (of_le_range (slice off 8 buf) (Forall_slice _ _ _ _ Hb)) as Hr.
  by rewrite length_slice in Hr.
Qed.

Lemma read_u8_range {E} buf off v : bytes_ok buf → read_u8 (E := E) buf off = Ok v → is_u8 v.
Proof.
  intros Hb. unfold read_u8. destruct (buf !! off) as [x|] eqn:Hx; cbn; [|done].
  intros [= <-]. by eapply Forall_lookup_1 in Hb.
Qed.

Lemma header_decode_sound page h : bytes_ok page → ShardFileHeader_decode page = Ok h → header_ok h.
Proof.
  intros Hb Hd. unfold ShardFileHeader_decode in Hd. inv_ok Hd. injection Hd as <-.
  rewrite ensure_Ok in *. rewrite map_err_Ok in *.
  repeat match goal with
  | Hr : read_u8 _ _ = Ok _ |- _ => apply read_u8_range in Hr; [|done]
  | Hr : read_u64 _ _ = Ok _ |- _ => apply read_u64_range in Hr; [|done]
  | Hr : sub _ _ _ = Ok _ |- _ => apply sub_inv in Hr as [? ->]
  | Hr : Scheme_new _ _ = Ok _ |- _ => apply Scheme_new_Ok in Hr as [-> Hs]; [|done..]
  end.
  split_and!; cbn [sh_scheme sh_index sh_block_length sh_key_hash sh_version]; try done.
  - by unfold is_uint in *; lia.
  - by apply contains_true.
  - split; [by rewrite length_slice|by apply Forall_slice].
  - split; [by rewrite length_slice|by apply Forall_slice].
Qed.

Lemma footer_decode_sound bytes f :
  bytes_ok bytes → 16 ≤ Z.of_nat (length bytes) < 2 ^ 64 → decode_with_trailer bytes = Ok f →
  sf_block_count f = Z.of_nat (length (sf_checksums f)) ∧ 0 < sf_block_count f
  ∧ 40 + 8 * sf_block_count f + 16 = Z.of_nat (length bytes)
  ∧ is_u64 (sf_last_block_length f) ∧ is_u64 (sf_object_size f).
Proof.
  intros Hb Hlen Hd. unfold decode_with_trailer in Hd.
  replace (wrap64 (Z.of_nat (length bytes) - TRAILER_LEN)) with (Z.of_nat (length bytes) - 16) in Hd
    by (unfold wrap, TRAILER_LEN; rewrite Z.mod_small; lia).
  inv_ok Hd. injection Hd as <-. rewrite ensure_Ok in *. rewrite map_res_Ok in *.
  apply footer_length_ok_true in H0 as [Hf Hm]. unfold FOOTER_FIXED_LEN in *.
  apply Z.eqb_eq in H4. apply read_u64_range in H7, H8; [|done..].
  cbn [sf_block_count sf_checksums sf_last_block_length sf_object_size].
  apply Forall2_length in H6. rewrite length_seq in H6.
  pose proof (Z.div_mod (Z.of_nat (length bytes) - 16 - 40) 8 ltac:(lia)) as Hdm.
  split_and!; (done || lia).
Qed.

Lemma read_exact_at_inv file n off r :
  0 ≤ off → 0 ≤ n → read_exact_at file n off = Ok r →
  off + n ≤ Z.of_nat (length file) ∧ r = slice (Z.to_nat off) (Z.to_nat n) file
  ∧ Z.of_nat (length r) = n.
Proof.
  intros Ho Hn. unfold read_exact_at. destruct (Z.leb_spec (off + n) (Z.of_nat (length file))); [|done].
  intros [= <-]. split_and!; [done..|]. rewrite length_slice; lia.
Qed.

Lemma described_length_Some a b n :
  (n' ← checked_add64 a b; checked_add64 n' 16) = Some n → n = a + b + 16 ∧ n < 2 ^ 64.
Proof.
  unfold checked_add64. destruct (Z.ltb_spec (a + b) (2 ^ 64)); [|done]. cbn [mbind option_bind].
  destruct (Z.ltb_spec (a + b + 16) (2 ^ 64)); [|done]. intros [= <-]. done.
Qed.

Lemma geometry_matches_true g n l :
  geometry_matches g n l = true → g = Some (mkGeometry n l).
Proof. destruct g as [[a b]|]; cbn; [|done]. intros. f_equal. f_equal; lia. Qed.

Lemma read_exact_at_returns file n off : returns (read_exact_at file n off).
Proof. unfold read_exact_at. by destruct (_ <=? _). Qed.

Lemma shard_geometry_returns {E} s bl size :
  wrap64 (data_shards s * bl) ≠ 0 → returns (shard_geometry (E := E) s bl size).
Proof.
  intros Hne. unfold shard_geometry. destruct (_ || _); [done|].
  by destruct (Z.eqb_spec (wrap64 (data_shards s * bl)) 0).
Qed.
Lemma open_bytes_returns (file : list Z) :
  bytes_ok file → Z.of_nat (length file) < 2 ^ 64 →
  (∀ h, ShardFileHeader_decode (slice 0 (Z.to_nat 4096) file) = Ok h →
     wrap64 (data_shards (sh_scheme h) * sh_block_length h) ≠ 0) →
  returns (open_bytes file).
Proof.
  intros Hb Hmax Hno.
  unfold open_bytes, HEADER_LEN, FOOTER_FIXED_LEN, TRAILER_LEN. apply bind_returns; [auto with djbod|].
  intros _ Hlen%ensure_Ok%negb_true_iff%Z.ltb_ge.
  apply bind_returns; [apply read_exact_at_returns|]. intros trailer Ht.
  apply read_exact_at_inv in Ht as (_ & -> & Htl); [|lia..].
  apply bind_returns; [apply read_u64_returns; lia|]. intros fl Hfl.
  apply bind_returns; [apply read_u64_returns; lia|]. intros off Hoff.
  apply read_u64_range in Hfl, Hoff; [|by apply Forall_slice..]. unfold is_uint in *.
  apply bind_returns; [auto with djbod|]. intros _ Hd%ensure_Ok%bool_decide_eq_true%described_length_Some.
  apply bind_returns; [auto with djbod|]. intros _ _.
  apply bind_returns; [apply read_exact_at_returns|]. intros fb Hfb.
  apply read_exact_at_inv in Hfb as (_ & _ & Hfbl); [|lia..].
  apply bind_returns; [apply footer_decode_returns; lia|]. intros footer _.
  apply bind_returns; [apply read_exact_at_returns|]. intros page Hpage.
  apply read_exact_at_inv in Hpage as (_ & -> & _); [|lia..].
  apply bind_returns; [apply header_decode_returns|]. intros header Hh.
  apply bind_returns; [auto with djbod|]. intros _ _.
  apply bind_returns; [auto with djbod|]. intros _ _.
  apply bind_returns; [apply shard_geometry_returns; by apply Hno|].
  intros g _. apply bind_returns; [auto with djbod|]. done.
Qed.
End safety.

(** ** Properties *)

Section properties.
Context `{Xxh3}.

(** C17. A shard file reads back as it was written: the bytes of a finished
    file, of the exact length [shard_file_length] promises, open to the
    header, geometry, object size and checksum it was made with, and every
    block reads back with its stored checksum, at its index; the block past
    the last is refused. *)
Theorem shard_file_roundtrip h blocks last size ock :
  shard_ok h blocks last size ock →
  let file := shard_image h blocks last size ock in
  let r := mkReader file h (footer_for blocks last size ock) in
  shard_file_length (E := ShardFileError) (sh_scheme h) (sh_block_length h) size
    = Ok (Some (Z.of_nat (length file)))
  ∧ open_bytes file = Ok r
  ∧ (∀ i b, blocks !! i = Some b →
       block_bytes r (Z.of_nat i) = Ok (mkShardBlock (sh_index h) b (checksum_block b)))
  ∧ block_bytes r (block_count r) = Err (BlockOutOfRange (block_count r) (block_count r)).
Proof.
  intros Hok. cbn zeta. split_and!.
  - unfold shard_file_length. rewrite (so_geometry _ _ _ _ _ Hok).
    cbn [mbind res_bind g_block_count g_last_block_length].
    rewrite (length_shard_image _ _ _ _ _ Hok). pose proof (so_length _ _ _ _ _ Hok) as Hmax.
    pose proof (shard_count _ _ _ _ _ Hok). pose proof (shard_last _ _ _ _ _ Hok).
    unfold image_length, HEADER_LEN, FOOTER_FIXED_LEN, TRAILER_LEN, wrap in *.
    do 2 f_equal. rewrite Z.mod_small; nia.
  - by apply open_image.
  - intros i b Hi. by apply read_image.
  - unfold block_bytes, block_length. by destruct (Z.geb_spec (block_count
      (mkReader (shard_image h blocks last size ock) h (footer_for blocks last size ock)))
      (block_count (mkReader (shard_image h blocks last size ock) h (footer_for blocks last size ock)))); [|lia].
Qed.

(** What [open] accepts is consistent: from any bytes of a file, an
    accepted header has a valid scheme and an index inside it, the block
    count is that of the checksum table, the last block is neither empty nor
    longer than a block, the footer is where the blocks end, and block count
    and last length are those of the recorded object size. *)
Theorem open_bytes_sound (file : list Z) r :
  bytes_ok file → open_bytes file = Ok r →
  let h := sr_header r in let f := sr_footer r in
  scheme_ok (sh_scheme h) ∧ 0 ≤ sh_index h < total_shards (sh_scheme h)
  ∧ sf_block_count f = Z.of_nat (length (sf_checksums f)) ∧ 0 < sf_block_count f
  ∧ 0 < sf_last_block_length f ≤ sh_block_length h
  ∧ footer_offset_of (sf_block_count f) (sh_block_length h) (sf_last_block_length f)
    + 40 + 8 * sf_block_count f + 16 = Z.of_nat (length file)
  ∧ shard_geometry (E := ShardFileError) (sh_scheme h) (sh_block_length h) (sf_object_size f)
    = Ok (Some (mkGeometry (sf_block_count f) (sf_last_block_length f))).
Proof.
  intros Hb Hopen. cbn zeta. unfold open_bytes, HEADER_LEN, FOOTER_FIXED_LEN, TRAILER_LEN in Hopen.
  inv_ok Hopen. injection Hopen as <-.
  rewrite ensure_Ok in *. cbn [sr_header sr_footer].
  apply negb_true_iff, Z.ltb_ge in H0.
  apply read_exact_at_inv in H1 as (_ & -> & _); [|lia..].
  apply read_u64_range in H2, H3; [|by apply Forall_slice..]. unfold is_uint in *.
  apply bool_decide_eq_true, described_length_Some in H4 as [Hlen Hmax].
  apply footer_length_ok_true in H5 as [Hfl _].
  apply read_exact_at_inv in H6 as (_ & -> & Hflen); [|lia..].
  apply footer_decode_sound in H7 as (Hc & Hpos & Hcl & Hl & _); [|by apply Forall_slice|lia].
  apply read_exact_at_inv in H8 as (_ & -> & _); [|lia..].
  apply header_decode_sound in H9 as (Hs & Hi & _); [|by apply Forall_slice].
  apply geometry_matches_true in H13 as ->. apply Z.eqb_eq in H11.
  unfold is_uint in Hl. split_and!; (done || lia).
Qed.

(** Opening a file never panics, whatever its bytes, except in one
    case: a header whose block length times [k] is a multiple of 2^64 makes
    [shard_geometry] divide by zero. *)
Theorem open_bytes_panic (file : list Z) :
  bytes_ok file → Z.of_nat (length file) < 2 ^ 64 → open_bytes file = Panic →
  ∃ h, ShardFileHeader_decode (slice 0 (Z.to_nat 4096) file) = Ok h
    ∧ wrap64 (data_shards (sh_scheme h) * sh_block_length h) = 0.
Proof.
  intros Hb Hmax Hp.
  destruct (ShardFileHeader_decode (slice 0 (Z.to_nat 4096) file)) as [h|e|] eqn:Hdec;
    [destruct (decide (wrap64 (data_shards (sh_scheme h) * sh_block_length h) = 0)); [by eauto|]|..].
  all: exfalso; revert Hp; apply open_bytes_returns; [done|done|];
    intros h' Hh'; rewrite Hdec in Hh'; by simplify_eq.
Qed.
End properties.

(** The geometry is the stripe encoder's: an object is cut into
    [block_count] stripes, all full but the last, and the blocks
    [encode_stripe] makes have length [block_length] for a full stripe and
    [last_block_length] for the last one, whatever the object's size. *)
Theorem shard_geometry_stripes `{ReedSolomonLib} (code : ReedSolomonCode) (bl size : Z) :
  scheme_ok (scheme code) → 0 < bl → data_shards (scheme code) * bl < 2 ^ 64 → 0 < size < 2 ^ 64 →
  let stripe := data_shards (scheme code) * bl in
  ∃ n last, shard_geometry (E := Empty_set) (scheme code) bl size = Ok (Some (mkGeometry n last))
    ∧ (n - 1) * stripe < size ≤ n * stripe
    ∧ block_length_for code stripe = bl
    ∧ block_length_for code (size - (n - 1) * stripe) = last
    ∧ 1 ≤ last ≤ bl.
Proof.
  intros Hs Hbl Hfit Hsize. cbn zeta.
  destruct (shard_geometry_spec (E := Empty_set) (scheme code) bl size) as (Hg & Hn & Hls & Hl); [done..|].
  do 2 eexists. split_and!; [exact Hg|nia|nia| |done|lia|lia].
  symmetry. destruct Hs as [Hk _]. apply div_ceil_least; nia.
Qed.

(** [shard_geometry] does not guard its multiplication: when
    [k * block_length] is a multiple of 2^64 the stripe size wraps to zero and
    the division panics, for every object. *)
Theorem shard_geometry_division_by_zero (s : Scheme) (bl size : Z) :
  0 < bl → 0 < size → (data_shards s * bl) mod 2 ^ 64 = 0 →
  shard_geometry (E := Empty_set) s bl size = Panic.
Proof.
  intros Hbl Hsize Hmod. unfold shard_geometry, wrap.
  destruct (Z.eqb_spec size 0); [lia|]. destruct (Z.eqb_spec bl 0); [lia|]. by rewrite Hmod.
Qed.

(** ** Witnesses: a one-block shard of a five-byte object under 2 + 1 *)

Section witnesses.
#[local] Existing Instance poly_xxh3.

Definition header5 (bl : Z) : ShardFileHeader :=
  mkHeader (mkScheme 2 1) 0 bl (replicate 32 9) (replicate 16 7).
Definition file5 : list Z := shard_image (header5 4096) [[10; 20; 30]] 3 5 77.
Definition file_bad : list Z := shard_image (header5 (2 ^ 63)) [[10; 20; 30]] 3 5 77.

Lemma shard5_ok : shard_ok (header5 4096) [[10; 20; 30]] 3 5 77.
Proof.
  split; [|lia|split; lia|by vm_compute|by vm_compute| |by vm_compute|by vm_compute].
  - split_and!; [by (split; vm_compute)|by vm_compute|by vm_compute|by (split; vm_compute)| |];
      (split; [reflexivity|apply Forall_replicate; split; lia]).
  - exists [], [10; 20; 30]. split_and!; [reflexivity|constructor|reflexivity|lia|cbn; lia].
Defined.

Lemma shard_file_roundtrip_witness :
  open_bytes file5 = Ok (mkReader file5 (header5 4096) (footer_for [[10; 20; 30]] 3 5 77)).
Proof. apply (shard_file_roundtrip (header5 4096) [[10; 20; 30]] 3 5 77 shard5_ok). Defined.

Lemma open_bytes_sound_witness :
  ∃ r, open_bytes file5 = Ok r ∧ 0 < sf_last_block_length (sr_footer r) ≤ sh_block_length (sr_header r).
Proof.
  assert (bytes_ok file5) as Hb by (apply (bool_decide_unpack _); by vm_compute).
  assert (open_bytes file5 = Ok (mkReader file5 (header5 4096) (footer_for [[10; 20; 30]] 3 5 77))) as Ho
    by (by vm_compute).
  eexists. split; [exact Ho|].
  destruct (open_bytes_sound file5 _ Hb Ho) as (_ & _ & _ & _ & Hl & _). exact Hl.
Defined.

Lemma open_bytes_panic_witness :
  ∃ h, ShardFileHeader_decode (slice 0 (Z.to_nat 4096) file_bad) = Ok h
    ∧ wrap64 (data_shards (sh_scheme h) * sh_block_length h) = 0.
Proof.
  apply (open_bytes_panic file_bad).
  - apply (bool_decide_unpack _). by vm_compute.
  - by vm_compute.
  - by vm_compute.
Defined.

Lemma shard_geometry_stripes_witness :
  ∃ n last, shard_geometry (E := Empty_set) (mkScheme 2 1) 4096 20000 = Ok (Some (mkGeometry n last))
    ∧ n = 3 ∧ last = 1808.
Proof.
  destruct (shard_geometry_stripes code21 4096 20000) as (n & last & Hg & _);
    [by vm_compute|lia|cbn; lia|lia|].
  exists n, last. split; [exact Hg|]. vm_compute in Hg. injection Hg as <- <-. done.
Defined.

Lemma shard_geometry_division_by_zero_witness :
  shard_geometry (E := Empty_set) (mkScheme 2 1) (2 ^ 63) 5 = Panic.
Proof. apply (shard_geometry_division_by_zero (mkScheme 2 1) (2 ^ 63) 5); [lia|lia|reflexivity]. Defined.
End witnesses.
