(* ===== verification/Record.v ===== *)
(** [record.rs]: the metadata record, its validation, canonical form, and
    on-disk JSON.

    [json] is [serde_json::Value]; an object is its association list, which a
    [BTreeMap] keeps sorted ([btree]).  What [derive(Serialize, Deserialize)]
    generates for [MetadataRecord] and [ShardLocation] is [record_fields] and
    [record_of_value].  The text syntax of JSON, UUIDs and RFC 3339 times are
    libraries' ([SerdeJson], [Uuid], [Rfc3339]) with the round trips their
    documentation promises. *)

From S2P Require Import Prelude Text Checksum KeyHash VersionId Erasure.

(** ** JSON values *)

Inductive json :=
| JNull
| JBool (b : bool)
| JNumber (n : Z)
| JFloat (text : str)
| JString (s : str)
| JArray (items : list json)
| JObject (fields : list (str * json)).

Definition str_eqb (a b : str) : bool := match lex_compare a b with Eq => true | _ => false end.

(** [BTreeMap::insert] *)
Fixpoint btree_insert {A} (k : str) (v : A) (l : list (str * A)) : list (str * A) :=
  match l with
  | [] => [(k, v)]
  | (k', v') :: l =>
      match lex_compare k k' with
      | Lt => (k, v) :: (k', v') :: l
      | Eq => (k, v) :: l
      | Gt => (k', v') :: btree_insert k v l
      end
  end.

Definition btree {A} (l : list (str * A)) : list (str * A) :=
  fold_left (λ m p, btree_insert p.1 p.2 m) l [].

(** [BTreeMap::get] and [BTreeMap::remove] *)
Fixpoint obj_get {A} (k : str) (l : list (str * A)) : option A :=
  match l with
  | [] => None
  | (k', v) :: l => if str_eqb k k' then Some v else obj_get k l
  end.

Fixpoint obj_remove {A} (k : str) (l : list (str * A)) : list (str * A) :=
  match l with
  | [] => []
  | (k', v) :: l => if str_eqb k k' then obj_remove k l else (k', v) :: obj_remove k l
  end.

(** The JSON library: printing a struct with indentation, printing a string or
    another scalar, and parsing. *)
Class SerdeJson := {
  json_pretty : list (str * json) → str;
  json_quote : str → str;
  json_scalar : json → str;
  json_from_str : str → option json;
}.

(** What the program relies on: a printed struct parses back to its fields,
    kept in a map; and, for [to_json], a non-empty struct prints as an object that
    ends in its closing brace, and replacing that brace by one more field of
    plain characters prints the struct with that field. *)
Definition plain (s : str) : Prop := Forall (λ c, 32 ≤ c < 127 ∧ c ≠ 34 ∧ c ≠ 92) s.

Definition field_text (k v : str) : str :=
  lit "," ++ [10] ++ lit "  " ++ [34] ++ k ++ [34] ++ lit ": " ++ [34] ++ v ++ [34] ++ [10] ++ lit "}".

Record serde_json_correct `{SerdeJson} : Prop := {
  parse_pretty : ∀ fields, NoDup fields.*1 →
    json_from_str (json_pretty fields) = Some (JObject (btree fields));
  pretty_closed : ∀ fields, fields ≠ [] → ∃ body, json_pretty fields = body ++ lit "}";
  parse_extended : ∀ fields body k v,
    fields ≠ [] → NoDup fields.*1 → k ∉ fields.*1 → plain k → plain v →
    json_pretty fields = body ++ lit "}" →
    json_from_str (body ++ field_text k v) = Some (JObject (btree (fields ++ [(k, JString v)])));
}.

(** UUIDs as 128-bit numbers, and times as their distance from the epoch. *)
Class Uuid := { uuid_text : Z → str; uuid_parse : str → option Z }.
Definition uuid_correct `{Uuid} : Prop := ∀ u, is_u128 u → uuid_parse (uuid_text u) = Some u.

Class Rfc3339 := { time_text : Z → str; time_parse : str → option Z; time_valid : Z → Prop }.
Definition rfc3339_correct `{Rfc3339} : Prop := ∀ t, time_valid t → time_parse (time_text t) = Some t.

(** ** Records *)

Abbreviation DeviceId := Z (only parsing).

Definition RECORD_FORMAT_VERSION : Z := 1.
Definition SYSTEM_NAME : str := lit "distributed-jbod".
Definition MAX_CONTENT_TYPE_BYTES : Z := 1024.
Definition CHECKSUM_FIELD : str := lit "checksum".

Record ShardLocation := mkLocation { sl_index : Z; sl_device : DeviceId }.

#[global] Instance ShardLocation_eq_dec : EqDecision ShardLocation.
Proof. solve_decision. Defined.

Record MetadataRecord := mkRecord {
  r_format_version : Z;
  r_system : str;
  r_bucket : str;
  r_key : str;
  r_key_hash : KeyHash;
  r_version : VersionId;
  r_created : Z;
  r_size : Z;
  r_object_checksum : BlockChecksum;
  r_k : Z;
  r_m : Z;
  r_block_size : Z;
  r_shards : list ShardLocation;
  r_revision : Z;
  r_content_type : option str;
  r_user_metadata : list (str * str);
}.

#[global] Instance MetadataRecord_eq_dec : EqDecision MetadataRecord.
Proof. solve_decision. Defined.

(** The text of a [Json] error, by what it reports. *)
Inductive JsonReason :=
| JsonSyntax
| NotAnObject
| BadChecksumText (hex : str)
| ChecksumNotAString
| NoChecksumField
| BadField.

#[global] Instance JsonReason_eq_dec : EqDecision JsonReason.
Proof. solve_decision. Defined.

Inductive RecordError :=
| RecJson (reason : JsonReason)
| ContentTypeTooLong (len : Z)
| RecChecksumMismatch (stored computed : BlockChecksum)
| WrongSystem (system : str)
| RecUnsupportedFormatVersion (v : Z)
| KeyHashMismatch (stored computed : KeyHash)
| RecInvalidScheme (e : SchemeError)
| BadBlockSize (n : Z)
| WrongShardCount (expected actual : Z)
| MissingShardIndex (i : Z)
| DuplicateShardIndex (i : Z)
| DuplicateDevice (d : DeviceId).

#[global] Instance RecordError_eq_dec : EqDecision RecordError.
Proof. solve_decision. Defined.

Definition same_body (a b : MetadataRecord) : bool :=
  bool_decide (r_version a = r_version b)
  && bool_decide (r_key a = r_key b)
  && bool_decide (r_key_hash a = r_key_hash b)
  && (r_size a =? r_size b)
  && (r_object_checksum a =? r_object_checksum b)
  && (r_k a =? r_k b)
  && (r_m a =? r_m b)
  && (r_block_size a =? r_block_size b).

(** [scheme], [device_for], [shard_on] *)
Definition record_scheme (r : MetadataRecord) : res SchemeError Scheme := Scheme_new (r_k r) (r_m r).

Fixpoint find_device (shards : list ShardLocation) (index : ShardIndex) : option DeviceId :=
  match shards with
  | [] => None
  | s :: shards => if sl_index s =? index then Some (sl_device s) else find_device shards index
  end.
Definition device_for (r : MetadataRecord) (index : ShardIndex) : option DeviceId :=
  find_device (r_shards r) index.

Fixpoint find_shard (shards : list ShardLocation) (device : DeviceId) : option ShardIndex :=
  match shards with
  | [] => None
  | s :: shards => if sl_device s =? device then Some (sl_index s) else find_shard shards device
  end.
Definition shard_on (r : MetadataRecord) (device : DeviceId) : option ShardIndex :=
  find_shard (r_shards r) device.

Definition user_metadata_bytes (r : MetadataRecord) : nat :=
  sum_list ((λ p, str_len p.1 + str_len p.2)%nat <$> r_user_metadata r).

Section record.
Context `{Sha256} `{Xxh3} `{SerdeJson} `{Uuid} `{Rfc3339}.

(** ** Validation *)

(** The loop over the listed shards. *)
Definition note_shard (s : Scheme) (st : list bool * list DeviceId) (shard : ShardLocation)
    : res RecordError (list bool * list DeviceId) :=
  let '(seen_index, seen_devices) := st in
  _ ← ensure (contains s (sl_index shard)) (MissingShardIndex (sl_index shard));
  seen ← expect (seen_index !! Z.to_nat (sl_index shard));
  _ ← ensure (negb seen) (DuplicateShardIndex (sl_index shard));
  _ ← ensure (bool_decide (sl_device shard ∉ seen_devices)) (DuplicateDevice (sl_device shard));
  Ok (<[Z.to_nat (sl_index shard) := true]> seen_index, seen_devices ++ [sl_device shard]).

(** The loop that looks for an index no shard has. *)
Fixpoint all_seen (index : nat) (seen_index : list bool) : res RecordError unit :=
  match seen_index with
  | [] => Ok tt
  | seen :: seen_index =>
      _ ← ensure seen (MissingShardIndex (wrap 8 (Z.of_nat index)));
      all_seen (S index) seen_index
  end.

Definition validate (r : MetadataRecord) : res RecordError unit :=
  _ ← ensure (bool_decide (r_system r = SYSTEM_NAME)) (WrongSystem (r_system r));
  _ ← match r_content_type r with
      | Some t =>
          let len := Z.of_nat (str_len t) in
          ensure (negb (len >? MAX_CONTENT_TYPE_BYTES)) (ContentTypeTooLong len)
      | None => Ok tt
      end;
  _ ← ensure (r_format_version r =? RECORD_FORMAT_VERSION)
        (RecUnsupportedFormatVersion (r_format_version r));
  let computed := hash_key (as_bytes (r_key r)) in
  _ ← ensure (bool_decide (computed = r_key_hash r)) (KeyHashMismatch (r_key_hash r) computed);
  scheme ← map_err RecInvalidScheme (Scheme_new (r_k r) (r_m r));
  _ ← ensure (negb ((r_block_size r =? 0) || negb (r_block_size r mod 4096 =? 0)))
        (BadBlockSize (r_block_size r));
  let n := Z.of_nat (length (r_shards r)) in
  _ ← ensure (n =? total_shards scheme) (WrongShardCount (total_shards scheme) n);
  '(seen_index, _) ←
    fold_res (note_shard scheme) (r_shards r) (replicate (Z.to_nat (total_shards scheme)) false, []);
  all_seen 0 seen_index.

(** ** Serialization *)

Definition location_value (l : ShardLocation) : json :=
  JObject (btree [(lit "index", JNumber (sl_index l));
                  (lit "device", JString (uuid_text (sl_device l)))]).

(** The fields in declaration order; the two optional ones are skipped. *)
Definition record_fields (r : MetadataRecord) : list (str * json) :=
  [ (lit "format_version", JNumber (r_format_version r));
    (lit "system", JString (r_system r));
    (lit "bucket", JString (r_bucket r));
    (lit "key", JString (r_key r));
    (lit "key_hash", JString (hash_to_hex (r_key_hash r)));
    (lit "version", JString (to_text (r_version r)));
    (lit "created", JString (time_text (r_created r)));
    (lit "size", JNumber (r_size r));
    (lit "object_checksum", JString (checksum_to_hex (r_object_checksum r)));
    (lit "k", JNumber (r_k r));
    (lit "m", JNumber (r_m r));
    (lit "block_size", JNumber (r_block_size r));
    (lit "shards", JArray (location_value <$> r_shards r));
    (lit "revision", JNumber (r_revision r)) ]
  ++ match r_content_type r with
     | Some t => [(lit "content_type", JString t)]
     | None => []
     end
  ++ match r_user_metadata r with
     | [] => []
     | m => [(lit "user_metadata", JObject ((λ p, (p.1, JString p.2)) <$> m))]
     end.

(** [serde_json::to_value] *)
Definition record_value (r : MetadataRecord) : json := JObject (btree (record_fields r)).

(** ** Canonical form *)

Definition key_leb (a b : str * str) : Prop := lex_le a.1 b.1.
#[global] Instance key_leb_dec : RelDecision key_leb.
Proof. intros a b. unfold key_leb. apply _. Defined.

(** Joining with commas. *)
Fixpoint commas (l : list str) : str :=
  match l with
  | [] => []
  | [x] => x
  | x :: l => x ++ lit "," ++ commas l
  end.

(** [write_canonical]: keys are sorted, each member's text computed in
    place. *)
Fixpoint write_canonical (v : json) : str :=
  match v with
  | JObject map =>
      let members := (fix go (l : list (str * json)) : list (str * str) :=
        match l with
        | [] => []
        | (k, x) :: l => (k, json_quote k ++ lit ":" ++ write_canonical x) :: go l
        end) map in
      lit "{" ++ commas (merge_sort key_leb members).*2 ++ lit "}"
  | JArray items =>
      lit "[" ++ commas ((fix go (l : list json) : list str :=
        match l with [] => [] | x :: l => write_canonical x :: go l end) items) ++ lit "]"
  | other => json_scalar other
  end.

Definition canonical_bytes (r : MetadataRecord) : list Z :=
  as_bytes (write_canonical (record_value r)).

Definition record_checksum (r : MetadataRecord) : BlockChecksum :=
  checksum_block (canonical_bytes r).

(** ** The file *)

(** [str::trim_end] *)
Definition trim_end (s : str) : str := reverse (trim_start (reverse s)).

Definition to_json (r : MetadataRecord) : res RecordError str :=
  let json := json_pretty (record_fields r) in
  body ← expect (strip_suffix (lit "}") (trim_end json));
  Ok (take (length body) json ++ field_text CHECKSUM_FIELD (checksum_to_hex (record_checksum r))).

(** *** Deserialization *)

(** A field that is there must have the right type. *)
Definition field {A} (parse : json → res RecordError A) (k : str) (obj : list (str * json))
    : res RecordError (option A) :=
  match obj_get k obj with
  | None => Ok None
  | Some v => x ← parse v; Ok (Some x)
  end.

Definition bad {A} : res RecordError A := Err (RecJson BadField).

Definition need {A} (o : option A) : res RecordError A := ok_or o (RecJson BadField).

Definition parse_uint (w : Z) (v : json) : res RecordError Z :=
  match v with
  | JNumber n => if bool_decide (is_uint w n) then Ok n else bad
  | _ => bad
  end.
Definition parse_str (v : json) : res RecordError str :=
  match v with JString s => Ok s | _ => bad end.
Definition parse_with {A} (p : str → option A) (v : json) : res RecordError A :=
  s ← parse_str v; need (p s).
Definition parse_key_hash (v : json) : res RecordError KeyHash :=
  s ← parse_str v;
  match hash_from_hex s with
  | Ok o => need o
  | _ => Panic
  end.
Definition parse_opt_str (v : json) : res RecordError (option str) :=
  match v with JNull => Ok None | JString s => Ok (Some s) | _ => bad end.
Definition parse_map (v : json) : res RecordError (list (str * str)) :=
  match v with
  | JObject l => map_res (λ p, s ← parse_str p.2; Ok (p.1, s)) l
  | _ => bad
  end.

(** A struct may also be given as the array of its fields. *)
Definition parse_location (v : json) : res RecordError ShardLocation :=
  match v with
  | JObject obj =>
      device ← field (parse_with uuid_parse) (lit "device") obj;
      index ← field (parse_uint 8) (lit "index") obj;
      index ← need index; device ← need device;
      Ok (mkLocation index device)
  | JArray [i; d] =>
      index ← parse_uint 8 i; device ← parse_with uuid_parse d;
      Ok (mkLocation index device)
  | _ => bad
  end.
Definition parse_shards (v : json) : res RecordError (list ShardLocation) :=
  match v with JArray l => map_res parse_location l | _ => bad end.

(** [serde_json::from_value]: the members are visited in key order, then
    the missing fields are noticed. *)
Definition record_of_value (obj : list (str * json)) : res RecordError MetadataRecord :=
  block_size ← field (parse_uint 64) (lit "block_size") obj;
  bucket ← field parse_str (lit "bucket") obj;
  content_type ← field parse_opt_str (lit "content_type") obj;
  created ← field (parse_with time_parse) (lit "created") obj;
  format_version ← field (parse_uint 32) (lit "format_version") obj;
  k ← field (parse_uint 8) (lit "k") obj;
  key ← field parse_str (lit "key") obj;
  key_hash ← field parse_key_hash (lit "key_hash") obj;
  m ← field (parse_uint 8) (lit "m") obj;
  object_checksum ← field (parse_with checksum_from_hex) (lit "object_checksum") obj;
  revision ← field (parse_uint 64) (lit "revision") obj;
  shards ← field parse_shards (lit "shards") obj;
  size ← field (parse_uint 64) (lit "size") obj;
  system ← field parse_str (lit "system") obj;
  user_metadata ← field parse_map (lit "user_metadata") obj;
  version ← field (parse_with from_text) (lit "version") obj;
  format_version ← need format_version; system ← need system; bucket ← need bucket;
  key ← need key; key_hash ← need key_hash; version ← need version; created ← need created;
  size ← need size; object_checksum ← need object_checksum; k ← need k; m ← need m;
  block_size ← need block_size; shards ← need shards; revision ← need revision;
  Ok (mkRecord format_version system bucket key key_hash version created size object_checksum
        k m block_size shards revision (default None content_type) (default [] user_metadata)).

Definition from_json (text : str) : res RecordError MetadataRecord :=
  value ← ok_or (json_from_str text) (RecJson JsonSyntax);
  fields ← match value with JObject l => Ok l | _ => Err (RecJson NotAnObject) end;
  stored ← match obj_get CHECKSUM_FIELD fields with
           | Some (JString hex) =>
               ok_or (checksum_from_hex hex) (RecJson (BadChecksumText hex))
           | Some _ => Err (RecJson ChecksumNotAString)
           | None => Err (RecJson NoChecksumField)
           end;
  record ← record_of_value (obj_remove CHECKSUM_FIELD fields);
  let computed := record_checksum record in
  _ ← ensure (computed =? stored) (RecChecksumMismatch stored computed);
  _ ← validate record;
  Ok record.
End record.

(** ** Validation: lemmas *)

(** Fields as the Rust types bound them. *)
Definition record_typed (r : MetadataRecord) : Prop :=
  is_uint 32 (r_format_version r) ∧ is_u64 (r_size r) ∧ is_u64 (r_object_checksum r)
  ∧ is_u8 (r_k r) ∧ is_u8 (r_m r) ∧ is_u64 (r_block_size r) ∧ is_u64 (r_revision r)
  ∧ version_ok (r_version r) ∧ key_hash_ok (r_key_hash r)
  ∧ Forall (λ l, is_u8 (sl_index l) ∧ is_u128 (sl_device l)) (r_shards r).

(** What a valid record guarantees. *)
Record record_ok `{Sha256} (r : MetadataRecord) : Prop := {
  ro_system : r_system r = SYSTEM_NAME;
  ro_content_type : ∀ t, r_content_type r = Some t → Z.of_nat (str_len t) ≤ MAX_CONTENT_TYPE_BYTES;
  ro_format : r_format_version r = RECORD_FORMAT_VERSION;
  ro_key_hash : r_key_hash r = hash_key (as_bytes (r_key r));
  ro_scheme : scheme_ok (mkScheme (r_k r) (r_m r));
  ro_block_size : 0 < r_block_size r ∧ r_block_size r mod 4096 = 0;
  ro_indices : sl_index <$> r_shards r ≡ₚ shard_indices (mkScheme (r_k r) (r_m r));
  ro_devices : NoDup (sl_device <$> r_shards r);
}.

Section validation.
Context `{Sha256}.
Implicit Types (s : Scheme) (todo : list ShardLocation).

Lemma note_shards_Ok s todo seen devs l st :
  tabulates s l (λ i, bool_decide (i ∈ seen)) → NoDup seen → NoDup devs →
  Forall (λ x, 0 ≤ sl_index x) todo →
  fold_res (note_shard s) todo (l, devs) = Ok st →
  Forall (λ x, 0 ≤ sl_index x < total_shards s) todo
  ∧ NoDup (seen ++ (sl_index <$> todo)) ∧ NoDup (devs ++ (sl_device <$> todo))
  ∧ tabulates s st.1 (λ i, bool_decide (i ∈ seen ++ (sl_index <$> todo))).
Proof.
  revert seen devs l. induction todo as [|x todo IH]; intros seen devs l Ht Hs Hd Hpos Hf.
  { cbn in Hf. injection Hf as <-. rewrite !app_nil_r. by split_and!. }
  apply Forall_cons in Hpos as [Hx Hpos]. cbn [fold_res] in Hf.
  apply bind_Ok in Hf as ([l' devs'] & Hn & Hf). unfold note_shard in Hn.
  destruct (contains s (sl_index x)) eqn:Hc; [|done]. apply contains_true in Hc.
  rewrite (proj2 Ht) in Hn by lia. cbn [ensure expect mbind res_bind] in Hn.
  destruct (bool_decide_reflect (sl_index x ∈ seen)) as [Hin|Hin];
    cbn [negb ensure mbind res_bind] in Hn; [done|].
  case_bool_decide as Hdev; cbn [ensure mbind res_bind] in Hn; [|done]. injection Hn as <- <-.
  apply (IH (seen ++ [sl_index x])) in Hf as (H1 & H2 & H3 & H4).
  - rewrite <- !app_assoc in *. split_and!; [by constructor|done..].
  - eapply tabulates_insert; [exact Ht|lia| |]; cbn beta.
    + apply bool_decide_eq_true_2. set_solver.
    + intros j Hj. apply bool_decide_ext. set_solver.
  - apply NoDup_app. split_and!; [done|set_solver|apply NoDup_singleton].
  - apply NoDup_app. split_and!; [done|set_solver|apply NoDup_singleton].
  - done.
Qed.

Lemma note_shards_accepts s todo seen devs l :
  tabulates s l (λ i, bool_decide (i ∈ seen)) →
  Forall (λ x, 0 ≤ sl_index x < total_shards s) todo →
  NoDup (seen ++ (sl_index <$> todo)) → NoDup (devs ++ (sl_device <$> todo)) →
  ∃ st, fold_res (note_shard s) todo (l, devs) = Ok st.
Proof.
  revert seen devs l. induction todo as [|x todo IH]; intros seen devs l Ht Hr Hs Hd; [by eexists|].
  apply Forall_cons in Hr as [Hx Hr]. cbn [fold_res]. unfold note_shard at 2.
  rewrite (proj2 (contains_true s _)) by lia. rewrite (proj2 Ht) by done.
  rewrite fmap_cons in Hs, Hd.
  rewrite (bool_decide_eq_false_2 (sl_index x ∈ seen)).
  2: { apply NoDup_app in Hs as (_ & Hn & _). intros ?%Hn. set_solver. }
  cbn [ensure expect negb mbind res_bind]. rewrite (bool_decide_eq_true_2 (sl_device x ∉ devs)).
  2: { apply NoDup_app in Hd as (_ & Hn & _). intros ?%Hn. set_solver. }
  cbn [ensure mbind res_bind]. apply (IH (seen ++ [sl_index x])).
  - eapply tabulates_insert; [exact Ht|done| |]; cbn beta.
    + apply bool_decide_eq_true_2. set_solver.
    + intros j Hj. apply bool_decide_ext. set_solver.
  - done.
  - by rewrite <- app_assoc.
  - by rewrite <- app_assoc.
Qed.

Lemma all_seen_Ok i l : all_seen i l = Ok tt ↔ Forall (λ b, b = true) l.
Proof.
  revert i; induction l as [|b l IH]; intros i; cbn [all_seen]; [done|].
  rewrite Forall_cons, <- (IH (S i)). destruct b; cbn; naive_solver.
Qed.

(** [total_shards] distinct indices of the scheme are all of them. *)
Lemma indices_perm s l :
  scheme_ok s → NoDup l → Forall (λ i, 0 ≤ i < total_shards s) l →
  Z.of_nat (length l) = total_shards s → l ≡ₚ shard_indices s.
Proof.
  intros Hs Hnd Hr Hl. pose proof (scheme_ok_total _ Hs) as Ht.
  apply submseteq_length_Permutation.
  - apply NoDup_submseteq; [done|]. intros i Hi. rewrite Forall_forall in Hr.
    apply elem_of_indices_upto; [lia|]. by apply Hr.
  - unfold shard_indices. rewrite length_indices_upto. lia.
Qed.

Lemma tabulates_nil s :
  tabulates s (replicate (Z.to_nat (total_shards s)) false) (λ i : Z, bool_decide (i ∈ @nil Z)).
Proof. apply tabulates_replicate. Qed.

Lemma validate_sound r : record_typed r → validate r = Ok tt → record_ok r.
Proof.
  intros (_ & _ & _ & Hk & Hm & Hbs & _ & _ & _ & Hsh) Hv. unfold validate in Hv. inv_ok Hv.
  rewrite ensure_Ok in *. rewrite map_err_Ok in *.
  apply Scheme_new_Ok in H4 as [-> Hs]; [|done..]. destruct a6 as [seen devs].
  apply (note_shards_Ok _ _ []) in H7 as (Hr & Hnd & Hdev & _);
    [|apply tabulates_nil|constructor|constructor|].
  2: { eapply Forall_impl; [exact Hsh|]. intros x [[? ?] _]. done. }
  apply bool_decide_eq_true in H0, H3. unfold is_uint in Hbs. split.
  - done.
  - intros t Ht. rewrite Ht in H1. apply ensure_Ok in H1. lia.
  - lia.
  - done.
  - done.
  - lia.
  - apply indices_perm; [done|done| |rewrite length_fmap; lia]. by apply Forall_fmap.
  - done.
Qed.

Lemma validate_complete r : record_typed r → record_ok r → validate r = Ok tt.
Proof.
  intros (_ & _ & _ & Hk & Hm & Hbs & _ & _ & _ & Hsh) [H1 H2 H3 H4 H5 [H6 H6'] H7 H8].
  pose proof (scheme_ok_total _ H5) as Ht.
  unfold validate. rewrite bool_decide_eq_true_2 by done. cbn [ensure mbind res_bind].
  replace (match r_content_type r with Some t => _ | None => _ end) with (Ok tt : res RecordError unit).
  2: { destruct (r_content_type r) as [t|]; [|done]. specialize (H2 t eq_refl).
       by destruct (Z.gtb_spec (Z.of_nat (str_len t)) MAX_CONTENT_TYPE_BYTES); [lia|]. }
  cbn [mbind res_bind]. rewrite H3, Z.eqb_refl. cbn [ensure mbind res_bind].
  rewrite bool_decide_eq_true_2 by done. cbn [ensure mbind res_bind].
  pose proof (Scheme_new_ok _ H5) as Hnew. cbn [data_shards parity_shards] in Hnew. rewrite Hnew.
  cbn [map_err mbind res_bind].
  destruct (Z.eqb_spec (r_block_size r) 0); [lia|]. rewrite H6'. cbn [Z.eqb orb negb ensure mbind res_bind].
  pose proof (Permutation_length H7) as Hlen. unfold shard_indices in Hlen.
  rewrite length_fmap, length_indices_upto in Hlen.
  destruct (Z.eqb_spec (Z.of_nat (length (r_shards r))) (total_shards (mkScheme (r_k r) (r_m r)))); [|lia].
  cbn [ensure mbind res_bind].
  assert (Forall (λ x, 0 ≤ sl_index x < total_shards (mkScheme (r_k r) (r_m r))) (r_shards r)) as Hr.
  { apply (Forall_fmap sl_index (λ i, 0 ≤ i < total_shards (mkScheme (r_k r) (r_m r)))). rewrite H7. apply Forall_forall. intros i Hi.
    apply elem_of_indices_upto in Hi; [done|lia]. }
  assert (NoDup (sl_index <$> r_shards r)) as Hnd by (rewrite H7; apply NoDup_indices_upto; lia).
  destruct (note_shards_accepts _ (r_shards r) [] [] _ (tabulates_nil _) Hr Hnd H8) as [[seen devs] Hst].
  rewrite Hst. cbn [mbind res_bind]. apply all_seen_Ok.
  apply (note_shards_Ok _ _ []) in Hst as (_ & _ & _ & Htab);
    [|apply tabulates_nil|constructor|constructor|eapply Forall_impl; [exact Hr|]; naive_solver].
  cbn [fst] in Htab. apply Forall_lookup. intros i b Hi. destruct Htab as [Hl Htab].
  pose proof (lookup_lt_Some _ _ _ Hi) as Hlt. specialize (Htab (Z.of_nat i) ltac:(lia)).
  rewrite Nat2Z.id, Hi in Htab. injection Htab as ->. apply bool_decide_eq_true_2.
  cbn [app]. rewrite H7. apply elem_of_indices_upto; lia.
Qed.
End validation.

(** ** Association lists kept by a [BTreeMap] *)

Section btree.
Context {A : Type}.
Implicit Types (l : list (str * A)) (k : str).

Lemma str_eqb_spec a b : reflect (a = b) (str_eqb a b).
Proof.
  unfold str_eqb. destruct (lex_compare a b) eqn:Hc; constructor.
  - by apply lex_compare_eq.
  - intros ->. by rewrite lex_compare_refl in Hc.
  - intros ->. by rewrite lex_compare_refl in Hc.
Qed.

Lemma obj_get_elem l k v : obj_get k l = Some v → k ∈ l.*1.
Proof.
  induction l as [|[k1 v1] l IH]; cbn [obj_get]; [done|].
  destruct (str_eqb_spec k k1) as [->|]; [by left|right; auto].
Qed.

Lemma obj_get_insert l k v k' :
  obj_get k' (btree_insert k v l) = if str_eqb k' k then Some v else obj_get k' l.
Proof.
  induction l as [|[k0 v0] l IH]; cbn [btree_insert obj_get]; [done|].
  destruct (lex_compare k k0) eqn:Hc; cbn [obj_get].
  - apply lex_compare_eq in Hc as ->. by destruct (str_eqb_spec k' k0).
  - done.
  - rewrite IH. destruct (str_eqb_spec k' k0) as [->|]; [|done].
    destruct (str_eqb_spec k0 k) as [->|]; [|done]. by rewrite lex_compare_refl in Hc.
Qed.

Lemma obj_get_btree_acc l m k :
  NoDup l.*1 →
  obj_get k (fold_left (λ m p, btree_insert p.1 p.2 m) l m)
  = match obj_get k l with Some v => Some v | None => obj_get k m end.
Proof.
  revert m. induction l as [|[k0 v0] l IH]; intros m Hnd; [done|].
  apply NoDup_cons in Hnd as [Hin Hnd]. cbn [fold_left fst snd obj_get]. rewrite IH by done.
  rewrite obj_get_insert. destruct (str_eqb_spec k k0) as [->|Hne]; [|done].
  destruct (obj_get k0 l) as [v|] eqn:Hg; [|done]. exfalso. by apply Hin, (obj_get_elem _ _ v).
Qed.

(** A map built from distinct keys finds what the list has. *)
Lemma obj_get_btree l k : NoDup l.*1 → obj_get k (btree l) = obj_get k l.
Proof. intros Hnd. unfold btree. rewrite obj_get_btree_acc by done. by destruct (obj_get k l). Qed.

Lemma obj_get_remove l k k' :
  obj_get k' (obj_remove k l) = if str_eqb k k' then None else obj_get k' l.
Proof.
  induction l as [|[k0 v0] l IH]; cbn [obj_remove obj_get]; [by destruct (str_eqb k k')|].
  destruct (str_eqb_spec k k0) as [->|Hne].
  - rewrite IH. destruct (str_eqb_spec k0 k') as [->|]; [done|].
    by destruct (str_eqb_spec k' k0) as [->|].
  - cbn [obj_get]. rewrite IH. destruct (str_eqb_spec k' k0) as [->|]; [|done].
    by destruct (str_eqb_spec k k0).
Qed.

Lemma obj_get_snoc l k v k' :
  obj_get k' (l ++ [(k, v)]) = match obj_get k' l with Some x => Some x | None => if str_eqb k' k then Some v else None end.
Proof. induction l as [|[k0 v0] l IH]; cbn; [done|]. by destruct (str_eqb k' k0). Qed.
End btree.

(** ** Deserialization: lemmas *)

Ltac eval_keys :=
  repeat match goal with
  | |- context [str_eqb ?a ?b] =>
      let r := eval vm_compute in (str_eqb a b) in
      lazymatch r with true => idtac | false => idtac end;
      change (str_eqb a b) with r
  end; cbv iota.

Section roundtrip.
Context `{Sha256} `{Xxh3} `{SerdeJson} `{Uuid} `{Rfc3339}.
Context (Hserde : serde_json_correct) (Huuid : uuid_correct) (Htime : rfc3339_correct).
Implicit Types r : MetadataRecord.

Lemma parse_uint_ok w n : is_uint w n → parse_uint w (JNumber n) = Ok n.
Proof. intros Hn. unfold parse_uint. by rewrite bool_decide_eq_true_2. Qed.

Lemma parse_key_hash_ok h : key_hash_ok h → parse_key_hash (JString (hash_to_hex h)) = Ok h.
Proof. intros Hh. unfold parse_key_hash. cbn [parse_str mbind res_bind]. by rewrite hash_hex_ok. Qed.

Lemma parse_location_ok l :
  is_u8 (sl_index l) → is_u128 (sl_device l) → parse_location (location_value l) = Ok l.
Proof.
  intros Hi Hd. unfold location_value. cbn [parse_location]. unfold field.
  rewrite !obj_get_btree by (apply (bool_decide_unpack _); by vm_compute).
  cbn [obj_get]. eval_keys. unfold parse_with. cbn [parse_str mbind res_bind].
  rewrite Huuid by done. cbn [need ok_or mbind res_bind]. rewrite parse_uint_ok by done. by destruct l.
Qed.

Lemma parse_shards_ok ls :
  Forall (λ l, is_u8 (sl_index l) ∧ is_u128 (sl_device l)) ls →
  parse_shards (JArray (location_value <$> ls)) = Ok ls.
Proof.
  intros Hls. cbn [parse_shards]. apply map_res_Ok. rewrite Forall2_fmap_l.
  apply Forall_Forall2_diag. eapply Forall_impl; [exact Hls|]. intros l [? ?]. by apply parse_location_ok.
Qed.

Lemma parse_map_ok m : parse_map (JObject ((λ p, (p.1, JString p.2)) <$> m)) = Ok m.
Proof.
  cbn [parse_map]. apply map_res_Ok. rewrite Forall2_fmap_l. apply Forall_Forall2_diag, Forall_true.
  by intros [k v].
Qed.

Lemma record_fields_keys r :
  NoDup (record_fields r).*1 ∧ CHECKSUM_FIELD ∉ (record_fields r).*1.
Proof.
  unfold record_fields. destruct (r_content_type r), (r_user_metadata r); cbn [fmap list_fmap app fst];
    (split; [|intros Hin]; [apply (bool_decide_unpack _)|
       apply (bool_decide_pack _) in Hin; revert Hin]; by vm_compute).
Qed.

Definition serializable r : Prop := record_typed r ∧ time_valid (r_created r).

Lemma record_fields_get r :
  let get k := obj_get (lit k) (record_fields r) in
  get "block_size" = Some (JNumber (r_block_size r))
  ∧ get "bucket" = Some (JString (r_bucket r))
  ∧ get "content_type" = JString <$> r_content_type r
  ∧ get "created" = Some (JString (time_text (r_created r)))
  ∧ get "format_version" = Some (JNumber (r_format_version r))
  ∧ get "k" = Some (JNumber (r_k r))
  ∧ get "key" = Some (JString (r_key r))
  ∧ get "key_hash" = Some (JString (hash_to_hex (r_key_hash r)))
  ∧ get "m" = Some (JNumber (r_m r))
  ∧ get "object_checksum" = Some (JString (checksum_to_hex (r_object_checksum r)))
  ∧ get "revision" = Some (JNumber (r_revision r))
  ∧ get "shards" = Some (JArray (location_value <$> r_shards r))
  ∧ get "size" = Some (JNumber (r_size r))
  ∧ get "system" = Some (JString (r_system r))
  ∧ get "user_metadata" = match r_user_metadata r with
      | [] => None | m => Some (JObject ((λ p, (p.1, JString p.2)) <$> m)) end
  ∧ get "version" = Some (JString (to_text (r_version r))).
Proof.
  cbn zeta. unfold record_fields.
  destruct (r_content_type r), (r_user_metadata r); split_and!; reflexivity.
Qed.

(** A struct is read back from any object that has its fields. *)
Lemma record_of_value_ok r obj :
  serializable r → (∀ k, k ≠ CHECKSUM_FIELD → obj_get k obj = obj_get k (record_fields r)) →
  record_of_value obj = Ok r.
Proof.
  intros [(T1 & T2 & T3 & T4 & T5 & T6 & T7 & T8 & T9 & T10) Ht] Hobj.
  destruct (record_fields_get r) as (F1 & F2 & F3 & F4 & F5 & F6 & F7 & F8 & F9 & F10 & F11 & F12 & F13 & F14 & F15 & F16).
  unfold record_of_value, field. rewrite !Hobj by (by vm_compute).
  rewrite F1, F2, F3, F4, F5, F6, F7, F8, F9, F10, F11, F12, F13, F14, F15, F16.
  rewrite !parse_uint_ok by done. rewrite parse_key_hash_ok by done. rewrite parse_shards_ok by done.
  unfold parse_with. cbn [parse_str mbind res_bind need ok_or].
  rewrite (Htime _ Ht), (from_text_to_text _ T8), (checksum_hex_ok _ T3).
  cbn [mbind res_bind need ok_or].
  destruct r as [? ? ? ? ? ? ? ? ? ? ? ? ? ? ct um]; cbn [r_content_type r_user_metadata].
  destruct ct as [t|], um as [|p um]; cbn [parse_opt_str]; rewrite ?(parse_map_ok (p :: um)); done.
Qed.

Lemma hex_plain w n : plain (fmt_hex w n).
Proof.
  unfold plain, fmt_hex. apply Forall_fmap. eapply Forall_impl; [by apply (to_digits_range 16)|].
  intros d Hd. cbn beta in *. unfold compose, hex_char. destruct (Z.ltb_spec d 10); lia.
Qed.

Lemma trim_end_brace s : trim_end (s ++ lit "}") = s ++ lit "}".
Proof.
  unfold trim_end. rewrite reverse_app. change (reverse (reverse (lit "}") ++ reverse s) = s ++ lit "}").
  by rewrite reverse_app, !reverse_involutive.
Qed.

Lemma to_json_Ok r :
  ∃ body, json_pretty (record_fields r) = body ++ lit "}"
    ∧ to_json r = Ok (body ++ field_text CHECKSUM_FIELD (checksum_to_hex (record_checksum r))).
Proof.
  destruct (pretty_closed Hserde (record_fields r)) as [body Hb]; [done|]. exists body. split; [done|].
  unfold to_json. rewrite Hb, trim_end_brace. rewrite (proj2 (strip_suffix_Some _ _ body)) by done.
  cbn [expect mbind res_bind]. by rewrite take_app_length.
Qed.

(** The file of a record parses back to it. *)
Lemma from_to_json r :
  serializable r → record_ok r → ∃ text, to_json r = Ok text ∧ from_json text = Ok r.
Proof.
  intros Hser Hok. destruct (to_json_Ok r) as (body & Hb & Hj). eexists. split; [exact Hj|].
  destruct (record_fields_keys r) as [Hnd Hck]. unfold from_json.
  rewrite (parse_extended Hserde (record_fields r)); [|done|done|done| |apply hex_plain|exact Hb].
  2: { apply (bool_decide_unpack _). by vm_compute. }
  cbn [ok_or mbind res_bind].
  set (hex := checksum_to_hex (record_checksum r)).
  assert (NoDup (record_fields r ++ [(CHECKSUM_FIELD, JString hex)]).*1) as Hnd'.
  { rewrite fmap_app. apply NoDup_app. split_and!; [done| |apply NoDup_singleton].
    intros k Hk ->%list_elem_of_singleton. done. }
  assert (obj_get CHECKSUM_FIELD (record_fields r) = None) as Hnone.
  { destruct (obj_get CHECKSUM_FIELD (record_fields r)) as [v|] eqn:Hg; [|done]. exfalso.
    by apply Hck, (obj_get_elem _ _ v). }
  rewrite obj_get_btree, obj_get_snoc, Hnone by done.
  destruct (str_eqb_spec CHECKSUM_FIELD CHECKSUM_FIELD); [|done].
  cbv iota beta. assert (checksum_from_hex hex = Some (record_checksum r)) as ->
    by apply checksum_hex_ok, checksum_block_u64.
  cbn [ok_or mbind res_bind]. rewrite (record_of_value_ok r); [|done|].
  - cbn [mbind res_bind]. rewrite Z.eqb_refl. cbn [ensure mbind res_bind].
    by rewrite validate_complete by (done || apply Hser).
  - intros k Hk. rewrite obj_get_remove, obj_get_btree, obj_get_snoc by done.
    destruct (str_eqb_spec CHECKSUM_FIELD k); [congruence|].
    destruct (str_eqb_spec k CHECKSUM_FIELD); [congruence|]. by destruct (obj_get k (record_fields r)).
Qed.
End roundtrip.

(** ** Canonical form: lemmas *)

Section json_ind.
Context (P : json → Prop).
Context (Hscalar : ∀ v, match v with JArray _ | JObject _ => True | _ => P v end).
Context (Harray : ∀ l, Forall P l → P (JArray l)).
Context (Hobject : ∀ l, Forall (λ p, P p.2) l → P (JObject l)).

Fixpoint json_induction (v : json) : P v :=
  match v with
  | JArray l => Harray l
      ((fix go (l : list json) : Forall P l :=
          match l with
          | [] => List.Forall_nil _
          | x :: l => List.Forall_cons _ _ _ (json_induction x) (go l)
          end) l)
  | JObject l => Hobject l
      ((fix go (l : list (str * json)) : Forall (λ p, P p.2) l :=
          match l with
          | [] => List.Forall_nil _
          | p :: l => @List.Forall_cons _ (λ p, P p.2) p l (json_induction p.2) (go l)
          end) l)
  | JNull => Hscalar JNull
  | JBool b => Hscalar (JBool b)
  | JNumber n => Hscalar (JNumber n)
  | JFloat t => Hscalar (JFloat t)
  | JString s => Hscalar (JString s)
  end.
End json_ind.

(** The same document up to the order of the keys in its objects. *)
Inductive json_equiv : json → json → Prop :=
| equiv_refl v : json_equiv v v
| equiv_array l l' : Forall2 json_equiv l l' → json_equiv (JArray l) (JArray l')
| equiv_object l m l' :
    NoDup l.*1 → Forall2 (λ p q, p.1 = q.1 ∧ json_equiv p.2 q.2) l m → m ≡ₚ l' →
    json_equiv (JObject l) (JObject l').

Section canonical.
Context `{SerdeJson}.

Definition member (p : str * json) : str * str := (p.1, json_quote p.1 ++ lit ":" ++ write_canonical p.2).

Lemma write_canonical_object l :
  write_canonical (JObject l) = lit "{" ++ commas (merge_sort key_leb (member <$> l)).*2 ++ lit "}".
Proof.
  cbn [write_canonical]. do 5 f_equal.
  induction l as [|[k x] l IH]; [done|]. cbn [fmap list_fmap]. f_equal. exact IH.
Qed.

Lemma write_canonical_array l :
  write_canonical (JArray l) = lit "[" ++ commas (write_canonical <$> l) ++ lit "]".
Proof. reflexivity. Qed.

#[local] Instance key_leb_total : Total key_leb.
Proof. intros a b. apply lex_le_total. Qed.
#[local] Instance key_leb_trans : Transitive key_leb.
Proof. intros a b c. apply lex_le_po. Qed.

(** Sorting members with distinct keys depends on the members alone. *)
Lemma sort_members_perm l l' :
  NoDup l.*1 → l ≡ₚ l' → merge_sort key_leb l = merge_sort key_leb l'.
Proof.
  intros Hnd Hp. apply (StronglySorted_unique_strong key_leb).
  - intros x y Hx Hy Hxy Hyx. rewrite merge_sort_Permutation in Hx, Hy. rewrite <- Hp in Hy.
    assert (x.1 = y.1) as Heq by (apply (anti_symm lex_le); done).
    apply list_elem_of_lookup in Hx as [i Hi], Hy as [j Hj].
    assert (i = j) as ->; [|congruence].
    eapply NoDup_lookup; [exact Hnd| |]; rewrite list_lookup_fmap; [by rewrite Hi|].
    rewrite Hj. cbn. by rewrite Heq.
  - apply (StronglySorted_merge_sort key_leb).
  - apply (StronglySorted_merge_sort key_leb).
  - by rewrite !merge_sort_Permutation.
Qed.

Lemma write_canonical_equiv a b : json_equiv a b → write_canonical a = write_canonical b.
Proof.
  revert a b. apply (json_induction (λ a, ∀ b, json_equiv a b → write_canonical a = write_canonical b)).
  - intros v. destruct v; try done; intros d Hd; by inversion Hd.
  - intros l IH b Hb. inversion Hb as [|? l' Hl|]; subst; [done|]. rewrite !write_canonical_array.
    do 3 f_equal. clear Hb. induction Hl as [|x y l l' Hx Hl IHl]; [done|].
    apply Forall_cons in IH as [IHx IH]. cbn. f_equal; auto.
  - intros l IH b Hb. inversion Hb as [| |? m l' Hnd Hl Hp]; subst; [done|]. rewrite !write_canonical_object.
    assert (member <$> l = member <$> m) as Hm.
    { clear Hnd Hp Hb. induction Hl as [|x y l m [Hk Hx] Hl IHl]; [done|].
      apply Forall_cons in IH as [IHx IH]. cbn. f_equal; [|auto]. unfold member.
      by rewrite Hk, (IHx _ Hx). }
    do 4 f_equal. rewrite Hm. apply sort_members_perm; [|by rewrite Hp].
    rewrite <- Hm, <- list_fmap_compose. exact Hnd.
Qed.
End canonical.

(** ** A concrete JSON library

    A value is a sequence of numbers; the text of a struct is those numbers in
    binary and a closing brace.  It satisfies [serde_json_correct]. *)

Section concrete.
Fixpoint json_tree (v : json) : gen_tree (list Z + Z) :=
  match v with
  | JNull => GenNode 0 []
  | JBool b => GenNode 1 [GenLeaf (inr (if b then 1 else 0))]
  | JNumber n => GenNode 2 [GenLeaf (inr n)]
  | JFloat t => GenNode 3 [GenLeaf (inl t)]
  | JString s => GenNode 4 [GenLeaf (inl s)]
  | JArray l => GenNode 5 ((fix go l := match l with [] => [] | x :: l => json_tree x :: go l end) l)
  | JObject l => GenNode 6 ((fix go (l : list (list Z * json)) :=
      match l with [] => [] | (k, x) :: l => GenNode 7 [GenLeaf (inl k); json_tree x] :: go l end) l)
  end.

Fixpoint tree_json (t : gen_tree (list Z + Z)) : json :=
  match t with
  | GenNode 1 [GenLeaf (inr b)] => JBool (b =? 1)
  | GenNode 2 [GenLeaf (inr n)] => JNumber n
  | GenNode 3 [GenLeaf (inl t)] => JFloat t
  | GenNode 4 [GenLeaf (inl s)] => JString s
  | GenNode 5 l => JArray ((fix go l := match l with [] => [] | x :: l => tree_json x :: go l end) l)
  | GenNode 6 l => JObject ((fix go (l : list (gen_tree (list Z + Z))) : list (list Z * json) :=
      match l with
      | GenNode 7 [GenLeaf (inl k); x] :: l => (k, tree_json x) :: go l
      | _ => []
      end) l)
  | _ => JNull
  end.

Lemma tree_json_tree v : tree_json (json_tree v) = v.
Proof.
  revert v. apply (json_induction (λ v, tree_json (json_tree v) = v)).
  - intros v. destruct v as [|[]| | | | |]; done.
  - intros l IH. cbn. f_equal. induction IH as [|x l Hx _ IHl]; [done|]. by rewrite Hx, IHl.
  - intros l IH. cbn. f_equal. induction IH as [|[k x] l Hx _ IHl]; [done|]. cbn in Hx. by rewrite Hx, IHl.
Qed.

Lemma omap_decode_encode {A : Type} `{Countable A} (l : list A) : omap decode (encode <$> l) = l.
Proof. induction l as [|x l IH]; [done|]. cbn. by rewrite decode_encode, IH. Qed.

(** A number in binary, the top bit implied; the numbers of a sequence, each
    closed by [#]. *)
Fixpoint bits (p : positive) : str :=
  match p with
  | xH => []
  | xO p => bits p ++ [48]
  | xI p => bits p ++ [49]
  end.

Fixpoint read_items (acc : positive) (s : str) : list positive * str :=
  match s with
  | [] => ([], [])
  | c :: s' =>
      if c =? 48 then read_items (xO acc) s'
      else if c =? 49 then read_items (xI acc) s'
      else if c =? 35 then let '(l, rest) := read_items xH s' in (acc :: l, rest)
      else ([], s)
  end.

Lemma read_bits p rest : read_items xH (bits p ++ rest) = read_items p rest.
Proof.
  revert rest. induction p as [p IH|p IH|]; intros rest; cbn [bits]; [..|done];
    rewrite <- app_assoc, IH; done.
Qed.

Definition items (l : list positive) : str := l ≫= λ p, bits p ++ [35].

Lemma read_items_app l rest :
  read_items xH rest = ([], rest) → read_items xH (items l ++ rest) = (l, rest).
Proof.
  intros Hr. unfold items. induction l as [|p l IH]; [done|]. rewrite bind_cons, <- !app_assoc, read_bits.
  cbn [read_items app Z.eqb Pos.eqb]. by rewrite IH.
Qed.

(** The nodes and leaves of a tree as numbers: a kind, then a text after its
    length, a number, or the two numbers of a node. *)
Definition token (x : nat * nat + (list Z + Z)) : list Z :=
  match x with
  | inr (inl s) => 0 :: Z.of_nat (length s) :: s
  | inr (inr n) => [1; n]
  | inl (a, b) => [2; Z.of_nat a; Z.of_nat b]
  end.

Fixpoint untoken (fuel : nat) (l : list Z) : list (nat * nat + (list Z + Z)) :=
  match fuel, l with
  | S fuel, 0 :: n :: l => inr (inl (take (Z.to_nat n) l)) :: untoken fuel (drop (Z.to_nat n) l)
  | S fuel, 1 :: n :: l => inr (inr n) :: untoken fuel l
  | S fuel, 2 :: a :: b :: l => inl (Z.to_nat a, Z.to_nat b) :: untoken fuel l
  | _, _ => []
  end.

Definition tokens (l : list (nat * nat + (list Z + Z))) : list Z := l ≫= token.

Lemma untoken_tokens l fuel : (length (tokens l) ≤ fuel)%nat → untoken fuel (tokens l) = l.
Proof.
  unfold tokens. revert fuel. induction l as [|x l IH]; intros fuel Hf; [by destruct fuel|].
  rewrite bind_cons in *. rewrite length_app in Hf.
  destruct fuel as [|fuel]; [destruct x as [[]|[]]; cbn in Hf; lia|].
  destruct x as [[a b]|[s|n]]; cbn [token app untoken length] in *; rewrite ?Nat2Z.id, ?take_app_length, ?drop_app_length;
    f_equal; apply IH; lia.
Qed.

Definition pack (fields : list (str * json)) : str :=
  items (encode <$> tokens (gen_tree_to_list (json_tree (JObject fields)))).
Definition unpack (s : str) : option (list (str * json) * str) :=
  let '(l, rest) := read_items xH s in
  t ← gen_tree_of_list [] (untoken (length l) (omap decode l));
  match tree_json t with JObject l => Some (l, rest) | _ => None end.

Lemma unpack_pack fields rest :
  read_items xH rest = ([], rest) → unpack (pack fields ++ rest) = Some (fields, rest).
Proof.
  intros Hr. unfold unpack, pack. rewrite read_items_app by done. rewrite omap_decode_encode, length_fmap, untoken_tokens by done.
  rewrite <- (app_nil_r (gen_tree_to_list _)), gen_tree_of_to_list.
  change (match tree_json (json_tree (JObject fields)) with JObject l => Some (l, rest) | _ => None end
    = Some (fields, rest)). by rewrite tree_json_tree.
Qed.

(** Read a packed struct followed by one more field. *)
Definition packed_from_str (s : str) : option json :=
  '(fields, rest) ← unpack s;
  if bool_decide (rest = lit "}") then Some (JObject (btree fields)) else
  '(k, rest) ← split_once 34 (drop 5 rest);
  '(v, _) ← split_once 34 (drop 3 rest);
  Some (JObject (btree (fields ++ [(k, JString v)]))).

Definition packed_json : SerdeJson := {|
  json_pretty fields := pack fields ++ lit "}";
  json_quote s := 34 :: s ++ [34];
  json_scalar v := match v with JNumber n => fmt_dec n | JString s => 34 :: s ++ [34] | _ => lit "null" end;
  json_from_str := packed_from_str;
|}.

Lemma plain_quote s : plain s → 34 ∉ s.
Proof. intros Hp Hin. unfold plain in Hp. rewrite Forall_forall in Hp. specialize (Hp _ Hin). lia. Qed.

Lemma packed_json_correct : serde_json_correct (H := packed_json).
Proof.
  split.
  - intros fields _. cbn [json_from_str json_pretty packed_json]. unfold packed_from_str.
    by rewrite unpack_pack.
  - intros fields _. by exists (pack fields).
  - intros fields body k v _ _ _ Hk Hv Hb.
    change (pack fields ++ lit "}" = body ++ lit "}") in Hb. apply app_inv_tail in Hb as <-.
    cbn [json_from_str packed_json]. unfold packed_from_str.
    replace (unpack (pack fields ++ field_text k v)) with (Some (fields, field_text k v))
      by (symmetry; by apply unpack_pack). cbn [mbind option_bind].
    rewrite bool_decide_eq_false_2 by done. change (drop 5 (field_text k v)) with (k ++ 34 :: lit ": " ++ 34 :: v ++ 34 :: 10 :: lit "}").
    rewrite split_once_app by (by apply plain_quote). cbn [mbind option_bind].
    change (drop 3 (lit ": " ++ 34 :: v ++ 34 :: 10 :: lit "}")) with (v ++ 34 :: 10 :: lit "}").
    rewrite split_once_app by (by apply plain_quote). done.
Qed.

Definition decimal_uuid : Uuid := {|
  uuid_text := fmt_dec; uuid_parse := from_str_radix 10 (2 ^ 128 - 1) |}.

Lemma decimal_uuid_correct : uuid_correct (H := decimal_uuid).
Proof. intros u Hu. unfold is_uint in Hu. apply from_str_radix_fmt_dec; lia. Qed.

Definition decimal_time : Rfc3339 := {|
  time_text := fmt_dec; time_parse := from_str_radix 10 (2 ^ 64 - 1); time_valid t := is_u64 t |}.

Lemma decimal_time_correct : rfc3339_correct (H := decimal_time).
Proof. intros t Ht. cbn in Ht. unfold is_uint in Ht. apply from_str_radix_fmt_dec; lia. Qed.
End concrete.

(** ** Placement: lemmas *)

Lemma find_device_Some shards i d :
  NoDup (sl_index <$> shards) → find_device shards i = Some d ↔ mkLocation i d ∈ shards.
Proof.
  induction shards as [|[i' d'] shards IH]; cbn [find_device fmap list_fmap sl_index sl_device].
  { intros _. split; [done|]. by intros ?%not_elem_of_nil. }
  intros [Hin Hnd]%NoDup_cons. rewrite elem_of_cons. destruct (Z.eqb_spec i' i) as [->|Hne].
  - split; [intros [= ->]; by left|]. intros [Heq|Hin']; [by simplify_eq|].
    destruct Hin. apply list_elem_of_fmap. by exists (mkLocation i d).
  - rewrite IH by done. split; [by right|]. intros [Heq|?]; [by simplify_eq|done].
Qed.

Lemma find_shard_Some shards i d :
  NoDup (sl_device <$> shards) → find_shard shards d = Some i ↔ mkLocation i d ∈ shards.
Proof.
  induction shards as [|[i' d'] shards IH]; cbn [find_shard fmap list_fmap sl_index sl_device].
  { intros _. split; [done|]. by intros ?%not_elem_of_nil. }
  intros [Hin Hnd]%NoDup_cons. rewrite elem_of_cons. destruct (Z.eqb_spec d' d) as [->|Hne].
  - split; [intros [= ->]; by left|]. intros [Heq|Hin']; [by simplify_eq|].
    destruct Hin. apply list_elem_of_fmap. by exists (mkLocation i d).
  - rewrite IH by done. split; [by right|]. intros [Heq|?]; [by simplify_eq|done].
Qed.

(** [same_body] compares the fields it names. *)
Lemma same_body_true a b :
  same_body a b = true ↔
  r_version a = r_version b ∧ r_key a = r_key b ∧ r_key_hash a = r_key_hash b ∧ r_size a = r_size b
  ∧ r_object_checksum a = r_object_checksum b ∧ r_k a = r_k b ∧ r_m a = r_m b
  ∧ r_block_size a = r_block_size b.
Proof. unfold same_body. rewrite !andb_true_iff, !bool_decide_eq_true. rewrite !Z.eqb_eq. tauto. Qed.

#[global] Instance same_body_equivalence : Equivalence (λ a b, same_body a b = true).
Proof.
  split.
  - intros a. by apply same_body_true.
  - intros a b. rewrite !same_body_true. naive_solver.
  - intros a b c. rewrite !same_body_true. intuition congruence.
Qed.

Lemma from_json_Ok `{Sha256} `{Xxh3} `{SerdeJson} `{Uuid} `{Rfc3339} text r :
  from_json text = Ok r →
  validate r = Ok tt ∧ ∃ fields hex, json_from_str text = Some (JObject fields)
    ∧ obj_get CHECKSUM_FIELD fields = Some (JString hex)
    ∧ checksum_from_hex hex = Some (record_checksum r)
    ∧ record_of_value (obj_remove CHECKSUM_FIELD fields) = Ok r.
Proof.
  intros Hf. unfold from_json in Hf. inv_ok Hf. injection Hf as <-. rewrite ensure_Ok in *.
  destruct a4. split; [done|]. rewrite ok_or_Ok in *. destruct a; try done. injection H5 as <-.
  destruct (obj_get CHECKSUM_FIELD fields) as [[]|] eqn:Hck; try done. apply ok_or_Ok in H6.
  exists fields, s. split_and!; [done|done| |done]. rewrite H6. f_equal. lia.
Qed.

(** ** Properties *)

Section properties.
Context `{Sha256} `{Xxh3} `{SerdeJson} `{Uuid} `{Rfc3339}.

(** [validate] accepts exactly the well-formed records: right system and
    format, a content type within its limit, the key hash of the key, a valid
    scheme, a positive block size that is a multiple of 4096, and one shard
    per index of the scheme, each on a different device.  The final search
    for a missing index never finds one. *)
Theorem validate_iff (r : MetadataRecord) :
  record_typed r → validate r = Ok tt ↔ record_ok r.
Proof. intros Ht. split; [by apply validate_sound|by apply validate_complete]. Qed.

(** In a valid record the two lookups are inverse: shard [i] is on
    device [d] exactly when the shard on [d] is [i], and every index of the
    scheme has its device. *)
Theorem record_placement (r : MetadataRecord) :
  record_typed r → validate r = Ok tt →
  (∀ i d, device_for r i = Some d ↔ shard_on r d = Some i)
  ∧ (∀ i, 0 ≤ i < r_k r + r_m r → is_Some (device_for r i)).
Proof.
  intros Ht Hv. apply validate_sound in Hv; [|done]. destruct Hv as [_ _ _ _ Hs _ Hi Hd].
  pose proof (scheme_ok_total _ Hs) as Htot.
  assert (NoDup (sl_index <$> r_shards r)) as Hnd by (rewrite Hi; apply NoDup_indices_upto; lia).
  unfold device_for, shard_on. split.
  - intros i d. by rewrite find_device_Some, find_shard_Some.
  - intros i Hr. assert (i ∈ sl_index <$> r_shards r) as Hin
      by (rewrite Hi; apply elem_of_indices_upto; [lia|done]).
    apply list_elem_of_fmap in Hin as ([i' d] & -> & Hin). exists d. by apply find_device_Some.
Qed.

(** C33. A record survives the disk: writing a valid record as JSON, with its
    checksum appended as the last field, and reading that file gives back the
    same record, every field included. *)
Theorem record_json_roundtrip (r : MetadataRecord) :
  serde_json_correct → uuid_correct → rfc3339_correct →
  serializable r → validate r = Ok tt →
  ∃ text, to_json r = Ok text ∧ from_json text = Ok r.
Proof.
  intros Hj Hu Ht Hs Hv. apply from_to_json; [done..|]. apply validate_sound; [apply Hs|done].
Qed.

(** Nothing unverified is read from disk: a record [from_json] returns
    is valid, and the checksum stored in the file is the checksum of exactly
    that record's canonical form, so a change to any field that leaves the
    stored checksum unequal is refused. *)
Theorem from_json_verified (text : str) (r : MetadataRecord) :
  from_json text = Ok r →
  validate r = Ok tt ∧ ∃ fields hex, json_from_str text = Some (JObject fields)
    ∧ obj_get CHECKSUM_FIELD fields = Some (JString hex)
    ∧ checksum_from_hex hex = Some (record_checksum r).
Proof.
  intros Hf. apply from_json_Ok in Hf as (Hv & fields & hex & H1' & H2' & H3' & _). eauto 10.
Qed.

(** The canonical form, and so the record checksum, does not depend on
    the order of the keys in any object of the document, at any depth. *)
Theorem canonical_key_order (a b : json) :
  json_equiv a b → write_canonical a = write_canonical b.
Proof. apply write_canonical_equiv. Qed.
End properties.

(** ** Witnesses *)

Section witnesses.
#[local] Existing Instance poly_xxh3.
#[local] Existing Instance poly_sha256.
#[local] Existing Instance packed_json.
#[local] Existing Instance decimal_uuid.
#[local] Existing Instance decimal_time.

(** An object of five bytes under 2 + 1, on devices 101, 102, 103. *)
Definition record5 (revision : Z) : MetadataRecord := {|
  r_format_version := 1; r_system := SYSTEM_NAME; r_bucket := lit "default";
  r_key := lit "a"; r_key_hash := hash_key (as_bytes (lit "a")); r_version := replicate 16 7;
  r_created := 0; r_size := 5; r_object_checksum := 77; r_k := 2; r_m := 1; r_block_size := 4096;
  r_shards := [mkLocation 1 102; mkLocation 0 101; mkLocation 2 103];
  r_revision := revision; r_content_type := Some (lit "text/plain");
  r_user_metadata := [(lit "x", lit "y")] |}.

Lemma record5_typed rev : is_u64 rev → record_typed (record5 rev).
Proof.
  intros Hr. split_and!; try done; try (split; vm_compute; congruence).
  - split; [reflexivity|apply Forall_replicate; split; lia].
  - apply poly_sha_ok.
  - repeat (apply List.Forall_cons; [split; split; cbn; lia|]). apply List.Forall_nil.
Defined.

Lemma validate_iff_witness : validate (record5 0) = Ok tt ↔ record_ok (record5 0).
Proof. apply (validate_iff (record5 0)). apply record5_typed. split; lia. Defined.

Lemma record_placement_witness :
  device_for (record5 0) 1 = Some 102 ↔ shard_on (record5 0) 102 = Some 1.
Proof.
  apply (record_placement (record5 0)); [apply record5_typed; split; lia|by vm_compute].
Defined.

Lemma record_json_roundtrip_witness :
  ∃ text, to_json (record5 3) = Ok text ∧ from_json text = Ok (record5 3).
Proof.
  apply (record_json_roundtrip (record5 3)).
  - apply packed_json_correct.
  - apply decimal_uuid_correct.
  - apply decimal_time_correct.
  - split; [apply record5_typed; split; lia|split; vm_compute; congruence].
  - by vm_compute.
Defined.

Definition text5 (revision : Z) : str :=
  match to_json (record5 revision) with Ok text => text | _ => [] end.

Lemma from_json_verified_witness : validate (record5 3) = Ok tt.
Proof. apply (from_json_verified (text5 3) (record5 3)). by vm_compute. Defined.

Lemma canonical_key_order_witness :
  write_canonical (JObject [(lit "b", JNumber 1); (lit "a", JNumber 2)])
  = write_canonical (JObject [(lit "a", JNumber 2); (lit "b", JNumber 1)]).
Proof.
  apply (canonical_key_order (JObject [(lit "b", JNumber 1); (lit "a", JNumber 2)])).
  eapply equiv_object.
  - apply (bool_decide_unpack _). by vm_compute.
  - repeat constructor.
  - apply Permutation_swap.
Defined.
End witnesses.
