(* ===== verification/Device.v ===== *)
(** [device.rs]: one device on disk.

    Every operation is a program of [io] over the [FileSystem].  The two
    library codecs it needs (JSON text, UUID and time text) and the two hashes
    are the interfaces of [Record], [KeyHash] and [Checksum].  The loops over
    directories are [io_fold]s; a walk's callbacks are state-passing functions.
    [st_dev] and the [statvfs] report are not modelled. *)

From S2P Require Import Prelude Text Checksum KeyHash VersionId Erasure Layout Stripe FileSystem ShardFile Record.

Definition DEVICE_IDENTITY_FILE : str := lit "DISTRIBUTED-JBOD-DEVICE.json".
Definition DEVICE_FORMAT_VERSION : Z := 1.
Definition TEMPORARY_SUFFIX : str := lit ".tmp".
Definition LOST_AND_FOUND : str := lit "lost+found".

Definition NOTICE : str := lit "This directory is a storage device of Distributed-JBOD, a distributed object store (https://github.com/edward-b-1/Distributed-JBOD). Its contents are managed by the distributed-jbod node process. Do not add, edit, move, or delete files here by hand; doing so can destroy data that other machines depend on. To stop using this directory as a device, drain and remove it through the cluster's administrative commands.".

Record DeviceIdentity := mkIdentity {
  di_system : str;
  di_notice : str;
  di_format_version : Z;
  di_device_id : DeviceId;
  di_cluster_id : Z;
  di_created : Z;
}.

#[global] Instance DeviceIdentity_eq_dec : EqDecision DeviceIdentity.
Proof. solve_decision. Defined.

(** The reason text of [BadIdentity], by what it reports. *)
Inductive IdentityReason :=
| IdentityJson
| IdentitySystem (system : str)
| IdentityFormat (v : Z).

Inductive DeviceError :=
| DevIo (p : path) (source : io_error)
| DevNotADirectory (p : path)
| NotEmpty (p : path) (found : list str)
| NotInitialised (p : path)
| ForeignDirectory (p : path)
| DevUnavailable (p : path)
| BadIdentity (p : path) (reason : IdentityReason)
| WrongCluster (p : path) (device : DeviceId) (expected actual : Z)
| DevShardFile (e : ShardFileError)
| DevRecord (p : path) (source : RecordError)
| RecordExists (key_hash : KeyHash) (version : VersionId)
| BadObjectSize (object_size : Z).

Inductive WalkStep := Continue | Stop.

(** [io_error(path, e)] *)
Definition at_path {A} (p : path) (m : io io_error A) : io DeviceError A := io_map_err (DevIo p) m.

Definition fsync_directory (dir : path) : io DeviceError unit :=
  _ ← at_path dir (fs_open dir);
  at_path dir (fs_sync dir).

Definition temporary_name (name : str) (pid n : Z) : str :=
  name ++ lit "." ++ fmt_dec pid ++ lit "-" ++ fmt_dec n ++ TEMPORARY_SUFFIX.

Definition temporary_path (final_path : path) : io DeviceError path :=
  name ← lift (expect (file_name final_path));
  w ← get;
  n ← fetch_counter;
  mret (with_file_name final_path (temporary_name name (w_pid w) n)).

Definition write_file_atomically (final_path : path) (bytes : list Z) : io DeviceError unit :=
  temp_path ← temporary_path final_path;
  _ ← at_path temp_path (fs_create temp_path);
  r ← attempt (_ ← fs_write_all temp_path bytes; fs_sync temp_path);
  match r with
  | Err e => _ ← ignore (fs_remove_file temp_path); throw (DevIo temp_path e)
  | _ =>
      r ← attempt (fs_rename temp_path final_path);
      match r with
      | Err e => _ ← ignore (fs_remove_file temp_path); throw (DevIo final_path e)
      | _ => fsync_directory (parent final_path)
      end
  end.

(** [fs::read_to_string] *)
Definition read_to_string (p : path) : io io_error str :=
  bytes ← fs_read p;
  lift (ok_or (from_utf8 bytes) InvalidData).

Definition remove_if_present (p : path) : io DeviceError unit :=
  r ← attempt (fs_remove_file p);
  match r with
  | Err NotFound => mret tt
  | Err e => throw (DevIo p e)
  | _ => mret tt
  end.

(** The entries of a directory in path order; none when it does not exist. *)
Definition read_dir_sorted (dir : path) : io DeviceError (list path) :=
  r ← attempt (fs_read_dir dir);
  match r with
  | Ok names => mret (join dir <$> merge_sort lex_le names)
  | Err NotFound => mret []
  | Err e => throw (DevIo dir e)
  | Panic => mret []
  end.

(** [path.file_name().unwrap_or_default()] *)
Definition name_of (p : path) : str := default [] (file_name p).

Record Device := mkDevice { d_root : path; d_identity : DeviceIdentity }.

Definition device_id (d : Device) : DeviceId := di_device_id (d_identity d).

Definition device_object_directory (d : Device) (key_hash : KeyHash) : path :=
  object_directory (d_root d) DEFAULT_BUCKET key_hash.

Definition bucket_path (root : path) : path := join (join root OBJECTS_DIR) DEFAULT_BUCKET.

Section device.
Context `{Sha256} `{Xxh3} `{SerdeJson} `{Uuid} `{Rfc3339}.

(** ** Identity *)

Definition identity_fields (i : DeviceIdentity) : list (str * json) :=
  [ (lit "system", JString (di_system i));
    (lit "notice", JString (di_notice i));
    (lit "format_version", JNumber (di_format_version i));
    (lit "device_id", JString (uuid_text (di_device_id i)));
    (lit "cluster_id", JString (uuid_text (di_cluster_id i)));
    (lit "created", JString (time_text (di_created i))) ].

Definition identity_of_value (v : json) : option DeviceIdentity :=
  match v with
  | JObject obj =>
      ok_of (system ← field parse_str (lit "system") obj;
             notice ← field parse_str (lit "notice") obj;
             format_version ← field (parse_uint 32) (lit "format_version") obj;
             device_id ← field (parse_with uuid_parse) (lit "device_id") obj;
             cluster_id ← field (parse_with uuid_parse) (lit "cluster_id") obj;
             created ← field (parse_with time_parse) (lit "created") obj;
             system ← need system; notice ← need notice; format_version ← need format_version;
             device_id ← need device_id; cluster_id ← need cluster_id; created ← need created;
             Ok (mkIdentity system notice format_version device_id cluster_id created))
  | _ => None
  end.

Definition identity_from_str (text : str) : option DeviceIdentity :=
  v ← json_from_str text; identity_of_value v.

Definition check_identity (root : path) (expected_cluster : option Z) (identity : DeviceIdentity)
    : res DeviceError unit :=
  let identity_path := join root DEVICE_IDENTITY_FILE in
  _ ← ensure (bool_decide (di_system identity = SYSTEM_NAME))
        (BadIdentity identity_path (IdentitySystem (di_system identity)));
  _ ← ensure (di_format_version identity =? DEVICE_FORMAT_VERSION)
        (BadIdentity identity_path (IdentityFormat (di_format_version identity)));
  match expected_cluster with
  | Some expected =>
      ensure (di_cluster_id identity =? expected)
        (WrongCluster root (di_device_id identity) expected (di_cluster_id identity))
  | None => Ok tt
  end.

Definition Device_open (root : path) (expected_cluster : option Z) : io DeviceError Device :=
  metadata ← at_path root (fs_metadata root);
  _ ← lift (ensure (is_dir_node (Some metadata)) (DevNotADirectory root));
  let identity_path := join root DEVICE_IDENTITY_FILE in
  r ← attempt (read_to_string identity_path);
  json ← match r with
         | Ok json => mret json
         | Err NotFound =>
             foreign ← fs_is_dir (join root OBJECTS_DIR);
             throw (if foreign : bool then ForeignDirectory root else NotInitialised root)
         | Err e => throw (DevIo identity_path e)
         | Panic => lift Panic
         end;
  identity ← lift (ok_or (identity_from_str json) (BadIdentity identity_path IdentityJson));
  _ ← lift (check_identity root expected_cluster identity);
  mret (mkDevice root identity).

(** [fresh_id] and [now] are what [Uuid::new_v4] and [now_utc] return. *)
Definition initialise (root : path) (cluster_id fresh_id now : Z) : io DeviceError Device :=
  metadata ← at_path root (fs_metadata root);
  _ ← lift (ensure (is_dir_node (Some metadata)) (DevNotADirectory root));
  names ← at_path root (fs_read_dir root);
  let found := filter (λ n, n ≠ LOST_AND_FOUND) names in
  _ ← lift (ensure (bool_decide (found = [])) (NotEmpty root (merge_sort lex_le found)));
  let identity := mkIdentity SYSTEM_NAME NOTICE DEVICE_FORMAT_VERSION fresh_id cluster_id now in
  let objects := bucket_path root in
  _ ← at_path objects (fs_create_dir_all (length root) objects);
  _ ← write_file_atomically (join root DEVICE_IDENTITY_FILE)
        (as_bytes (json_pretty (identity_fields identity)));
  _ ← fsync_directory root;
  mret (mkDevice root identity).

Definition erase (root : path) : io DeviceError unit :=
  _ ← Device_open root None;
  let objects := join root OBJECTS_DIR in
  present ← fs_is_dir objects;
  _ ← (if present : bool then at_path objects (fs_remove_dir_all objects) else mret tt);
  let identity_path := join root DEVICE_IDENTITY_FILE in
  _ ← at_path identity_path (fs_remove_file identity_path);
  fsync_directory root.

Definition wipe_and_initialise (root : path) (cluster_id fresh_id now : Z) : io DeviceError Device :=
  _ ← erase root;
  initialise root cluster_id fresh_id now.

Definition check_present (d : Device) : io DeviceError unit :=
  let identity_path := join (d_root d) DEVICE_IDENTITY_FILE in
  r ← attempt (fs_metadata identity_path);
  match r with
  | Err NotFound => throw (DevUnavailable (d_root d))
  | Err e => throw (DevIo identity_path e)
  | _ => mret tt
  end.

(** ** Directories *)

Definition create_key_directory (d : Device) (key_hash : KeyHash) : io DeviceError path :=
  let '(first, second, full) := directory_components key_hash in
  io_fold (λ p component,
    let p := join p component in
    r ← attempt (fs_create_dir p);
    match r with
    | Err AlreadyExists => mret p
    | Err NotFound => throw (DevUnavailable (d_root d))
    | Err e => throw (DevIo p e)
    | _ => mret p
    end) [first; second; full] (bucket_path (d_root d)).

Definition bucket_directory (d : Device) : io DeviceError path :=
  let bucket := bucket_path (d_root d) in
  r ← attempt (fs_metadata bucket);
  match r with
  | Err NotFound => throw (DevUnavailable (d_root d))
  | Err e => throw (DevIo bucket e)
  | _ => mret bucket
  end.

Definition read_bucket (d : Device) : io DeviceError (list path) :=
  bucket ← bucket_directory d; read_dir_sorted bucket.

Definition key_directories (d : Device) : io DeviceError (list path) :=
  firsts ← read_bucket d;
  io_fold (λ out first,
    seconds ← read_dir_sorted first;
    io_fold (λ out second,
      keys ← read_dir_sorted second;
      io_fold (λ out key_dir,
        b ← fs_is_dir key_dir;
        mret (if b : bool then out ++ [key_dir] else out)) keys out) seconds out) firsts [].

(** ** Shard files *)

Record ShardWrite := mkShardWrite {
  sw_writer : ShardFileWriter;
  sw_temp_path : path;
  sw_final_path : path;
  sw_expected_length : Z;
}.

Definition begin_shard (d : Device) (key_hash : KeyHash) (header : ShardFileHeader) (object_size : Z)
    : io DeviceError ShardWrite :=
  length ← lift (shard_file_length (sh_scheme header) (sh_block_length header) object_size);
  length ← lift (ok_or length (BadObjectSize object_size));
  dir ← create_key_directory d key_hash;
  let final_path := join dir (shard_file_name (sh_version header) (sh_index header)) in
  temp_path ← temporary_path final_path;
  writer ← io_map_err DevShardFile (create_with_reservation temp_path header (Some length));
  mret (mkShardWrite writer temp_path final_path length).

Definition shard_append_block (s : ShardWrite) (b : ShardBlock) : io DeviceError ShardWrite :=
  writer ← io_map_err DevShardFile (append_block (sw_writer s) b);
  mret (mkShardWrite writer (sw_temp_path s) (sw_final_path s) (sw_expected_length s)).

Definition shard_finish (s : ShardWrite) (object_size : Z) (object_checksum : BlockChecksum)
    : io DeviceError ShardFileFooter :=
  r ← attempt (finish (sw_writer s) object_size object_checksum);
  match r with
  | Err e => _ ← ignore (fs_remove_file (sw_temp_path s)); throw (DevShardFile e)
  | Panic => lift Panic
  | Ok footer =>
      _ ← at_path (sw_temp_path s) (fs_metadata (sw_temp_path s));
      r ← attempt (fs_rename (sw_temp_path s) (sw_final_path s));
      match r with
      | Err e => _ ← ignore (fs_remove_file (sw_temp_path s)); throw (DevIo (sw_final_path s) e)
      | _ => _ ← fsync_directory (parent (sw_final_path s)); mret footer
      end
  end.

(** [abort] and [Drop] of an unfinished write *)
Definition shard_abort (s : ShardWrite) : io DeviceError unit :=
  ignore (fs_remove_file (sw_temp_path s)).

Definition remove_temporary_shard (d : Device) (key_hash : KeyHash) (version : VersionId)
    (index : ShardIndex) : io DeviceError unit :=
  let final_path := join (device_object_directory d key_hash) (shard_file_name version index) in
  temp ← temporary_path final_path;
  remove_if_present temp.

Definition open_shard (d : Device) (key_hash : KeyHash) (version : VersionId) (index : ShardIndex)
    : io DeviceError ShardFileReader :=
  let p := join (device_object_directory d key_hash) (shard_file_name version index) in
  io_map_err DevShardFile (ShardFileReader_open p).

(** ** Records *)

Definition read_record (d : Device) (key_hash : KeyHash) (version : VersionId)
    : io DeviceError MetadataRecord :=
  let p := join (device_object_directory d key_hash) (record_file_name version) in
  json ← at_path p (read_to_string p);
  record ← lift (map_err (DevRecord p) (from_json json));
  _ ← lift (ensure (bool_decide (r_key_hash record = key_hash))
              (DevRecord p (KeyHashMismatch (r_key_hash record) key_hash)));
  mret record.

Definition write_record (d : Device) (record : MetadataRecord) : io DeviceError unit :=
  let dir := device_object_directory d (r_key_hash record) in
  _ ← lift (map_err (DevRecord dir) (validate record));
  _ ← create_key_directory d (r_key_hash record);
  let p := join dir (record_file_name (r_version record)) in
  exists_ ← fs_exists p;
  let store :=
    json ← lift (map_err (DevRecord dir) (to_json record));
    write_file_atomically p (as_bytes json) in
  if exists_ : bool then
    existing ← read_record d (r_key_hash record) (r_version record);
    if decide (existing = record) then mret tt
    else
      _ ← lift (ensure (same_body existing record && (r_revision record >? r_revision existing))
                  (RecordExists (r_key_hash record) (r_version record)));
      store
  else store.

Definition read_records (d : Device) (key_hash : KeyHash) : io DeviceError (list MetadataRecord) :=
  let dir := device_object_directory d key_hash in
  r ← attempt (fs_read_dir dir);
  match r with
  | Ok names =>
      let versions := merge_sort lex_le (omap parse_record_file_name names) in
      io_fold (λ records version,
        record ← read_record d key_hash version;
        mret (records ++ [record])) versions []
  | Err NotFound => _ ← bucket_directory d; mret []
  | Err e => throw (DevIo dir e)
  | Panic => lift Panic
  end.

Definition delete_version (d : Device) (key_hash : KeyHash) (version : VersionId) : io DeviceError unit :=
  let dir := device_object_directory d key_hash in
  present ← fs_exists dir;
  if negb present then mret tt
  else
    _ ← remove_if_present (join dir (record_file_name version));
    let prefix := to_text version ++ lit "." in
    names ← at_path dir (fs_read_dir dir);
    _ ← io_fold (λ _ name,
          if starts_with prefix name && ends_with SHARD_SUFFIX name
          then remove_if_present (join dir name) else mret tt) names tt;
    _ ← fsync_directory dir;
    r ← attempt (fs_remove_dir dir);
    match r with
    | Err DirectoryNotEmpty => mret tt
    | Err e => throw (DevIo dir e)
    | _ => mret tt
    end.

(** ** Walks *)

(** Where a directory stands relative to the cursor's component: before it
    (skipped), or not, and whether it is the one the cursor is in. *)
Definition on_cursor (inside : bool) (name : str) (c : option str) : option bool :=
  match c with
  | Some c => if inside && lex_ltb name c then None else Some (inside && str_eqb name c)
  | None => Some false
  end.

Section walk.
Context {S : Type} (on_record : S → MetadataRecord → bool → S * WalkStep)
  (on_bad : S → path → DeviceError → S).

(** One entry of a key directory. *)
Definition walk_entry (d : Device) (key_dir : path) (on_key : bool) (cursor_version : option VersionId)
    (st : S * bool) (entry : path) : io DeviceError (S * bool) :=
  let '(s, stopped) := st in
  if stopped : bool then mret st
  else
    match parse_record_file_name (name_of entry) with
    | None => mret st
    | Some version =>
        let skip := match cursor_version with
                    | Some c => on_key && lex_leb version c
                    | None => false
                    end in
        if skip then mret st
        else
          r ← attempt (read_to_string entry);
          match r with
          | Err e => mret (on_bad s entry (DevIo entry e), false)
          | Panic => lift Panic
          | Ok json =>
              match from_json json with
              | Err source => mret (on_bad s entry (DevRecord entry source), false)
              | Panic => lift Panic
              | Ok record =>
                  shard_present ←
                    match shard_on record (device_id d) with
                    | Some index => fs_is_file (join key_dir (shard_file_name version index))
                    | None => mret false
                    end;
                  let '(s', step) := on_record s record shard_present in
                  mret (s', match step with Stop => true | Continue => false end)
              end
          end
    end.

Definition walk_records_from (d : Device) (after : option (KeyHash * VersionId)) (s : S)
    : io DeviceError S :=
  let c1 := (λ a, (directory_components a.1).1.1) <$> after in
  let c2 := (λ a, (directory_components a.1).1.2) <$> after in
  let c3 := (λ a, (directory_components a.1).2) <$> after in
  let cv := snd <$> after in
  firsts ← read_bucket d;
  '(s, _) ← io_fold (λ st first,
    if snd st : bool then mret st else
    match on_cursor true (name_of first) c1 with
    | None => mret st
    | Some on_first =>
        seconds ← read_dir_sorted first;
        io_fold (λ st second,
          if snd st : bool then mret st else
          match on_cursor on_first (name_of second) c2 with
          | None => mret st
          | Some on_second =>
              keys ← read_dir_sorted second;
              io_fold (λ st key_dir,
                if snd st : bool then mret st else
                match on_cursor on_second (name_of key_dir) c3 with
                | None => mret st
                | Some on_key =>
                    entries ← read_dir_sorted key_dir;
                    io_fold (walk_entry d key_dir on_key cv) entries st
                end) keys st
          end) seconds st
    end) firsts (s, false);
  mret s.
End walk.

(** [walk_records]: every record, no cursor, never stopping. *)
Definition walk_records {S : Type} (on_record : S → MetadataRecord → S)
    (on_bad : S → path → DeviceError → S) (d : Device) (s : S) : io DeviceError S :=
  walk_records_from (λ s r _, (on_record s r, Continue)) on_bad d None s.

(** The modification time of an entry; directories carry none. *)
Definition modified (n : node) : Z := match n with File _ m => m | Dir => 0 end.

Definition cleanup_entry (cutoff : Z) (removed : list path) (entry : path) : io DeviceError (list path) :=
  if negb (ends_with TEMPORARY_SUFFIX (name_of entry)) then mret removed
  else
    n ← at_path entry (fs_metadata entry);
    if modified n <? cutoff then
      _ ← remove_if_present entry; mret (removed ++ [entry])
    else mret removed.

Definition cleanup_temporaries (d : Device) (older_than : Z) : io DeviceError (list path) :=
  w ← get;
  let cutoff := w_clock w - older_than in
  firsts ← read_dir_sorted (bucket_path (d_root d));
  io_fold (λ removed first,
    seconds ← read_dir_sorted first;
    io_fold (λ removed second,
      keys ← read_dir_sorted second;
      io_fold (λ removed key_dir,
        entries ← read_dir_sorted key_dir;
        io_fold (cleanup_entry cutoff) entries removed) keys removed) seconds removed) firsts [].
End device.

(** ** Temporary names *)

Lemma fmt_dec_inj a b : 0 ≤ a < 2 ^ 128 → 0 ≤ b < 2 ^ 128 → fmt_dec a = fmt_dec b → a = b.
Proof.
  intros Ha Hb Heq. pose proof (from_str_radix_fmt_dec a (2 ^ 128) Ha ltac:(lia)) as H1.
  rewrite Heq, from_str_radix_fmt_dec in H1 by lia. congruence.
Qed.

(** Two calls with different counters never share a temporary name. *)
Lemma temporary_name_inj name pid n n' :
  is_u64 n → is_u64 n' → temporary_name name pid n = temporary_name name pid n' → n = n'.
Proof.
  unfold temporary_name, is_uint. intros Hn Hn' Heq. do 4 apply app_inv_head in Heq.
  apply app_inv_tail in Heq. apply fmt_dec_inj in Heq; lia.
Qed.

Lemma temporary_name_longer name pid n : temporary_name name pid n ≠ name.
Proof.
  unfold temporary_name. intros Heq. apply (f_equal length) in Heq. rewrite !length_app in Heq.
  cbn in Heq. lia.
Qed.

Lemma temporary_name_suffix name pid n : ends_with TEMPORARY_SUFFIX (temporary_name name pid n) = true.
Proof. unfold temporary_name. rewrite !app_assoc. apply ends_with_app. Qed.

(** No temporary name is a record or a shard. *)
Lemma temporary_not_parsed name :
  ends_with TEMPORARY_SUFFIX name = true →
  parse_record_file_name name = None ∧ parse_shard_file_name name = None.
Proof.
  intros [a ->]%ends_with_true. split.
  - destruct (parse_record_file_name _) as [v|] eqn:Hp; [|done].
    apply parse_record_Some in Hp as (t & Heq & _). apply (f_equal last) in Heq.
    rewrite !last_app in Heq. done.
  - destruct (parse_shard_file_name _) as [[v i]|] eqn:Hp; [|done].
    apply parse_shard_Some in Hp as (t & s & Heq & _).
    rewrite app_comm_cons, app_assoc in Heq. apply (f_equal last) in Heq.
    rewrite !last_app in Heq. done.
Qed.

Definition temp_of (w : World) (p : path) : path :=
  with_file_name p (temporary_name (name_of p) (w_pid w) (w_counter w)).

Lemma join_parent p n : file_name p = Some n → join (parent p) n = p.
Proof.
  unfold file_name, join, parent. intros Hl. destruct p as [|x p] using rev_ind; [done|].
  rewrite last_snoc in Hl. injection Hl as ->. by rewrite removelast_last.
Qed.

Lemma temp_of_ne w p : p ≠ [] → temp_of w p ≠ p.
Proof.
  intros Hp Heq. unfold temp_of, with_file_name, name_of, file_name, join, parent in Heq.
  destruct p as [|x p] using rev_ind; [done|]. rewrite last_snoc, removelast_last in Heq. cbn in Heq.
  apply app_inj_tail in Heq as [_ Heq]. by apply temporary_name_longer in Heq.
Qed.

(** ** Atomic replacement *)

(** The file [p] is as it was or holds exactly [bytes]; only it and the
    temporary file may have changed. *)
Definition replaced (t0 : tree) (temp p : path) (bytes : list Z) (t : tree) : Prop :=
  (∀ q, q ≠ temp → q ≠ p → t !! q = t0 !! q)
  ∧ (t !! p = t0 !! p ∨ ∃ m, t !! p = Some (File bytes m)).

Section atomic.
Context (Inv : tree → Prop).

Lemma wp_temporary_path p w (Post : res DeviceError path → World → Prop) :
  p ≠ [] →
  (∀ w', w_tree w' = w_tree w → w_offset w' = w_offset w → w_clock w' = w_clock w →
     w_pid w' = w_pid w → w_counter w' = wrap64 (w_counter w + 1) → Post (Ok (temp_of w p)) w') →
  wp Inv (temporary_path p) w Post.
Proof.
  intros Hp HP. unfold temporary_path. apply wp_bind, wp_lift.
  destruct (file_name p) as [n|] eqn:Hn.
  2: { unfold file_name in Hn. by apply last_None in Hn. }
  cbn [expect]. apply wp_bind, wp_get. apply wp_bind, wp_fetch_counter. apply wp_ret.
  replace (with_file_name p (temporary_name n (w_pid w) (w_counter w))) with (temp_of w p)
    by (unfold temp_of, name_of; by rewrite Hn).
  by apply HP.
Qed.

(** Removing the temporary file after a failure, whatever happens. *)
Lemma wp_discard {E A : Type} temp w (e : E) (Post : res E A → World → Prop) :
  (∀ t, (∀ q, q ≠ temp → t !! q = w_tree w !! q) → Inv t) →
  (∀ w', framed temp w w' → Post (Err e) w') →
  wp Inv (_ ← ignore (fs_remove_file temp); throw e) w Post.
Proof.
  intros HI HP. apply wp_bind, wp_ignore. apply wp_fs_remove_file.
  - intros _. apply HI. intros q Hq. by rewrite lookup_delete_ne.
  - intros w' _ Hw. apply wp_lift, HP. by eapply moved_delete_framed.
  - intros e' w' Hw _. apply wp_lift, HP. by apply unmoved_framed.
Qed.

Lemma wp_fsync_directory dir w (Post : res DeviceError unit → World → Prop) :
  (∀ r w', r ≠ Panic → unmoved w w' → Post r w') → wp Inv (fsync_directory dir) w Post.
Proof.
  intros HP. unfold fsync_directory. apply wp_bind, wp_map_err. unfold fs_open. apply wp_bind.
  apply wp_fs_metadata.
  - intros n w1 _ Hw1. apply wp_ret. apply wp_map_err, wp_may_fail.
    + intros w2 Hw2. apply HP; [done|]. destruct Hw1 as (? & ? & ? & ? & ?), Hw2 as (? & ? & ? & ? & ?).
      split_and!; congruence.
    + intros k w2 Hw2. apply HP; [done|]. destruct Hw1 as (? & ? & ? & ? & ?), Hw2 as (? & ? & ? & ? & ?).
      split_and!; congruence.
  - intros e w1 Hw1 _. by apply HP.
Qed.
End atomic.

(** Creating, filling and syncing the temporary file: it ends up with all the
    bytes, or there is an error to handle, and nothing else changes. *)
Lemma wp_fill_temp {B : Type} (Inv : tree → Prop) (temp : path) (bytes : list Z) (w : World)
    (K : res io_error unit → io DeviceError B) (Post : res DeviceError B → World → Prop) :
  (∀ t, (∀ q, q ≠ temp → t !! q = w_tree w !! q) → Inv t) →
  (∀ e w', framed temp w w' → Post (Err (DevIo temp e)) w') →
  (∀ m w', framed temp w w' → w_tree w' !! temp = Some (File bytes m) → wp Inv (K (Ok tt)) w' Post) →
  (∀ e w', framed temp w w' → wp Inv (K (Err e)) w' Post) →
  wp Inv (_ ← at_path temp (fs_create temp);
          r ← attempt (_ ← fs_write_all temp bytes; fs_sync temp); K r) w Post.
Proof.
  intros HI Hcreate Hok Herr. apply wp_bind, wp_map_err, wp_fs_create.
  { apply HI. intros q Hq. by rewrite lookup_insert_ne. }
  2: { intros e w' Hw. by apply Hcreate, unmoved_framed. }
  intros w2 Hw2. pose proof (moved_touched _ _ _ _ _ _ Hw2) as T2.
  destruct Hw2 as (Ht2 & Ho2 & _).
  assert (offset_of w2 temp = O) as Hoff by (unfold offset_of; by rewrite Ho2, lookup_insert_eq).
  apply wp_bind, wp_attempt, wp_bind. eapply wp_fs_write_all; [by rewrite Ht2, lookup_insert_eq| | |].
  { intros bs. apply HI. intros q Hq. rewrite lookup_insert_ne by done. by apply (touched_framed _ _ _ T2). }
  2: { intros k n w3 Hw3. apply Herr, touched_framed. eapply touched_trans; [exact T2|].
       by eapply moved_touched. }
  intros w3 Hw3. pose proof (touched_trans _ _ _ _ T2 (moved_touched _ _ _ _ _ _ Hw3)) as T3.
  destruct Hw3 as (Ht3 & _). rewrite Hoff in Ht3. apply wp_may_fail.
  - intros w4 Hw4. eapply Hok.
    + eapply framed_trans; [by apply touched_framed|by apply unmoved_framed].
    + rewrite (proj1 Hw4), Ht3, lookup_insert_eq. unfold overwrite. cbn. by rewrite drop_nil, app_nil_r.
  - intros k w4 Hw4. apply Herr. eapply framed_trans; [by apply touched_framed|by apply unmoved_framed].
Qed.

(** Every tree that the write goes through has the old file or the new one,
    complete; success means the new one is in place. *)
Lemma wp_write_file_atomically (p : path) (bytes : list Z) (w : World) (Inv : tree → Prop) :
  p ≠ [] → (∀ t, replaced (w_tree w) (temp_of w p) p bytes t → Inv t) →
  wp Inv (write_file_atomically p bytes) w (λ r w',
    replaced (w_tree w) (temp_of w p) p bytes (w_tree w') ∧ r ≠ Panic
    ∧ (r = Ok tt → ∃ m, w_tree w' !! p = Some (File bytes m))).
Proof.
  intros Hp HI. set (temp := temp_of w p) in *. pose proof (temp_of_ne w p Hp) as Hne. fold temp in Hne.
  assert (∀ t, (∀ q, q ≠ temp → t !! q = w_tree w !! q) → replaced (w_tree w) temp p bytes t) as Htemp.
  { intros t Ht. split; [intros; by apply Ht|]. left. by apply Ht. }
  unfold write_file_atomically. apply wp_bind, wp_temporary_path; [done|].
  intros w1 Ht1 _ _ _ _. fold temp. rewrite <- Ht1 in *.
  assert (∀ e w3, framed temp w1 w3 →
    wp Inv (_ ← ignore (fs_remove_file temp); throw e) w3 (λ (r : res DeviceError unit) w',
      replaced (w_tree w1) temp p bytes (w_tree w') ∧ r ≠ Panic
      ∧ (r = Ok tt → ∃ m, w_tree w' !! p = Some (File bytes m)))) as Hfail.
  { intros e w3 [F3 _]. apply wp_discard.
    - intros t Ht. apply HI, Htemp. intros q Hq. by rewrite Ht, F3.
    - intros w4 [F4 _]. split_and!; [apply Htemp; intros q Hq; by rewrite F4, F3|done|done]. }
  apply wp_fill_temp.
  - intros t Ht. by apply HI, Htemp.
  - intros e w2 [F2 _]. split_and!; [by apply Htemp|done|done].
  - intros m w2 F2 Hfile.
    assert (replaced (w_tree w1) temp p bytes (<[p := File bytes m]> (delete temp (w_tree w2)))) as Hrep.
    { split; [|right; eexists; by rewrite lookup_insert_eq].
      intros q Hq Hqp. rewrite lookup_insert_ne, lookup_delete_ne by done. by apply F2. }
    apply wp_bind, wp_attempt. eapply wp_fs_rename; [exact Hfile|by apply HI| |].
    + intros w5 (Ht5 & _). apply wp_fsync_directory. intros r w6 Hr (Ht6 & _). rewrite Ht6, Ht5.
      split_and!; [done|done|]. intros _. eexists. by rewrite lookup_insert_eq.
    + intros e w5 Hw5. apply Hfail. eapply framed_trans; [exact F2|by apply unmoved_framed].
  - intros e w2 F2. by apply Hfail.
Qed.

(** ** Key directories *)

(** Only directories were added, where nothing was, at depth at most [n]. *)
Definition dirs_added (n : nat) (t0 t : tree) : Prop :=
  ∀ q, t !! q = t0 !! q ∨ ((length q ≤ n)%nat ∧ t0 !! q = None ∧ t !! q = Some Dir).

Lemma dirs_added_refl n t : dirs_added n t t.
Proof. by left. Qed.

Lemma dirs_added_insert n t0 t q :
  dirs_added n t0 t → (length q ≤ n)%nat → t !! q = None → dirs_added n t0 (<[q := Dir]> t).
Proof.
  intros Ht Hl Hq q'. destruct (decide (q' = q)) as [->|Hne].
  - right. rewrite lookup_insert_eq. split_and!; [done| |done]. destruct (Ht q) as [<-|(? & ? & ?)]; congruence.
  - rewrite lookup_insert_ne by done. apply Ht.
Qed.

Lemma dirs_added_deep n t0 t q : dirs_added n t0 t → (n < length q)%nat → t !! q = t0 !! q.
Proof. intros Ht Hl. destruct (Ht q) as [?|(? & _)]; [done|lia]. Qed.

(** The world after directories were added. *)
Definition grown (n : nat) (w w' : World) : Prop :=
  dirs_added n (w_tree w) (w_tree w') ∧ w_offset w' = w_offset w
  ∧ w_clock w' = w_clock w ∧ w_pid w' = w_pid w ∧ w_counter w' = w_counter w.

Lemma grown_refl n w : grown n w w.
Proof. split; [apply dirs_added_refl|done]. Qed.

Lemma wp_make_directory (Inv : tree → Prop) n (d : Device) (p : path) (component : str) (w0 w : World)
    (Post : res DeviceError path → World → Prop) :
  (∀ t, dirs_added n (w_tree w0) t → Inv t) → (length p < n)%nat → grown n w0 w →
  (∀ w', grown n w0 w' → Post (Ok (join p component)) w') →
  (∀ e w', grown n w0 w' → Post (Err e) w') →
  wp Inv (r ← attempt (fs_create_dir (join p component));
          match r with
          | Err AlreadyExists => mret (join p component)
          | Err NotFound => throw (DevUnavailable (d_root d))
          | Err e => throw (DevIo (join p component) e)
          | _ => mret (join p component)
          end) w Post.
Proof.
  intros HI Hlen (Hd & Ho & Hc & Hp & Hn) Hok Herr.
  assert (length (join p component) ≤ n)%nat as Hl by (unfold join; rewrite length_app; cbn; lia).
  apply wp_bind, wp_attempt, wp_fs_create_dir.
  - intros Hq. by apply HI, dirs_added_insert.
  - intros w' Hq _ (Ht' & Ho' & Hc' & Hp' & Hn'). apply wp_ret, Hok. split_and!; [|congruence..].
    rewrite Ht'. by apply dirs_added_insert.
  - intros e w' (Ht' & Ho' & Hc' & Hp' & Hn') _ _.
    assert (grown n w0 w') as Hg by (split_and!; [rewrite Ht'; done|congruence..]).
    destruct e; first [by apply wp_ret, Hok|by apply wp_lift, Herr].
Qed.

(** The depth of a key directory. *)
Definition key_depth (d : Device) : nat := (length (d_root d) + 5)%nat.

Lemma length_object_directory d key_hash : length (device_object_directory d key_hash) = key_depth d.
Proof.
  unfold device_object_directory, object_directory, key_depth.
  destruct (directory_components key_hash) as [[first second] full]. unfold join.
  rewrite !length_app. cbn. lia.
Qed.

Lemma wp_create_key_directory (Inv : tree → Prop) (d : Device) (key_hash : KeyHash) (w : World)
    (Post : res DeviceError path → World → Prop) :
  (∀ t, dirs_added (key_depth d) (w_tree w) t → Inv t) →
  (∀ w', grown (key_depth d) w w' → Post (Ok (device_object_directory d key_hash)) w') →
  (∀ e w', grown (key_depth d) w w' → Post (Err e) w') →
  wp Inv (create_key_directory d key_hash) w Post.
Proof.
  intros HI Hok Herr. pose proof (length_object_directory d key_hash) as Hlen.
  unfold create_key_directory, device_object_directory, object_directory, bucket_path in *.
  destruct (directory_components key_hash) as [[first second] full]. cbn [io_fold].
  unfold join in Hlen. rewrite !length_app in Hlen. cbn [length] in Hlen.
  apply wp_bind. apply (wp_make_directory Inv (key_depth d) d _ _ w);
    [done|unfold join; rewrite !length_app; cbn [length]; lia|apply grown_refl| |by apply Herr].
  intros w1 G1. apply wp_bind. apply (wp_make_directory Inv (key_depth d) d _ _ w);
    [done|unfold join; rewrite !length_app; cbn [length]; lia|done| |by apply Herr].
  intros w2 G2. apply wp_bind. apply (wp_make_directory Inv (key_depth d) d _ _ w);
    [done|unfold join; rewrite !length_app; cbn [length]; lia|done| |by apply Herr].
  intros w3 G3. by apply wp_ret, Hok.
Qed.

(** ** Reading *)

Lemma wp_read_to_string (Inv : tree → Prop) (p : path) (w : World) (Post : res io_error str → World → Prop) :
  (∀ c m s w', w_tree w !! p = Some (File c m) → from_utf8 c = Some s → unmoved w w' → Post (Ok s) w') →
  (∀ e w', unmoved w w' → (e = NotFound → w_tree w !! p = None) → Post (Err e) w') →
  wp Inv (read_to_string p) w Post.
Proof.
  intros Hok Herr. unfold read_to_string. apply wp_bind, wp_fs_read.
  - intros c m w' Hp Hw. apply wp_lift. destruct (from_utf8 c) as [s|] eqn:Hs.
    + by eapply Hok.
    + by apply Herr.
  - intros e w' Hw He. by apply Herr.
Qed.

Section records.
Context `{Sha256} `{Xxh3} `{SerdeJson} `{Uuid} `{Rfc3339}.

Definition record_path (d : Device) (key_hash : KeyHash) (version : VersionId) : path :=
  join (device_object_directory d key_hash) (record_file_name version).

(** What a tree stores as the record of a version. *)
Definition stored_record (t : tree) (d : Device) (key_hash : KeyHash) (version : VersionId)
    (r : MetadataRecord) : Prop :=
  ∃ c m s, t !! record_path d key_hash version = Some (File c m) ∧ from_utf8 c = Some s
    ∧ from_json s = Ok r ∧ r_key_hash r = key_hash.

Lemma wp_read_record (Inv : tree → Prop) d key_hash version w
    (Post : res DeviceError MetadataRecord → World → Prop) :
  (∀ r w', stored_record (w_tree w) d key_hash version r → unmoved w w' → Post (Ok r) w') →
  (∀ e w', unmoved w w' → Post (Err e) w') →
  (∀ w', unmoved w w' → Post Panic w') →
  wp Inv (read_record d key_hash version) w Post.
Proof.
  intros Hok Herr Hpanic. unfold read_record. fold (record_path d key_hash version).
  apply wp_bind, wp_map_err, wp_read_to_string; [|intros e w' Hw _; by apply Herr].
  intros c m s w1 Hp Hs Hw1. apply wp_bind, wp_lift.
  destruct (from_json s) as [r|e|] eqn:Hj; [|by apply Herr|by apply Hpanic].
  cbn [map_err]. apply wp_bind, wp_lift. case_bool_decide as Hk; cbn [ensure]; [|by apply Herr].
  apply wp_ret, Hok; [|done]. by exists c, m, s.
Qed.

(** A step of storing [bytes] as a record: the record file is the old one or
    the new one, complete; the key's directories may have been made; every
    other file is as it was. *)
Definition record_step (d : Device) (t0 : tree) (temp p : path) (bytes : list Z) (t : tree) : Prop :=
  (∀ q, q ≠ temp → q ≠ p → t !! q = t0 !! q
     ∨ ((length q ≤ key_depth d)%nat ∧ t0 !! q = None ∧ t !! q = Some Dir))
  ∧ (t !! p = t0 !! p ∨ ∃ m, t !! p = Some (File bytes m)).

Lemma record_path_depth d key_hash version : length (record_path d key_hash version) = S (key_depth d).
Proof. unfold record_path, join. rewrite length_app, length_object_directory. cbn. lia. Qed.

Lemma dirs_added_step d t0 temp p bytes t :
  length p = S (key_depth d) → dirs_added (key_depth d) t0 t → record_step d t0 temp p bytes t.
Proof.
  intros Hp Ht. split; [intros q _ _; apply Ht|]. left. eapply dirs_added_deep; [exact Ht|lia].
Qed.

Lemma replaced_step d t0 t1 temp p bytes t :
  length p = S (key_depth d) → dirs_added (key_depth d) t0 t1 → replaced t1 temp p bytes t →
  record_step d t0 temp p bytes t.
Proof.
  intros Hp Hd [Hq Hr]. split.
  - intros q Hqt Hqp. rewrite Hq by done. apply Hd.
  - destruct Hr as [->|?]; [|by right]. left. eapply dirs_added_deep; [exact Hd|lia].
Qed.

Lemma wp_write_record (d : Device) (r : MetadataRecord) (text : str) (w : World) :
  to_json r = Ok text →
  let p := record_path d (r_key_hash r) (r_version r) in
  let step := record_step d (w_tree w) (temp_of w p) p (as_bytes text) in
  wp step (write_record d r) w (λ res w', step (w_tree w') ∧
    (res = Ok tt →
      (∃ m, w_tree w' !! p = Some (File (as_bytes text) m))
      ∨ (stored_record (w_tree w) d (r_key_hash r) (r_version r) r ∧ w_tree w' !! p = w_tree w !! p))).
Proof.
  intros Htext p step. pose proof (record_path_depth d (r_key_hash r) (r_version r)) as Hlen.
  assert (p ≠ []) as Hp by (unfold p; intros Hnil; rewrite Hnil in Hlen; done).
  assert (∀ w', dirs_added (key_depth d) (w_tree w) (w_tree w') → step (w_tree w')) as Hgrow
    by (intros; by apply dirs_added_step).
  unfold write_record. rewrite Htext. fold (record_path d (r_key_hash r) (r_version r)). fold p.
  apply wp_bind, wp_lift.
  destruct (map_err _ (validate r)) as [[]|e|];
    [|split; [apply Hgrow, dirs_added_refl|done]|split; [apply Hgrow, dirs_added_refl|done]].
  apply wp_bind. apply wp_create_key_directory; [intros; by apply dirs_added_step| |].
  2: { intros e w' [Hd _]. split; [by apply Hgrow|done]. }
  intros w1 G1. pose proof G1 as (D1 & O1 & C1 & P1 & N1).
  apply wp_bind, wp_fs_test. intros b w2 (T2 & O2 & C2 & P2 & N2) _.
  assert (temp_of w2 p = temp_of w p) as Htemp by (unfold temp_of; congruence).
  (* storing, from any world where only directories were added *)
  assert (∀ w3, w_tree w3 = w_tree w1 → temp_of w3 p = temp_of w p →
    wp step (json ← lift (map_err (DevRecord (device_object_directory d (r_key_hash r))) (Ok text));
             write_file_atomically p (as_bytes json)) w3
      (λ res w', step (w_tree w') ∧ (res = Ok tt →
        (∃ m, w_tree w' !! p = Some (File (as_bytes text) m))
        ∨ (stored_record (w_tree w) d (r_key_hash r) (r_version r) r ∧ w_tree w' !! p = w_tree w !! p)))) as Hstore.
  { intros w3 T3 Htemp3. apply wp_bind, wp_lift. cbn [map_err].
    eapply wp_mono; [apply wp_write_file_atomically; [done|]|].
    - rewrite Htemp3, T3. intros t Ht. by eapply replaced_step.
    - rewrite Htemp3, T3. intros res w' (Hr & _ & Hok). split; [by eapply replaced_step|]. auto. }
  destruct b; [|by apply Hstore; [congruence|]].
  assert (∀ w3, unmoved w2 w3 → w_tree w3 = w_tree w1 ∧ temp_of w3 p = temp_of w p) as Hun.
  { intros w3 (T3 & _ & _ & P3 & N3). unfold temp_of. split; congruence. }
  apply wp_bind, wp_read_record.
  - intros r' w3 Hst Hw3. destruct (Hun _ Hw3) as [T3 Htemp3]. case_decide as Heq.
    + apply wp_ret. split; [apply Hgrow; by rewrite T3|]. intros _. right.
      assert (w_tree w1 !! p = w_tree w !! p) as Hsame by (eapply dirs_added_deep; [exact D1|unfold p; lia]).
      split; [|congruence]. subst r'. destruct Hst as (c & m & s & Hc & ?). exists c, m, s.
      split; [|done]. fold p. fold p in Hc. congruence.
    + apply wp_bind, wp_lift. destruct (same_body r' r && _); cbn [ensure];
        [by apply Hstore|split; [apply Hgrow; by rewrite T3|done]].
  - intros e w3 Hw3. destruct (Hun _ Hw3) as [T3 _]. split; [apply Hgrow; by rewrite T3|done].
  - intros w3 Hw3. destruct (Hun _ Hw3) as [T3 _]. split; [apply Hgrow; by rewrite T3|done].
Qed.
End records.

(** ** Writing a shard *)

Section shards.
Context `{Sha256} `{Xxh3} `{SerdeJson} `{Uuid} `{Rfc3339}.

(** A shard a [u64] can address: the stripe and the whole file. *)
Record addressable (h : ShardFileHeader) (size : Z) : Prop := {
  ad_header : header_ok h;
  ad_size : is_u64 size;
  ad_stripe : data_shards (sh_scheme h) * sh_block_length h < 2 ^ 64;
  ad_file : ∀ n last,
    shard_geometry (E := ShardFileError) (sh_scheme h) (sh_block_length h) size
      = Ok (Some (mkGeometry n last)) →
    4096 + (n - 1) * sh_block_length h + last + 40 + 8 * n + 16 < 2 ^ 64;
}.

(** The bytes of a finished, well-formed shard file. *)
Definition complete_shard (h : ShardFileHeader) (size : Z) (ock : BlockChecksum) (blocks : list block)
    (c : list Z) : Prop :=
  ∃ last, c = shard_image h blocks last size ock ∧ shard_ok h blocks last size ock.

(** A step of writing a shard: its file is the old one or a complete one. *)
Definition shard_step (d : Device) (t0 : tree) (temp p : path) (h : ShardFileHeader) (size : Z)
    (t : tree) : Prop :=
  (∀ q, q ≠ temp → q ≠ p → t !! q = t0 !! q
     ∨ ((length q ≤ key_depth d)%nat ∧ t0 !! q = None ∧ t !! q = Some Dir))
  ∧ (t !! p = t0 !! p ∨ ∃ c m ock blocks, t !! p = Some (File c m) ∧ complete_shard h size ock blocks c).

Definition shard_path (d : Device) (key_hash : KeyHash) (h : ShardFileHeader) : path :=
  join (device_object_directory d key_hash) (shard_file_name (sh_version h) (sh_index h)).

Context (d : Device) (key_hash : KeyHash) (h : ShardFileHeader) (size : Z) (Had : addressable h size).
Context (w0 : World).

Abbreviation p := (shard_path d key_hash h).
Abbreviation temp := (temp_of w0 p).
Abbreviation step := (shard_step d (w_tree w0) temp p h size).

Lemma shard_path_depth : length p = S (key_depth d).
Proof. unfold shard_path, join. rewrite length_app, length_object_directory. cbn. lia. Qed.

Lemma shard_temp_ne : temp ≠ p.
Proof. apply temp_of_ne. intros Hnil. pose proof shard_path_depth as Hl. by rewrite Hnil in Hl. Qed.

Lemma shard_temp_depth : length temp = S (key_depth d).
Proof.
  unfold temp_of, with_file_name, parent, shard_path, join at 1. rewrite length_app. unfold join.
  rewrite removelast_last, length_object_directory. cbn. lia.
Qed.

(** Trees that differ from the first only in added directories and in the
    temporary file. *)
Definition quiet (t : tree) : Prop :=
  ∀ q, q ≠ temp → t !! q = w_tree w0 !! q
    ∨ ((length q ≤ key_depth d)%nat ∧ w_tree w0 !! q = None ∧ t !! q = Some Dir).

Lemma quiet_step t : quiet t → step t.
Proof.
  intros Hq. split; [intros q Hqt _; by apply Hq|]. left.
  destruct (Hq p) as [?|(Hl & _)]; [by apply not_eq_sym, shard_temp_ne|done|].
  rewrite shard_path_depth in Hl. lia.
Qed.

Lemma quiet_framed w w' : quiet (w_tree w) → framed temp w w' → quiet (w_tree w').
Proof. intros Hq [Hf _] q Hqt. rewrite Hf by done. by apply Hq. Qed.

Lemma quiet_only w t : quiet (w_tree w) → (∀ q, q ≠ temp → t !! q = w_tree w !! q) → step t.
Proof. intros Hq Ht. apply quiet_step. intros q Hqt. rewrite Ht by done. by apply Hq. Qed.

(** A write in progress: the writer's file is the temporary one, holding the
    header and the blocks so far in the reserved space. *)
Record in_progress (s : ShardWrite) (blocks : list block) (w : World) : Prop := {
  ip_temp : sw_temp_path s = temp;
  ip_final : sw_final_path s = p;
  ip_file : sw_file (sw_writer s) = temp;
  ip_header : sw_header (sw_writer s) = h;
  ip_length : shard_file_length (E := DeviceError) (sh_scheme h) (sh_block_length h) size
              = Ok (Some (sw_expected_length s));
  ip_writing : writing w (sw_writer s) blocks (Z.to_nat (sw_expected_length s));
  ip_writer : writer_ok (sw_writer s) blocks;
  ip_quiet : quiet (w_tree w);
}.

Lemma wp_begin_shard :
  wp step (begin_shard d key_hash h size) w0 (λ r w', quiet (w_tree w') ∧
    match r with
    | Ok s => in_progress s [] w'
    | Err _ => True
    | Panic => shard_geometry (E := DeviceError) (sh_scheme h) (sh_block_length h) size = Panic
    end).
Proof.
  assert (quiet (w_tree w0)) as Hq0 by (by left).
  unfold begin_shard. apply wp_bind, wp_lift.
  destruct (shard_file_length _ _ size) as [o|e|] eqn:Hlen; [|done|].
  2: { split; [done|]. unfold shard_file_length in Hlen.
       destruct (shard_geometry _ _ size) as [[g|]| |]; done. }
  apply wp_bind, wp_lift. destruct o as [length|]; cbn [ok_or]; [|done].
  apply wp_bind, wp_create_key_directory.
  { intros t Ht. apply quiet_step. intros q _. apply Ht. }
  2: { intros e w' [Hd _]. split; [intros q _; apply Hd|done]. }
  intros w1 (D1 & O1 & C1 & P1 & N1). fold (shard_path d key_hash h).
  assert (quiet (w_tree w1)) as Q1 by (intros q _; apply D1).
  apply wp_bind, wp_temporary_path.
  { intros Hnil. pose proof shard_path_depth as Hl. by rewrite Hnil in Hl. }
  intros w2 T2 O2 C2 P2 N2. assert (temp_of w1 p = temp) as -> by (unfold temp_of; congruence).
  assert (quiet (w_tree w2)) as Q2 by (by rewrite T2).
  apply wp_bind, wp_map_err. eapply wp_mono.
  { apply wp_create_with_reservation. intros t Ht. by eapply quiet_only. }
  intros r w3 [F3 Hr]. pose proof (quiet_framed _ _ Q2 F3) as Q3.
  destruct r as [sw|e|]; cbn [map_err]; [|done|done]. destruct Hr as (-> & Hc & Hw).
  apply wp_ret. split; [done|]. split; try done. split; [done|]. by left.
Qed.

Lemma wp_shard_append s b blocks w :
  in_progress s blocks w →
  wp step (shard_append_block s b) w (λ r w', quiet (w_tree w') ∧
    (∃ c m, w_tree w' !! temp = Some (File c m)) ∧
    match r with
    | Ok s' => accept_block (sw_writer s) b = Ok tt ∧ in_progress s' (blocks ++ [sb_bytes b]) w'
    | Err _ => True
    | Panic => False
    end).
Proof.
  intros [Ht Hf Hfile Hh Hl Hw Hwok Hq]. unfold shard_append_block. apply wp_bind, wp_map_err.
  eapply wp_mono; [eapply wp_append_block; [exact Hw|]|].
  { intros c m. eapply quiet_only; [exact Hq|]. intros q Hqt. rewrite Hfile.
    by rewrite lookup_insert_ne. }
  intros r w' [T Hr]. rewrite Hfile in T. pose proof (quiet_framed _ _ Hq (touched_framed _ _ _ T)) as Q.
  pose proof (touched_file _ _ _ T) as Hex.
  destruct r as [sw'|e|]; cbn [map_err]; [|done|done]. destruct Hr as (Ha & -> & Hw').
  apply wp_ret. split_and!; [done|done|done|]. split; try done. by apply pushed_ok.
Qed.

Lemma wp_shard_abort s w :
  sw_temp_path s = temp → quiet (w_tree w) →
  wp step (shard_abort s) w (λ r w', r = Ok tt ∧ quiet (w_tree w')).
Proof.
  intros Ht Hq. unfold shard_abort. rewrite Ht. apply wp_ignore, wp_fs_remove_file.
  - intros _. eapply quiet_only; [exact Hq|]. intros q Hqt. by rewrite lookup_delete_ne.
  - intros w' _ Hw. split; [done|]. eapply quiet_framed; [exact Hq|by eapply moved_delete_framed].
  - intros e w' Hw _. split; [done|]. eapply quiet_framed; [exact Hq|by apply unmoved_framed].
Qed.

(** The reservation is the length of the finished file. *)
Lemma reserved_image s blocks last ock w :
  in_progress s blocks w → is_u64 ock → blocks_fit (sh_block_length h) last blocks →
  shard_geometry (E := ShardFileError) (sh_scheme h) (sh_block_length h) size
    = Ok (Some (mkGeometry (Z.of_nat (length blocks)) last)) →
  shard_ok h blocks last size ock
  ∧ (Z.to_nat (sw_expected_length s) = length (shard_image h blocks last size ock))%nat.
Proof.
  intros Hip Hock Hfit Hg. destruct Had as [Hh Hs Hst Hfile]. pose proof (Hfile _ _ Hg) as Hmax.
  assert (size ≠ 0 ∧ sh_block_length h ≠ 0) as [Hs0 Hb0].
  { unfold shard_geometry in Hg. destruct (Z.eqb_spec size 0), (Z.eqb_spec (sh_block_length h) 0); done. }
  pose proof Hh as (_ & _ & Hbl & _). unfold is_uint in *.
  assert (shard_ok h blocks last size ock) as Hok by (split; [done|lia|done|lia|done|done|done|unfold image_length; lia]).
  split; [done|]. pose proof (length_shard_image _ _ _ _ _ Hok) as Hl.
  pose proof (ip_length _ _ _ Hip) as Hel. unfold shard_file_length in Hel.
  assert (shard_geometry (E := DeviceError) (sh_scheme h) (sh_block_length h) size
    = Ok (Some (mkGeometry (Z.of_nat (length blocks)) last))) as Hg'.
  { unfold shard_geometry in *. destruct (_ || _); [done|]. destruct (_ =? 0); [done|].
    injection Hg as Hg1 Hg2. congruence. }
  rewrite Hg' in Hel. cbn [mbind res_bind g_block_count g_last_block_length] in Hel.
  injection Hel as Hel. pose proof (shard_count _ _ _ _ _ Hok). pose proof (shard_last _ _ _ _ _ Hok).
  unfold image_length, HEADER_LEN, FOOTER_FIXED_LEN, TRAILER_LEN, wrap in *.
  rewrite Z.mod_small in Hel by nia. lia.
Qed.

Lemma wp_shard_finish s blocks ock w :
  in_progress s blocks w → is_u64 ock →
  returns (shard_geometry (E := ShardFileError) (sh_scheme h) (sh_block_length h) size) →
  wp step (shard_finish s size ock) w (λ r w', step (w_tree w') ∧
    match r with
    | Ok f => ∃ c m, w_tree w' !! p = Some (File c m) ∧ complete_shard h size ock blocks c
    | Err _ => True
    | Panic => False
    end).
Proof.
  intros Hip Hock Hgeo. pose proof Hip as [Ht Hf Hfile Hh Hl Hw Hwok Hq].
  assert (∀ (e : DeviceError) w', quiet (w_tree w') →
    wp step (_ ← ignore (fs_remove_file temp); throw e) w' (λ (r : res DeviceError ShardFileFooter) w', step (w_tree w') ∧
      match r with
      | Ok f => ∃ c m, w_tree w' !! p = Some (File c m) ∧ complete_shard h size ock blocks c
      | Err _ => True
      | Panic => False
      end)) as Hfail.
  { intros e w' Q. apply wp_discard.
    - intros t Ht'. by eapply quiet_only.
    - intros w'' F. split; [|done]. by eapply quiet_step, quiet_framed. }
  unfold shard_finish. rewrite Ht, Hf. apply wp_bind, wp_attempt.
  eapply wp_mono; [eapply wp_finish; [exact Hw|exact Hwok|by rewrite Hh|]|].
  { intros c m. eapply quiet_only; [exact Hq|]. intros q Hqt. rewrite Hfile. by rewrite lookup_insert_ne. }
  intros r w1 [T1 Hr]. rewrite Hfile in T1. pose proof (quiet_framed _ _ Hq (touched_framed _ _ _ T1)) as Q1.
  destruct r as [f|e|]; [|by apply Hfail|done]. rewrite Hh in Hr. destruct Hr as (last & -> & Hfit & Hg & Himg).
  destruct (reserved_image s blocks last ock w Hip Hock Hfit Hg) as [Hok Hlen].
  destruct Himg as [m Hm]; [lia|]. rewrite Hfile in Hm.
  apply wp_bind, wp_map_err, wp_fs_metadata.
  2: { intros e w2 Hw2 _. split; [|done]. rewrite (proj1 Hw2). by apply quiet_step. }
  intros n w2 _ Hw2. rewrite <- (proj1 Hw2) in Hm. rewrite <- (proj1 Hw2) in Q1. clear T1 Hw2 w1.
  assert (step (<[p := File (shard_image h blocks last size ock) m]> (delete temp (w_tree w2)))) as Hstep.
  { split.
    - intros q Hqt Hqp. rewrite lookup_insert_ne, lookup_delete_ne by done. by apply Q1.
    - right. do 4 eexists. split; [by rewrite lookup_insert_eq|]. by exists last. }
  apply wp_bind, wp_attempt. eapply wp_fs_rename; [exact Hm|done| |].
  - intros w3 (T3 & _). apply wp_bind, wp_fsync_directory. intros r w4 Hr (T4 & _).
    assert (step (w_tree w4)) as S4 by (by rewrite T4, T3).
    destruct r as [[]|e|]; [|done|done]. apply wp_ret. split; [done|].
    do 2 eexists. rewrite T4, T3, lookup_insert_eq. split; [done|]. by exists last.
  - intros e w3 Hw3. apply Hfail. by rewrite (proj1 Hw3).
Qed.
End shards.

(** ** Deleting a version *)

(** Files were only removed, and only those that satisfy [P]. *)
Definition pruned (P : path → Prop) (t0 t : tree) : Prop :=
  ∀ q, t !! q = t0 !! q ∨ (P q ∧ t !! q = None).

Lemma pruned_refl P t : pruned P t t.
Proof. by left. Qed.

Lemma pruned_delete P t0 t q : pruned P t0 t → P q → pruned P t0 (delete q t).
Proof.
  intros Ht Hq q'. destruct (decide (q' = q)) as [->|Hne].
  - right. by rewrite lookup_delete_eq.
  - rewrite lookup_delete_ne by done. apply Ht.
Qed.

Lemma pruned_None P t0 t q : pruned P t0 t → t0 !! q = None → t !! q = None.
Proof. intros Ht Hq. by destruct (Ht q) as [->|[_ ?]]. Qed.

Lemma wp_remove_if_present (Inv : tree → Prop) (p : path) (w : World)
    (Post : res DeviceError unit → World → Prop) :
  (is_file_node (w_tree w !! p) = true → Inv (delete p (w_tree w))) →
  (∀ w', w_tree w' = w_tree w ∨ w_tree w' = delete p (w_tree w) → w_tree w' !! p = None → Post (Ok tt) w') →
  (∀ e w', w_tree w' = w_tree w → Post (Err e) w') →
  wp Inv (remove_if_present p) w Post.
Proof.
  intros HI Hok Herr. unfold remove_if_present. apply wp_bind, wp_attempt, wp_fs_remove_file; [done| |].
  - intros w' _ (Ht & _). apply wp_ret, Hok; [by right|]. by rewrite Ht, lookup_delete_eq.
  - intros e w' (Ht & _) Hnf. destruct e; first [by apply wp_lift, Herr|apply wp_ret, Hok; [by left|]].
    rewrite Ht. by apply Hnf.
Qed.

Section delete.
Context (d : Device) (key_hash : KeyHash) (version : VersionId) (t0 : tree).

Abbreviation dir := (device_object_directory d key_hash).
Abbreviation rec := (join dir (record_file_name version)).

Definition version_shard (name : str) : bool :=
  starts_with (to_text version ++ lit ".") name && ends_with SHARD_SUFFIX name.

(** The files of the version on this device. *)
Definition version_file (q : path) : Prop :=
  q = rec ∨ ∃ name, q = join dir name ∧ version_shard name = true.

(** A step of the deletion: only the version's files and its directory are
    removed, and while the record is there nothing is. *)
Definition delete_step (t : tree) : Prop :=
  pruned (λ q, version_file q ∨ q = dir) t0 t ∧ (is_Some (t !! rec) → t = t0).

Lemma record_not_version_shard : version_shard (record_file_name version) = false.
Proof.
  unfold version_shard. apply andb_false_iff. right. apply not_true_iff_false.
  intros [a Ha]%ends_with_true. by apply (suffix_disjoint (to_text version) a).
Qed.

(** The loop over the listed names. *)
Lemma wp_delete_shards names (w : World) (Post : res DeviceError unit → World → Prop) :
  pruned (λ q, version_file q ∨ q = dir) t0 (w_tree w) → w_tree w !! rec = None →
  (∀ w', pruned (λ q, version_file q ∨ q = dir) t0 (w_tree w') → w_tree w' !! rec = None →
     (∀ q, w_tree w !! q = None → w_tree w' !! q = None) →
     (∀ name, name ∈ names → version_shard name = true → w_tree w' !! join dir name = None) →
     (w_tree w' !! dir = w_tree w !! dir) → Post (Ok tt) w') →
  (∀ e w', delete_step (w_tree w') → Post (Err e) w') →
  wp delete_step (io_fold (λ _ name,
    if version_shard name then remove_if_present (join dir name) else mret tt) names tt) w Post.
Proof.
  revert w. induction names as [|name names IH]; intros w Hpr Hrec Hok Herr; cbn [io_fold].
  { apply wp_ret, Hok; try done. by intros name ?%not_elem_of_nil. }
  assert (∀ n, join dir n ≠ dir) as Hjd.
  { intros n Heq. apply (f_equal length) in Heq. unfold join in Heq. rewrite length_app in Heq. cbn in Heq. lia. }
  apply wp_bind. destruct (version_shard name) eqn:Hv.
  2: { apply wp_ret. apply IH; [done|done| |done]. intros w' H1 H2 H3 H4 H5. apply Hok; try done.
       intros n [->|Hn]%elem_of_cons Hvn; [congruence|auto]. }
  assert (pruned (λ q, version_file q ∨ q = dir) t0 (delete (join dir name) (w_tree w))) as Hpr'
    by (apply pruned_delete; [done|]; left; right; by exists name).
  apply wp_remove_if_present.
  - intros _. split; [done|]. intros [n Hn]. exfalso.
    destruct (decide (rec = join dir name)) as [Heq|Hne].
    + rewrite Heq, lookup_delete_eq in Hn. done.
    + rewrite lookup_delete_ne in Hn by done. congruence.
  - intros w' Hw' Hgone.
    assert (pruned (λ q, version_file q ∨ q = dir) t0 (w_tree w')) as Q by (by destruct Hw' as [->| ->]).
    assert (w_tree w' !! rec = None) as R.
    { destruct Hw' as [->| ->]; [done|]. by apply lookup_delete_None; right. }
    assert (∀ q, w_tree w !! q = None → w_tree w' !! q = None) as M.
    { intros q Hq. destruct Hw' as [->| ->]; [done|]. by apply lookup_delete_None; right. }
    assert (w_tree w' !! dir = w_tree w !! dir) as D.
    { destruct Hw' as [->| ->]; [done|]. by rewrite lookup_delete_ne. }
    apply IH; [done|done| |done]. intros w'' H1 H2 H3 H4 H5. apply Hok; try done.
    + intros q Hq. by apply H3, M.
    + intros n [->|Hn]%elem_of_cons Hvn; [by apply H3|by apply H4].
    + congruence.
  - intros e w' Hw'. apply Herr. rewrite Hw'. split; [done|]. intros [n Hn]. congruence.
Qed.
End delete.

(** Directories contain what is under them. *)
Definition tree_ok (t : tree) : Prop := ∀ q n, is_Some (t !! join q n) → t !! q = Some Dir.

(** The next system call will not fail. *)
Definition calm (w : World) : Prop := match w_faults w with Some _ :: _ => False | _ => True end.

Lemma wp_fs_exists_calm {E : Type} (Inv : tree → Prop) (p : path) (w : World)
    (Post : res E bool → World → Prop) :
  (∀ b w', unmoved w w' → (b = true → is_Some (w_tree w !! p)) →
     (calm w → b = bool_decide (is_Some (w_tree w !! p))) → Post (Ok b) w') →
  wp Inv (fs_exists p) w Post.
Proof.
  intros HP. destruct (w_faults w) as [|[f|] fs] eqn:Hf.
  2: { unfold fs_exists. apply wp_fs_test. intros b w' Hw Hb. apply HP; [done| |].
       - intros ->. specialize (Hb eq_refl). by destruct (w_tree w !! p); [eexists|].
       - unfold calm. by rewrite Hf. }
  all: unfold wp, fs_exists, fs_test, attempt, fs_metadata, may_fail, next_fault, get, mbind, io_bind, mret, io_ret;
    rewrite Hf; cbn [w_tree]; destruct (w_tree w !! p) as [n|] eqn:Hp;
    (split; [apply HP; [by split_and!|rewrite ?Hp|rewrite ?Hp]|by exists []]);
    rewrite ?bool_decide_eq_true_2, ?bool_decide_eq_false_2 by (by eauto || by intros [? ?]); done || by eauto.
Qed.

Lemma wp_delete_version (d : Device) (key_hash : KeyHash) (version : VersionId) (w : World) :
  let step := delete_step d key_hash version (w_tree w) in
  wp step (delete_version d key_hash version) w (λ r w', step (w_tree w') ∧ r ≠ Panic
    ∧ (r = Ok tt → calm w → tree_ok (w_tree w) →
       ∀ q, version_file d key_hash version q → w_tree w' !! q = None)).
Proof.
  intros step. set (dir := device_object_directory d key_hash).
  set (rec := join dir (record_file_name version)).
  assert (step (w_tree w)) as Hstart by (split; [apply pruned_refl|done]).
  assert (∀ q, version_file d key_hash version q → ∃ n, q = join dir n) as Hin.
  { intros q [->|(n & -> & _)]; by eexists. }
  unfold delete_version. fold dir. fold rec. apply wp_bind, wp_fs_exists_calm.
  intros b w1 (T1 & _) _ Hcalm. destruct b; cbn [negb].
  2: { apply wp_ret. rewrite T1. split_and!; [done|done|]. intros _ Hc Hok q (n & ->)%Hin.
       specialize (Hcalm Hc). symmetry in Hcalm. apply bool_decide_eq_false in Hcalm.
       destruct (w_tree w !! join dir n) eqn:Hq; [|done]. destruct Hcalm.
       rewrite (Hok dir n) by eauto. by eauto. }
  apply wp_bind, wp_remove_if_present.
  { intros _. rewrite T1. split; [apply pruned_delete; [apply pruned_refl|by left; left]|].
    fold dir. fold rec. rewrite lookup_delete_eq. by intros [? ?]. }
  2: { intros e w2 T2. rewrite T2, T1. by split_and!. }
  intros w2 T2 R2. rewrite T1 in T2.
  assert (pruned (λ q, version_file d key_hash version q ∨ q = dir) (w_tree w) (w_tree w2)) as P2.
  { destruct T2 as [->| ->]; [apply pruned_refl|apply pruned_delete; [apply pruned_refl|by left; left]]. }
  assert (∀ w', w_tree w' = w_tree w2 → step (w_tree w')) as Hstep2.
  { intros w' ->. split; [done|]. fold dir. fold rec. rewrite R2. by intros [? ?]. }
  apply wp_bind, wp_map_err, wp_fs_read_dir.
  2: { intros e w3 (T3 & _) _. by split_and!; [apply Hstep2| |]. }
  intros w3 _ (T3 & _). apply wp_bind. apply (wp_delete_shards d key_hash version (w_tree w)).
  { by rewrite T3. } { by rewrite T3. }
  2: { intros e w4 S4. by split_and!. }
  intros w4 P4 R4 M4 N4 D4. fold dir in N4, D4. fold dir in R4. fold rec in R4. rewrite T3 in *.
  assert (∀ w', w_tree w' = w_tree w4 → step (w_tree w')) as Hstep4.
  { intros w' ->. split; [done|]. fold dir. fold rec. rewrite R4. by intros [? ?]. }
  assert (∀ q, version_file d key_hash version q → w_tree w4 !! q = None) as Hgone.
  { intros q [->|(n & -> & Hv)]; [done|]. fold dir. destruct (w_tree w2 !! join dir n) as [x|] eqn:Hx; [|by apply M4].
    apply N4; [|done]. apply elem_of_children. by eauto. }
  apply wp_bind, wp_fsync_directory. intros r w5 Hr (T5 & _).
  destruct r as [[]|e|]; [|by split_and!; [apply Hstep4| |]|done].
  assert (step (delete dir (w_tree w5))) as Hdel.
  { rewrite T5. split; [apply pruned_delete; [done|by right]|]. fold dir. fold rec.
    rewrite (proj2 (lookup_delete_None _ _ _)) by (by right). by intros [? ?]. }
  apply wp_bind, wp_attempt, wp_fs_remove_dir; [done| |].
  - intros w6 _ _ (T6 & _). apply wp_ret. rewrite T6. split_and!; [done|done|].
    intros _ _ _ q Hq. apply lookup_delete_None. right. rewrite T5. by apply Hgone.
  - intros e w6 (T6 & _) _. assert (w_tree w6 = w_tree w4) as T64 by congruence.
    destruct e; first [by apply wp_lift; split_and!; [apply Hstep4| |]
      |apply wp_ret; split_and!; [by apply Hstep4|done|intros _ _ _ q Hq; rewrite T64; by apply Hgone]].
Qed.
