(* ===== verification/DeviceSpec.v ===== *)
(** What the device layer promises, as theorems about whole runs of its
    operations under every list of faults.

    A run from the world [w] is [op w = (result, w')]; the trees it went
    through are what [w_trace w'] has more than [w_trace w], and a crash leaves
    one of them.  [run_spec] is that reading of [wp]. *)

From S2P Require Import Prelude Text Checksum KeyHash VersionId Erasure Layout Stripe FileSystem ShardFile Record Device.

(** The trees of a run, the last one first. *)
Definition run_trees {A : Type} (run : A * World) (w : World) (P : tree → Prop) (Q : A → World → Prop) : Prop :=
  let '(r, w') := run in
  Q r w' ∧ ∃ new, w_trace w' = new ++ w_trace w ∧ Forall P (w_tree w' :: new).

Lemma wp_run {E A : Type} (P : tree → Prop) (m : io E A) (w : World) (Q : res E A → World → Prop)
    (Q' : res E A → World → Prop) :
  wp P m w Q' → (∀ r w', Q' r w' → P (w_tree w') ∧ Q r w') → run_trees (m w) w P Q.
Proof.
  unfold wp, run_trees. destruct (m w) as [r w']. intros [HQ' (new & Hn & Hf)] Hcont.
  destruct (Hcont _ _ HQ') as [HP HQ]. split; [done|]. exists new. split; [done|]. by constructor.
Qed.

(** ** Runs without faults *)

Lemma io_lift_ok {E A B : Type} (a : A) (f : A → io E B) (w : World) : (lift (Ok a) ≫= f) w = f a w.
Proof. done. Qed.

Lemma io_run_ok {E A B : Type} (m : io E A) (f : A → io E B) (w w' : World) (a : A) :
  m w = (Ok a, w') → (m ≫= f) w = f a w'.
Proof. intros Hm. unfold mbind, io_bind. by rewrite Hm. Qed.

Lemma may_fail_run (w : World) : no_faults w → may_fail w = (Ok tt, w).
Proof. intros Hw. unfold may_fail, next_fault, mbind, io_bind. by rewrite Hw. Qed.

Lemma fs_metadata_run (p : path) (n : node) (w : World) :
  no_faults w → w_tree w !! p = Some n → fs_metadata p w = (Ok n, w).
Proof.
  intros Hw Hp. unfold fs_metadata. rewrite (io_run_ok _ _ _ _ _ (may_fail_run w Hw)).
  unfold get, mbind, io_bind. by rewrite Hp.
Qed.

Lemma fs_exists_run {E : Type} (p : path) (w : World) :
  no_faults w → fs_exists (E := E) p w = (Ok (bool_decide (is_Some (w_tree w !! p))), w).
Proof.
  intros Hw. unfold fs_exists, fs_test, attempt, mbind, io_bind. destruct (w_tree w !! p) as [n|] eqn:Hp.
  - by rewrite (fs_metadata_run p n).
  - unfold fs_metadata. rewrite (io_run_ok _ _ _ _ _ (may_fail_run w Hw)).
    unfold get, mbind, io_bind. by rewrite Hp.
Qed.

Lemma fs_create_dir_present (p : path) (w : World) :
  no_faults w → is_Some (w_tree w !! p) → fs_create_dir p w = (Err AlreadyExists, w).
Proof.
  intros Hw [n Hp]. unfold fs_create_dir. rewrite (io_run_ok _ _ _ _ _ (may_fail_run w Hw)).
  unfold get, mbind, io_bind. by rewrite Hp.
Qed.

Lemma children_missing (t : tree) (p : path) : tree_ok t → t !! p = None → children t p = [].
Proof.
  intros Ht Hp. apply elem_of_nil_inv. intros n Hn%elem_of_children. apply Ht in Hn. congruence.
Qed.

Lemma create_key_directory_present (d : Device) (key_hash : KeyHash) (w : World) :
  no_faults w → tree_ok (w_tree w) → is_Some (w_tree w !! device_object_directory d key_hash) →
  create_key_directory d key_hash w = (Ok (device_object_directory d key_hash), w).
Proof.
  intros Hw Htree. unfold create_key_directory, device_object_directory, object_directory, bucket_path.
  destruct (directory_components key_hash) as [[first second] full]. intros H3.
  pose proof (Htree _ _ H3) as H2. pose proof (Htree _ _ (mk_is_Some _ _ H2)) as H1. cbn [io_fold].
  unfold attempt, mbind, io_bind. cbv zeta.
  rewrite (fs_create_dir_present _ w Hw (mk_is_Some _ _ H1)). cbn [mret io_ret].
  rewrite (fs_create_dir_present _ w Hw (mk_is_Some _ _ H2)). cbn [mret io_ret].
  by rewrite (fs_create_dir_present _ w Hw H3).
Qed.

Section properties.
Context `{Sha256} `{Xxh3} `{SerdeJson} `{Uuid} `{Rfc3339}.

Lemma read_record_run (d : Device) (key_hash : KeyHash) (version : VersionId) (r : MetadataRecord) (w : World) :
  no_faults w → stored_record (w_tree w) d key_hash version r →
  read_record d key_hash version w = (Ok r, w).
Proof.
  intros Hw (c & m & s & Hp & Hs & Hj & Hk). unfold read_record. fold (record_path d key_hash version).
  unfold at_path, io_map_err, read_to_string, fs_read, mbind, io_bind.
  rewrite may_fail_run by done. unfold get. rewrite Hp. unfold lift. cbn. rewrite Hs. cbn.
  rewrite Hj. cbn. by rewrite bool_decide_eq_true_2.
Qed.

(** Every path but [p] and [temp] is as in [t0], up to key directories made
    on the way. *)
Definition others_kept (d : Device) (temp p : path) (t0 t : tree) : Prop :=
  ∀ q, q ≠ temp → q ≠ p → t !! q = t0 !! q
    ∨ ((length q ≤ key_depth d)%nat ∧ t0 !! q = None ∧ t !! q = Some Dir).

(** An old temporary file: by its name neither a record nor a shard. *)
Definition old_temporary (cutoff : Z) (t : tree) (q : path) : Prop :=
  parse_record_file_name (name_of q) = None ∧ parse_shard_file_name (name_of q) = None
  ∧ ∃ n, t !! q = Some n ∧ modified n < cutoff.

(** What holds while the sweep runs: only old temporaries have gone, those
    listed among them. *)
Definition sweeping (cutoff : Z) (t0 : tree) (removed : list path) (w : World) : Prop :=
  pruned (old_temporary cutoff t0) t0 (w_tree w) ∧ Forall (λ q, w_tree w !! q = None) removed.

Lemma sweeping_unmoved cutoff t0 removed (w w' : World) :
  w_tree w' = w_tree w → sweeping cutoff t0 removed w → sweeping cutoff t0 removed w'.
Proof. unfold sweeping. by intros ->. Qed.

(** One loop of the sweep, over the entries of a directory. *)
Lemma wp_sweep_loop (Inv : tree → Prop) cutoff t0 (dir : path)
    (body : list path → path → io DeviceError (list path)) (removed : list path) (w : World)
    (Post : res DeviceError (list path) → World → Prop) :
  (∀ e w, pruned (old_temporary cutoff t0) t0 (w_tree w) → Post (Err e) w) →
  (∀ removed w, sweeping cutoff t0 removed w → Post (Ok removed) w) →
  (∀ removed entry w Q, sweeping cutoff t0 removed w →
     (∀ e w, pruned (old_temporary cutoff t0) t0 (w_tree w) → Q (Err e) w) →
     (∀ removed w, sweeping cutoff t0 removed w → Q (Ok removed) w) →
     wp Inv (body removed entry) w Q) →
  sweeping cutoff t0 removed w →
  wp Inv (entries ← read_dir_sorted dir; io_fold body entries removed) w Post.
Proof.
  intros Herr Hok Hbody Hs. unfold read_dir_sorted. apply wp_bind, wp_bind, wp_attempt, wp_fs_read_dir.
  - intros w1 _ (T1 & _). apply wp_ret. apply (wp_fold Inv _ (sweeping cutoff t0)).
    + by eapply sweeping_unmoved.
    + intros r x w2 _ H2'. by apply Hbody.
    + done.
  - intros e w1 (T1 & _) _. apply (sweeping_unmoved _ _ _ _ _ T1) in Hs.
    destruct e; first [apply wp_lift, Herr, Hs|apply wp_ret; cbn [io_fold]; apply wp_ret; by apply Hok].
Qed.

Lemma wp_cleanup_entry cutoff t0 (removed : list path) (entry : path) (w : World)
    (Post : res DeviceError (list path) → World → Prop) :
  (∀ e w, pruned (old_temporary cutoff t0) t0 (w_tree w) → Post (Err e) w) →
  (∀ removed w, sweeping cutoff t0 removed w → Post (Ok removed) w) →
  sweeping cutoff t0 removed w →
  wp (pruned (old_temporary cutoff t0) t0) (cleanup_entry cutoff removed entry) w Post.
Proof.
  intros Herr Hok [Hpr Hrem]. unfold cleanup_entry.
  destruct (ends_with TEMPORARY_SUFFIX (name_of entry)) eqn:Hsuf; cbn [negb]; [|by apply wp_ret, Hok].
  apply temporary_not_parsed in Hsuf as [Hr Hs].
  apply wp_bind, wp_map_err, wp_fs_metadata.
  2: { intros e w1 (T1 & _) _. apply Herr. by rewrite T1. }
  intros n w1 Hn (T1 & _). rewrite <- T1 in Hpr, Hrem, Hn. clear w T1. cbn [map_err].
  destruct (Z.ltb_spec (modified n) cutoff) as [Hold|]; [|by apply wp_ret, Hok].
  assert (pruned (old_temporary cutoff t0) t0 (delete entry (w_tree w1))) as Hdel.
  { apply pruned_delete; [done|]. split_and!; [done|done|]. exists n. split; [|done].
    destruct (Hpr entry) as [<-|[_ ?]]; congruence. }
  apply wp_bind, wp_remove_if_present; [done| |].
  - intros w2 Hw2 Hgone. apply wp_ret, Hok. split; [by destruct Hw2 as [->| ->]|].
    apply Forall_app. split; [|by repeat constructor]. eapply Forall_impl; [exact Hrem|].
    intros q Hq. destruct Hw2 as [->| ->]; [done|]. by apply lookup_delete_None; right.
  - intros e w2 T2. apply Herr. by rewrite T2.
Qed.

(** The loop of [read_records]. *)
Lemma wp_read_versions (d : Device) (key_hash : KeyHash) (versions : list VersionId) (t : tree)
    (acc : list MetadataRecord) (w : World) :
  w_tree w = t →
  wp (λ _, True) (io_fold (λ records version,
      record ← read_record d key_hash version; mret (records ++ [record])) versions acc) w
    (λ r w', w_tree w' = t ∧ ∀ records, r = Ok records →
       ∃ rest, records = acc ++ rest ∧ Forall2 (stored_record t d key_hash) versions rest).
Proof.
  revert acc w. induction versions as [|v versions IH]; intros acc w Hw; cbn [io_fold].
  { apply wp_ret. split; [done|]. intros ? [= <-]. exists []. by rewrite app_nil_r. }
  apply wp_bind, wp_bind, wp_read_record.
  - intros r w1 Hr (T1 & _). apply wp_ret. rewrite Hw in *.
    eapply wp_mono; [by apply IH|]. cbn beta. intros res w2 [T2 H2']. split; [done|].
    intros records Hres. destruct (H2' _ Hres) as (rest & -> & Hrest).
    exists (r :: rest). rewrite <- app_assoc. split; [done|]. by constructor.
  - intros e w1 (T1 & _). split; [congruence|done].
  - intros w1 (T1 & _). split; [congruence|done].
Qed.

(** The record file is the old one or the whole new record, throughout. *)
Definition record_kept_or_stored (d : Device) (r : MetadataRecord) (w : World) (t : tree) : Prop :=
  let p := record_path d (r_key_hash r) (r_version r) in
  (t !! p = w_tree w !! p ∨ stored_record t d (r_key_hash r) (r_version r) r)
  ∧ others_kept d (temp_of w p) p (w_tree w) t.

Lemma wp_write_record_stored (d : Device) (r : MetadataRecord) (text : str) (w : World) :
  serde_json_correct → uuid_correct → rfc3339_correct →
  serializable r → validate r = Ok tt → to_json r = Ok text → forallb is_scalar text = true →
  wp (record_kept_or_stored d r w) (write_record d r) w (λ res w', record_kept_or_stored d r w (w_tree w')
    ∧ (res = Ok tt → stored_record (w_tree w') d (r_key_hash r) (r_version r) r)).
Proof.
  intros Hj Hu Ht Hs Hv Htext Hsc. set (p := record_path d (r_key_hash r) (r_version r)).
  assert (∀ t m, t !! p = Some (File (as_bytes text) m) →
    stored_record t d (r_key_hash r) (r_version r) r) as Hstored.
  { intros t m Hp. exists (as_bytes text), m, text. split_and!; [done|by apply from_utf8_as_bytes| |done].
    destruct (from_to_json Hj Hu Ht r Hs) as (text' & Ht' & Hf); [by apply validate_sound; [apply Hs|]|].
    congruence. }
  pose proof (wp_write_record d r text w Htext) as Hwp. cbv zeta in Hwp. fold p in Hwp.
  assert (∀ t, record_step d (w_tree w) (temp_of w p) p (as_bytes text) t → record_kept_or_stored d r w t) as Hstep.
  { intros t [Ho [Hp|[m Hp]]]; (split; [|done]); [by left|right; by eapply Hstored]. }
  eapply wp_mono; [eapply wp_weaken; [exact Hstep|exact Hwp]|].
  cbn beta. intros res w' [Hst Hok]. split; [by apply Hstep|]. intros Hr.
  destruct (Hok Hr) as [[m Hp]|[(c & m & s & Hc & ?) Hsame]]; [by eapply Hstored|].
  exists c, m, s. split; [|done]. fold p. fold p in Hc. congruence.
Qed.

(** C14. Storing a record is atomic under every pattern of failed system
    calls, torn writes included: in each tree the file system goes through,
    the record file is what it was before or holds the whole new record,
    readable and passing its checksum; nothing but the temporary file and
    missing key directories changes elsewhere; and when the call succeeds
    the new record is the one stored. *)
Theorem write_record_atomic (d : Device) (r : MetadataRecord) (text : str) (w : World) :
  serde_json_correct → uuid_correct → rfc3339_correct →
  serializable r → validate r = Ok tt → to_json r = Ok text → forallb is_scalar text = true →
  let p := record_path d (r_key_hash r) (r_version r) in
  run_trees (write_record d r w) w
    (λ t, (t !! p = w_tree w !! p ∨ stored_record t d (r_key_hash r) (r_version r) r)
          ∧ others_kept d (temp_of w p) p (w_tree w) t)
    (λ res w', res = Ok tt → stored_record (w_tree w') d (r_key_hash r) (r_version r) r).
Proof. intros. eapply wp_run; [by eapply wp_write_record_stored|done]. Qed.

(** The guard of [write_record], when no call fails and the version's
    record is already on the device: writing the same record again succeeds
    and touches nothing; a record that is not a higher revision of the same
    body is refused with [RecordExists] and touches nothing; only a higher
    revision of the same body goes on to replace the file. *)
Theorem write_record_guard (d : Device) (r old : MetadataRecord) (w : World) :
  no_faults w → tree_ok (w_tree w) → validate r = Ok tt →
  stored_record (w_tree w) d (r_key_hash r) (r_version r) old →
  let p := record_path d (r_key_hash r) (r_version r) in
  write_record d r w =
    if decide (old = r) then (Ok tt, w)
    else if same_body old r && (r_revision old <? r_revision r)
    then (text ← lift (map_err (DevRecord (device_object_directory d (r_key_hash r))) (to_json r));
          write_file_atomically p (as_bytes text)) w
    else (Err (RecordExists (r_key_hash r) (r_version r)), w).
Proof.
  intros Hnf Htree Hv Hst p. pose proof Hst as (c & m & s & Hp & Hs & Hj & Hk).
  unfold write_record. rewrite Hv. cbn [map_err]. rewrite io_lift_ok.
  assert (w_tree w !! device_object_directory d (r_key_hash r) = Some Dir) as Hdir
    by (apply (Htree _ (record_file_name (r_version r))); by eexists).
  rewrite (io_run_ok _ _ _ _ _ (create_key_directory_present d (r_key_hash r) w Hnf Htree (mk_is_Some _ _ Hdir))).
  fold (record_path d (r_key_hash r) (r_version r)). fold p. fold p in Hp.
  rewrite (io_run_ok _ _ _ _ _ (fs_exists_run p w Hnf)).
  rewrite bool_decide_eq_true_2 by (by rewrite Hp).
  rewrite (io_run_ok _ _ _ _ _ (read_record_run d (r_key_hash r) (r_version r) old w Hnf Hst)).
  case_decide; [done|]. rewrite Z.gtb_ltb.
  destruct (same_body old r && _); cbn [ensure]; [by rewrite io_lift_ok|done].
Qed.


(** [path.exists()] answers [false] when the look itself fails, and
    [delete_version] takes that for an absent key: a failing first system
    call makes the deletion report success with every file still in place. *)
Theorem delete_version_stat_fault (d : Device) (key_hash : KeyHash) (version : VersionId) (w : World)
    (f : fault) (fs : list (option fault)) :
  w_faults w = Some f :: fs →
  ∃ w', delete_version d key_hash version w = (Ok tt, w') ∧ w_tree w' = w_tree w.
Proof.
  intros Hf. unfold delete_version, fs_exists, fs_test, attempt, fs_metadata, may_fail, next_fault,
    mbind, io_bind. rewrite Hf. by eexists.
Qed.

(** [remove_temporary_shard] never removes the temporary file of a write
    that is under way: the name it looks for contains the next value of the
    process's counter, and every name handed out carries an earlier one. *)
Theorem remove_temporary_shard_misses (d : Device) (key_hash : KeyHash) (version : VersionId)
    (index : ShardIndex) (n : Z) (w : World) :
  is_u64 (w_counter w) → is_u64 n → n ≠ w_counter w →
  let final := join (device_object_directory d key_hash) (shard_file_name version index) in
  let temp := with_file_name final (temporary_name (name_of final) (w_pid w) n) in
  w_tree (remove_temporary_shard d key_hash version index w).2 !! temp = w_tree w !! temp.
Proof.
  intros Hc Hn Hne final temp.
  enough (wp (λ _, True) (remove_temporary_shard d key_hash version index) w
    (λ _ w', w_tree w' !! temp = w_tree w !! temp)) as Hwp.
  { unfold wp in Hwp. destruct (remove_temporary_shard d key_hash version index w). apply Hwp. }
  assert (temp_of w final ≠ temp) as Hdiff.
  { unfold temp_of, temp, with_file_name, join. intros [_ Heq]%app_inj_tail.
    by apply temporary_name_inj in Heq; [|done..]. }
  unfold remove_temporary_shard. fold final. apply wp_bind, wp_temporary_path.
  { unfold final, join. by destruct (device_object_directory d key_hash). }
  intros w1 T1 _ _ _ _. apply wp_remove_if_present; [done| |].
  - intros w2 [->| ->] _; rewrite T1; [done|]. by rewrite lookup_delete_ne.
  - intros e w2 ->. by rewrite T1.
Qed.

(** The start-up sweep only ever removes entries named [*.tmp], none of
    which the layout reads as a record or a shard, that were last modified
    before the cutoff; whatever call fails, every other path is untouched in
    every tree of the run, and the paths a successful sweep reports are gone. *)
Theorem cleanup_only_temporaries (d : Device) (older_than : Z) (w : World) :
  let cutoff := w_clock w - older_than in
  run_trees (cleanup_temporaries d older_than w) w
    (λ t, ∀ q, t !! q = w_tree w !! q ∨ (old_temporary cutoff (w_tree w) q ∧ t !! q = None))
    (λ r w', r ≠ Panic ∧ (∀ removed, r = Ok removed → Forall (λ q, w_tree w' !! q = None) removed)).
Proof.
  intros cutoff. set (P := pruned (old_temporary cutoff (w_tree w)) (w_tree w)).
  eapply (wp_run P _ _ _ (λ r w', P (w_tree w') ∧ r ≠ Panic
    ∧ (∀ removed, r = Ok removed → Forall (λ q, w_tree w' !! q = None) removed))); [|done].
  unfold cleanup_temporaries. apply wp_bind, wp_get. fold cutoff.
  assert (sweeping cutoff (w_tree w) [] w) as H0' by (split; [apply pruned_refl|constructor]).
  apply (wp_sweep_loop _ cutoff (w_tree w));
    [intros e w' ?; by split_and!|intros r w' [? ?]; split_and!; [done|done|by intros ? [= <-]]| |done].
  intros r1 first w1 Q1 S1 E1 O1. apply (wp_sweep_loop _ cutoff (w_tree w)); [done|done| |done].
  intros r2 second w2 Q2 S2 E2 O2. apply (wp_sweep_loop _ cutoff (w_tree w)); [done|done| |done].
  intros r3 key_dir w3 Q3 S3 E3 O3. apply (wp_sweep_loop _ cutoff (w_tree w)); [done|done| |done].
  intros r4 entry w4 Q4 S4 E4 O4. by apply wp_cleanup_entry.
Qed.

(** [read_records] returns one record per record file of the key, in
    the order of their version ids, each the verified content of its file;
    it changes nothing. *)
Theorem read_records_sorted (d : Device) (key_hash : KeyHash) (records : list MetadataRecord) (w w' : World) :
  tree_ok (w_tree w) → read_records d key_hash w = (Ok records, w') →
  w_tree w' = w_tree w ∧ ∃ versions, StronglySorted lex_le versions
    ∧ versions ≡ₚ omap parse_record_file_name (children (w_tree w) (device_object_directory d key_hash))
    ∧ Forall2 (stored_record (w_tree w) d key_hash) versions records.
Proof.
  intros Htree Hrun. enough (wp (λ _, True) (read_records d key_hash) w (λ r w', w_tree w' = w_tree w ∧
    ∀ records, r = Ok records → ∃ versions, StronglySorted lex_le versions
      ∧ versions ≡ₚ omap parse_record_file_name (children (w_tree w) (device_object_directory d key_hash))
      ∧ Forall2 (stored_record (w_tree w) d key_hash) versions records)) as Hwp.
  { unfold wp in Hwp. rewrite Hrun in Hwp. destruct Hwp as [[HT Hv] _]. split; [done|]. by apply Hv. }
  clear Hrun records w'. unfold read_records. apply wp_bind, wp_attempt, wp_fs_read_dir.
  - intros w1 _ (T1 & _). eapply wp_mono; [apply wp_read_versions; exact T1|]. cbn beta.
    intros r w2 [T2 Hr]. split; [done|]. intros records ->.
    destruct (Hr _ eq_refl) as (rest & -> & Hrest). eexists. split_and!; [..|exact Hrest].
    + apply (StronglySorted_merge_sort _).
    + apply merge_sort_Permutation.
  - intros e w1 (T1 & _) Hnf. destruct e; try (by apply wp_lift).
    apply wp_bind. unfold bucket_directory. apply wp_bind, wp_attempt, wp_fs_metadata.
    + intros n w2 _ (T2 & _). apply wp_ret, wp_ret. split; [congruence|]. intros ? [= <-].
      exists []. split_and!; [constructor| |constructor].
      rewrite children_missing; [done|done|by apply Hnf].
    + intros e w2 (T2 & _) _. destruct e; apply wp_lift; (split; [congruence|done]).
Qed.
End properties.

(** ** Witnesses *)

Definition tree_okb (t : tree) : bool :=
  forallb (λ kv, match kv.1 with [] => true | q => bool_decide (t !! parent q = Some Dir) end) (map_to_list t).

Lemma tree_okb_true (t : tree) : tree_okb t = true → tree_ok t.
Proof.
  unfold tree_okb. rewrite forallb_forall. intros Hall q n [v Hv].
  apply elem_of_map_to_list in Hv. apply list_elem_of_In in Hv. specialize (Hall _ Hv). cbn [fst] in Hall.
  destruct (join q n) as [|x l] eqn:Hj; [unfold join in Hj; by destruct q|]. rewrite <- Hj in Hall.
  apply bool_decide_eq_true in Hall. unfold parent, join in Hall. by rewrite removelast_last in Hall.
Qed.

Section witnesses.
#[local] Existing Instance poly_xxh3.
#[local] Existing Instance poly_sha256.
#[local] Existing Instance packed_json.
#[local] Existing Instance decimal_uuid.
#[local] Existing Instance decimal_time.

Definition blank_world : World :=
  mkWorld (<[[lit "d"] := Dir]> (<[[] := Dir]> ∅)) ∅ 100 7 0 [] [].

Definition device5 : Device :=
  mkDevice [lit "d"] (mkIdentity SYSTEM_NAME NOTICE DEVICE_FORMAT_VERSION 101 9 0).

(** A device whose key directory holds revision 3 of the record. *)
Definition world5 : World :=
  ((_ ← at_path [] (fs_create_dir_all 1 (device_object_directory device5 (r_key_hash (record5 3))));
    write_record device5 (record5 3)) blank_world).2.

Lemma world5_ok : tree_ok (w_tree world5).
Proof. apply tree_okb_true. by vm_compute. Defined.

Lemma world5_stored :
  stored_record (w_tree world5) device5 (r_key_hash (record5 3)) (r_version (record5 3)) (record5 3).
Proof. exists (as_bytes (text5 3)), 100, (text5 3). split_and!; by vm_compute. Defined.

Lemma write_record_atomic_witness :
  stored_record (w_tree (write_record device5 (record5 4) world5).2) device5
    (r_key_hash (record5 4)) (r_version (record5 4)) (record5 4).
Proof.
  pose proof (write_record_atomic device5 (record5 4) (text5 4) world5) as Hat.
  assert ((write_record device5 (record5 4) world5).1 = Ok tt) as Hok by by vm_compute.
  unfold run_trees in Hat. destruct (write_record device5 (record5 4) world5) as [res w'].
  apply Hat; [apply packed_json_correct|apply decimal_uuid_correct|apply decimal_time_correct| | | | |exact Hok].
  - split; [apply record5_typed; split; lia|split; vm_compute; congruence].
  - by vm_compute.
  - by vm_compute.
  - by vm_compute.
Defined.

Lemma write_record_guard_witness :
  (write_record device5 (record5 2) world5).1 = Err (RecordExists (r_key_hash (record5 2)) (r_version (record5 2))).
Proof.
  assert (no_faults world5) as Hnf by by vm_compute.
  assert (validate (record5 2) = Ok tt) as Hv by by vm_compute.
  pose proof (write_record_guard device5 (record5 2) (record5 3) world5 Hnf world5_ok Hv world5_stored) as Hg.
  cbv zeta in Hg. rewrite Hg, decide_False by (intros Heq; by apply (f_equal r_revision) in Heq).
  by replace (same_body (record5 3) (record5 2) && (r_revision (record5 3) <? r_revision (record5 2)))
    with false by by vm_compute.
Defined.

Definition faulty5 (faults : list (option fault)) : World :=
  mkWorld (w_tree world5) ∅ 100 7 1 faults [].

Lemma delete_version_stat_fault_witness :
  let w := faulty5 [Some (mkIoFault DeviceFailure 0)] in
  ∃ w', delete_version device5 (r_key_hash (record5 3)) (r_version (record5 3)) w = (Ok tt, w')
        ∧ w_tree w' = w_tree w.
Proof.
  intros w. exact (delete_version_stat_fault device5 (r_key_hash (record5 3)) (r_version (record5 3)) w
    (mkIoFault DeviceFailure 0) [] eq_refl).
Defined.

Lemma remove_temporary_shard_misses_witness :
  let final := join (device_object_directory device5 (replicate 32 0)) (shard_file_name (replicate 16 7) 0) in
  let temp := with_file_name final (temporary_name (name_of final) 7 4) in
  let w := mkWorld {[ temp := File [1] 0 ]} ∅ 100 7 5 [] [] in
  w_tree (remove_temporary_shard device5 (replicate 32 0) (replicate 16 7) 0 w).2 !! temp = Some (File [1] 0).
Proof.
  intros final temp w. etransitivity.
  - apply (remove_temporary_shard_misses device5 (replicate 32 0) (replicate 16 7) 0 4 w);
      [split; cbn; lia|split; cbn; lia|cbn; lia].
  - by vm_compute.
Defined.

Lemma read_records_sorted_witness :
  ∃ versions, Forall2 (stored_record (w_tree world5) device5 (r_key_hash (record5 3))) versions [record5 3].
Proof.
  assert ((read_records device5 (r_key_hash (record5 3)) world5).1 = Ok [record5 3]) as Hr by by vm_compute.
  destruct (read_records device5 (r_key_hash (record5 3)) world5) as [r w'] eqn:Hrun. cbn [fst] in Hr. subst r.
  destruct (read_records_sorted device5 (r_key_hash (record5 3)) [record5 3] world5 w' world5_ok Hrun)
    as (_ & versions & _ & _ & Hv).
  by exists versions.
Defined.

(** The same blindness lets [write_record] past its guard: with the
    look at the existing record failing, revision 2 replaces revision 3 and
    the call reports success. *)
Theorem write_record_stat_fault :
  let w := faulty5 [None; None; None; Some (mkIoFault DeviceFailure 0)] in
  let '(res, w') := write_record device5 (record5 2) w in
  res = Ok tt
  ∧ stored_record (w_tree w') device5 (r_key_hash (record5 3)) (r_version (record5 3)) (record5 2).
Proof.
  intros w. assert ((write_record device5 (record5 2) w).1 = Ok tt) as Hok by by vm_compute.
  assert (w_tree (write_record device5 (record5 2) w).2
    !! record_path device5 (r_key_hash (record5 3)) (r_version (record5 3))
    = Some (File (as_bytes (text5 2)) 100)) as Hp by by vm_compute.
  destruct (write_record device5 (record5 2) w) as [res w']. split; [done|].
  exists (as_bytes (text5 2)), 100, (text5 2). split_and!; [done|by vm_compute..].
Qed.
End witnesses.
