(* ===== verification/Cluster.v ===== *)
(** [cluster.rs]: the cluster document, its checks and its lookups.

    A floating-point number is a rational, an infinity or a NaN.  The reason
    texts of errors are the values they report.  [std::net]'s parser of socket
    addresses is transcribed as a recogniser: [validate] only asks whether an
    address parses. *)

From Stdlib Require Import QArith.
From S2P Require Import Prelude Text Erasure Record.
#[local] Open Scope Z_scope.

Definition MIN_BLOCK_SIZE_BYTES : Z := 64 * 1024.
Definition MAX_BLOCK_SIZE_BYTES : Z := 64 * 1024 * 1024.
Definition DEFAULT_MAX_KEY_BYTES : Z := 16 * 1024.
Definition LIMIT_MAX_KEY_BYTES : Z := 1024 * 1024.
Definition DEFAULT_MAX_OBJECT_BYTES : Z := Z.shiftl 1 40.
Definition DEFAULT_MAX_USER_METADATA_BYTES : Z := 10 * 1024 * 1024.
Definition LIMIT_MAX_USER_METADATA_BYTES : Z := 48 * 1024 * 1024.
Definition MAX_LABEL_BYTES : nat := 128.

Abbreviation NodeId := Z (only parsing).

Inductive NodeState := NodeActive | NodeRemoved.
#[global] Instance NodeState_eq_dec : EqDecision NodeState.
Proof. solve_decision. Defined.

Record NodeEntry := mkNode {
  n_id : NodeId;
  n_addresses : list str;
  n_label : option str;
  n_state : NodeState;
}.

Inductive Transport := Plain | TlsOptional | Tls.
#[global] Instance Transport_eq_dec : EqDecision Transport.
Proof. solve_decision. Defined.

(** [Display] and [FromStr] *)
Definition transport_text (t : Transport) : str :=
  match t with Plain => lit "plain" | TlsOptional => lit "tls-optional" | Tls => lit "tls" end.

Definition transport_from_str (text : str) : option Transport :=
  if str_eqb text (lit "plain") then Some Plain
  else if str_eqb text (lit "tls-optional") then Some TlsOptional
  else if str_eqb text (lit "tls") then Some Tls
  else None.

Inductive DeviceState := Active | Draining | Removed.
#[global] Instance DeviceState_eq_dec : EqDecision DeviceState.
Proof. solve_decision. Defined.

Record DeviceEntry := mkDeviceEntry {
  de_id : DeviceId;
  de_node : NodeId;
  de_state : DeviceState;
  de_label : option str;
}.

(** [f64]: what a comparison can tell apart. *)
Inductive f64 := Finite (q : Q) | Infinite (negative : bool) | NaN.

(** [(0.0..=0.5).contains(&x)] *)
Definition in_headroom_range (x : f64) : bool :=
  match x with Finite q => Qle_bool 0 q && Qle_bool q (1 # 2) | _ => false end.
Definition is_nan (x : f64) : bool := match x with NaN => true | _ => false end.

Inductive IndependenceLevel := LevelDevice.

Record ClusterDocument := mkDocument {
  c_version : Z;
  c_cluster_id : Z;
  c_name : option str;
  c_k : Z;
  c_m : Z;
  c_block_size : Z;
  c_independence_level : IndependenceLevel;
  c_headroom : f64;
  c_max_key_bytes : Z;
  c_max_object_bytes : Z;
  c_max_user_metadata_bytes : Z;
  c_transport : Transport;
  c_nodes : list NodeEntry;
  c_devices : list DeviceEntry;
}.

Inductive NameReason := BadLength | BadCharacter | LooksLikeUuid | PaddedWithSpace.

Inductive ClusterDocumentError :=
| DocInvalidScheme (e : SchemeError)
| DocBadBlockSize (n : Z)
| BadHeadroom
| BadKeyLimit (n : Z)
| BadObjectLimit
| BadMetadataLimit (n : Z)
| DuplicateNode (id : NodeId)
| NoAddresses (id : NodeId)
| BadAddress (node : NodeId) (address : str)
| DuplicateAddress (address : str)
| DocDuplicateDevice (id : DeviceId)
| BadLabel (label : str) (reason : NameReason)
| NilClusterId
| BadClusterName (name : str) (reason : NameReason)
| DuplicateLabel (label : str)
| UnknownNode (device : DeviceId) (node : NodeId).

(** ** [std::net::SocketAddr] *)

Module SocketAddr.
(** [Parser::read_number]: the digits at the front, how many, and the rest. *)
Fixpoint take_digits (radix acc : Z) (n : nat) (s : str) : Z * nat * str :=
  match s with
  | c :: s' =>
      match digit_val radix c with
      | Some d => take_digits radix (acc * radix + d) (S n) s'
      | None => (acc, n, s)
      end
  | [] => (acc, n, s)
  end.

Definition read_number (radix : Z) (max_digits : option nat) (limit : Z) (zero_prefix : bool) (s : str)
    : option str :=
  let '(v, n, rest) := take_digits radix 0 0 s in
  let leading_zero := match s with c :: _ => c =? 48 | [] => false end in
  if (n =? 0)%nat then None
  else if match max_digits with Some d => (d <? n)%nat | None => false end then None
  else if negb zero_prefix && leading_zero && (1 <? n)%nat then None
  else if v <=? limit then Some rest else None.

Definition read_given (c : Z) (s : str) : option str :=
  match s with x :: s' => if x =? c then Some s' else None | [] => None end.

(** [read_separator(sep, index, inner)] *)
Definition read_separator (sep : Z) (index : nat) (inner : str → option str) (s : str) : option str :=
  if (index =? 0)%nat then inner s else s' ← read_given sep s; inner s'.

Definition read_ipv4 (s : str) : option str :=
  let octet i := read_separator 46 i (read_number 10 (Some 3%nat) 255 false) in
  s ← octet 0%nat s; s ← octet 1%nat s; s ← octet 2%nat s; octet 3%nat s.

(** [read_groups] from the group [i] of [limit]: groups read, whether the
    last two were an IPv4 address, and the rest. *)
Fixpoint read_groups (fuel limit i : nat) (s : str) : nat * bool * str :=
  match fuel with
  | O => (i, false, s)
  | S fuel =>
      match if (S i <? limit)%nat then read_separator 58 i read_ipv4 s else None with
      | Some rest => (S (S i), true, rest)
      | None =>
          match read_separator 58 i (read_number 16 (Some 4%nat) 65535 true) s with
          | Some rest => read_groups fuel limit (S i) rest
          | None => (i, false, s)
          end
      end
  end.

Definition read_ipv6 (s : str) : option str :=
  let '(head, v4, s) := read_groups 8 8 0 s in
  if (head =? 8)%nat then Some s
  else if v4 : bool then None
  else
    s ← read_given 58 s; s ← read_given 58 s;
    let limit := (8 - (head + 1))%nat in
    let '(_, _, s) := read_groups limit limit 0 s in
    Some s.

Definition read_port (s : str) : option str :=
  s ← read_given 58 s; read_number 10 None 65535 true s.

Definition read_scope_id (s : str) : option str :=
  s ← read_given 37 s; read_number 10 None (2 ^ 32 - 1) true s.

Definition read_v4 (s : str) : option str := s ← read_ipv4 s; read_port s.

Definition read_v6 (s : str) : option str :=
  s ← read_given 91 s; s ← read_ipv6 s;
  let s := default s (read_scope_id s) in
  s ← read_given 93 s; read_port s.

(** [address.parse::<SocketAddr>().is_ok()] *)
Definition parses (s : str) : bool :=
  bool_decide (read_v4 s = Some []) || (bool_decide (read_v4 s = None) && bool_decide (read_v6 s = Some [])).
End SocketAddr.

(** ** Names *)

Section cluster.
Context `{Uuid}.

Definition validate_label (label : str) : res ClusterDocumentError unit :=
  _ ← ensure (negb (bool_decide (label = []) || (MAX_LABEL_BYTES <? str_len label)%nat)) (BadLabel label BadLength);
  _ ← ensure (negb (existsb (λ c, is_whitespace c || is_control c) label)) (BadLabel label BadCharacter);
  ensure (bool_decide (uuid_parse label = None)) (BadLabel label LooksLikeUuid).

Definition validate_cluster_name (name : str) : res ClusterDocumentError unit :=
  _ ← ensure (negb (bool_decide (name = []) || (MAX_LABEL_BYTES <? str_len name)%nat)) (BadClusterName name BadLength);
  _ ← ensure (negb (existsb is_control name)) (BadClusterName name BadCharacter);
  ensure (bool_decide (trim name = name)) (BadClusterName name PaddedWithSpace).

(** ** Validation *)

Definition note_node (node_ids : list NodeId) (node : NodeEntry) : res ClusterDocumentError (list NodeId) :=
  _ ← ensure (negb (bool_decide (n_id node ∈ node_ids))) (DuplicateNode (n_id node));
  Ok (node_ids ++ [n_id node]).

Definition note_address (node : NodeEntry) (addresses : list str) (address : str)
    : res ClusterDocumentError (list str) :=
  _ ← ensure (SocketAddr.parses address) (BadAddress (n_id node) address);
  if decide (n_state node = NodeRemoved) then Ok addresses
  else
    _ ← ensure (negb (bool_decide (address ∈ addresses))) (DuplicateAddress address);
    Ok (addresses ++ [address]).

Definition note_addresses (addresses : list str) (node : NodeEntry) : res ClusterDocumentError (list str) :=
  _ ← ensure (negb (bool_decide (n_addresses node = []))) (NoAddresses (n_id node));
  fold_res (note_address node) (n_addresses node) addresses.

Definition note_device (node_ids : list NodeId) (device_ids : list DeviceId) (device : DeviceEntry)
    : res ClusterDocumentError (list DeviceId) :=
  _ ← ensure (negb (bool_decide (de_id device ∈ device_ids))) (DocDuplicateDevice (de_id device));
  _ ← ensure (bool_decide (de_node device ∈ node_ids)) (UnknownNode (de_id device) (de_node device));
  Ok (device_ids ++ [de_id device]).

Definition note_device_label (labels : list str) (device : DeviceEntry) : res ClusterDocumentError (list str) :=
  match de_label device with
  | Some label =>
      _ ← validate_label label;
      _ ← ensure (negb (bool_decide (label ∈ labels))) (DuplicateLabel label);
      Ok (labels ++ [label])
  | None => Ok labels
  end.

Definition note_node_label (labels : list str) (node : NodeEntry) : res ClusterDocumentError (list str) :=
  match n_label node with
  | Some label =>
      _ ← validate_label label;
      if decide (n_state node = NodeRemoved) then Ok labels
      else
        _ ← ensure (negb (bool_decide (label ∈ labels))) (DuplicateLabel label);
        Ok (labels ++ [label])
  | None => Ok labels
  end.

Definition document_validate (c : ClusterDocument) : res ClusterDocumentError unit :=
  _ ← ensure (negb (c_cluster_id c =? 0)) NilClusterId;
  _ ← map_err DocInvalidScheme (Scheme_new (c_k c) (c_m c));
  _ ← ensure (negb (negb (c_block_size c mod 4096 =? 0) || (c_block_size c <? MIN_BLOCK_SIZE_BYTES)
                    || (c_block_size c >? MAX_BLOCK_SIZE_BYTES))) (DocBadBlockSize (c_block_size c));
  _ ← ensure (negb (negb (in_headroom_range (c_headroom c)) || is_nan (c_headroom c))) BadHeadroom;
  _ ← ensure ((1 <=? c_max_key_bytes c) && (c_max_key_bytes c <=? LIMIT_MAX_KEY_BYTES))
        (BadKeyLimit (c_max_key_bytes c));
  _ ← ensure (negb (c_max_object_bytes c =? 0)) BadObjectLimit;
  _ ← ensure ((1 <=? c_max_user_metadata_bytes c)
              && (c_max_user_metadata_bytes c <=? LIMIT_MAX_USER_METADATA_BYTES))
        (BadMetadataLimit (c_max_user_metadata_bytes c));
  node_ids ← fold_res note_node (c_nodes c) [];
  _ ← fold_res note_addresses (c_nodes c) [];
  _ ← fold_res (note_device node_ids) (c_devices c) [];
  _ ← fold_res note_device_label (c_devices c) [];
  _ ← match c_name c with Some name => validate_cluster_name name | None => Ok tt end;
  _ ← fold_res note_node_label (c_nodes c) [];
  Ok tt.

(** ** Lookups *)

Definition title (c : ClusterDocument) : str :=
  match c_name c with
  | Some name => name ++ lit " (" ++ uuid_text (c_cluster_id c) ++ lit ")"
  | None => uuid_text (c_cluster_id c)
  end.

Definition document_scheme (c : ClusterDocument) : res SchemeError Scheme := Scheme_new (c_k c) (c_m c).

Definition node (c : ClusterDocument) (id : NodeId) : option NodeEntry :=
  List.find (λ n, n_id n =? id) (c_nodes c).

Definition active_nodes (c : ClusterDocument) : list NodeEntry :=
  filter (λ n, n_state n = NodeActive) (c_nodes c).

Definition node_by_label (c : ClusterDocument) (label : str) : option NodeEntry :=
  List.find (λ n, bool_decide (n_label n = Some label)) (active_nodes c).

Definition node_by_name (c : ClusterDocument) (name : str) : option NodeEntry :=
  match uuid_parse name with
  | Some uuid => node c uuid
  | None => node_by_label c name
  end.

Definition node_name (c : ClusterDocument) (id : NodeId) : str :=
  match (n ← node c id; n_label n) with
  | Some label => label
  | None => uuid_text id
  end.

Definition device (c : ClusterDocument) (id : DeviceId) : option DeviceEntry :=
  List.find (λ d, de_id d =? id) (c_devices c).

Definition device_by_label (c : ClusterDocument) (label : str) : option DeviceEntry :=
  List.find (λ d, bool_decide (de_label d = Some label)) (c_devices c).

Definition device_by_name (c : ClusterDocument) (name : str) : option DeviceEntry :=
  match uuid_parse name with
  | Some uuid => device c uuid
  | None => device_by_label c name
  end.

Definition device_name (c : ClusterDocument) (id : DeviceId) : str :=
  match (d ← device c id; de_label d) with
  | Some label => label
  | None => uuid_text id
  end.
End cluster.

(** ** What a valid document guarantees *)

Section validity.
Context `{Uuid}.

Definition label_ok (label : str) : Prop :=
  (1 ≤ str_len label ≤ MAX_LABEL_BYTES)%nat
  ∧ Forall (λ c, is_whitespace c = false ∧ is_control c = false) label
  ∧ uuid_parse label = None.

Definition cluster_name_ok (name : str) : Prop :=
  (1 ≤ str_len name ≤ MAX_LABEL_BYTES)%nat ∧ Forall (λ c, is_control c = false) name ∧ trim name = name.

Definition active_addresses (n : NodeEntry) : list str :=
  if decide (n_state n = NodeRemoved) then [] else n_addresses n.
Definition active_label (n : NodeEntry) : list str :=
  if decide (n_state n = NodeRemoved) then [] else option_list (n_label n).

Record document_ok (c : ClusterDocument) : Prop := {
  dok_cluster_id : c_cluster_id c ≠ 0;
  dok_scheme : scheme_ok (mkScheme (c_k c) (c_m c));
  dok_block_size : MIN_BLOCK_SIZE_BYTES ≤ c_block_size c ≤ MAX_BLOCK_SIZE_BYTES ∧ c_block_size c mod 4096 = 0;
  dok_headroom : ∃ q, c_headroom c = Finite q ∧ (0 <= q <= 1 # 2)%Q;
  dok_key_limit : 1 ≤ c_max_key_bytes c ≤ LIMIT_MAX_KEY_BYTES;
  dok_object_limit : c_max_object_bytes c ≠ 0;
  dok_metadata_limit : 1 ≤ c_max_user_metadata_bytes c ≤ LIMIT_MAX_USER_METADATA_BYTES;
  dok_nodes : NoDup (n_id <$> c_nodes c);
  dok_addresses : Forall (λ n, n_addresses n ≠ [] ∧ Forall (λ a, SocketAddr.parses a = true) (n_addresses n)) (c_nodes c);
  dok_unique_addresses : NoDup (c_nodes c ≫= active_addresses);
  dok_devices : NoDup (de_id <$> c_devices c);
  dok_device_nodes : Forall (λ d, de_node d ∈ n_id <$> c_nodes c) (c_devices c);
  dok_device_labels : Forall (λ d, ∀ l, de_label d = Some l → label_ok l) (c_devices c);
  dok_unique_device_labels : NoDup (c_devices c ≫= λ d, option_list (de_label d));
  dok_name : ∀ name, c_name c = Some name → cluster_name_ok name;
  dok_node_labels : Forall (λ n, ∀ l, n_label n = Some l → label_ok l) (c_nodes c);
  dok_unique_node_labels : NoDup (c_nodes c ≫= active_label);
}.

Lemma ensure_bind_Ok {E A : Type} (b : bool) (e : E) (m : res E A) (a : A) :
  (_ ← ensure b e; m) = Ok a ↔ b = true ∧ m = Ok a.
Proof. destruct b; cbn; naive_solver. Qed.

Lemma unit_bind_Ok {E A : Type} (r : res E unit) (m : res E A) (a : A) :
  (_ ← r; m) = Ok a ↔ r = Ok tt ∧ m = Ok a.
Proof. destruct r as [[]| |]; cbn; naive_solver. Qed.

Lemma str_len_pos s : s ≠ [] → (1 ≤ str_len s)%nat.
Proof.
  destruct s as [|c s]; [done|]. intros _. unfold str_len, as_bytes. rewrite bind_cons, length_app.
  unfold utf8_char. repeat case_match; cbn; lia.
Qed.

Lemma length_ok s :
  negb (bool_decide (s = []) || (MAX_LABEL_BYTES <? str_len s)%nat) = true
  ↔ (1 ≤ str_len s ≤ MAX_LABEL_BYTES)%nat.
Proof.
  rewrite negb_true_iff, orb_false_iff, Nat.ltb_ge. case_bool_decide as Hs.
  - subst s. split; [intros [? _]; done|]. intros [Hl _]. unfold str_len, as_bytes in Hl. cbn in Hl. lia.
  - pose proof (str_len_pos s Hs). intuition.
Qed.

Lemma existsb_none {A : Type} (p : A → bool) l : negb (existsb p l) = true ↔ Forall (λ x, p x = false) l.
Proof.
  rewrite negb_true_iff. induction l as [|x l IH]; cbn [existsb]; [by split|].
  rewrite orb_false_iff, Forall_cons, IH. done.
Qed.

Lemma validate_label_Ok l : validate_label l = Ok tt ↔ label_ok l.
Proof.
  unfold validate_label, label_ok. rewrite <- length_ok.
  setoid_rewrite <- orb_false_iff. rewrite <- (existsb_none (λ c, is_whitespace c || is_control c)).
  by rewrite !ensure_bind_Ok, ensure_Ok, bool_decide_eq_true.
Qed.

Lemma validate_cluster_name_Ok n : validate_cluster_name n = Ok tt ↔ cluster_name_ok n.
Proof.
  unfold validate_cluster_name, cluster_name_ok. rewrite <- length_ok, <- existsb_none.
  by rewrite !ensure_bind_Ok, ensure_Ok, bool_decide_eq_true.
Qed.

(** One new key appended. *)
Lemma NoDup_snoc {K : Type} (seen : list K) (k : K) : NoDup seen → NoDup (seen ++ [k]) ↔ k ∉ seen.
Proof.
  intros Hs. rewrite NoDup_app. split.
  - intros (_ & Hd & _) Hk. by apply (Hd k Hk), list_elem_of_here.
  - intros Hk. split_and!; [done| |by apply NoDup_singleton]. intros x Hx ->%list_elem_of_singleton. done.
Qed.

Lemma note_Ok {E K : Type} `{EqDecision K} (seen : list K) (k : K) (e : E) s :
  NoDup seen →
  (_ ← ensure (negb (bool_decide (k ∈ seen))) e; Ok (seen ++ [k])) = Ok s ↔ NoDup (seen ++ [k]) ∧ s = seen ++ [k].
Proof.
  intros Hs. rewrite NoDup_snoc by done. case_bool_decide; cbn; naive_solver.
Qed.

Lemma note_node_Ok seen n s :
  NoDup seen → note_node seen n = Ok s ↔ True ∧ NoDup (seen ++ [n_id n]) ∧ s = seen ++ [n_id n].
Proof. intros Hs. unfold note_node. rewrite note_Ok by done. intuition. Qed.

Lemma note_address_Ok n seen a s :
  NoDup seen → note_address n seen a = Ok s ↔
    SocketAddr.parses a = true
    ∧ NoDup (seen ++ (if decide (n_state n = NodeRemoved) then [] else [a]))
    ∧ s = seen ++ (if decide (n_state n = NodeRemoved) then [] else [a]).
Proof.
  intros Hs. unfold note_address. rewrite ensure_bind_Ok. case_decide.
  - rewrite app_nil_r. naive_solver.
  - by rewrite note_Ok.
Qed.

Lemma bind_singleton {A : Type} (l : list A) : (l ≫= λ x, [x]) = l.
Proof. induction l as [|x l IH]; [done|]. by rewrite bind_cons, IH. Qed.

Lemma bind_nothing {A B : Type} (l : list A) : (l ≫= λ _, @nil B) = [].
Proof. by induction l. Qed.

Lemma bind_map {A B : Type} (f : A → B) (l : list A) : (l ≫= λ x, [f x]) = f <$> l.
Proof. induction l as [|x l IH]; [done|]. by rewrite bind_cons, IH. Qed.

Lemma note_addresses_Ok seen n s :
  NoDup seen → note_addresses seen n = Ok s ↔
    (n_addresses n ≠ [] ∧ Forall (λ a, SocketAddr.parses a = true) (n_addresses n))
    ∧ NoDup (seen ++ active_addresses n) ∧ s = seen ++ active_addresses n.
Proof.
  intros Hs. unfold note_addresses, active_addresses.
  rewrite ensure_bind_Ok, (fold_unique _ _ _ (note_address_Ok n)) by done.
  rewrite negb_true_iff, bool_decide_eq_false.
  case_decide; rewrite ?bind_nothing, ?bind_singleton; naive_solver.
Qed.

Lemma note_device_Ok node_ids seen d s :
  NoDup seen → note_device node_ids seen d = Ok s ↔
    de_node d ∈ node_ids ∧ NoDup (seen ++ [de_id d]) ∧ s = seen ++ [de_id d].
Proof.
  intros Hs. unfold note_device. rewrite !ensure_bind_Ok, NoDup_snoc, negb_true_iff, bool_decide_eq_false, bool_decide_eq_true by done.
  naive_solver.
Qed.

Lemma note_device_label_Ok seen d s :
  NoDup seen → note_device_label seen d = Ok s ↔
    (∀ l, de_label d = Some l → label_ok l)
    ∧ NoDup (seen ++ option_list (de_label d)) ∧ s = seen ++ option_list (de_label d).
Proof.
  intros Hs. unfold note_device_label. destruct (de_label d) as [l|]; cbn [option_list].
  - rewrite unit_bind_Ok, validate_label_Ok, note_Ok by done. naive_solver.
  - rewrite app_nil_r. naive_solver.
Qed.

Lemma note_node_label_Ok seen n s :
  NoDup seen → note_node_label seen n = Ok s ↔
    (∀ l, n_label n = Some l → label_ok l)
    ∧ NoDup (seen ++ active_label n) ∧ s = seen ++ active_label n.
Proof.
  intros Hs. unfold note_node_label, active_label. destruct (n_label n) as [l|]; cbn [option_list].
  - rewrite unit_bind_Ok, validate_label_Ok. case_decide; [rewrite app_nil_r|rewrite note_Ok by done]; naive_solver.
  - case_decide; rewrite app_nil_r; naive_solver.
Qed.

Lemma headroom_ok x :
  negb (negb (in_headroom_range x) || is_nan x) = true ↔ ∃ q, x = Finite q ∧ (0 <= q <= 1 # 2)%Q.
Proof.
  rewrite negb_true_iff, orb_false_iff, negb_false_iff. destruct x as [q| |]; cbn; [|naive_solver..].
  rewrite andb_true_iff, !Qle_bool_iff. naive_solver.
Qed.

Lemma fold_notes {A K : Type} (f : list K → A → res ClusterDocumentError (list K)) g ok l (m : res ClusterDocumentError unit) :
  (∀ seen x s, NoDup seen → f seen x = Ok s ↔ ok x ∧ NoDup (seen ++ g x) ∧ s = seen ++ g x) →
  (_ ← fold_res f l []; m) = Ok tt ↔ (Forall ok l ∧ NoDup (l ≫= g)) ∧ m = Ok tt.
Proof.
  intros Hf. rewrite bind_Ok. setoid_rewrite (fold_unique f g ok Hf l [] _ (NoDup_nil_2)). naive_solver.
Qed.

(** The integer fields have the widths the type gives them. *)
Definition document_typed (c : ClusterDocument) : Prop :=
  is_u8 (c_k c) ∧ is_u8 (c_m c) ∧ Forall (λ d, is_u128 (de_id d)) (c_devices c)
  ∧ Forall (λ n, is_u128 (n_id n)) (c_nodes c).

Lemma scheme_bind_Ok k m (r : res ClusterDocumentError unit) :
  is_u8 k → is_u8 m →
  (_ ← map_err DocInvalidScheme (Scheme_new k m); r) = Ok tt ↔ scheme_ok (mkScheme k m) ∧ r = Ok tt.
Proof.
  intros Hk Hm. rewrite bind_Ok. setoid_rewrite map_err_Ok. setoid_rewrite (Scheme_new_Ok _ _ _ Hk Hm). naive_solver.
Qed.

Lemma nodes_bind_Ok l (r : list NodeId → res ClusterDocumentError unit) :
  (node_ids ← fold_res note_node l []; r node_ids) = Ok tt ↔ NoDup (n_id <$> l) ∧ r (n_id <$> l) = Ok tt.
Proof.
  pose proof (λ s, fold_unique note_node _ _ note_node_Ok l [] s (NoDup_nil_2)) as Hf.
  cbn [app] in Hf. setoid_rewrite bind_map in Hf. rewrite bind_Ok. split.
  - intros (a & (_ & Hn & ->)%Hf & Hr). done.
  - intros [Hn Hr]. exists (n_id <$> l). split; [|done]. apply Hf. split_and!; [by apply Forall_true|done|done].
Qed.

Lemma block_size_ok n :
  negb (negb (n mod 4096 =? 0) || (n <? MIN_BLOCK_SIZE_BYTES) || (n >? MAX_BLOCK_SIZE_BYTES)) = true
  ↔ MIN_BLOCK_SIZE_BYTES ≤ n ≤ MAX_BLOCK_SIZE_BYTES ∧ n mod 4096 = 0.
Proof. lia. Qed.

Lemma range_ok n limit : (1 <=? n) && (n <=? limit) = true ↔ 1 ≤ n ≤ limit.
Proof. lia. Qed.

Lemma nonzero_ok n : negb (n =? 0) = true ↔ n ≠ 0.
Proof. lia. Qed.

Lemma name_bind_Ok o (r : res ClusterDocumentError unit) :
  (_ ← match o with Some name => validate_cluster_name name | None => Ok tt end; r) = Ok tt
  ↔ (∀ name, o = Some name → cluster_name_ok name) ∧ r = Ok tt.
Proof.
  rewrite unit_bind_Ok. destruct o as [name|]; [rewrite validate_cluster_name_Ok|]; naive_solver.
Qed.

Lemma document_validate_Ok c : document_typed c → document_validate c = Ok tt ↔ document_ok c.
Proof.
  intros (Hk & Hm & _). unfold document_validate.
  rewrite ensure_bind_Ok, scheme_bind_Ok, !ensure_bind_Ok, nodes_bind_Ok by done.
  rewrite (fold_notes _ _ _ _ _ note_addresses_Ok), (fold_notes _ _ _ _ _ (note_device_Ok _)).
  rewrite (fold_notes _ _ _ _ _ note_device_label_Ok), name_bind_Ok, (fold_notes _ _ _ _ _ note_node_label_Ok).
  rewrite block_size_ok, headroom_ok, !range_ok, !nonzero_ok, bind_map. split.
  - intros (? & ? & ? & ? & ? & ? & ? & ? & [? ?] & [? ?] & [? ?] & ? & [? ?] & _). by split.
  - intros [? ? ? ? ? ? ? ? ? ? ? ? ? ? ? ? ?]. repeat first [assumption|reflexivity|split].
Qed.

(** Lookups by a unique key find the element. *)
Lemma find_unique {A : Type} (p : A → bool) (l : list A) (x : A) :
  x ∈ l → p x = true → (∀ y, y ∈ l → p y = true → y = x) → List.find p l = Some x.
Proof.
  intros Hx Hp Hu. destruct (List.find p l) as [y|] eqn:Hf.
  - apply List.find_some in Hf as [Hy Hpy]. f_equal. apply Hu; [by apply list_elem_of_In|done].
  - rewrite (List.find_none _ _ Hf x) in Hp; [done|]. by apply list_elem_of_In.
Qed.

Lemma NoDup_fmap_unique {A B : Type} (f : A → B) (l : list A) x y :
  NoDup (f <$> l) → x ∈ l → y ∈ l → f x = f y → x = y.
Proof.
  intros Hnd (i & Hi)%list_elem_of_lookup (j & Hj)%list_elem_of_lookup Heq.
  assert (i = j) as <-; [|congruence].
  apply (NoDup_lookup _ i j (f x) Hnd); rewrite list_lookup_fmap; [by rewrite Hi|by rewrite Hj, Heq].
Qed.

(** Two elements that contribute the same key to a duplicate-free
    collection are one. *)
Lemma NoDup_bind_unique {A B : Type} (g : A → list B) (l : list A) x y k :
  NoDup (l ≫= g) → x ∈ l → y ∈ l → k ∈ g x → k ∈ g y → x = y.
Proof.
  induction l as [|a l IH]; [by intros _ ?%not_elem_of_nil|]. rewrite bind_cons.
  intros (_ & Hd & Hnd)%NoDup_app Hx Hy Hkx Hky.
  apply elem_of_cons in Hx as [->|Hx], Hy as [->|Hy]; [done| | |by apply IH].
  - destruct (Hd k Hkx). apply list_elem_of_bind. by exists y.
  - destruct (Hd k Hky). apply list_elem_of_bind. by exists x.
Qed.

(** ** Properties *)

(** [validate] accepts exactly the sound documents: every numeric
    limit in range and the headroom a number between 0 and 1/2, node and
    device ids distinct, every device on a listed node, every address a
    socket address and no address of two active nodes, labels well formed
    and unambiguous among devices and among active nodes. *)
Theorem document_validate_iff (c : ClusterDocument) :
  document_typed c → document_validate c = Ok tt ↔ document_ok c.
Proof. apply document_validate_Ok. Qed.

(** Names lead back: in a valid document the name shown for a device,
    its label or its UUID, resolves to that device, and the name shown for
    an active node to that node; no label can be taken for a UUID or for
    another entry. *)
Theorem names_resolve (c : ClusterDocument) :
  uuid_correct → document_typed c → document_validate c = Ok tt →
  (∀ d, d ∈ c_devices c → device_by_name c (device_name c (de_id d)) = Some d)
  ∧ (∀ n, n ∈ c_nodes c → n_state n = NodeActive → node_by_name c (node_name c (n_id n)) = Some n).
Proof.
  intros Hu Ht Hv. apply document_validate_Ok in Hv; [|done]. destruct Ht as (_ & _ & Hdu & Hnu).
  rewrite !Forall_forall in *. split.
  - intros d Hd. assert (device c (de_id d) = Some d) as Hfind.
    { apply find_unique; [done|lia|]. intros y Hy Heq%Z.eqb_eq. by eapply NoDup_fmap_unique; [apply dok_devices| | |]. }
    unfold device_by_name, device_name. rewrite Hfind. cbn [mbind option_bind].
    destruct (de_label d) as [l|] eqn:Hl; [|by rewrite Hu by auto].
    pose proof (dok_device_labels c Hv) as Hlab. rewrite Forall_forall in Hlab.
    destruct (Hlab d Hd l Hl) as (_ & _ & ->).
    apply find_unique; [done|by apply bool_decide_eq_true|]. intros y Hy Hyl%bool_decide_eq_true.
    eapply (NoDup_bind_unique _ _ _ _ l); [apply (dok_unique_device_labels c Hv)|done|done| |];
      cbn beta; [rewrite Hyl|rewrite Hl]; by apply list_elem_of_here.
  - intros n Hn Hact. assert (node c (n_id n) = Some n) as Hfind.
    { apply find_unique; [done|lia|]. intros y Hy Heq%Z.eqb_eq. by eapply NoDup_fmap_unique; [apply dok_nodes| | |]. }
    unfold node_by_name, node_name. rewrite Hfind. cbn [mbind option_bind].
    destruct (n_label n) as [l|] eqn:Hl; [|by rewrite Hu by auto].
    pose proof (dok_node_labels c Hv) as Hlab. rewrite Forall_forall in Hlab.
    destruct (Hlab n Hn l Hl) as (_ & _ & ->).
    apply find_unique; [by apply list_elem_of_filter|by apply bool_decide_eq_true|].
    intros y [Hya Hy]%list_elem_of_filter Hyl%bool_decide_eq_true.
    eapply (NoDup_bind_unique _ _ _ _ l); [apply (dok_unique_node_labels c Hv)|done|done| |];
      unfold active_label; rewrite decide_False by congruence;
      [rewrite Hyl|rewrite Hl]; by apply list_elem_of_here.
Qed.
End validity.

(** ** Witnesses *)

Section witnesses.
#[local] Existing Instance decimal_uuid.

(** Two nodes, one of them removed with the other's address and label, and
    two devices. *)
Definition document2 : ClusterDocument := {|
  c_version := 1; c_cluster_id := 193; c_name := Some (lit "Home NAS"); c_k := 2; c_m := 1;
  c_block_size := 1048576; c_independence_level := LevelDevice; c_headroom := Finite (1 # 20);
  c_max_key_bytes := DEFAULT_MAX_KEY_BYTES; c_max_object_bytes := DEFAULT_MAX_OBJECT_BYTES;
  c_max_user_metadata_bytes := DEFAULT_MAX_USER_METADATA_BYTES; c_transport := Plain;
  c_nodes := [mkNode 10 [lit "10.0.0.1:7000"] (Some (lit "nas1")) NodeRemoved;
              mkNode 11 [lit "10.0.0.1:7000"; lit "[fe80::1%2]:7000"] (Some (lit "nas1")) NodeActive];
  c_devices := [mkDeviceEntry 1 11 Active (Some (lit "bay0")); mkDeviceEntry 2 10 Draining None] |}.

Lemma document2_typed : document_typed document2.
Proof.
  split_and!; [split; cbn; lia..| |];
    repeat (apply List.Forall_cons; [split; cbn; lia|]); apply List.Forall_nil.
Defined.

Lemma document_validate_iff_witness : document_validate document2 = Ok tt ↔ document_ok document2.
Proof. apply (document_validate_iff document2 document2_typed). Defined.

Lemma names_resolve_witness : device_by_name document2 (device_name document2 1) = Some (mkDeviceEntry 1 11 Active (Some (lit "bay0"))).
Proof.
  assert (document_validate document2 = Ok tt) as Hv by by vm_compute.
  apply (proj1 (names_resolve document2 decimal_uuid_correct document2_typed Hv)
    (mkDeviceEntry 1 11 Active (Some (lit "bay0")))).
  apply list_elem_of_here.
Defined.
End witnesses.
