(* ===== verification/Scrub.v ===== *)
(** [scrub.rs]: read everything on one device and check it against the
    checksums stored beside it.

    The summary is passed along; [on_finding] is called once per finding as it
    is appended, so the list of findings is also the sequence of calls.  The
    rate limiter only sleeps and is left out.  Times are nanoseconds.  The
    reason texts are the values they report. *)

From S2P Require Import Prelude Text Checksum KeyHash VersionId Erasure Layout Stripe FileSystem ShardFile Record Device.

Record ScrubOptions := mkOptions {
  max_bytes_per_second : option Z;
  temporary_max_age : Z;
}.

(** [ScrubOptions::default] *)
Definition default_options : ScrubOptions := mkOptions None (3600 * 10 ^ 9).

Inductive CorruptReason :=
| CorruptIo (e : io_error)
| CorruptRecord (e : RecordError)
| WrongDirectory (key : str).

Inductive UnreadableReason :=
| OpenFailed (e : ShardFileError)
| BlockFailed (block_number : Z) (e : ShardFileError).

Inductive Mismatch :=
| HeaderVersion (header name : VersionId)
| HeaderIndex (header name : ShardIndex)
| HeaderKeyHash
| HeaderScheme (header : Scheme) (k m : Z)
| HeaderBlockLength (header record : Z)
| FooterSize (footer record : Z)
| FooterChecksum
| BlockCount (actual implied : Z).

Inductive Finding :=
| RecordCorrupt (p : path) (reason : CorruptReason)
| ShardUnreadable (p : path) (key : option str) (version : VersionId) (shard_index : Z)
    (reason : UnreadableReason)
| ShardMisplaced (p : path) (key : option str) (reason : list Mismatch)
| ShardBlocksCorrupt (p : path) (key : option str) (version : VersionId) (shard_index : Z)
    (stripes : list Z)
| ShardWithoutRecord (p : path) (version : VersionId) (shard_index : Z)
| RecordWithoutShard (p : path) (key : str) (version : VersionId) (shard_index : Z)
| RecordNotForThisDevice (p : path) (key : str) (version : VersionId)
| StaleTemporary (p : path) (age_secs : Z)
| FindDeviceUnavailable (reason : DeviceError).

Definition repair_key (f : Finding) : option str :=
  match f with
  | ShardUnreadable _ key _ _ _ | ShardMisplaced _ key _ | ShardBlocksCorrupt _ key _ _ _ => key
  | RecordWithoutShard _ key _ _ => Some key
  | _ => None
  end.

Record ScrubSummary := mkSummary {
  ss_device : option DeviceId;
  records_checked : Z;
  shards_checked : Z;
  blocks_checked : Z;
  bytes_read : Z;
  findings : list Finding;
}.

(** The [+=] of each counter, and [report]. *)
Definition report (s : ScrubSummary) (f : Finding) : ScrubSummary :=
  mkSummary (ss_device s) (records_checked s) (shards_checked s) (blocks_checked s) (bytes_read s)
    (findings s ++ [f]).
Definition count_record (s : ScrubSummary) : ScrubSummary :=
  mkSummary (ss_device s) (wrap64 (records_checked s + 1)) (shards_checked s) (blocks_checked s)
    (bytes_read s) (findings s).
Definition count_shard (s : ScrubSummary) : ScrubSummary :=
  mkSummary (ss_device s) (records_checked s) (wrap64 (shards_checked s + 1)) (blocks_checked s)
    (bytes_read s) (findings s).
Definition count_block (s : ScrubSummary) : ScrubSummary :=
  mkSummary (ss_device s) (records_checked s) (shards_checked s) (wrap64 (blocks_checked s + 1))
    (bytes_read s) (findings s).
Definition count_bytes (s : ScrubSummary) (n : Z) : ScrubSummary :=
  mkSummary (ss_device s) (records_checked s) (shards_checked s) (blocks_checked s)
    (wrap64 (bytes_read s + n)) (findings s).

Section scrub.
Context `{Sha256} `{Xxh3} `{SerdeJson} `{Uuid} `{Rfc3339}.

Definition check_record (p : path) (expected_hash : option KeyHash) (s : ScrubSummary)
    : io DeviceError (ScrubSummary * option MetadataRecord) :=
  r ← attempt (read_to_string p);
  match r with
  | Panic => lift Panic
  | Err NotFound => mret (s, None)
  | Err e => mret (report s (RecordCorrupt p (CorruptIo e)), None)
  | Ok json =>
      let s := count_bytes s (Z.of_nat (str_len json)) in
      match from_json json with
      | Panic => lift Panic
      | Err e => mret (report s (RecordCorrupt p (CorruptRecord e)), None)
      | Ok record =>
          if bool_decide (is_Some expected_hash) && bool_decide (Some (r_key_hash record) ≠ expected_hash)
          then mret (report s (RecordCorrupt p (WrongDirectory (r_key record))), None)
          else mret (s, Some record)
      end
  end.

(** The disagreements between a shard file and its name, directory and
    record, in the order they are looked for. *)
Definition mismatches (reader : ShardFileReader) (version : VersionId) (index : ShardIndex)
    (expected_hash : option KeyHash) (record : option MetadataRecord) : res DeviceError (list Mismatch) :=
  let header := sr_header reader in
  let footer := sr_footer reader in
  let by_name :=
    (if bool_decide (sh_version header = version) then [] else [HeaderVersion (sh_version header) version])
    ++ (if sh_index header =? index then [] else [HeaderIndex (sh_index header) index])
    ++ match expected_hash with
       | Some expected => if bool_decide (sh_key_hash header = expected) then [] else [HeaderKeyHash]
       | None => []
       end in
  match record with
  | None => Ok by_name
  | Some record =>
      let scheme := sh_scheme header in
      let by_record :=
        (if (wrap 8 (data_shards scheme) =? r_k record) && (wrap 8 (parity_shards scheme) =? r_m record)
         then [] else [HeaderScheme scheme (r_k record) (r_m record)])
        ++ (if sh_block_length header =? r_block_size record then []
            else [HeaderBlockLength (sh_block_length header) (r_block_size record)])
        ++ (if sf_object_size footer =? r_size record then []
            else [FooterSize (sf_object_size footer) (r_size record)])
        ++ (if sf_object_checksum footer =? r_object_checksum record then [] else [FooterChecksum]) in
      geometry ← shard_geometry scheme (sh_block_length header) (r_size record);
      let by_geometry :=
        match geometry with
        | Some g => if g_block_count g =? block_count reader then []
                    else [BlockCount (block_count reader) (g_block_count g)]
        | None => []
        end in
      Ok (by_name ++ by_record ++ by_geometry)
  end.

(** The loop over the blocks: the stripes that failed their checksums, or
    the error that ended it. *)
Fixpoint check_blocks (reader : ShardFileReader) (numbers : list Z) (s : ScrubSummary) (bad : list Z)
    : io DeviceError (ScrubSummary * (list Z + (Z * ShardFileError))) :=
  match numbers with
  | [] => mret (s, inl bad)
  | n :: numbers =>
      r ← attempt (read_block reader n);
      match r with
      | Panic => lift Panic
      | Err e => mret (s, inr (n, e))
      | Ok block =>
          let s := count_bytes (count_block s) (Z.of_nat (length (sb_bytes block))) in
          check_blocks reader numbers s
            (if block_matches_checksum (sb_bytes block) (sb_checksum block) then bad else bad ++ [n])
      end
  end.

Definition check_shard (p : path) (version : VersionId) (index : ShardIndex)
    (expected_hash : option KeyHash) (record : option MetadataRecord) (s : ScrubSummary)
    : io DeviceError ScrubSummary :=
  let key := r_key <$> record in
  r ← attempt (ShardFileReader_open p);
  match r with
  | Panic => lift Panic
  | Err (SfIo NotFound) => mret s
  | Err e => mret (report s (ShardUnreadable p key version index (OpenFailed e)))
  | Ok reader =>
      let s := count_bytes s (wrap64 (4096 + encoded_length (sr_footer reader))) in
      m ← lift (mismatches reader version index expected_hash record);
      let s := match m with [] => s | _ => report s (ShardMisplaced p key m) end in
      '(s, outcome) ← check_blocks reader (Z.of_nat <$> seq 0 (Z.to_nat (block_count reader))) s [];
      mret (match outcome with
            | inr (n, e) => report s (ShardUnreadable p key version index (BlockFailed n e))
            | inl [] => s
            | inl bad => report s (ShardBlocksCorrupt p key version index bad)
            end)
  end.

(** ** One key directory *)

Definition scrub_records := list (VersionId * path * option MetadataRecord).
Definition scrub_shards := list (VersionId * ShardIndex * path).

(** One entry of the directory. *)
Definition scrub_entry (options : ScrubOptions) (now : Z) (expected_hash : option KeyHash)
    (st : ScrubSummary * scrub_records * scrub_shards) (entry : path)
    : io DeviceError (ScrubSummary * scrub_records * scrub_shards) :=
  let '(s, records, shards) := st in
  let name := name_of entry in
  if ends_with TEMPORARY_SUFFIX name then
    r ← attempt (fs_metadata entry);
    match r with
    | Ok n =>
        let age := Z.max 0 (now - modified n) in
        mret (if age >? temporary_max_age options
              then (report s (StaleTemporary entry (age / 10 ^ 9)), records, shards)
              else st)
    | _ => mret st
    end
  else
    match parse_record_file_name name with
    | Some version =>
        '(s, record) ← check_record entry expected_hash (count_record s);
        mret (s, records ++ [(version, entry, record)], shards)
    | None =>
        match parse_shard_file_name name with
        | Some (version, index) => mret (s, records, shards ++ [(version, index, entry)])
        | None => mret st
        end
    end.

(** Every record here must have its shard here. *)
Definition match_record (device : DeviceId) (shards : scrub_shards) (s : ScrubSummary)
    (r : VersionId * path * option MetadataRecord) : ScrubSummary :=
  let '(version, record_path, record) := r in
  match record with
  | None => s
  | Some record =>
      match shard_on record device with
      | None => report s (RecordNotForThisDevice record_path (r_key record) version)
      | Some index =>
          let present := existsb (λ x, bool_decide (x.1.1 = version) && (x.1.2 =? index)) shards in
          if negb present && (r_size record >? 0)
          then report s (RecordWithoutShard record_path (r_key record) version index)
          else s
      end
  end.

Definition match_shard (records : scrub_records) (expected_hash : option KeyHash) (s : ScrubSummary)
    (x : VersionId * ShardIndex * path) : io DeviceError ScrubSummary :=
  let '(version, index, shard_path) := x in
  let found := List.find (λ r : VersionId * path * option MetadataRecord, bool_decide (r.1.1 = version)) records in
  let record := r ← found; r.2 in
  let s :=
    match record with
    | None => if existsb (λ r, bool_decide (r.1.1 = version)) records then s
              else report s (ShardWithoutRecord shard_path version index)
    | Some _ => s
    end in
  check_shard shard_path version index expected_hash record (count_shard s).

Definition scrub_key (d : Device) (options : ScrubOptions) (now : Z) (s : ScrubSummary) (key_dir : path)
    : io DeviceError ScrubSummary :=
  expected_hash ← match file_name key_dir with
                  | Some n => lift (match hash_from_hex n with Ok h => Ok h | _ => Panic end)
                  | None => mret None
                  end;
  entries ← read_dir_sorted key_dir;
  '(s, records, shards) ← io_fold (scrub_entry options now expected_hash) entries (s, [], []);
  let s := fold_left (match_record (device_id d) shards) records s in
  io_fold (match_shard records expected_hash) shards s.

Definition unavailable (m : io DeviceError (list path)) (s : ScrubSummary)
    (k : list path → io DeviceError ScrubSummary) : io DeviceError ScrubSummary :=
  r ← attempt m;
  match r with
  | Ok a => k a
  | Err (DevUnavailable p) => mret (report s (FindDeviceUnavailable (DevUnavailable p)))
  | Err e => throw e
  | Panic => lift Panic
  end.

Definition scrub_device (d : Device) (options : ScrubOptions) : io DeviceError ScrubSummary :=
  let s := mkSummary (Some (device_id d)) 0 0 0 0 [] in
  unavailable (_ ← check_present d; mret []) s (λ _,
    w ← get;
    unavailable (key_directories d) s (λ dirs, io_fold (scrub_key d options (w_clock w)) dirs s)).
End scrub.

(** ** Lemmas *)

Section lemmas.
Context `{Sha256} `{Xxh3} `{SerdeJson} `{Uuid} `{Rfc3339}.

Lemma read_only_read_to_string p : read_only (read_to_string p).
Proof. unfold read_to_string. reads. Qed.
Lemma read_only_read_dir_sorted dir : read_only (read_dir_sorted dir).
Proof. unfold read_dir_sorted. reads. Qed.
Lemma read_only_open p : read_only (ShardFileReader_open p).
Proof. unfold ShardFileReader_open. reads. Qed.
Lemma read_only_block r i : read_only (read_block r i).
Proof. unfold read_block. reads. Qed.
Hint Resolve read_only_read_to_string read_only_read_dir_sorted read_only_open read_only_block : reads.

Lemma read_only_check_blocks r numbers s bad : read_only (check_blocks r numbers s bad).
Proof.
  revert s bad. induction numbers as [|n numbers IH]; intros s bad; cbn [check_blocks]; reads.
Qed.
Hint Resolve read_only_check_blocks : reads.

Lemma read_only_check_record p eh s : read_only (check_record p eh s).
Proof. unfold check_record. reads. Qed.
Lemma read_only_check_shard p v i eh r s : read_only (check_shard p v i eh r s).
Proof. unfold check_shard. reads. Qed.
Hint Resolve read_only_check_record read_only_check_shard : reads.

Lemma read_only_scrub_key d options now s key_dir : read_only (scrub_key d options now s key_dir).
Proof. unfold scrub_key, scrub_entry, match_shard. reads. Qed.
Hint Resolve read_only_scrub_key : reads.

Lemma read_only_key_directories d : read_only (key_directories d).
Proof. unfold key_directories, read_bucket, bucket_directory. reads. Qed.
Lemma read_only_check_present d : read_only (check_present d).
Proof. unfold check_present. reads. Qed.
Hint Resolve read_only_key_directories read_only_check_present : reads.

(** ** What a scrub of one shard finds *)

(** The stripes whose stored bytes do not hash to the recorded checksum. *)
Definition damaged_stripes (stored blocks : list block) : list Z :=
  omap (λ i, a ← stored !! i; b ← blocks !! i;
             if block_matches_checksum a (checksum_block b) then None else Some (Z.of_nat i))
    (seq 0 (length blocks)).

Lemma damaged_filter stored blocks n :
  (n ≤ length blocks)%nat → (n ≤ length stored)%nat →
  filter (λ n, block_matches_checksum (default [] (stored !! Z.to_nat n))
                 (checksum_block (default [] (blocks !! Z.to_nat n))) = false) (Z.of_nat <$> seq 0 n)
  = omap (λ i, a ← stored !! i; b ← blocks !! i;
            if block_matches_checksum a (checksum_block b) then None else Some (Z.of_nat i)) (seq 0 n).
Proof.
  induction n as [|n IH]; intros Hb Hs; [done|]. rewrite seq_S, fmap_app, filter_app, IH, omap_app by lia. f_equal.
  cbn [omap list_omap fmap list_fmap Nat.add]. rewrite filter_cons, Nat2Z.id.
  destruct (lookup_lt_is_Some_2 blocks n) as [b Hbn]; [lia|].
  destruct (lookup_lt_is_Some_2 stored n) as [a Han]; [lia|]. rewrite Hbn, Han. cbn [mbind option_bind default from_option id].
  destruct (block_matches_checksum a _); [by rewrite decide_False|by rewrite decide_True].
Qed.

Lemma read_block_run r n b w :
  no_faults w → block_bytes r n = Ok b → read_block r n w = (Ok b, w).
Proof.
  intros Hw Hb. pose proof Hb as Hb'. unfold block_bytes in Hb'.
  destruct (block_length r n) as [len|e|] eqn:Hl; [|done|done].
  unfold read_block, io_map_err, may_fail, next_fault, mbind, io_bind, lift. rewrite Hl, Hw. cbn [fst snd map_err mret io_ret].
  by rewrite Hb.
Qed.

Lemma check_blocks_run r numbers (blk : Z → ShardBlock) w :
  no_faults w → (∀ n, n ∈ numbers → block_bytes r n = Ok (blk n)) →
  ∀ s bad, ∃ s', findings s' = findings s
    ∧ check_blocks r numbers s bad w
      = (Ok (s', inl (bad ++ filter (λ n, block_matches_checksum (sb_bytes (blk n)) (sb_checksum (blk n)) = false) numbers)), w).
Proof.
  intros Hw. induction numbers as [|n numbers IH]; intros Hall s bad; cbn [check_blocks].
  { exists s. by rewrite app_nil_r. }
  unfold attempt, mbind, io_bind.
  rewrite (read_block_run r n (blk n)) by (done || apply Hall, list_elem_of_here).
  destruct (IH (λ n' Hn', Hall n' (list_elem_of_further _ _ _ Hn'))
    (count_bytes (count_block s) (Z.of_nat (length (sb_bytes (blk n)))))
    (if block_matches_checksum (sb_bytes (blk n)) (sb_checksum (blk n)) then bad else bad ++ [n])) as (s' & Hf & Hrun).
  exists s'. split; [exact Hf|]. cbn zeta. rewrite Hrun. do 3 f_equal. rewrite filter_cons.
  destruct (block_matches_checksum _ _); [by rewrite decide_False|].
  rewrite decide_True by done. by rewrite <- app_assoc.
Qed.

Lemma check_shard_run p version index expected_hash record s w c m reader (blk : Z → ShardBlock) :
  no_faults w → w_tree w !! p = Some (File c m) → open_bytes c = Ok reader →
  mismatches reader version index expected_hash record = Ok [] →
  let numbers := Z.of_nat <$> seq 0 (Z.to_nat (block_count reader)) in
  (∀ n, n ∈ numbers → block_bytes reader n = Ok (blk n)) →
  let bad := filter (λ n, block_matches_checksum (sb_bytes (blk n)) (sb_checksum (blk n)) = false) numbers in
  ∃ s', check_shard p version index expected_hash record s w = (Ok s', w)
    ∧ findings s' = findings s
        ++ match bad with
           | [] => []
           | bad => [ShardBlocksCorrupt p (r_key <$> record) version index bad]
           end.
Proof.
  intros Hw Hp Ho Hm numbers Hall bad. unfold check_shard.
  assert (ShardFileReader_open p w = (Ok reader, w)) as Hopen.
  { unfold ShardFileReader_open, fs_read, io_map_err, may_fail, next_fault, get, mbind, io_bind, lift.
    rewrite Hw. cbn [mret io_ret]. rewrite Hp. cbn [map_err mret io_ret]. by rewrite Ho. }
  unfold attempt, mbind at 1, io_bind at 1. rewrite Hopen, Hm.
  unfold lift, mbind at 1, io_bind at 1. cbn zeta.
  destruct (check_blocks_run reader numbers blk w Hw Hall
    (count_bytes s (wrap64 (4096 + encoded_length (sr_footer reader)))) []) as (s' & Hf & Hrun).
  unfold mbind, io_bind. fold numbers. rewrite Hrun. cbn [app]. fold bad.
  unfold mret, io_ret. destruct bad as [|b l].
  - exists s'. by rewrite app_nil_r.
  - eexists. split; [done|]. cbn [findings report]. by rewrite Hf.
Qed.

(** A record that describes the shard file. *)
Definition describes (record : MetadataRecord) (h : ShardFileHeader) (size : Z) (ock : BlockChecksum) : Prop :=
  r_k record = data_shards (sh_scheme h) ∧ r_m record = parity_shards (sh_scheme h)
  ∧ r_block_size record = sh_block_length h ∧ r_size record = size ∧ r_object_checksum record = ock.

Lemma mismatches_none file h blocks last size ock expected_hash record :
  shard_ok h blocks last size ock →
  (∀ e, expected_hash = Some e → e = sh_key_hash h) →
  (∀ r, record = Some r → describes r h size ock) →
  mismatches (mkReader file h (footer_for blocks last size ock)) (sh_version h) (sh_index h) expected_hash record = Ok [].
Proof.
  intros Hok He Hr. unfold mismatches.
  cbn [sr_header sr_footer footer_for sf_object_size sf_object_checksum].
  rewrite bool_decide_eq_true_2, Z.eqb_refl by done. cbn [app].
  replace (match expected_hash with Some expected => _ | None => _ end) with (@nil Mismatch).
  2: { destruct expected_hash as [e|]; [|done]. by rewrite bool_decide_eq_true_2 by (symmetry; by apply He). }
  destruct record as [r|]; [|done]. destruct (Hr r eq_refl) as (-> & -> & -> & -> & ->).
  assert (shard_geometry (E := DeviceError) (sh_scheme h) (sh_block_length h) size
    = Ok (Some (mkGeometry (Z.of_nat (length blocks)) last))) as Hg.
  { pose proof (so_geometry _ _ _ _ _ Hok) as Hg. unfold shard_geometry in *.
    destruct (_ || _); [done|]. destruct (_ =? 0); [done|]. injection Hg as Hg1 Hg2. congruence. }
  pose proof (so_header _ _ _ _ _ Hok) as (Hs & _).
  assert (is_u8 (data_shards (sh_scheme h)) ∧ is_u8 (parity_shards (sh_scheme h))) as [Hk Hm].
  { destruct Hs as [? ?]. unfold MAX_DATA_SHARDS, MAX_PARITY_SHARDS in *. unfold is_uint. lia. }
  unfold wrap. rewrite !Z.mod_small by apply Hk || apply Hm.
  rewrite Hg, !Z.eqb_refl. cbn [mbind res_bind g_block_count andb app].
  unfold block_count. cbn [sr_footer footer_for sf_block_count]. by rewrite Z.eqb_refl.
Qed.

Lemma check_shard_damage (h : ShardFileHeader) (blocks stored : list block) (last size : Z)
    (ock : BlockChecksum) (p : path) (expected_hash : option KeyHash) (record : option MetadataRecord)
    (s : ScrubSummary) (m : Z) (w : World) :
  no_faults w → shard_ok h blocks last size ock → Forall2 (λ a b, length a = length b) stored blocks →
  w_tree w !! p = Some (File (damaged_image h blocks last size ock stored) m) →
  (∀ e, expected_hash = Some e → e = sh_key_hash h) →
  (∀ r, record = Some r → describes r h size ock) →
  ∃ s', check_shard p (sh_version h) (sh_index h) expected_hash record s w = (Ok s', w)
    ∧ findings s' = findings s
        ++ match damaged_stripes stored blocks with
           | [] => []
           | bad => [ShardBlocksCorrupt p (r_key <$> record) (sh_version h) (sh_index h) bad]
           end.
Proof.
  intros Hw Hok Hst Hp He Hr. set (file := damaged_image h blocks last size ock stored) in *.
  set (reader := mkReader file h (footer_for blocks last size ock)).
  pose (blk n := mkShardBlock (sh_index h) (default [] (stored !! Z.to_nat n))
                   (checksum_block (default [] (blocks !! Z.to_nat n)))).
  pose proof (Forall2_length _ _ _ Hst) as Hlen.
  destruct (check_shard_run p (sh_version h) (sh_index h) expected_hash record s w file m reader blk)
    as (s' & Hrun & Hf).
  - done.
  - done.
  - by apply open_damaged.
  - by apply mismatches_none.
  - intros n (i & -> & Hi%elem_of_seq)%list_elem_of_fmap. unfold block_count in Hi. cbn in Hi. rewrite Nat2Z.id in Hi.
    destruct (lookup_lt_is_Some_2 blocks i) as [b Hb]; [lia|].
    destruct (lookup_lt_is_Some_2 stored i) as [b' Hb']; [lia|].
    unfold blk. rewrite Nat2Z.id, Hb, Hb'. by apply read_damaged.
  - exists s'. split; [done|]. rewrite Hf. unfold damaged_stripes, blk. cbn [sb_bytes sb_checksum].
    unfold block_count. cbn [reader sr_footer footer_for sf_block_count]. rewrite Nat2Z.id.
    rewrite (damaged_filter stored blocks (length blocks)) by lia. by destruct (omap _ _).
Qed.

Lemma undamaged blocks : damaged_stripes blocks blocks = [].
Proof.
  unfold damaged_stripes. apply elem_of_nil_inv. intros n (i & _ & Hi)%list_elem_of_omap.
  destruct (blocks !! i) as [b|]; [|done]. cbn [mbind option_bind] in Hi.
  unfold block_matches_checksum in Hi. by rewrite Z.eqb_refl in Hi.
Qed.

(** A scrub changes nothing: under every list of failing calls, no tree
    other than the one it started from is ever on the device, so it can run
    beside the node. *)
Theorem scrub_read_only (d : Device) (options : ScrubOptions) (w : World) :
  w_tree (scrub_device d options w).2 = w_tree w
  ∧ w_trace (scrub_device d options w).2 = w_trace w.
Proof.
  assert (read_only (scrub_device d options)) as Hr; [|apply Hr].
  unfold scrub_device, unavailable. reads.
Qed.

(** C36. The scrub of a shard reports exactly the damage: take a finished
    shard file whose header and footer are intact, and let the bytes of any
    of its blocks have changed on disk.  With the file where its name, its
    directory and its record (when readable) say it is, the scrub adds no
    finding if every block still matches its checksum, and otherwise one
    finding that lists exactly the stripes that do not. *)
Theorem scrub_reports_damage (h : ShardFileHeader) (blocks stored : list block) (last size : Z)
    (ock : BlockChecksum) (p : path) (expected_hash : option KeyHash) (record : option MetadataRecord)
    (s : ScrubSummary) (m : Z) (w : World) :
  no_faults w → shard_ok h blocks last size ock → Forall2 (λ a b, length a = length b) stored blocks →
  w_tree w !! p = Some (File (damaged_image h blocks last size ock stored) m) →
  (∀ e, expected_hash = Some e → e = sh_key_hash h) →
  (∀ r, record = Some r → describes r h size ock) →
  ∃ s', check_shard p (sh_version h) (sh_index h) expected_hash record s w = (Ok s', w)
    ∧ findings s' = findings s
        ++ match damaged_stripes stored blocks with
           | [] => []
           | bad => [ShardBlocksCorrupt p (r_key <$> record) (sh_version h) (sh_index h) bad]
           end.
Proof. apply check_shard_damage. Qed.
End lemmas.
