(* ===== verification/ScrubSpec.v ===== *)
(** A device that holds what it should scrubs clean: no false findings.

    [clean_device] says what a device looks like when every write that
    finished was by [write_record] and [shard_finish] and nothing was damaged:
    complete records in the directory of their key, complete shards beside
    them, temporaries not yet old.  Files the layout does not know are
    allowed. *)

From S2P Require Import Prelude Text Checksum KeyHash VersionId Erasure Layout Stripe FileSystem ShardFile Record Device DeviceSpec Scrub.

(** ** Runs that leave the world as it is *)

Definition runs {E A : Type} (m : io E A) (w : World) (Q : res E A → Prop) : Prop :=
  (m w).2 = w ∧ Q (m w).1.

Section runs.
Context {E : Type}.

Lemma runs_ret {A : Type} (a : A) w (Q : res E A → Prop) : Q (Ok a) → runs (mret a) w Q.
Proof. by split. Qed.

Lemma runs_bind {A B : Type} (m : io E A) (f : A → io E B) w (Q : res E B → Prop) :
  runs m w (λ r, match r with
    | Ok a => runs (f a) w Q | Err e => Q (Err e) | Panic => Q Panic end) →
  runs (m ≫= f) w Q.
Proof.
  unfold runs, mbind, io_bind. destruct (m w) as [[a|e|] w1]; cbn; intros [-> HQ]; done.
Qed.

Lemma runs_attempt {F A : Type} (m : io F A) w (Q : res E (res F A) → Prop) :
  runs m w (λ r, match r with Panic => Q Panic | r => Q (Ok r) end) → runs (attempt m) w Q.
Proof. unfold runs, attempt. by destruct (m w) as [[a|e|] w1]. Qed.

Lemma runs_eq {A : Type} (m : io E A) w r (Q : res E A → Prop) : m w = (r, w) → Q r → runs m w Q.
Proof. unfold runs. by intros ->. Qed.

Lemma runs_fold {A S : Type} (f : S → A → io E S) (P : list A → S → Prop) l s w (Q : res E S → Prop) :
  P [] s →
  (∀ done x s, x ∈ l → P done s → runs (f s x) w (λ r, ∃ s', r = Ok s' ∧ P (done ++ [x]) s')) →
  (∀ s, P l s → Q (Ok s)) →
  runs (io_fold f l s) w Q.
Proof.
  intros H0 Hstep Hend. assert (∀ rest done s, done ++ rest = l → P done s → runs (io_fold f rest s) w Q) as Hgo;
    [|by apply (Hgo l [])].
  induction rest as [|x rest IH]; intros done' s' Hl HP; cbn [io_fold].
  - rewrite app_nil_r in Hl. subst done'. by apply runs_ret, Hend.
  - apply runs_bind. destruct (Hstep done' x s') as [Hw (s'' & Hr & HP')]; [|done|].
    { rewrite <- Hl. apply elem_of_app. right. apply list_elem_of_here. }
    split; [done|]. rewrite Hr. apply (IH (done' ++ [x])); [by rewrite <- app_assoc|done].
Qed.
End runs.

Section still.
Context (w : World) (Hw : no_faults w).

Lemma still_may_fail : may_fail w = (Ok tt, w).
Proof. unfold may_fail, next_fault, mbind, io_bind. by rewrite Hw. Qed.

Lemma still_metadata p n : w_tree w !! p = Some n → fs_metadata p w = (Ok n, w).
Proof. intros Hp. unfold fs_metadata, mbind, io_bind, get. rewrite still_may_fail. by rewrite Hp. Qed.

Lemma still_is_dir {E : Type} p :
  fs_is_dir (E := E) p w = (Ok (is_dir_node (w_tree w !! p)), w).
Proof.
  unfold fs_is_dir, fs_test, attempt, fs_metadata, mbind, io_bind, get. rewrite still_may_fail.
  by destruct (w_tree w !! p) as [n|] eqn:Hp.
Qed.

Lemma still_read_dir dir :
  w_tree w !! dir = Some Dir →
  read_dir_sorted dir w = (Ok (join dir <$> merge_sort lex_le (children (w_tree w) dir)), w).
Proof.
  intros Hd. unfold read_dir_sorted, attempt, fs_read_dir, mbind, io_bind, get. rewrite still_may_fail.
  by rewrite Hd.
Qed.

Lemma still_read_to_string p c m :
  w_tree w !! p = Some (File c m) → read_to_string p w = (ok_or (from_utf8 c) InvalidData, w).
Proof.
  intros Hp. unfold read_to_string, fs_read, mbind, io_bind, get. rewrite still_may_fail. by rewrite Hp.
Qed.

(** The entries of a listing. *)
Lemma elem_of_listing dir q :
  q ∈ join dir <$> merge_sort lex_le (children (w_tree w) dir) ↔
  ∃ n, q = join dir n ∧ is_Some (w_tree w !! q).
Proof.
  rewrite list_elem_of_fmap. split.
  - intros (n & -> & Hn). exists n. split; [done|]. apply elem_of_children.
    by rewrite <- (merge_sort_Permutation lex_le).
  - intros (n & -> & Hn). exists n. split; [done|]. rewrite (merge_sort_Permutation lex_le).
    by apply elem_of_children.
Qed.
End still.

Lemma name_of_join p n : name_of (join p n) = n.
Proof. unfold name_of, file_name, join. by rewrite last_snoc. Qed.

Section clean.
Context `{Sha256} `{Xxh3} `{SerdeJson} `{Uuid} `{Rfc3339}.

(** The name of a record, or of a shard, of a version. *)
Definition names_record (n : str) (v : VersionId) : Prop :=
  ends_with TEMPORARY_SUFFIX n = false ∧ parse_record_file_name n = Some v.
Definition names_shard (n : str) (v : VersionId) (i : ShardIndex) : Prop :=
  ends_with TEMPORARY_SUFFIX n = false ∧ parse_record_file_name n = None
  ∧ parse_shard_file_name n = Some (v, i).

Definition holds_record (t : tree) (q : path) (r : MetadataRecord) : Prop :=
  ∃ c m text, t !! q = Some (File c m) ∧ from_utf8 c = Some text ∧ from_json text = Ok r.

Record clean_key (device : DeviceId) (max_age now : Z) (t : tree) (dir : path) : Prop := {
  ck_temporaries : ∀ n node, t !! join dir n = Some node → ends_with TEMPORARY_SUFFIX n = true →
    Z.max 0 (now - modified node) ≤ max_age;
  ck_hash : ∃ hash, hash_from_hex (name_of dir) = Ok (Some hash)
    ∧ (∀ n v, is_Some (t !! join dir n) → names_record n v →
         ∃ r i, holds_record t (join dir n) r ∧ r_key_hash r = hash ∧ shard_on r device = Some i
           ∧ (0 < r_size r → ∃ n', is_Some (t !! join dir n') ∧ names_shard n' v i))
    ∧ (∀ n v i, is_Some (t !! join dir n) → names_shard n v i →
         (∃ n', is_Some (t !! join dir n') ∧ names_record n' v)
         ∧ ∃ h blocks last size ock m,
             t !! join dir n = Some (File (shard_image h blocks last size ock) m)
             ∧ shard_ok h blocks last size ock
             ∧ sh_version h = v ∧ sh_index h = i ∧ sh_key_hash h = hash
             ∧ (∀ n' r, names_record n' v → holds_record t (join dir n') r → describes r h size ock));
}.

Record clean_device (d : Device) (max_age now : Z) (t : tree) : Prop := {
  cd_identity : is_Some (t !! join (d_root d) DEVICE_IDENTITY_FILE);
  cd_bucket : t !! bucket_path (d_root d) = Some Dir;
  cd_first : ∀ a, is_Some (t !! join (bucket_path (d_root d)) a) →
    t !! join (bucket_path (d_root d)) a = Some Dir;
  cd_second : ∀ a b, is_Some (t !! join (join (bucket_path (d_root d)) a) b) →
    t !! join (join (bucket_path (d_root d)) a) b = Some Dir;
  cd_keys : ∀ a b k, t !! join (join (join (bucket_path (d_root d)) a) b) k = Some Dir →
    clean_key (device_id d) max_age now t (join (join (join (bucket_path (d_root d)) a) b) k);
}.

Lemma holds_record_unique t q r r' : holds_record t q r → holds_record t q r' → r = r'.
Proof. intros (c & m & x & H1' & H2' & H3') (c' & m' & x' & H4' & H5' & H6'). congruence. Qed.

(** ** One key directory *)

Section key.
Context (d : Device) (options : ScrubOptions) (now : Z) (w : World) (Hw : no_faults w).
Context (dir : path) (Hdir : w_tree w !! dir = Some Dir).
Context (Hclean : clean_key (device_id d) (temporary_max_age options) now (w_tree w) dir).
Context (hash : KeyHash) (Hhash : hash_from_hex (name_of dir) = Ok (Some hash)).

Abbreviation t := (w_tree w).

(** What the loop over the entries has collected. *)
Record collected (done : list path) (st : ScrubSummary * scrub_records * scrub_shards) : Prop := {
  co_findings : findings st.1.1 = [];
  co_records : ∀ v p ro, (v, p, ro) ∈ st.1.2 →
    ∃ n r, p = join dir n ∧ is_Some (t !! p) ∧ names_record n v ∧ ro = Some r ∧ holds_record t p r;
  co_shards : ∀ v i p, (v, i, p) ∈ st.2 →
    ∃ n, p = join dir n ∧ is_Some (t !! p) ∧ names_shard n v i;
  co_all_records : ∀ n v, join dir n ∈ done → names_record n v → ∃ ro, (v, join dir n, ro) ∈ st.1.2;
  co_all_shards : ∀ n v i, join dir n ∈ done → names_shard n v i → (v, i, join dir n) ∈ st.2;
}.

Lemma join_inj a b : join dir a = join dir b → a = b.
Proof. unfold join. by intros [_ ?]%app_inj_tail. Qed.

Lemma clean_hash :
  (∀ n v, is_Some (t !! join dir n) → names_record n v →
     ∃ r i, holds_record t (join dir n) r ∧ r_key_hash r = hash ∧ shard_on r (device_id d) = Some i
       ∧ (0 < r_size r → ∃ n', is_Some (t !! join dir n') ∧ names_shard n' v i))
  ∧ (∀ n v i, is_Some (t !! join dir n) → names_shard n v i →
       (∃ n', is_Some (t !! join dir n') ∧ names_record n' v)
       ∧ ∃ h blocks last size ock m,
           t !! join dir n = Some (File (shard_image h blocks last size ock) m)
           ∧ shard_ok h blocks last size ock
           ∧ sh_version h = v ∧ sh_index h = i ∧ sh_key_hash h = hash
           ∧ (∀ n' r, names_record n' v → holds_record t (join dir n') r → describes r h size ock)).
Proof. destruct (ck_hash _ _ _ _ _ Hclean) as (hash' & Hh & ?). rewrite Hhash in Hh. by injection Hh as <-. Qed.

(** An entry that adds nothing to the lists. *)
Lemma collected_skip done st n :
  collected done st → (∀ v, ¬ names_record n v) → (∀ v i, ¬ names_shard n v i) →
  collected (done ++ [join dir n]) st.
Proof.
  intros [? ? ? Hr Hs] Hnr Hns. split; [done..| |].
  - intros n' v [? | <-%list_elem_of_singleton%join_inj]%elem_of_app Hn; [by apply Hr|by destruct (Hnr v)].
  - intros n' v i [? | <-%list_elem_of_singleton%join_inj]%elem_of_app Hn; [by apply Hs|by destruct (Hns v i)].
Qed.

Lemma collected_record done s records shards s' n v r :
  collected done (s, records, shards) → findings s' = [] → is_Some (t !! join dir n) → names_record n v →
  holds_record t (join dir n) r →
  collected (done ++ [join dir n]) (s', records ++ [(v, join dir n, Some r)], shards).
Proof.
  intros [_ Hr Hs Hra Hsa] Hf Hn Hv Hh. split; cbn [fst snd] in *; [done| |done| |].
  - intros v' p ro [?|Heq%list_elem_of_singleton]%elem_of_app; [by apply Hr|]. injection Heq as -> -> ->. by eexists n, r.
  - intros n' v' [? | ->%list_elem_of_singleton%join_inj]%elem_of_app Hn'.
    + destruct (Hra n' v') as [ro ?]; [done|done|]. exists ro. apply elem_of_app. by left.
    + destruct Hv as [_ Hv], Hn' as [_ Hn']. rewrite Hv in Hn'. injection Hn' as <-. eexists.
      apply elem_of_app. right. apply list_elem_of_here.
  - intros n' v' i [? | ->%list_elem_of_singleton%join_inj]%elem_of_app Hn'; [by apply Hsa|].
    destruct Hv as [_ Hv], Hn' as (_ & Hn' & _). congruence.
Qed.

Lemma collected_shard done s records shards n v i :
  collected done (s, records, shards) → is_Some (t !! join dir n) → names_shard n v i →
  collected (done ++ [join dir n]) (s, records, shards ++ [(v, i, join dir n)]).
Proof.
  intros [Hf Hr Hs Hra Hsa] Hn Hv. split; cbn [fst snd] in *; [done|done| | |].
  - intros v' i' p [?|Heq%list_elem_of_singleton]%elem_of_app; [by apply Hs|]. injection Heq as -> -> ->. by exists n.
  - intros n' v' [? | ->%list_elem_of_singleton%join_inj]%elem_of_app Hn'; [by apply Hra|].
    destruct Hv as (_ & Hv & _), Hn' as [_ Hn']. congruence.
  - intros n' v' i' [? | ->%list_elem_of_singleton%join_inj]%elem_of_app Hn'; apply elem_of_app;
      [left; by apply Hsa|right].
    destruct Hv as (_ & _ & Hv), Hn' as (_ & _ & Hn'). rewrite Hv in Hn'. injection Hn' as <- <-.
    apply list_elem_of_here.
Qed.

Lemma clean_check_record n v s :
  is_Some (t !! join dir n) → names_record n v → findings s = [] →
  ∃ s' r, check_record (join dir n) (Some hash) s w = (Ok (s', Some r), w)
    ∧ findings s' = [] ∧ holds_record t (join dir n) r.
Proof.
  intros Hn Hv Hs. destruct (proj1 clean_hash n v Hn Hv) as (r & i & Hr & Hk & _).
  pose proof Hr as (c & m & text & Hp & Hu & Hj). unfold check_record, attempt, mbind, io_bind.
  rewrite (still_read_to_string w Hw _ _ _ Hp), Hu. cbn [ok_or]. rewrite Hj.
  rewrite (bool_decide_eq_false_2 (Some (r_key_hash r) ≠ Some hash)), andb_false_r by (intros Hx; apply Hx; congruence).
  by eexists _, r.
Qed.

Lemma clean_entry done x st :
  (∃ n, x = join dir n ∧ is_Some (t !! x)) → collected done st →
  runs (scrub_entry options now (Some hash) st x) w (λ r, ∃ st', r = Ok st' ∧ collected (done ++ [x]) st').
Proof.
  intros (n & -> & Hn) Hco. destruct st as [[s records] shards]. unfold scrub_entry. rewrite name_of_join.
  destruct (ends_with TEMPORARY_SUFFIX n) eqn:Htmp.
  { assert (collected (done ++ [join dir n]) (s, records, shards)) as Hskip.
    { apply collected_skip; [done| |]; unfold names_record, names_shard; intros; rewrite Htmp; by intros [? _]. }
    destruct Hn as [node Hn]. apply runs_bind, runs_attempt.
    eapply runs_eq; [by apply still_metadata|]. cbn beta iota. apply runs_ret.
    pose proof (ck_temporaries _ _ _ _ _ Hclean n node Hn Htmp).
    destruct (Z.gtb_spec (Z.max 0 (now - modified node)) (temporary_max_age options)); [lia|by eexists]. }
  destruct (parse_record_file_name n) as [v|] eqn:Hrec.
  { assert (names_record n v) as Hv by done.
    destruct (clean_check_record n v (count_record s) Hn Hv) as (s' & r & Hrun & Hs' & Hr);
      [apply (co_findings _ _ Hco)|].
    apply runs_bind. eapply runs_eq; [exact Hrun|]. cbn beta iota. apply runs_ret. eexists. split; [done|].
    by eapply collected_record. }
  destruct (parse_shard_file_name n) as [[v i]|] eqn:Hsh; apply runs_ret; (eexists; split; [done|]).
  - by apply collected_shard.
  - apply collected_skip; [done| |]; unfold names_record, names_shard; intros; rewrite ?Hrec, ?Hsh; naive_solver.
Qed.

Lemma fold_left_id {A S : Type} (f : S → A → S) (l : list A) s :
  (∀ x, x ∈ l → f s x = s) → fold_left f l s = s.
Proof.
  induction l as [|x l IH]; [done|]. intros Hf. cbn [fold_left].
  rewrite Hf by apply list_elem_of_here. apply IH. intros y Hy. by apply Hf, list_elem_of_further.
Qed.

Abbreviation listing := (join dir <$> merge_sort lex_le (children (w_tree w) dir)).

Lemma listed n : is_Some (t !! join dir n) → join dir n ∈ listing.
Proof. intros Hn. apply elem_of_listing. by exists n. Qed.

(** Every record has its shard. *)
Lemma clean_match_record s records shards x :
  collected listing (s, records, shards) → x ∈ records →
  match_record (device_id d) shards s x = s.
Proof.
  intros Hco Hx. destruct x as [[v p] ro].
  destruct (co_records _ _ Hco v p ro Hx) as (n & r & -> & Hn & Hv & -> & Hr). unfold match_record.
  destruct (proj1 clean_hash n v Hn Hv) as (r' & i & Hr' & _ & Hi & Hs).
  rewrite (holds_record_unique _ _ _ _ Hr Hr'), Hi.
  destruct (Z.gtb_spec (r_size r') 0) as [Hpos|]; [|by rewrite andb_false_r].
  destruct Hs as (n' & Hn' & Hsh); [lia|].
  pose proof (co_all_shards _ _ Hco n' v i (listed n' Hn') Hsh) as Hin. cbn [snd] in Hin.
  replace (existsb _ shards) with true; [done|]. symmetry. apply existsb_exists.
  exists (v, i, join dir n'). split; [by apply list_elem_of_In|]. cbn [fst snd].
  by rewrite bool_decide_eq_true_2, Z.eqb_refl.
Qed.

(** Every shard has its record, and is what the record says. *)
Lemma clean_match_shard s s0 records shards x :
  collected listing (s0, records, shards) → x ∈ shards → findings s = [] →
  runs (match_shard records (Some hash) s x) w (λ r, ∃ s', r = Ok s' ∧ findings s' = []).
Proof.
  intros Hco Hx Hs. destruct x as [[v i] p].
  destruct (co_shards _ _ Hco v i p Hx) as (n & -> & Hn & Hsh).
  destruct (proj2 clean_hash n v i Hn Hsh) as [(n' & Hn' & Hv) (h & blocks & last & size & ock & m & Hp & Hok & <- & <- & Hkh & Hdesc)].
  unfold match_shard. destruct (co_all_records _ _ Hco n' _ (listed n' Hn') Hv) as [ro Hin].
  destruct (List.find _ records) as [[[v' p'] ro']|] eqn:Hfind.
  2: { apply list_elem_of_In in Hin. apply (List.find_none _ _ Hfind) in Hin.
       by apply bool_decide_eq_false in Hin. }
  apply List.find_some in Hfind as [Hin' Heq%bool_decide_eq_true]. cbn [fst] in Heq. subst v'.
  apply list_elem_of_In in Hin'.
  destruct (co_records _ _ Hco _ _ _ Hin') as (n2 & r & -> & _ & Hv2 & -> & Hr2).
  cbn [mbind option_bind snd].
  destruct (check_shard_damage h blocks blocks last size ock (join dir n) (Some hash) (Some r) (count_shard s) m w)
    as (s' & Hrun & Hf).
  - done.
  - done.
  - clear. induction blocks; by constructor.
  - done.
  - by intros e [= <-].
  - intros r0 [= <-]. by eapply Hdesc.
  - eapply runs_eq; [exact Hrun|]. exists s'. split; [done|]. rewrite Hf, undamaged, app_nil_r. exact Hs.
Qed.

Lemma clean_scrub_key s :
  findings s = [] → runs (scrub_key d options now s dir) w (λ r, ∃ s', r = Ok s' ∧ findings s' = []).
Proof.
  intros Hs. unfold scrub_key. pose proof Hhash as Hname. unfold name_of in Hname.
  destruct (file_name dir) as [n|] eqn:Hn; [|done]. cbn [default from_option id] in Hname. rewrite Hname.
  apply runs_bind. eapply runs_eq; [done|]. cbn beta iota.
  apply runs_bind. eapply runs_eq; [by apply still_read_dir|]. cbn beta iota.
  apply runs_bind. apply (runs_fold _ collected).
  - split; cbn [fst snd]; [done|by intros ??? ?%not_elem_of_nil|by intros ??? ?%not_elem_of_nil|by intros ?? ?%not_elem_of_nil|by intros ??? ?%not_elem_of_nil].
  - intros done' x st Hx Hco. apply clean_entry; [by apply elem_of_listing|done].
  - intros [[s' records] shards] Hco.
    rewrite (fold_left_id (match_record (device_id d) shards)) by (intros x Hx; by eapply clean_match_record).
    apply (runs_fold _ (λ _ s, findings s = [])).
    + apply (co_findings _ _ Hco).
    + intros done' x s'' Hx Hs''. by eapply clean_match_shard.
    + intros s'' Hs''. by exists s''.
Qed.
End key.

(** ** The device *)

Section device.
Context (d : Device) (options : ScrubOptions) (w : World) (Hw : no_faults w).
Context (Hclean : clean_device d (temporary_max_age options) (w_clock w) (w_tree w)).

Abbreviation bucket := (bucket_path (d_root d)).

(** A listed key directory. *)
Definition key_dir_of (q : path) : Prop :=
  ∃ a b k, q = join (join (join bucket a) b) k ∧ w_tree w !! q = Some Dir.

Lemma clean_key_directories :
  runs (key_directories d) w (λ r, ∃ dirs, r = Ok dirs ∧ Forall key_dir_of dirs).
Proof.
  unfold key_directories, read_bucket, bucket_directory.
  apply runs_bind, runs_bind, runs_bind, runs_attempt.
  eapply runs_eq; [apply still_metadata; [done|apply Hclean]|]. cbn beta iota. apply runs_ret.
  eapply runs_eq; [apply still_read_dir; [done|apply Hclean]|]. cbn beta iota.
  apply (runs_fold _ (λ _, Forall key_dir_of)); [constructor| |by eauto].
  intros _ first out (a & -> & Ha)%elem_of_listing Hout.
  apply runs_bind. eapply runs_eq; [apply still_read_dir; [done|by apply Hclean]|]. cbn beta iota.
  apply (runs_fold _ (λ _, Forall key_dir_of)); [done| |by eauto].
  intros _ second out2 (b & -> & Hb)%elem_of_listing Hout2.
  apply runs_bind. eapply runs_eq; [apply still_read_dir; [done|by apply Hclean]|]. cbn beta iota.
  apply (runs_fold _ (λ _, Forall key_dir_of)); [done| |by eauto].
  intros _ key_dir out3 (k & -> & Hk)%elem_of_listing Hout3.
  apply runs_bind. eapply runs_eq; [by apply still_is_dir|]. cbn beta iota. apply runs_ret.
  eexists. split; [done|]. destruct (w_tree w !! join (join (join bucket a) b) k) as [[|c m]|] eqn:Hq; cbn; [|done..].
  apply Forall_app. split; [done|]. repeat constructor. by exists a, b, k.
Qed.

Lemma clean_scrub_device : runs (scrub_device d options) w (λ r, ∃ s, r = Ok s ∧ findings s = []).
Proof.
  unfold scrub_device, unavailable. destruct (cd_identity _ _ _ _ Hclean) as [n Hn].
  apply runs_bind, runs_attempt, runs_bind. unfold check_present. apply runs_bind, runs_attempt.
  eapply runs_eq; [by apply still_metadata|]. cbn beta iota. apply runs_ret. cbn beta iota. apply runs_ret.
  cbn beta iota. apply runs_bind. eapply runs_eq; [done|]. cbn beta iota.
  apply runs_bind, runs_attempt. destruct clean_key_directories as [Hkw (dirs & Hk & Hdirs)].
  split; [done|]. rewrite Hk. apply (runs_fold _ (λ _ s, findings s = [])); [done| |by eauto].
  intros _ dir s Hdir Hs. rewrite Forall_forall in Hdirs. destruct (Hdirs dir Hdir) as (a & b & k & -> & Hd).
  pose proof (cd_keys _ _ _ _ Hclean a b k Hd) as Hck. destruct (ck_hash _ _ _ _ _ Hck) as (hash & Hh & _).
  by eapply clean_scrub_key.
Qed.
End device.

(** No false alarms: on a device that holds complete records in the
    directories of their keys, complete shards that match them, and no old
    temporaries, a scrub with no failing call ends with no finding. *)
Theorem scrub_clean_device (d : Device) (options : ScrubOptions) (w : World) :
  no_faults w → clean_device d (temporary_max_age options) (w_clock w) (w_tree w) →
  ∃ s, scrub_device d options w = (Ok s, w) ∧ findings s = [].
Proof.
  intros Hw Hc. destruct (clean_scrub_device d options w Hw Hc) as [Hst (s & Hr & Hs)].
  exists s. split; [|done]. destruct (scrub_device d options w) as [r w']. cbn [fst snd] in *. by subst.
Qed.
End clean.

(** ** Witnesses *)

Section witnesses.
#[local] Existing Instance poly_xxh3.
#[local] Existing Instance poly_sha256.
#[local] Existing Instance packed_json.
#[local] Existing Instance decimal_uuid.
#[local] Existing Instance decimal_time.

(** The shard of [record5] on [device5]. *)
Definition record_header : ShardFileHeader :=
  mkHeader (mkScheme 2 1) 0 4096 (r_key_hash (record5 3)) (r_version (record5 3)).

Lemma record_shard_ok : shard_ok record_header [[10; 20; 30]] 3 5 77.
Proof.
  split; [|lia|split; lia|by vm_compute|by vm_compute| |by vm_compute|by vm_compute].
  - split_and!; [by (split; vm_compute)|by vm_compute|by vm_compute|by (split; vm_compute)|apply poly_sha_ok|].
    split; [reflexivity|apply Forall_replicate; split; lia].
  - exists [], [10; 20; 30]. split_and!; [reflexivity|constructor|reflexivity|lia|cbn; lia].
Defined.

Definition key_dir5 : path := device_object_directory device5 (r_key_hash (record5 3)).
Definition record_name5 : str := record_file_name (r_version (record5 3)).
Definition shard_name5 : str := shard_file_name (r_version (record5 3)) 0.

(** [world5] with the identity file, and the shard as the writer leaves it. *)
Definition world6 : World :=
  mkWorld (<[join (d_root device5) DEVICE_IDENTITY_FILE := File [] 0]>
    (<[join key_dir5 shard_name5 := File (shard_image record_header [[10; 20; 30]] 3 5 77) 100]>
       (w_tree world5))) ∅ 100 7 1 [] [].

Lemma world6_ok : tree_ok (w_tree world6).
Proof. apply tree_okb_true. by vm_compute. Defined.

(** The names a listing of a concrete directory can have. *)
Lemma only_names (dir : path) (names : list str) n :
  bool_decide (Forall (λ x, x ∈ names) (children (w_tree world6) dir)) = true →
  is_Some (w_tree world6 !! join dir n) → n ∈ names.
Proof.
  intros Hall%bool_decide_eq_true Hn. rewrite Forall_forall in Hall. by apply Hall, elem_of_children.
Defined.

Lemma record6 : holds_record (w_tree world6) (join key_dir5 record_name5) (record5 3).
Proof. exists (as_bytes (text5 3)), 100, (text5 3). split_and!; by vm_compute. Defined.

Lemma world6_key : clean_key 101 (3600 * 10 ^ 9) 100 (w_tree world6) key_dir5.
Proof.
  assert (∀ n, is_Some (w_tree world6 !! join key_dir5 n) → n = record_name5 ∨ n = shard_name5) as Hnames.
  { intros n Hn. apply (only_names _ [record_name5; shard_name5]) in Hn; [|by vm_compute]. set_solver. }
  assert (ends_with TEMPORARY_SUFFIX record_name5 = false ∧ ends_with TEMPORARY_SUFFIX shard_name5 = false
    ∧ parse_record_file_name record_name5 = Some (r_version (record5 3))
    ∧ parse_record_file_name shard_name5 = None
    ∧ parse_shard_file_name shard_name5 = Some (r_version (record5 3), 0)) as (R1 & S1 & R2 & S2 & S3)
    by (split_and!; by vm_compute).
  assert (is_Some (w_tree world6 !! join key_dir5 record_name5)) as Hr by (destruct record6 as (? & ? & ? & Hx & _); exact (mk_is_Some _ _ Hx)).
  assert (w_tree world6 !! join key_dir5 shard_name5
    = Some (File (shard_image record_header [[10; 20; 30]] 3 5 77) 100)) as Hs.
  { unfold world6; cbn [w_tree]. rewrite lookup_insert_ne, lookup_insert_eq by (by vm_compute). done. }
  split.
  - intros n node Hn Htmp. destruct (Hnames n (mk_is_Some _ _ Hn)) as [->| ->]; congruence.
  - exists (r_key_hash (record5 3)). split; [by vm_compute|]. split.
    + intros n v Hn [Ht Hv]. destruct (Hnames n Hn) as [->| ->]; [|congruence].
      rewrite R2 in Hv. injection Hv as <-. exists (record5 3), 0. split_and!; [apply record6|reflexivity|vm_compute; reflexivity|].
      intros _. exists shard_name5. exact (conj (mk_is_Some _ _ Hs) (conj S1 (conj S2 S3))).
    + intros n v i Hn (Ht & Hv & Hi). destruct (Hnames n Hn) as [->| ->]; [congruence|].
      rewrite S3 in Hi. injection Hi as <- <-. split; [exists record_name5; exact (conj Hr (conj R1 R2))|].
      exists record_header, [[10; 20; 30]], 3, 5, 77, 100.
      split_and!; [exact Hs|apply record_shard_ok|reflexivity|reflexivity|reflexivity|].
      intros n' r Hn' Hr'. assert (is_Some (w_tree world6 !! join key_dir5 n')) as Hin
        by (destruct Hr' as (? & ? & ? & Hx & _); exact (mk_is_Some _ _ Hx)).
      destruct (Hnames n' Hin) as [->| ->]; [|destruct Hn'; congruence].
      rewrite (holds_record_unique _ _ _ _ Hr' record6). split_and!; reflexivity.
Defined.

Lemma world6_clean : clean_device device5 (3600 * 10 ^ 9) 100 (w_tree world6).
Proof.
  set (b := bucket_path (d_root device5)).
  assert (∀ a, is_Some (w_tree world6 !! join b a) → a = lit "00") as Ha.
  { intros a Ha. apply (only_names _ [lit "00"]) in Ha; [|by vm_compute]. set_solver. }
  assert (∀ x, is_Some (w_tree world6 !! join (join b (lit "00")) x) → x = lit "00") as Hb.
  { intros x Hx. apply (only_names _ [lit "00"]) in Hx; [|by vm_compute]. set_solver. }
  assert (∀ k, is_Some (w_tree world6 !! join (join (join b (lit "00")) (lit "00")) k) → k = name_of key_dir5) as Hk.
  { intros k Hk. apply (only_names _ [name_of key_dir5]) in Hk; [|by vm_compute]. set_solver. }
  assert (∀ q n, is_Some (w_tree world6 !! join q n) → is_Some (w_tree world6 !! q)) as Hup
    by (intros q n Hq; exact (mk_is_Some _ _ (world6_ok q n Hq))).
  split.
  - exists (File [] 0). by vm_compute.
  - by vm_compute.
  - intros a ->%Ha. by vm_compute.
  - intros a x Hx. pose proof (Hup _ _ Hx) as ->%Ha. apply Hb in Hx as ->. by vm_compute.
  - intros a x k Hkd. fold b in Hkd. assert (is_Some (w_tree world6 !! join (join (join b a) x) k)) as Hks by exact (mk_is_Some _ _ Hkd).
    pose proof (Hup _ _ Hks) as Hx. pose proof (Hup _ _ Hx) as ->%Ha. apply Hb in Hx as ->. apply Hk in Hks as ->.
    exact world6_key.
Defined.

Lemma scrub_clean_device_witness : ∃ s, scrub_device device5 default_options world6 = (Ok s, world6) ∧ findings s = [].
Proof. exact (scrub_clean_device device5 default_options world6 eq_refl world6_clean). Defined.

(** One byte of the block changed: stripe 0 is reported. *)
Definition world7 : World :=
  mkWorld {[ [lit "s"] := File (damaged_image record_header [[10; 20; 30]] 3 5 77 [[10; 21; 30]]) 100 ]} ∅ 100 7 1 [] [].

Lemma scrub_reports_damage_witness :
  ∃ s', check_shard [lit "s"] (sh_version record_header) (sh_index record_header) None (Some (record5 3))
          (mkSummary None 0 0 0 0 []) world7 = (Ok s', world7)
    ∧ findings s' = [ShardBlocksCorrupt [lit "s"] (Some (lit "a")) (r_version (record5 3)) 0 [0]].
Proof.
  destruct (scrub_reports_damage record_header [[10; 20; 30]] [[10; 21; 30]] 3 5 77 [lit "s"] None (Some (record5 3))
    (mkSummary None 0 0 0 0 []) 100 world7) as (s' & Hrun & Hf).
  - done.
  - apply record_shard_ok.
  - by repeat constructor.
  - apply lookup_singleton_eq.
  - done.
  - intros r [= <-]. by vm_compute.
  - exists s'. split; [exact Hrun|]. rewrite Hf. by vm_compute.
Defined.
End witnesses.
