(* ===== verification/Frame.v ===== *)
(** [frame.rs]: the 12-byte frame header and its payload, and the reader of
    frames from a byte stream ([djbod-client/src/wire.rs]).

    [usize] is 64 bits.  Indexing is by [slice]: every read is of the first
    twelve bytes, after the length test that guards it. *)

From S2P Require Import Prelude.

Module Frame.

Definition HEADER_LEN : nat := 12.
Definition MAX_PAYLOAD_LEN : Z := 64 * 1024 * 1024 + 4096.

Inductive MessageType := Hello | Request | Response | Data | EndOfStream.

#[global] Instance MessageType_eq_dec : EqDecision MessageType.
Proof. solve_decision. Defined.

(** [message_type as u16] *)
Definition to_u16 (t : MessageType) : Z :=
  match t with Hello => 1 | Request => 2 | Response => 3 | Data => 4 | EndOfStream => 5 end.

Definition from_u16 (value : Z) : option MessageType :=
  if value =? 1 then Some Hello
  else if value =? 2 then Some Request
  else if value =? 3 then Some Response
  else if value =? 4 then Some Data
  else if value =? 5 then Some EndOfStream
  else None.

Record FrameHeader := mkHeader {
  message_type : MessageType;
  flags : Z;
  request_id : Z;
  payload_len : Z;
}.

Record Frame := mkFrame { header : FrameHeader; payload : list Z }.

Inductive FrameError :=
| Incomplete (have needed : Z)
| UnknownMessageType (t : Z)
| PayloadTooLarge (n : Z)
| UnknownFlags (f : Z).

Definition FrameHeader_encode (h : FrameHeader) : list Z :=
  le_bytes 2 (to_u16 (message_type h)) ++ le_bytes 2 (flags h)
  ++ le_bytes 4 (request_id h) ++ le_bytes 4 (payload_len h).

Definition FrameHeader_decode (bytes : list Z) : res FrameError FrameHeader :=
  _ ← ensure (negb (length bytes <? HEADER_LEN)%nat)
        (Incomplete (Z.of_nat (length bytes)) (Z.of_nat HEADER_LEN));
  let raw_type := of_le (slice 0 2 bytes) in
  message_type ← ok_or (from_u16 raw_type) (UnknownMessageType raw_type);
  let flags := of_le (slice 2 2 bytes) in
  _ ← ensure (flags =? 0) (UnknownFlags flags);
  let request_id := of_le (slice 4 4 bytes) in
  let payload_len := of_le (slice 8 4 bytes) in
  _ ← ensure (negb (payload_len >? MAX_PAYLOAD_LEN)) (PayloadTooLarge payload_len);
  Ok (mkHeader message_type flags request_id payload_len).

Definition Frame_new (t : MessageType) (id : Z) (payload : list Z) : Frame :=
  mkFrame (mkHeader t 0 id (wrap 32 (Z.of_nat (length payload)))) payload.

Definition Frame_encode (f : Frame) : list Z := FrameHeader_encode (header f) ++ payload f.

Definition Frame_decode (bytes : list Z) : res FrameError (Frame * nat) :=
  header ← FrameHeader_decode bytes;
  let total := (HEADER_LEN + Z.to_nat (payload_len header))%nat in
  _ ← ensure (negb (length bytes <? total)%nat) (Incomplete (Z.of_nat (length bytes)) (Z.of_nat total));
  Ok (mkFrame header (slice HEADER_LEN (total - HEADER_LEN) bytes), total).

(** ** The stream reader

    The reader owns the bytes that have arrived on the connection before its
    end; [read_exact] takes from the front or finds the end. *)

Inductive WireError :=
| Closed
| WireEof
| WireFrame (e : FrameError).

Definition read_frame (stream : list Z) : res WireError (Frame * list Z) :=
  _ ← ensure (negb (length stream <? HEADER_LEN)%nat) Closed;
  header ← map_err WireFrame (FrameHeader_decode (take HEADER_LEN stream));
  let rest := drop HEADER_LEN stream in
  let n := Z.to_nat (payload_len header) in
  _ ← ensure (negb (length rest <? n)%nat) WireEof;
  Ok (mkFrame header (take n rest), drop n rest).

(** ** Lemmas *)

Lemma from_to_u16 t : from_u16 (to_u16 t) = Some t.
Proof. by destruct t. Qed.

Lemma to_from_u16 v t : from_u16 v = Some t → v = to_u16 t.
Proof.
  unfold from_u16. intros Hv.
  repeat match type of Hv with context [?v =? ?n] =>
    destruct (Z.eqb_spec v n) as [->|_]; [by injection Hv as <-|] end. done.
Qed.

(** A frame a peer may send. *)
Record frame_ok (f : Frame) : Prop := {
  fo_flags : flags (header f) = 0;
  fo_id : is_u32 (request_id (header f));
  fo_len : payload_len (header f) = Z.of_nat (length (payload f));
  fo_max : Z.of_nat (length (payload f)) ≤ MAX_PAYLOAD_LEN;
}.

Lemma Frame_new_ok t id p :
  is_u32 id → Z.of_nat (length p) ≤ MAX_PAYLOAD_LEN → frame_ok (Frame_new t id p).
Proof.
  intros Hid Hp. unfold MAX_PAYLOAD_LEN in Hp. split; cbn; [done|done| |done].
  unfold wrap. rewrite Z.mod_small; lia.
Qed.

Lemma length_frame_header_encode h : length (FrameHeader_encode h) = HEADER_LEN.
Proof. unfold FrameHeader_encode. by rewrite !length_app, !length_le_bytes. Qed.

Lemma le_field n m z (a c : list Z) :
  length a = m → 0 ≤ z < 256 ^ Z.of_nat n → of_le (slice m n (a ++ le_bytes n z ++ c)) = z.
Proof.
  intros <- Hz. rewrite slice_app_r by lia. rewrite Nat.sub_diag.
  rewrite slice_app_l by (rewrite length_le_bytes; lia).
  replace (slice 0 n (le_bytes n z)) with (le_bytes n z)
    by (rewrite <- (length_le_bytes n z) at 2; by rewrite slice_all).
  by apply of_le_bytes.
Qed.

Lemma frame_header_roundtrip f rest :
  frame_ok f → FrameHeader_decode (FrameHeader_encode (header f) ++ rest) = Ok (header f).
Proof.
  intros [Hf Hi Hl Hm]. destruct f as [[t fl id n] p]. cbn [header payload flags request_id payload_len] in *. subst fl. unfold MAX_PAYLOAD_LEN in Hm.
  unfold is_uint in Hi. unfold FrameHeader_decode. cbn [header]. rewrite length_app, length_frame_header_encode.
  unfold FrameHeader_encode; cbn [message_type flags request_id payload_len].
  replace (HEADER_LEN + length rest <? HEADER_LEN)%nat with false by (symmetry; apply Nat.ltb_ge; lia).
  cbn [negb ensure mbind res_bind]. rewrite <- !app_assoc.
  pose proof (le_field 2 0 (to_u16 t) [] (le_bytes 2 0 ++ le_bytes 4 id ++ le_bytes 4 n ++ rest)
    eq_refl ltac:(destruct t; cbn; lia)) as H0. rewrite app_nil_l in H0. rewrite H0.
  pose proof (le_field 2 2 0 (le_bytes 2 (to_u16 t)) (le_bytes 4 id ++ le_bytes 4 n ++ rest)
    (length_le_bytes _ _) ltac:(lia)) as H2. rewrite H2.
  pose proof (le_field 4 4 id (le_bytes 2 (to_u16 t) ++ le_bytes 2 0) (le_bytes 4 n ++ rest)
    eq_refl ltac:(lia)) as H4. rewrite <- !app_assoc in H4. rewrite H4.
  pose proof (le_field 4 8 n (le_bytes 2 (to_u16 t) ++ le_bytes 2 0 ++ le_bytes 4 id) rest
    eq_refl ltac:(lia)) as H8. rewrite <- !app_assoc in H8. rewrite H8.
  rewrite from_to_u16. cbn [ok_or mbind res_bind Z.eqb ensure].
  replace (n >? MAX_PAYLOAD_LEN) with false by (unfold MAX_PAYLOAD_LEN; lia). done.
Qed.

(** What a header that decodes looks like on the wire. *)
Lemma frame_header_decode_sound bytes h :
  bytes_ok bytes → FrameHeader_decode bytes = Ok h →
  (HEADER_LEN ≤ length bytes)%nat ∧ FrameHeader_encode h = take HEADER_LEN bytes
  ∧ flags h = 0 ∧ is_u32 (request_id h) ∧ 0 ≤ payload_len h ≤ MAX_PAYLOAD_LEN.
Proof.
  intros Hb Hd. unfold FrameHeader_decode in Hd. inv_ok Hd. rewrite ensure_Ok in *. rewrite ok_or_Ok in *.
  injection Hd as <-. cbn [message_type flags request_id payload_len].
  repeat match goal with H : negb _ = true |- _ => apply negb_true_iff in H end.
  match goal with H : (_ <? _)%nat = false |- _ => apply Nat.ltb_ge in H; rename H into Hlen end.
  match goal with H : from_u16 _ = Some _ |- _ => apply to_from_u16 in H; rename H into Ht end.
  unfold HEADER_LEN in *.
  assert (∀ o n, (o + n ≤ 12)%nat → length (slice o n bytes) = n ∧ bytes_ok (slice o n bytes)) as Hs.
  { intros o n Hon. split; [|by apply Forall_slice]. unfold slice. rewrite length_take, length_drop. lia. }
  assert (∀ o n, (o + n ≤ 12)%nat → le_bytes n (of_le (slice o n bytes)) = slice o n bytes) as Hle.
  { intros o n Hon. destruct (Hs o n Hon) as [Hl Hok]. rewrite <- Hl at 1. by apply le_bytes_of_le. }
  split_and!; [lia| |lia| | |lia].
  - unfold FrameHeader_encode. cbn [message_type flags request_id payload_len].
    rewrite <- Ht, !Hle by lia.
    rewrite (slice_cat 4 4 4), (slice_cat 2 2 8), (slice_cat 0 2 10). unfold slice. by rewrite drop_0.
  - destruct (Hs 4%nat 4%nat) as [Hl Hok]; [lia|]. pose proof (of_le_range _ Hok) as Hr. by rewrite Hl in Hr.
  - destruct (Hs 8%nat 4%nat) as [_ Hok]; [lia|]. pose proof (of_le_range _ Hok) as Hr. lia.
Qed.

Lemma length_encode f : length (Frame_encode f) = (HEADER_LEN + length (payload f))%nat.
Proof. unfold Frame_encode. by rewrite length_app, length_frame_header_encode. Qed.

Lemma read_frame_encode f rest : frame_ok f → read_frame (Frame_encode f ++ rest) = Ok (f, rest).
Proof.
  intros Hf. unfold read_frame. rewrite length_app, length_encode.
  replace (_ <? HEADER_LEN)%nat with false by (symmetry; apply Nat.ltb_ge; lia).
  cbn [negb ensure mbind res_bind]. unfold Frame_encode. rewrite <- app_assoc.
  rewrite take_app_length', drop_app_length' by (by rewrite length_frame_header_encode).
  pose proof (frame_header_roundtrip f [] Hf) as Hh. rewrite app_nil_r in Hh. rewrite Hh. cbn [map_err mbind res_bind].
  rewrite (fo_len _ Hf), Nat2Z.id, length_app.
  replace (_ <? length (payload f))%nat with false by (symmetry; apply Nat.ltb_ge; lia).
  cbn [negb ensure mbind res_bind]. rewrite take_app_length, drop_app_length. by destruct f.
Qed.

Lemma Frame_decode_encode f rest :
  frame_ok f → Frame_decode (Frame_encode f ++ rest) = Ok (f, length (Frame_encode f)).
Proof.
  intros Hf. unfold Frame_decode.
  assert (Frame_encode f ++ rest = FrameHeader_encode (header f) ++ payload f ++ rest) as ->
    by (unfold Frame_encode; by rewrite <- app_assoc).
  rewrite frame_header_roundtrip by done.
  cbn [mbind res_bind]. rewrite (fo_len _ Hf), Nat2Z.id, !length_app, length_encode, length_frame_header_encode.
  replace (_ <? _)%nat with false by (symmetry; apply Nat.ltb_ge; lia). cbn [negb ensure mbind res_bind].
  do 2 f_equal. rewrite (Nat.add_comm HEADER_LEN), Nat.add_sub.
  rewrite slice_app_r by (by rewrite length_frame_header_encode). rewrite length_frame_header_encode, Nat.sub_diag.
  rewrite slice_app_l, slice_all by lia. by destruct f.
Qed.

(** Reading frames until the stream is used up or broken. *)
Fixpoint read_frames (n : nat) (stream : list Z) : list Frame * option WireError :=
  match n with
  | O => ([], None)
  | S n =>
      match read_frame stream with
      | Ok (f, rest) => let '(l, e) := read_frames n rest in (f :: l, e)
      | Err e => ([], Some e)
      | Panic => ([], None)
      end
  end.

(** ** Properties *)

(** Framing is self-delimiting: a frame with its length in range, written
    to the wire and followed by anything, decodes to itself and to exactly the
    number of bytes it occupied; fewer bytes than that give [Incomplete] with
    the number the header, or the whole frame, needs, so the caller knows how
    much to fetch. *)
Theorem frame_roundtrip (f : Frame) :
  frame_ok f →
  (∀ rest, Frame_decode (Frame_encode f ++ rest) = Ok (f, length (Frame_encode f)))
  ∧ (∀ n, (n < length (Frame_encode f))%nat →
       Frame_decode (take n (Frame_encode f))
       = Err (Incomplete (Z.of_nat n)
                (Z.of_nat (if (n <? HEADER_LEN)%nat then HEADER_LEN else length (Frame_encode f))))).
Proof.
  intros Hf. split.
  - intros rest. by apply Frame_decode_encode.
  - intros n Hn. rewrite length_encode in *. unfold Frame_decode.
    assert (length (take n (Frame_encode f)) = n) as Hl by (rewrite length_take, length_encode; lia).
    destruct (Nat.ltb_spec n HEADER_LEN) as [Hs|Hs].
    + unfold FrameHeader_decode. rewrite Hl. by replace (n <? HEADER_LEN)%nat with true
        by (symmetry; by apply Nat.ltb_lt).
    + unfold Frame_encode. rewrite take_app_ge by (by rewrite length_frame_header_encode).
      rewrite frame_header_roundtrip by done. cbn [mbind res_bind].
      rewrite length_app, length_frame_header_encode, length_take, (fo_len _ Hf), Nat2Z.id.
      replace (HEADER_LEN + _ <? _)%nat with true by (symmetry; apply Nat.ltb_lt; lia).
      cbn [negb ensure mbind res_bind]. do 2 f_equal. lia.
Qed.

(** The decoder accepts exactly what the encoder writes: a frame it
    returns is within the size limit, has zero flags, and the bytes consumed
    are its own encoding. *)
Theorem frame_decode_sound (bytes : list Z) (f : Frame) (total : nat) :
  bytes_ok bytes → Frame_decode bytes = Ok (f, total) →
  frame_ok f ∧ (total ≤ length bytes)%nat ∧ Frame_encode f = take total bytes.
Proof.
  intros Hb Hd. unfold Frame_decode in Hd. inv_ok Hd. rewrite ensure_Ok in *.
  match goal with H : FrameHeader_decode _ = Ok ?x |- _ =>
    destruct (frame_header_decode_sound _ _ Hb H) as (Hlen & Henc & Hfl & Hid & Hmax); set (h := x) in * end.
  match goal with H : negb _ = true |- _ => apply negb_true_iff, Nat.ltb_ge in H; rename H into Htot end.
  set (n := Z.to_nat (payload_len h)) in *.
  assert (f = mkFrame h (slice HEADER_LEN (HEADER_LEN + n - HEADER_LEN) bytes) ∧ total = (HEADER_LEN + n)%nat)
    as [-> ->] by (split; congruence).
  replace (HEADER_LEN + n - HEADER_LEN)%nat with n by lia.
  assert (length (slice HEADER_LEN n bytes) = n) as Hsl.
  { unfold slice. rewrite length_take, length_drop. lia. }
  split_and!.
  - split; cbn [header payload]; [done|done| |]; rewrite Hsl; unfold n; lia.
  - lia.
  - unfold Frame_encode. cbn [header payload]. rewrite Henc.
    unfold slice. apply take_take_drop.
Qed.

(** A sequence of frames sent one after another on a connection is
    received as the same sequence, and the reader then sees a clean close. *)
Theorem stream_roundtrip (fs : list Frame) :
  Forall frame_ok fs →
  read_frames (S (length fs)) (fs ≫= Frame_encode) = (fs, Some Closed).
Proof.
  induction 1 as [|f fs Hf _ IH]; [done|]. rewrite bind_cons.
  change (length (f :: fs)) with (S (length fs)). remember (S (length fs)) as n.
  cbn [read_frames]. rewrite read_frame_encode by done. by rewrite IH.
Qed.

(** ** Witnesses *)

Definition frame3 : Frame := Frame_new Data 7 [1; 2; 3].

Lemma frame3_ok : frame_ok frame3.
Proof. apply Frame_new_ok; [split; lia|cbn; unfold MAX_PAYLOAD_LEN; lia]. Defined.

Lemma frame_roundtrip_witness : Frame_decode (Frame_encode frame3 ++ [9]) = Ok (frame3, 15%nat).
Proof. apply (frame_roundtrip frame3 frame3_ok). Defined.

Lemma frame_decode_sound_witness : frame_ok frame3 ∧ (15 ≤ 16)%nat ∧ Frame_encode frame3 = take 15 (Frame_encode frame3 ++ [9]).
Proof.
  apply (frame_decode_sound (Frame_encode frame3 ++ [9]) frame3 15); [|by vm_compute].
  apply (bool_decide_unpack _). by vm_compute.
Defined.

Lemma stream_roundtrip_witness : read_frames 3 ([frame3; frame3] ≫= Frame_encode) = ([frame3; frame3], Some Closed).
Proof. apply (stream_roundtrip [frame3; frame3]). by repeat (constructor; [apply frame3_ok|]). Defined.

End Frame.
