(* ===== verification/Handshake.v ===== *)
(** [handshake.rs]: the [Hello] each side sends first, and the checks a node
    applies to it. *)

From S2P Require Import Prelude Text Record Cluster.

Module Handshake.

Definition PROTOCOL_VERSION : Z := 1.

Inductive PeerKind := Node | Client.
#[global] Instance PeerKind_eq_dec : EqDecision PeerKind.
Proof. solve_decision. Defined.

Record Hello := mkHello {
  protocol_version : Z;
  kind : PeerKind;
  node_id : option NodeId;
  cluster_id : Z;
  document_version : Z;
  build : str;
  cluster_name : option str;
}.

Inductive HelloError :=
| ProtocolVersion (peer ours : Z)
| ClusterId (peer ours : Z)
| DocumentVersion (peer ours : Z)
| NodeIdMissing.

(** The nil UUID is 0. *)
Definition asks_cluster_id (h : Hello) : bool :=
  bool_decide (kind h = Client) && (cluster_id h =? 0).

Definition check_against (h : Hello) (our_cluster_id our_document_version : Z) : res HelloError unit :=
  _ ← ensure (protocol_version h =? PROTOCOL_VERSION) (ProtocolVersion (protocol_version h) PROTOCOL_VERSION);
  _ ← ensure (negb (negb (cluster_id h =? our_cluster_id) && negb (asks_cluster_id h)))
        (ClusterId (cluster_id h) our_cluster_id);
  if decide (kind h = Node) then
    _ ← ensure (bool_decide (is_Some (node_id h))) NodeIdMissing;
    ensure (document_version h =? our_document_version) (DocumentVersion (document_version h) our_document_version)
  else Ok tt.

(** Who gets in: a node only with this protocol version, this cluster's
    id, its own node id and the same document version; a client with this
    protocol version and either this cluster's id or the nil id that asks for
    it.  No node enters on the nil id, since a cluster's own id is not nil. *)
Theorem hello_accepted_iff (h : Hello) (our_cluster_id our_document_version : Z) :
  our_cluster_id ≠ 0 →
  check_against h our_cluster_id our_document_version = Ok tt ↔
    protocol_version h = PROTOCOL_VERSION ∧
    match kind h with
    | Node => cluster_id h = our_cluster_id ∧ is_Some (node_id h)
              ∧ document_version h = our_document_version
    | Client => cluster_id h = our_cluster_id ∨ cluster_id h = 0
    end.
Proof.
  intros Hnil. unfold check_against, asks_cluster_id. rewrite !ensure_bind_Ok, Z.eqb_eq.
  destruct (kind h); cbn [decide PeerKind_eq_dec].
  - rewrite decide_True, ensure_bind_Ok, ensure_Ok, bool_decide_eq_true, !negb_true_iff, andb_false_iff, !negb_false_iff by done.
    rewrite (bool_decide_eq_false_2 (Node = Client)) by done. cbn [andb]. rewrite !Z.eqb_eq. intuition congruence.
  - rewrite decide_False, !negb_true_iff, andb_false_iff, !negb_false_iff by done.
    rewrite (bool_decide_eq_true_2 (Client = Client)) by done. cbn [andb]. rewrite !Z.eqb_eq. intuition.
Qed.

Lemma hello_accepted_iff_witness :
  check_against (mkHello 1 Client None 0 0 [] None) 193 4 = Ok tt ↔ 1 = PROTOCOL_VERSION ∧ (0 = 193 ∨ 0 = 0).
Proof. apply (hello_accepted_iff (mkHello 1 Client None 0 0 [] None) 193 4). lia. Defined.

End Handshake.
