(* ===== verification/Message.v ===== *)
(** [message.rs] and [codec.rs]: every message of the protocol, and how each
    maps onto a frame.

    The structures and enumerations are those of the source, field by field.
    CBOR is a library: the interface [Cbor] is its encoder and decoder for a
    type, and [cbor_correct] the round trip the program relies on. *)

From S2P Require Import Prelude Text Checksum KeyHash VersionId Erasure Stripe Layout FileSystem ShardFile Record Device Cluster Scrub Frame Handshake.

(** [codec.rs]: the library's encoder may refuse a value. *)
Class Cbor (A : Type) := {
  encode_cbor : A → option (list Z);
  decode_cbor : list Z → option A;
}.

Definition cbor_correct {A : Type} `{Cbor A} : Prop :=
  ∀ a b, encode_cbor a = Some b → decode_cbor b = Some a.

Module Message.

Inductive ErrorCode :=
| NodeUnreachable
| DeviceUnavailable
| BlockChecksumMismatch
| ObjectChecksumMismatch
| RecordsInconsistent
| KeyMismatch
| NotFound
| InsufficientDevices
| WriteFailed
| DocumentVersionMismatch
| KeyTooLong
| ObjectTooLarge
| MetadataTooLarge
| ProtocolViolation
| Unauthorised
| TlsRequired
| Internal.

#[global] Instance ErrorCode_eq_dec : EqDecision ErrorCode.
Proof. solve_decision. Defined.

Record ErrorDetail := mkDetail {
  e_code : ErrorCode;
  e_message : str;
  e_node : option NodeId;
  e_device : option DeviceId;
  e_key : option str;
  e_version : option VersionId;
  e_shard_index : option Z;
  e_stripe : option Z;
}.

Definition ErrorDetail_new (code : ErrorCode) (message : str) : ErrorDetail :=
  mkDetail code message None None None None None None.

Definition MAX_LIST_PAGE_BYTES : Z := 8 * 1024 * 1024.

Record RecordCursor := mkRecordCursor { rc_key_hash : KeyHash; rc_version : VersionId }.
Record DeviceRecord := mkDeviceRecord { dr_record : MetadataRecord; dr_shard_present : bool }.
Record LookupCursor := mkLookupCursor { lc_version : VersionId; lc_device : DeviceId }.

Record ListQuery := mkListQuery {
  q_prefix : option str;
  q_start_after : option str;
  q_limit : option Z;
}.

Inductive ObjectState := Whole | DegradedParity | DegradedData | Unreadable | Inconsistent.
#[global] Instance ObjectState_eq_dec : EqDecision ObjectState.
Proof. solve_decision. Defined.

Record InventoryQuery := mkInventoryQuery { iq_keys : option ObjectState }.

Inductive Request :=
| Status
| ReqDeviceContents (device : DeviceId)
| PutObject (key : str) (size : Z) (content_type : option str) (user_metadata : list (str * str))
| GetObject (key : str)
| HeadObject (key : str)
| DeleteObject (key : str)
| ListKeys (q : ListQuery)
| RepairObject (key : str)
| MoveShard (key : str) (shard_index : Z) (target : option DeviceId)
| Scrub (max_bytes_per_second : option Z) (repair : bool)
| Drain (device : DeviceId) (partial : bool)
| Inventory (q : InventoryQuery)
| LocalStatus
| LocalLookup (key_hash : KeyHash) (after : option LookupCursor)
| LocalList (q : ListQuery)
| LocalRecords (device : DeviceId) (after : option RecordCursor)
| LocalDeviceContents (device : DeviceId)
| PutShard (device : DeviceId) (key_hash : KeyHash) (version : VersionId) (shard_index k m : Z)
    (block_length object_size : Z)
| LocalScrub (max_bytes_per_second : option Z)
| GetShard (device : DeviceId) (key_hash : KeyHash) (version : VersionId) (shard_index : Z)
    (first_block block_count : Z)
| PutMeta (device : DeviceId) (record : MetadataRecord)
| GetMeta (device : DeviceId) (key_hash : KeyHash) (version : VersionId) (probe : bool)
| DeleteVersion (device : DeviceId) (key_hash : KeyHash) (version : VersionId)
| AbortShard (device : DeviceId) (key_hash : KeyHash) (version : VersionId) (shard_index : Z)
| GetClusterConfig
| ApplyClusterConfig (document : ClusterDocument).

Record DeviceContents := mkContents {
  dc_device : DeviceId; dc_node : NodeId; dc_state : DeviceState;
  dc_versions : Z; dc_keys : Z; dc_blocks : Z; dc_shard_bytes : Z;
}.

Record DeviceCounts := mkCounts { ct_versions : Z; ct_keys : Z; ct_blocks : Z; ct_shard_bytes : Z }.

Record NodeStatus := mkNodeStatus {
  ns_node : NodeId; ns_state : NodeState; ns_reachable : bool;
  ns_build : option str; ns_error : option str;
}.

Record DeviceStatus := mkDeviceStatus {
  ds_device : DeviceId; ds_node : NodeId; ds_state : DeviceState; ds_available : bool;
  ds_label : option str; ds_node_label : option str; ds_total_bytes : Z; ds_free_bytes : Z;
}.

Record KeyEntry := mkKeyEntry { ke_key : str; ke_size : Z; ke_version : VersionId }.
#[global] Instance KeyEntry_eq_dec : EqDecision KeyEntry.
Proof. solve_decision. Defined.

Inductive ShardCondition :=
| Intact
| CondUnreadable (reason : str)
| CorruptBlocks (stripes : list Z)
| Lost.

Record ShardRepair := mkShardRepair {
  sp_index : Z; sp_device : DeviceId; sp_condition : ShardCondition; sp_rewritten : bool;
  sp_relocated_to : option DeviceId;
}.

Record RepairReport := mkRepairReport {
  rr_key : str; rr_version : VersionId; rr_shards : list ShardRepair;
  rr_record_copies_rewritten : list DeviceId; rr_stale_copies_removed : list DeviceId;
}.

Record LocatedRecord := mkLocated { lr_device : DeviceId; lr_record : MetadataRecord }.
#[global] Instance LocatedRecord_eq_dec : EqDecision LocatedRecord.
Proof. solve_decision. Defined.

Record UnavailableDevice := mkUnavailable { ud_device : DeviceId; ud_node : NodeId }.

Inductive RecordCopyFault :=
| CopyMissing
| CopyStale (revision : Z)
| CopyUnavailable (reason : str).

Record MissingRecordCopy := mkMissing { mc_device : DeviceId; mc_fault : RecordCopyFault }.

Record Reconstruction := mkReconstruction {
  rn_shard_index : Z; rn_device : DeviceId; rn_fault : FaultKind; rn_first_stripe : Z; rn_stripes : Z;
}.

Record ObjectWrite := mkObjectWrite { ow_version : VersionId; ow_unavailable : list UnavailableDevice }.
Record ObjectRead := mkObjectRead {
  or_record : MetadataRecord; or_reconstructed : list Reconstruction;
  or_missing_records : list MissingRecordCopy;
}.

Inductive Response :=
| RespError (detail : ErrorDetail)
| RespStatus (cluster_id : Z) (cluster_name : option str) (document_version : Z) (coordinator : NodeId)
    (nodes : list NodeStatus) (transport : Transport) (devices : list DeviceStatus)
| RespDeviceContents (c : DeviceContents)
| RespPutObject (version : VersionId) (unavailable : list UnavailableDevice)
| RespGetObject (record : MetadataRecord)
| RespHeadObject (record : MetadataRecord) (missing_records : list MissingRecordCopy)
| RespDeleteObject
| RespListKeys (keys : list KeyEntry) (truncated : bool) (unread : list UnavailableDevice) (complete : bool)
| RespRepairObject (report : RepairReport)
| RespMoveShard (record : MetadataRecord) (source : DeviceId) (source_cleaned rebuilt : bool)
| ScrubStarted
| DrainStarted
| InventoryStarted
| RespLocalStatus (node : NodeId) (document_version : Z) (tls_ready : bool) (build : str)
    (devices : list DeviceStatus)
| RespLocalLookup (records : list LocatedRecord) (truncated : bool) (unread : list DeviceId)
| RespLocalList (entries : list KeyEntry) (truncated : bool) (unread : list DeviceId)
| RespLocalRecords (records : list DeviceRecord) (truncated : bool)
| RespLocalDeviceContents (c : DeviceCounts)
| PutShardReady
| PutShardDone
| RespGetShard (block_count : Z)
| LocalScrubStarted
| RespPutMeta
| RespGetMeta (record : option MetadataRecord) (shard_present : option bool)
| RespDeleteVersion
| RespAbortShard
| RespGetClusterConfig (document : ClusterDocument)
| RespApplyClusterConfig.

Inductive ScrubItem :=
| ItemFinding (device : DeviceId) (finding : Finding)
| ItemSummary (device : DeviceId) (summary : ScrubSummary).

Inductive ClusterFinding :=
| FindRecordsInconsistent (key : str) (version : option VersionId) (detail : str)
| ShardMissingOnDevice (key : str) (version : VersionId) (device : DeviceId) (shard_index : Z)
| ShardLost (key : str) (version : VersionId) (device : DeviceId) (shard_index : Z)
| StaleCopy (key : str) (version : VersionId) (device : DeviceId) (revision current_revision : Z).

Record ShardAvailability := mkAvailability {
  sa_shards_total : Z; sa_shards_available : Z; sa_k : Z; sa_versions : Z;
}.
Record DeviceExposure := mkExposure { dx_device : DeviceId; dx_versions : Z }.

Inductive ScrubEvent :=
| NodeFinding (node : NodeId) (device : DeviceId) (finding : Finding)
| NodeSummary (node : NodeId) (device : DeviceId) (summary : ScrubSummary)
| NodeFailed (node : NodeId) (detail : ErrorDetail)
| EvClusterFinding (f : ClusterFinding)
| CrossCheckStopped (node : NodeId) (detail : ErrorDetail) (versions_checked : Z)
    (versions_unchecked : option Z)
| CrossCheckProgress (versions_checked : Z) (key_hash : KeyHash)
| CrossCheckAvailability (versions_checked : Z) (versions : list ShardAvailability) (after_repair : bool)
| CrossCheckExposure (unread : list DeviceExposure) (versions_checked versions_with_shards_out : Z)
    (versions_at_the_limit versions_unreadable : Z)
| Repaired (key : str) (report : RepairReport)
| RepairFailed (key : str) (detail : ErrorDetail).

Inductive InventoryEvent :=
| EvObject (key : str) (version : VersionId) (state : ObjectState) (shards_available shards_total : Z)
| EvProgress (versions_checked : Z)
| EvSummary (versions_checked whole degraded_parity degraded_data unreadable inconsistent : Z)
    (unread : list UnavailableDevice) (complete : bool).

Inductive DrainEvent :=
| Estimate (device : DeviceId) (node : NodeId) (versions shard_bytes target_free_bytes : Z)
    (active_devices required_devices : Z)
| Moved (key : str) (version : VersionId) (shard_index : Z) (destination : DeviceId) (rebuilt : bool)
    (shard_bytes : Z)
| Skipped (key : str) (version : VersionId) (detail : ErrorDetail)
| Deleted (key : str) (version : VersionId).

(** ** Streams *)

Record DataFrame := mkDataFrame { sequence : Z; df_checksum : BlockChecksum; df_bytes : list Z }.

Definition DATA_PREFIX_LEN : nat := 16.

Inductive MessageError :=
| MsgFrame (e : Frame.FrameError)
| MsgCodec (decoding : bool)
| DataFrameTooShort (len : Z).

Definition encode_payload (d : DataFrame) : list Z :=
  le_bytes 8 (sequence d) ++ le_bytes 8 (df_checksum d) ++ df_bytes d.

Definition decode_payload (payload : list Z) : res MessageError DataFrame :=
  _ ← ensure (negb (length payload <? DATA_PREFIX_LEN)%nat) (DataFrameTooShort (Z.of_nat (length payload)));
  Ok (mkDataFrame (of_le (slice 0 8 payload)) (of_le (slice 8 8 payload)) (drop DATA_PREFIX_LEN payload)).

Record StreamEnd := mkStreamEnd {
  se_error : option ErrorDetail;
  se_object_size : option Z;
  se_object_checksum : option BlockChecksum;
  se_reconstructed : list Reconstruction;
  se_missing_records : list MissingRecordCopy;
}.

Definition StreamEnd_ok : StreamEnd := mkStreamEnd None None None [] [].
Definition StreamEnd_failed (e : ErrorDetail) : StreamEnd := mkStreamEnd (Some e) None None [] [].

(** ** Messages *)

Inductive Message :=
| MHello (h : Handshake.Hello)
| MRequest (id : Z) (request : Request)
| MResponse (id : Z) (response : Response)
| MData (id : Z) (data : DataFrame)
| MEndOfStream (id : Z) (e : StreamEnd).

Definition request_id (m : Message) : option Z :=
  match m with
  | MHello _ => None
  | MRequest id _ | MResponse id _ | MData id _ | MEndOfStream id _ => Some id
  end.

Section codec.
Context `{Cbor Handshake.Hello} `{Cbor Request} `{Cbor Response} `{Cbor StreamEnd}.

Definition encoded {A : Type} `{Cbor A} (a : A) : res MessageError (list Z) :=
  ok_or (encode_cbor a) (MsgCodec false).
Definition decoded {A : Type} `{Cbor A} (b : list Z) : res MessageError A :=
  ok_or (decode_cbor b) (MsgCodec true).

Definition to_frame (m : Message) : res MessageError Frame.Frame :=
  match m with
  | MHello h => Frame.Frame_new Frame.Hello 0 <$> encoded h
  | MRequest id r => Frame.Frame_new Frame.Request id <$> encoded r
  | MResponse id r => Frame.Frame_new Frame.Response id <$> encoded r
  | MData id d => Ok (Frame.Frame_new Frame.Data id (encode_payload d))
  | MEndOfStream id e => Frame.Frame_new Frame.EndOfStream id <$> encoded e
  end.

Definition from_frame (f : Frame.Frame) : res MessageError Message :=
  let id := Frame.request_id (Frame.header f) in
  match Frame.message_type (Frame.header f) with
  | Frame.Hello => MHello <$> decoded (Frame.payload f)
  | Frame.Request => MRequest id <$> decoded (Frame.payload f)
  | Frame.Response => MResponse id <$> decoded (Frame.payload f)
  | Frame.Data => MData id <$> decode_payload (Frame.payload f)
  | Frame.EndOfStream => MEndOfStream id <$> decoded (Frame.payload f)
  end.

Definition Message_encode (m : Message) : res MessageError (list Z) := Frame.Frame_encode <$> to_frame m.

Definition Message_decode (bytes : list Z) : res MessageError (Message * nat) :=
  '(frame, consumed) ← map_err MsgFrame (Frame.Frame_decode bytes);
  message ← from_frame frame;
  Ok (message, consumed).

(** [wire.rs]: a message from the connection. *)
Inductive ReadError :=
| ReadWire (e : Frame.WireError)
| UndecodableRequest (id : Z)
| ReadMessage (e : MessageError).

Definition read_message (stream : list Z) : res ReadError (Message * list Z) :=
  '(frame, rest) ← map_err ReadWire (Frame.read_frame stream);
  match from_frame frame with
  | Ok m => Ok (m, rest)
  | Err (MsgCodec d) =>
      if decide (Frame.message_type (Frame.header frame) = Frame.Request)
      then Err (UndecodableRequest (Frame.request_id (Frame.header frame)))
      else Err (ReadMessage (MsgCodec d))
  | Err e => Err (ReadMessage e)
  | Panic => Panic
  end.
End codec.

(** ** Lemmas *)

Lemma payload_roundtrip d :
  is_u64 (sequence d) → is_u64 (df_checksum d) → decode_payload (encode_payload d) = Ok d.
Proof.
  intros Hs Hc. unfold decode_payload, encode_payload. rewrite !length_app, !length_le_bytes.
  replace (_ <? DATA_PREFIX_LEN)%nat with false by (symmetry; apply Nat.ltb_ge; unfold DATA_PREFIX_LEN; lia).
  cbn [negb ensure mbind res_bind].
  pose proof (Frame.le_field 8 0 (sequence d) [] (le_bytes 8 (df_checksum d) ++ df_bytes d) eq_refl Hs) as H0.
  rewrite app_nil_l in H0. rewrite H0.
  rewrite (Frame.le_field 8 8 (df_checksum d) (le_bytes 8 (sequence d)) (df_bytes d) (length_le_bytes _ _) Hc).
  rewrite app_assoc, drop_app_length' by (by rewrite length_app, !length_le_bytes). by destruct d.
Qed.

(** A message whose integers have the widths of their types. *)
Definition message_typed (m : Message) : Prop :=
  match m with
  | MHello _ => True
  | MRequest id _ | MResponse id _ | MEndOfStream id _ => is_u32 id
  | MData id d => is_u32 id ∧ is_u64 (sequence d) ∧ is_u64 (df_checksum d)
  end.

Section roundtrip.
Context `{Cbor Handshake.Hello} `{Cbor Request} `{Cbor Response} `{Cbor StreamEnd}.
Context (Hhello : cbor_correct (A := Handshake.Hello)) (Hreq : cbor_correct (A := Request))
  (Hresp : cbor_correct (A := Response)) (Hend : cbor_correct (A := StreamEnd)).

Lemma from_to_frame m f : message_typed m → to_frame m = Ok f → from_frame f = Ok m.
Proof.
  intros Ht Hf. destruct m as [h|id r|id r|id d|id e]; cbn [to_frame] in Hf; unfold encoded in Hf.
  1, 2, 3, 5: destruct (encode_cbor _) as [b|] eqn:He; [|done]; injection Hf as <-;
    unfold from_frame, decoded; cbn [Frame.Frame_new Frame.header Frame.message_type Frame.payload Frame.request_id].
  - by rewrite (Hhello _ _ He).
  - by rewrite (Hreq _ _ He).
  - by rewrite (Hresp _ _ He).
  - by rewrite (Hend _ _ He).
  - injection Hf as <-. destruct Ht as (Hid & Hs & Hc). unfold from_frame.
    cbn [Frame.Frame_new Frame.header Frame.message_type Frame.payload Frame.request_id].
    by rewrite payload_roundtrip.
Qed.

Lemma to_frame_ok m f :
  message_typed m → to_frame m = Ok f → Z.of_nat (length (Frame.payload f)) ≤ Frame.MAX_PAYLOAD_LEN →
  Frame.frame_ok f.
Proof.
  intros Ht Hf Hl. assert (∃ t id p, is_u32 id ∧ f = Frame.Frame_new t id p) as (t & id & p & Hid & ->);
    [|by apply Frame.Frame_new_ok].
  destruct m as [h|id r|id r|id d|id e]; cbn [to_frame] in Hf; unfold encoded in Hf.
  1, 2, 3, 5: destruct (encode_cbor _) as [b|]; [|done]; injection Hf as <-; do 3 eexists; split; [|done];
    first [exact Ht|split; lia].
  injection Hf as <-. do 3 eexists. split; [apply Ht|done].
Qed.

(** The protocol round trip: a message of any kind, encoded to the
    wire within the frame limit and followed by anything, is decoded to
    itself with exactly its own bytes consumed, and read from a connection
    to itself with the rest left unread. *)
Theorem message_roundtrip (m : Message) (bytes rest : list Z) :
  message_typed m → Message_encode m = Ok bytes →
  Z.of_nat (length bytes) ≤ Z.of_nat Frame.HEADER_LEN + Frame.MAX_PAYLOAD_LEN →
  Message_decode (bytes ++ rest) = Ok (m, length bytes)
  ∧ read_message (bytes ++ rest) = Ok (m, rest).
Proof.
  intros Ht He Hl. unfold Message_encode in He. destruct (to_frame m) as [f|e|] eqn:Hf; [|done..].
  injection He as <-. rewrite Frame.length_encode in Hl.
  assert (Frame.frame_ok f) as Hok by (eapply to_frame_ok; [done..|lia]).
  pose proof (from_to_frame m f Ht Hf) as Hfrom.
  unfold Message_decode, read_message. rewrite Frame.Frame_decode_encode, Frame.read_frame_encode by done.
  cbn [map_err mbind res_bind]. by rewrite Hfrom.
Qed.
End roundtrip.

(** ** Witness *)

Section witness.
(** A codec for the requests [GetObject] and [GetClusterConfig], and codecs
    that refuse every value of the other types. *)
Definition key_codec : Cbor Request := {|
  encode_cbor r := match r with GetObject k => Some (1 :: k) | GetClusterConfig => Some [2] | _ => None end;
  decode_cbor b := match b with
    | c :: k => if c =? 1 then Some (GetObject k)
                else if c =? 2 then match k with [] => Some GetClusterConfig | _ => None end else None
    | [] => None
    end |}.

Lemma key_codec_correct : cbor_correct (H := key_codec).
Proof. intros r b Hb. by destruct r; cbn in Hb; simplify_eq. Defined.

Definition no_codec (A : Type) : Cbor A := {| encode_cbor _ := None; decode_cbor _ := None |}.

#[local] Existing Instance no_codec.
#[local] Existing Instance key_codec.

Lemma message_roundtrip_witness :
  Message_decode (Frame.Frame_encode (Frame.Frame_new Frame.Request 7 [1; 97]) ++ [5])
  = Ok (MRequest 7 (GetObject [97]), 14%nat).
Proof.
  apply (message_roundtrip (H := no_codec _) (H0 := key_codec) (H1 := no_codec _) (H2 := no_codec _)
    ltac:(done) key_codec_correct ltac:(done) ltac:(done) (MRequest 7 (GetObject [97]))
    (Frame.Frame_encode (Frame.Frame_new Frame.Request 7 [1; 97])) [5]).
  - split; lia.
  - by vm_compute.
  - by vm_compute.
Defined.
End witness.

End Message.
