(* ===== verification/Lookup.v ===== *)
(** [coordinator.rs]: which version of a key the record copies found on the
    cluster stand for.

    The copies arrive as a list; a [BTreeMap] by version is an association
    list kept in version order.  An error is the value its detail reports,
    and [lookup_code] the code it carries. *)

From S2P Require Import Prelude Text Checksum KeyHash VersionId Erasure Stripe Layout FileSystem ShardFile Record Device Cluster Scrub Frame Handshake Message.

Module Lookup.
Import Message.

Inductive LookupError :=
| WrongKey (version : VersionId) (device : DeviceId)
| CopiesDisagree (version : VersionId) (device : DeviceId) (revision : Z)
| UnlistedDevice (version : VersionId) (device : DeviceId)
| CopiesMissing (version : VersionId) (found expected revision : Z)
| TooFewVouching (code : ErrorCode) (version : VersionId) (device : option DeviceId) (vouching : Z)
| OutOfView (code : ErrorCode) (out : Z)
| NoObject
| KeyIsEmpty
| KeyIsTooLong (len limit : Z).

Definition lookup_code (e : LookupError) : ErrorCode :=
  match e with
  | WrongKey _ _ => KeyMismatch
  | CopiesDisagree _ _ _ | UnlistedDevice _ _ | CopiesMissing _ _ _ _ => RecordsInconsistent
  | TooFewVouching code _ _ _ | OutOfView code _ => code
  | NoObject => NotFound
  | KeyIsEmpty => ProtocolViolation
  | KeyIsTooLong _ _ => KeyTooLong
  end.

Record TrustedVersion := mkTrusted {
  tv_record : MetadataRecord;
  tv_missing : list MissingRecordCopy;
  tv_vouching : nat;
}.

(** [by_version.entry(version).or_default().push(item)] *)
Fixpoint push_copy (version : VersionId) (item : LocatedRecord)
    (m : list (VersionId * list LocatedRecord)) : list (VersionId * list LocatedRecord) :=
  match m with
  | [] => [(version, [item])]
  | (v, copies) :: rest =>
      match lex_compare version v with
      | Lt => (version, [item]) :: m
      | Eq => (v, copies ++ [item]) :: rest
      | Gt => (v, copies) :: push_copy version item rest
      end
  end.

Definition group_by_version (located : list LocatedRecord) : list (VersionId * list LocatedRecord) :=
  fold_left (λ m item, push_copy (r_version (lr_record item)) item m) located [].

(** [iter().max()] of revisions, which are unsigned *)
Definition max_revision (copies : list LocatedRecord) : option Z :=
  match copies with
  | [] => None
  | c :: rest => Some (fold_left (λ m c, Z.max m (r_revision (lr_record c))) rest (r_revision (lr_record c)))
  end.

Definition check_copy_key (key : str) (version : VersionId) (copy : LocatedRecord) : res LookupError unit :=
  ensure (bool_decide (r_key (lr_record copy) = key)) (WrongKey version (lr_device copy)).

Definition check_current (first : MetadataRecord) (version : VersionId) (revision : Z) (copy : LocatedRecord)
    : res LookupError unit :=
  _ ← ensure (bool_decide (lr_record copy = first)) (CopiesDisagree version (lr_device copy) revision);
  ensure (bool_decide (is_Some (shard_on first (lr_device copy)))) (UnlistedDevice version (lr_device copy)).

(** Run a check on each element, stopping at the first error. *)
Definition for_each {A E : Type} (f : A → res E unit) (l : list A) : res E unit :=
  fold_res (λ _ x, f x) l tt.

Definition missing_copies (first : MetadataRecord) (current copies : list LocatedRecord)
    : list MissingRecordCopy :=
  (λ shard,
     mkMissing (sl_device shard)
       match max_revision (filter (λ c, lr_device c = sl_device shard) copies) with
       | Some revision => CopyStale revision
       | None => CopyMissing
       end)
  <$> filter (λ shard, sl_device shard ∉ lr_device <$> current) (r_shards first).

(** One version's copies. *)
Definition trust (key : str) (version : VersionId) (copies : list LocatedRecord)
    : res LookupError TrustedVersion :=
  _ ← for_each (check_copy_key key version) copies;
  current_revision ← expect (max_revision copies);
  let current := filter (λ c, r_revision (lr_record c) = current_revision) copies in
  first ← expect (lr_record <$> head current);
  _ ← for_each (check_current first version current_revision) current;
  Ok (mkTrusted first (missing_copies first current copies)
        (length (filter (λ c, r_revision (lr_record c) = current_revision
                              ∨ same_body first (lr_record c) = true) copies))).

Definition trusted_versions (key : str) (located : list LocatedRecord)
    : res LookupError (list TrustedVersion) :=
  map_res (λ g, trust key g.1 g.2) (rev (group_by_version located)).

Definition complete_version (unread : list DeviceId) (t : TrustedVersion) : res LookupError MetadataRecord :=
  let record := tv_record t in
  let unread_copies := length (filter (λ m, mc_device m ∈ unread) (tv_missing t)) in
  let listed := r_k record + r_m record in
  _ ← ensure (negb (unread_copies <? length (tv_missing t))%nat)
        (CopiesMissing (r_version record) (listed - Z.of_nat (length (tv_missing t)))
           (listed - Z.of_nat unread_copies) (r_revision record));
  Ok record.

Definition versions_of_excluding (key : str) (located : list LocatedRecord) (unread : list DeviceId)
    : res LookupError (list MetadataRecord) :=
  trusted ← trusted_versions key located;
  map_res (complete_version unread) trusted.

Definition versions_of (key : str) (located : list LocatedRecord) : res LookupError (list MetadataRecord) :=
  versions_of_excluding key located [].

Definition stale_copies (current : MetadataRecord) (located : list LocatedRecord) : list (DeviceId * Z) :=
  (λ c, (lr_device c, r_revision (lr_record c)))
  <$> filter (λ c, r_version (lr_record c) = r_version current
                   ∧ r_revision (lr_record c) < r_revision current
                   ∧ shard_on current (lr_device c) = None) located.

Definition check_key (document : ClusterDocument) (key : str) : res LookupError unit :=
  _ ← ensure (negb (bool_decide (key = []))) KeyIsEmpty;
  let limit := c_max_key_bytes document in
  ensure (negb (Z.of_nat (str_len key) >? limit)) (KeyIsTooLong (Z.of_nat (str_len key)) limit).

(** [newest_version] after its lookup *)
Definition newest_version (document : ClusterDocument) (key : str) (located : list LocatedRecord)
    : res LookupError MetadataRecord :=
  _ ← check_key document key;
  versions ← versions_of key located;
  ok_or (head versions) NoObject.

(** ** Reads *)

(** What the broadcast lookup brought back: the copies, and why each device
    that could not be read was not. *)
Record LookupResult := mkLookup {
  l_records : list LocatedRecord;
  l_unread : gmap Z (ErrorCode * str);
}.

Definition classify_missing `{Uuid} (document : ClusterDocument) (unread : gmap Z (ErrorCode * str))
    (copy : MissingRecordCopy) : MissingRecordCopy :=
  match mc_fault copy with
  | CopyMissing =>
      match unread !! mc_device copy with
      | Some (_, reason) => mkMissing (mc_device copy) (CopyUnavailable reason)
      | None =>
          match device document (mc_device copy) with
          | None => mkMissing (mc_device copy) 
                (CopyUnavailable (lit "device " ++ uuid_text (mc_device copy) ++ lit " is not in the cluster document"))
          | Some _ => copy
          end
      end
  | _ => copy
  end.

(** The first unavailable device's own code. *)
Fixpoint refusal_code (unread : gmap Z (ErrorCode * str)) (missing : list MissingRecordCopy) : ErrorCode :=
  match missing with
  | [] => RecordsInconsistent
  | m :: missing =>
      match mc_fault m with
      | CopyUnavailable _ => match unread !! mc_device m with Some (code, _) => code | None => DeviceUnavailable end
      | _ => refusal_code unread missing
      end
  end.

(** Iteration of a [BTreeMap] by device id. *)
Definition by_device (a b : DeviceId * (ErrorCode * str)) : Prop := a.1 ≤ b.1.
#[global] Instance by_device_dec : RelDecision by_device.
Proof. intros a b. unfold by_device. apply _. Defined.

Definition still_listed (document : ClusterDocument) (id : DeviceId) : bool :=
  match device document id with Some d => bool_decide (de_state d ≠ Removed) | None => false end.

(** The devices out of view, removed ones not counted. *)
Definition devices_out (document : ClusterDocument) (unread : gmap Z (ErrorCode * str))
    : list (ErrorCode * str) :=
  snd <$> filter (λ x, still_listed document x.1 = true) (merge_sort by_device (map_to_list unread)).

(** [newest_readable_version] after its lookup *)
Definition newest_readable_version `{Uuid} (document : ClusterDocument) (key : str) (found : LookupResult)
    : res LookupError (MetadataRecord * list MissingRecordCopy) :=
  _ ← check_key document key;
  trusted ← trusted_versions key (l_records found);
  match trusted with
  | [] =>
      let out := devices_out document (l_unread found) in
      match out with
      | (code, _) :: _ =>
          if c_k document + c_m document <=? Z.of_nat (length out)
          then Err (OutOfView code (Z.of_nat (length out))) else Err NoObject
      | [] => if c_k document + c_m document <=? 0 then Panic else Err NoObject
      end
  | newest :: _ =>
      let record := tv_record newest in
      let missing := classify_missing document (l_unread found) <$> tv_missing newest in
      _ ← ensure (negb (Z.of_nat (tv_vouching newest) <? r_k record))
            (TooFewVouching (refusal_code (l_unread found) missing) (r_version record)
               (mc_device <$> head missing) (Z.of_nat (tv_vouching newest)));
      Ok (record, missing)
  end.

(** ** Lemmas *)

(** The groups: in strict version order, each with exactly its copies. *)
Definition version_lt (a b : VersionId) : Prop := lex_compare a b = Lt.

Record grouped (located : list LocatedRecord) (m : list (VersionId * list LocatedRecord)) : Prop := {
  gr_sorted : StronglySorted version_lt m.*1;
  gr_copies : ∀ v copies, (v, copies) ∈ m →
    copies = filter (λ c, r_version (lr_record c) = v) located ∧ copies ≠ [];
  gr_all : ∀ c, c ∈ located → r_version (lr_record c) ∈ m.*1;
}.

Lemma push_copy_keys v x m : ∀ u, u ∈ (push_copy v x m).*1 ↔ u = v ∨ u ∈ m.*1.
Proof.
  induction m as [|[v' l] m IH]; intros u; cbn [push_copy fmap list_fmap].
  - cbn. set_solver.
  - destruct (lex_compare v v') eqn:Hc; cbn [fmap list_fmap fst]; rewrite ?elem_of_cons.
    + apply lex_compare_eq in Hc as ->. naive_solver.
    + naive_solver.
    + rewrite IH. naive_solver.
Qed.

Lemma push_copy_sorted v x m : StronglySorted version_lt m.*1 → StronglySorted version_lt (push_copy v x m).*1.
Proof.
  induction m as [|[v' l] m IH]; cbn [push_copy fmap list_fmap fst]; intros Hs; [by repeat constructor|].
  apply StronglySorted_inv in Hs as [Hs Hf]. destruct (lex_compare v v') eqn:Hc; cbn [fmap list_fmap fst].
  - by constructor.
  - constructor; [by constructor|]. constructor; [done|]. eapply Forall_impl; [exact Hf|].
    intros u Hu. by eapply lex_compare_lt_trans.
  - constructor; [by apply IH|]. apply Forall_forall. intros u [->|Hu]%push_copy_keys.
    + unfold version_lt. rewrite lex_compare_antisym, Hc. done.
    + rewrite Forall_forall in Hf. by apply Hf.
Qed.

(** Where the new copy went. *)
Lemma push_copy_elem v x m u copies :
  StronglySorted version_lt m.*1 → (u, copies) ∈ push_copy v x m →
  (u ≠ v ∧ (u, copies) ∈ m) ∨ (u = v ∧ ∃ old, copies = old ++ [x] ∧ ((u, old) ∈ m ∨ (old = [] ∧ u ∉ m.*1))).
Proof.
  induction m as [|[v' l] m IH]; cbn [push_copy fmap list_fmap fst]; intros Hs Hu.
  { apply list_elem_of_singleton in Hu. injection Hu as -> ->. right. split; [done|]. exists []. split; [done|].
    right. split; [done|]. apply not_elem_of_nil. }
  apply StronglySorted_inv in Hs as [Hs Hf]. rewrite Forall_forall in Hf.
  assert (∀ u, u ∈ m.*1 → u ≠ v') as Hne.
  { intros u' Hu' ->. specialize (Hf _ Hu'). unfold version_lt in Hf. by rewrite lex_compare_refl in Hf. }
  destruct (lex_compare v v') eqn:Hc.
  - apply lex_compare_eq in Hc as ->. apply elem_of_cons in Hu as [Heq|Hu].
    + injection Heq as -> ->. right. split; [done|]. exists l. split; [done|]. left. apply list_elem_of_here.
    + left. split; [|by apply list_elem_of_further]. apply Hne. by apply (list_elem_of_fmap_2 fst _ (u, copies)).
  - apply elem_of_cons in Hu as [Heq|Hu].
    + injection Heq as -> ->. right. split; [done|]. exists []. split; [done|]. right. split; [done|].
      intros [->|Hin]%elem_of_cons; [by rewrite lex_compare_refl in Hc|].
      specialize (Hf _ Hin). unfold version_lt in Hf. rewrite lex_compare_antisym, Hc in Hf. done.
    + left. split; [|done]. intros ->. apply elem_of_cons in Hu as [Heq|Hu].
      * injection Heq as -> _. by rewrite lex_compare_refl in Hc.
      * apply (list_elem_of_fmap_2 fst) in Hu. cbn in Hu. specialize (Hf _ Hu). unfold version_lt in Hf.
        rewrite lex_compare_antisym, Hc in Hf. done.
  - apply elem_of_cons in Hu as [Heq|Hu].
    + injection Heq as -> ->. left. split; [|apply list_elem_of_here]. intros ->. by rewrite lex_compare_refl in Hc.
    + destruct (IH Hs Hu) as [[? ?]|(-> & old & -> & Hold)].
      * left. split; [done|]. by apply list_elem_of_further.
      * right. split; [done|]. exists old. split; [done|]. destruct Hold as [?|[-> Hni]].
        -- left. by apply list_elem_of_further.
        -- right. split; [done|]. intros [->|?]%elem_of_cons; [by rewrite lex_compare_refl in Hc|done].
Qed.

Lemma group_by_version_ok located : grouped located (group_by_version located).
Proof.
  unfold group_by_version. assert (∀ todo done m, grouped done m →
    grouped (done ++ todo) (fold_left (λ m item, push_copy (r_version (lr_record item)) item m) todo m)) as Hgo.
  { induction todo as [|x todo IH]; intros done' m Hg; cbn [fold_left]; [by rewrite app_nil_r|].
    replace (done' ++ x :: todo) with ((done' ++ [x]) ++ todo) by (by rewrite <- app_assoc).
    apply IH. destruct Hg as [Hs Hc Ha]. split.
    - by apply push_copy_sorted.
    - intros v copies Hv. rewrite filter_app, filter_cons, filter_nil.
      apply push_copy_elem in Hv as [[Hne Hin]|(-> & old & -> & Hold)]; [| |done].
      + destruct (Hc _ _ Hin) as [-> Hn]. by rewrite decide_False, app_nil_r by congruence.
      + rewrite decide_True by done. split; [|by destruct old]. f_equal. destruct Hold as [Hin|[-> Hni]].
        * by destruct (Hc _ _ Hin).
        * symmetry. apply elem_of_nil_inv. intros c [Hcv Hcin]%list_elem_of_filter. apply Hni. rewrite <- Hcv. by apply Ha.
    - intros c [Hin| ->%list_elem_of_singleton]%elem_of_app; apply push_copy_keys; [right; by apply Ha|by left]. }
  apply (Hgo located [] []). split; cbn; [constructor|by intros ?? ?%not_elem_of_nil|by intros ? ?%not_elem_of_nil].
Qed.

Lemma for_each_Ok {A E : Type} (f : A → res E unit) l :
  for_each f l = Ok tt ↔ Forall (λ x, f x = Ok tt) l.
Proof.
  unfold for_each. induction l as [|x l IH]; cbn [fold_res]; [by split|].
  rewrite Forall_cons, <- IH. destruct (f x) as [[]| |]; cbn; naive_solver.
Qed.

Lemma filter_ext_in {A : Type} (P Q : A → Prop) `{∀ x, Decision (P x), ∀ x, Decision (Q x)} (l : list A) :
  (∀ x, x ∈ l → P x ↔ Q x) → filter P l = filter Q l.
Proof.
  induction l as [|x l IH]; [done|]. intros Hiff. rewrite !filter_cons.
  rewrite IH by (intros y Hy; by apply Hiff, list_elem_of_further).
  pose proof (Hiff x (list_elem_of_here _ _)). by repeat case_decide; try (exfalso; tauto).
Qed.

Lemma fold_max_spec (l : list LocatedRecord) a :
  let m := fold_left (λ m c, Z.max m (r_revision (lr_record c))) l a in
  a ≤ m ∧ Forall (λ c, r_revision (lr_record c) ≤ m) l ∧ (m = a ∨ ∃ c, c ∈ l ∧ r_revision (lr_record c) = m).
Proof.
  revert a. induction l as [|x l IH]; intros a; cbn [fold_left]; [by split_and!; [lia|constructor|left]|].
  destruct (IH (Z.max a (r_revision (lr_record x)))) as (H1 & H2 & H3). split_and!; [lia|constructor; [lia|done]|].
  destruct H3 as [H3|(c & Hc & H3)].
  - destruct (Z.max_spec a (r_revision (lr_record x))) as [[_ Hm]|[_ Hm]].
    + right. exists x. split; [apply list_elem_of_here|congruence].
    + left. congruence.
  - right. exists c. split; [by apply list_elem_of_further|done].
Qed.

Lemma max_revision_spec copies m :
  max_revision copies = Some m →
  Forall (λ c, r_revision (lr_record c) ≤ m) copies ∧ ∃ c, c ∈ copies ∧ r_revision (lr_record c) = m.
Proof.
  destruct copies as [|x l]; [done|]. cbn [max_revision]. intros [= <-].
  destruct (fold_max_spec l (r_revision (lr_record x))) as (H1 & H2 & H3). split; [by constructor|].
  destruct H3 as [H3|(c & Hc & H3)].
  - exists x. split; [apply list_elem_of_here|done].
  - exists c. split; [by apply list_elem_of_further|done].
Qed.

(** ** What a trusted version is *)

(** The copies of one version, and what they stand for. *)
Record trusts (key : str) (copies : list LocatedRecord) (t : TrustedVersion) : Prop := {
  tr_key : Forall (λ c, r_key (lr_record c) = key) copies;
  tr_present : ∃ c, c ∈ copies ∧ lr_record c = tv_record t;
  tr_highest : Forall (λ c, r_revision (lr_record c) ≤ r_revision (tv_record t)) copies;
  tr_agree : ∀ c, c ∈ copies → r_revision (lr_record c) = r_revision (tv_record t) →
    lr_record c = tv_record t ∧ is_Some (shard_on (tv_record t) (lr_device c));
  tr_missing : ∀ d, d ∈ mc_device <$> tv_missing t ↔
    d ∈ sl_device <$> r_shards (tv_record t)
    ∧ ¬ ∃ c, c ∈ copies ∧ lr_device c = d ∧ lr_record c = tv_record t;
  tr_vouching : tv_vouching t = length (filter (λ c, same_body (tv_record t) (lr_record c) = true) copies);
}.

Lemma missing_copies_devices first current copies d :
  d ∈ mc_device <$> missing_copies first current copies ↔
  d ∈ sl_device <$> r_shards first ∧ d ∉ lr_device <$> current.
Proof.
  unfold missing_copies. rewrite <- list_fmap_compose. cbn. rewrite !list_elem_of_fmap. split.
  - intros (s & -> & [Hn Hs]%list_elem_of_filter). split; [by exists s|]. cbn. rewrite <- list_elem_of_fmap. done.
  - intros [(s & -> & Hs) Hn]. exists s. split; [done|]. apply list_elem_of_filter. split; [|done].
    by rewrite list_elem_of_fmap.
Qed.

Lemma trust_Ok key version copies t : trust key version copies = Ok t → trusts key copies t.
Proof.
  unfold trust. intros Ht. inv_ok Ht. injection Ht as <-.
  match goal with H : for_each (check_copy_key _ _) _ = Ok ?u |- _ => destruct u; apply for_each_Ok in H as Hkey end.
  destruct (max_revision copies) as [rev|] eqn:Hmax; cbn [expect] in *; [|done].
  match goal with H : Ok rev = Ok ?x |- _ => injection H as <- end.
  set (current := filter (λ c, r_revision (lr_record c) = rev) copies) in *.
  destruct current as [|c0 rest] eqn:Hcur; cbn [head fmap option_fmap option_map expect] in *; [done|].
  match goal with H : Ok (lr_record c0) = Ok ?x |- _ => injection H as <- end.
  match goal with H : for_each (check_current _ _ _) _ = Ok ?u |- _ => destruct u; apply for_each_Ok in H as Hck end.
  rewrite <- Hcur in *. destruct (max_revision_spec _ _ Hmax) as [Hle _].
  assert (c0 ∈ current) as Hc0 by (rewrite Hcur; apply list_elem_of_here).
  unfold current in Hc0. apply list_elem_of_filter in Hc0 as [Hrev Hin0].
  assert (∀ c, c ∈ copies → r_revision (lr_record c) = rev →
    lr_record c = lr_record c0 ∧ is_Some (shard_on (lr_record c0) (lr_device c))) as Hagree.
  { intros c Hc Hr. rewrite Forall_forall in Hck. assert (c ∈ current) as Hin by (by apply list_elem_of_filter).
    specialize (Hck c Hin). unfold check_current in Hck. inv_ok Hck. rewrite ensure_Ok in *.
    by rewrite !bool_decide_eq_true in *. }
  split; cbn [tv_record tv_missing tv_vouching].
  - eapply Forall_impl; [exact Hkey|]. intros c Hc. unfold check_copy_key in Hc. rewrite ensure_Ok in Hc.
    by apply bool_decide_eq_true in Hc.
  - by exists c0.
  - by rewrite Hrev.
  - rewrite Hrev. exact Hagree.
  - intros d. rewrite missing_copies_devices. apply and_iff_compat_l. rewrite list_elem_of_fmap.
    apply not_iff_compat. split.
    + intros (c & -> & [Hr Hc]%list_elem_of_filter). exists c. split_and!; [done|done|by apply Hagree].
    + intros (c & Hc & <- & Hrec). exists c. split; [done|]. apply list_elem_of_filter. by rewrite Hrec.
  - f_equal. apply filter_ext_in. intros c Hc. split; [|by right]. intros [Hr|?]; [|done].
    destruct (Hagree c Hc Hr) as [-> _]. apply (Equivalence_Reflexive (R := λ a b, same_body a b = true)).
Qed.

(** The copies of a version. *)
Definition copies_of (v : VersionId) (located : list LocatedRecord) : list LocatedRecord :=
  filter (λ c, r_version (lr_record c) = v) located.

Definition tv_version (t : TrustedVersion) : VersionId := r_version (tv_record t).

Lemma trusts_version key v located t : trusts key (copies_of v located) t → tv_version t = v.
Proof. intros Ht. destruct (tr_present _ _ _ Ht) as (c & [Hv _]%list_elem_of_filter & Hr). unfold tv_version. by rewrite <- Hr. Qed.

(** Everything [trusted_versions] promises of its result. *)
Record trusted_all (key : str) (located : list LocatedRecord) (ts : list TrustedVersion) : Prop := {
  ta_order : StronglySorted (λ a b, version_lt b a) (tv_version <$> ts);
  ta_each : Forall (λ t, trusts key (copies_of (tv_version t) located) t) ts;
  ta_every : ∀ c, c ∈ located → r_version (lr_record c) ∈ tv_version <$> ts;
}.

Lemma StronglySorted_rev {A : Type} (R : A → A → Prop) l :
  StronglySorted R l → StronglySorted (λ a b, R b a) (rev l).
Proof.
  induction 1 as [|x l _ IH Hf]; [constructor|]. cbn [rev]. clear -IH Hf.
  assert (Forall (λ y, R x y) (rev l)) as Hf' by (by apply Forall_rev).
  induction (rev l) as [|y r IHr]; cbn [app]; [by repeat constructor|].
  apply StronglySorted_inv in IH as [IH Hy]. apply Forall_cons in Hf' as [Hxy Hf'].
  constructor; [by apply IHr|]. apply Forall_app. split; [done|by repeat constructor].
Qed.

Lemma trusted_versions_Ok key located ts : trusted_versions key located = Ok ts → trusted_all key located ts.
Proof.
  unfold trusted_versions. rewrite map_res_Ok. intros Hts.
  destruct (group_by_version_ok located) as [Hs Hc Ha].
  set (m := group_by_version located) in *.
  assert (Forall2 (λ g t, g.1 = tv_version t ∧ trusts key (copies_of (tv_version t) located) t) (rev m) ts) as Hall.
  { apply (Forall2_impl (λ g t, g ∈ rev m ∧ trust key g.1 g.2 = Ok t)).
    - apply Forall2_same_length_lookup. apply Forall2_same_length_lookup in Hts as [Hl Hlk]. split; [done|].
      intros i x y Hx Hy. split; [by eapply list_elem_of_lookup_2|by eapply Hlk].
    - intros [v copies] t [Hin Ht%trust_Ok]. rewrite list_elem_of_In, <- in_rev, <- list_elem_of_In in Hin.
      destruct (Hc v copies Hin) as [-> _]. pose proof (trusts_version _ _ _ _ Ht) as Hv. by rewrite Hv. }
  assert (rev m.*1 = tv_version <$> ts) as Hkeys.
  { replace (rev m.*1) with (rev m).*1 by apply (List.map_rev fst). clear -Hall. induction Hall as [|g t l l' [Hv _] _ IH]; [done|]. cbn. by rewrite Hv, IH. }
  split.
  - rewrite <- Hkeys. by apply StronglySorted_rev.
  - clear -Hall. induction Hall as [|g t l l' [_ Ht] _ IH]; by constructor.
  - intros c Hcin. rewrite <- Hkeys, list_elem_of_In, <- in_rev, <- list_elem_of_In. by apply Ha.
Qed.

Lemma for_each_NoObject {A : Type} (f : A → res LookupError unit) l :
  (∀ x, f x ≠ Err NoObject) → for_each f l ≠ Err NoObject.
Proof.
  intros Hf. unfold for_each. induction l as [|x l IH]; cbn [fold_res]; [done|].
  intros [Hn|([] & _ & Hn)]%bind_Err; [by eapply Hf|by apply IH].
Qed.

Lemma check_copy_found key v c : check_copy_key key v c ≠ Err NoObject.
Proof. unfold check_copy_key. by intros [_ ?]%ensure_Err. Qed.

Lemma check_current_found first v rev c : check_current first v rev c ≠ Err NoObject.
Proof. unfold check_current. intros [Hn|(? & _ & Hn)]%bind_Err; by apply ensure_Err in Hn as [_ ?]. Qed.

Lemma complete_version_Ok unread t r :
  complete_version unread t = Ok r →
  r = tv_record t ∧ ∀ d, d ∈ mc_device <$> tv_missing t → d ∈ unread.
Proof.
  unfold complete_version. intros Hc. inv_ok Hc. injection Hc as <-. rewrite ensure_Ok in *. split; [done|].
  match goal with H : negb _ = true |- _ => apply negb_true_iff, Nat.ltb_ge in H; rename H into Hlen end.
  assert (Forall (λ m, mc_device m ∈ unread) (tv_missing t)) as Hall.
  { clear -Hlen. induction (tv_missing t) as [|m l IH]; [constructor|].
    rewrite filter_cons in Hlen. case_decide; cbn in Hlen.
    - constructor; [done|]. apply IH. lia.
    - pose proof (length_filter (λ m, mc_device m ∈ unread) l). lia. }
  intros d (m & -> & Hm)%list_elem_of_fmap. rewrite Forall_forall in Hall. by apply Hall.
Qed.

(** The errors of [trusted_versions] are about copies that disagree. *)
Lemma trusted_versions_found key located : trusted_versions key located ≠ Err NoObject.
Proof.
  unfold trusted_versions. induction (rev (group_by_version located)) as [|g l IH]; cbn [map_res]; [done|].
  intros [Hn|(t & _ & Hn)]%bind_Err.
  - unfold trust in Hn. apply bind_Err in Hn as [Hn|(? & _ & Hn)]; [by apply for_each_NoObject in Hn; [|apply check_copy_found]|].
    apply bind_Err in Hn as [Hn|(? & _ & Hn)]; [by destruct (max_revision _)|].
    apply bind_Err in Hn as [Hn|(? & _ & Hn)]; [by destruct (lr_record <$> _)|].
    apply bind_Err in Hn as [Hn|(? & _ & Hn)]; [by apply for_each_NoObject in Hn; [|apply check_current_found]|done].
  - apply bind_Err in Hn as [Hn|(? & _ & Hn)]; done.
Qed.

(** The first of a descending list is the greatest. *)
Lemma head_greatest ts t v :
  StronglySorted (λ a b, version_lt b a) (tv_version <$> t :: ts) → v ∈ tv_version <$> t :: ts →
  lex_le v (tv_version t).
Proof.
  cbn [fmap list_fmap]. intros [_ Hf]%StronglySorted_inv [->|Hv]%elem_of_cons.
  - unfold lex_le. by rewrite lex_compare_refl.
  - rewrite Forall_forall in Hf. specialize (Hf _ Hv). unfold version_lt in Hf. unfold lex_le. by rewrite Hf.
Qed.

(** ** Properties *)

(** The record a read trusts is of the key asked for. *)
Lemma newest_readable_key `{Uuid} document key found r missing :
  newest_readable_version document key found = Ok (r, missing) → r_key r = key.
Proof.
  unfold newest_readable_version. intros Hn. inv_ok Hn.
  match goal with H : trusted_versions _ _ = Ok ?x |- _ => rename x into ts; apply trusted_versions_Ok in H as [_ Heach _] end.
  destruct ts as [|t ts]; [destruct (devices_out _ _) as [|[code ?] ?]; case_match; done|].
  inv_ok Hn. injection Hn as <- _. apply Forall_cons in Heach as [Htr _].
  destruct (tr_present _ _ _ Htr) as (c & Hc & <-). pose proof (tr_key _ _ _ Htr) as Hkey.
  rewrite Forall_forall in Hkey. by apply Hkey.
Qed.

(** What a lookup may trust: when [trusted_versions] succeeds, every
    version found is returned once, newest first; the copies of a version all
    name the requested key; the record returned is at the highest placement
    revision any copy has, every copy at that revision is that very record and
    sits on a device the record lists; the copies reported missing are exactly
    the listed devices that hold no such copy; and [vouching] counts the copies
    that describe the same body. *)
Theorem trusted_versions_sound (key : str) (located : list LocatedRecord) (ts : list TrustedVersion) :
  trusted_versions key located = Ok ts → trusted_all key located ts.
Proof. apply trusted_versions_Ok. Qed.

(** Operations that must reach every copy do: a record that
    [newest_version] returns is of the newest version any device has a copy
    of, and every device it lists holds exactly this record. *)
Theorem newest_version_complete (document : ClusterDocument) (key : str) (located : list LocatedRecord)
    (r : MetadataRecord) :
  newest_version document key located = Ok r →
  r_key r = key
  ∧ (∀ c, c ∈ located → lex_le (r_version (lr_record c)) (r_version r))
  ∧ (∀ d, d ∈ sl_device <$> r_shards r → ∃ c, c ∈ located ∧ lr_device c = d ∧ lr_record c = r).
Proof.
  unfold newest_version, versions_of, versions_of_excluding. intros Hn. inv_ok Hn. rewrite ok_or_Ok in *.
  match goal with H : trusted_versions _ _ ≫= _ = Ok _ |- _ => inv_ok H end.
  match goal with H : trusted_versions _ _ = Ok ?x |- _ => rename x into ts; apply trusted_versions_Ok in H as [Hord Heach Hall] end.
  match goal with H : map_res _ ts = Ok ?x |- _ => rename x into rs; apply map_res_Ok in H; rename H into Hrs end.
  destruct Hrs as [|t r' ts' rs' Ht _]; [done|]. cbn in Hn. injection Hn as ->.
  apply complete_version_Ok in Ht as [-> Hmiss]. apply Forall_cons in Heach as [Htr _].
  split_and!.
  - destruct (tr_present _ _ _ Htr) as (c & Hc & <-). pose proof (tr_key _ _ _ Htr) as Hk.
    rewrite Forall_forall in Hk. by apply Hk.
  - intros c Hc. by eapply head_greatest; [|apply Hall].
  - intros d Hd. destruct (decide (d ∈ mc_device <$> tv_missing t)) as [Hm|Hm].
    + by apply Hmiss, not_elem_of_nil in Hm.
    + destruct (decide (Exists (λ c, lr_device c = d ∧ lr_record c = tv_record t) (copies_of (tv_version t) located)))
        as [(c & [_ Hc]%list_elem_of_filter & Hd' & Hr)%Exists_exists|Hno]; [by exists c|].
      destruct Hm. apply (tr_missing _ _ _ Htr). split; [done|]. intros (c & Hc & ?). apply Hno, Exists_exists. by exists c.
Qed.

(** C16. Reads keep their quorum: a version [newest_readable_version] returns
    is the newest of which any reachable device has a copy; at least k of the
    copies found, each naming the key and version, describe the body it
    returns; and every listed device whose copy of the record did not arrive is
    reported with it. *)
Theorem newest_readable_quorum `{Uuid} (document : ClusterDocument) (key : str) (found : LookupResult)
    (r : MetadataRecord) (missing : list MissingRecordCopy) :
  newest_readable_version document key found = Ok (r, missing) →
  (∀ c, c ∈ l_records found → lex_le (r_version (lr_record c)) (r_version r))
  ∧ (∃ vouchers, vouchers `sublist_of` l_records found ∧ r_k r ≤ Z.of_nat (length vouchers)
       ∧ Forall (λ c, r_key (lr_record c) = key ∧ same_body r (lr_record c) = true) vouchers)
  ∧ (∀ d, d ∈ sl_device <$> r_shards r → d ∈ mc_device <$> missing ∨
       ∃ c, c ∈ l_records found ∧ lr_device c = d ∧ lr_record c = r).
Proof.
  unfold newest_readable_version. intros Hn. inv_ok Hn.
  match goal with H : trusted_versions _ _ = Ok ?x |- _ => rename x into ts; apply trusted_versions_Ok in H as [Hord Heach Hall] end.
  destruct ts as [|t ts]; [destruct (devices_out _ _) as [|[code ?] ?]; case_match; done|].
  inv_ok Hn. rewrite ensure_Ok in *. injection Hn as <- <-.
  match goal with H : negb _ = true |- _ => apply negb_true_iff, Z.ltb_ge in H; rename H into Hk end.
  apply Forall_cons in Heach as [Htr _]. split_and!.
  - intros c Hc. by eapply head_greatest; [|apply Hall].
  - rewrite (tr_vouching _ _ _ Htr) in Hk. eexists. split_and!; [|exact Hk|].
    + etrans; [apply sublist_filter|apply sublist_filter].
    + apply Forall_forall. intros c [Hb Hc]%list_elem_of_filter. split; [|done].
      pose proof (tr_key _ _ _ Htr) as Hkey. rewrite Forall_forall in Hkey. by apply Hkey.
  - intros d Hd. assert (mc_device <$> (classify_missing document (l_unread found) <$> tv_missing t)
      = mc_device <$> tv_missing t) as ->.
    { rewrite <- list_fmap_compose. apply list_fmap_ext. intros i m _. unfold classify_missing. cbn.
      repeat (case_match; try done). }
    destruct (decide (Exists (λ c, lr_device c = d ∧ lr_record c = tv_record t) (copies_of (tv_version t) (l_records found))))
      as [(c & [_ Hc]%list_elem_of_filter & Hd' & Hr)%Exists_exists|Hno]; [right; by exists c|left].
    apply (tr_missing _ _ _ Htr). split; [done|]. intros (c & Hc & ?). apply Hno, Exists_exists. by exists c.
Qed.

(** "Not found" is never the answer to an outage: when a read reports
    that no object is under the key, no device read had any copy, and fewer
    than k + m devices of the cluster could not be read, so no complete version
    can be out of view. *)
Theorem not_found_means_absent `{Uuid} (document : ClusterDocument) (key : str) (found : LookupResult) :
  newest_readable_version document key found = Err NoObject →
  l_records found = []
  ∧ Z.of_nat (length (filter (λ x, still_listed document x.1 = true) (map_to_list (l_unread found))))
    < c_k document + c_m document.
Proof.
  unfold newest_readable_version. intros Hn.
  destruct (check_key document key) as [[]|e|] eqn:Hck; [|cbn in Hn; injection Hn as ->|done].
  2: { unfold check_key in Hck. apply bind_Err in Hck as [Hck|(? & _ & Hck)]; by apply ensure_Err in Hck as [_ ?]. }
  cbn [mbind res_bind] in Hn. destruct (trusted_versions key (l_records found)) as [ts|e|] eqn:Hts; [|exfalso|done].
  2: { cbn in Hn. injection Hn as ->. by eapply trusted_versions_found. }
  apply trusted_versions_Ok in Hts as [_ _ Hall]. cbn [mbind res_bind] in Hn. destruct ts as [|t ts].
  2: { exfalso. apply bind_Err in Hn as [Hn|(? & _ & Hn)]; [by apply ensure_Err in Hn as [_ ?]|done]. }
  split.
  { apply elem_of_nil_inv. intros c Hc. by apply Hall, not_elem_of_nil in Hc. }
  assert (length (devices_out document (l_unread found))
    = length (filter (λ x, still_listed document x.1 = true) (map_to_list (l_unread found)))) as Hlen.
  { unfold devices_out. rewrite length_fmap. apply Permutation_length. by rewrite (merge_sort_Permutation by_device). }
  rewrite <- Hlen. destruct (devices_out _ _) as [|[code ?] out]; cbn [length] in *;
    match type of Hn with context [?a <=? ?b] => destruct (Z.leb_spec a b) end; done || lia.
Qed.

(** ** Witnesses *)

Section witnesses.
#[local] Existing Instance poly_sha256.
#[local] Existing Instance decimal_uuid.

(** Every copy of the object; then with device 103 left at an earlier
    placement revision; then with device 103 unreachable. *)
Definition copies5 : list LocatedRecord :=
  [mkLocated 101 (record5 3); mkLocated 102 (record5 3); mkLocated 103 (record5 3)].
Definition stale5 : list LocatedRecord :=
  [mkLocated 101 (record5 3); mkLocated 103 (record5 2); mkLocated 102 (record5 3)].
Definition partial5 : LookupResult :=
  mkLookup [mkLocated 101 (record5 3); mkLocated 102 (record5 3)]
    {[ 103 := (NodeUnreachable, lit "down") ]}.

Lemma trusted_versions_sound_witness :
  trusted_all (lit "a") stale5 [mkTrusted (record5 3) [mkMissing 103 (CopyStale 2)] 3].
Proof. apply (trusted_versions_sound (lit "a") stale5). by vm_compute. Defined.

Lemma newest_version_complete_witness : ∃ c, c ∈ copies5 ∧ lr_device c = 102 ∧ lr_record c = record5 3.
Proof.
  assert (newest_version document2 (lit "a") copies5 = Ok (record5 3)) as Hn by by vm_compute.
  destruct (newest_version_complete document2 (lit "a") copies5 (record5 3) Hn) as (_ & _ & Hc).
  apply Hc. apply list_elem_of_here.
Defined.

Lemma newest_readable_quorum_witness :
  ∃ vouchers, vouchers `sublist_of` l_records partial5 ∧ 2 ≤ Z.of_nat (length vouchers)
    ∧ Forall (λ c, r_key (lr_record c) = lit "a" ∧ same_body (record5 3) (lr_record c) = true) vouchers.
Proof.
  assert (newest_readable_version document2 (lit "a") partial5
    = Ok (record5 3, [mkMissing 103 (CopyUnavailable (lit "down"))])) as Hn by by vm_compute.
  exact (proj1 (proj2 (newest_readable_quorum document2 (lit "a") partial5 _ _ Hn))).
Defined.

Lemma not_found_means_absent_witness : l_records (mkLookup [] ∅) = [].
Proof.
  assert (newest_readable_version document2 (lit "a") (mkLookup [] ∅) = Err NoObject) as Hn by by vm_compute.
  exact (proj1 (not_found_means_absent document2 (lit "a") (mkLookup [] ∅) Hn)).
Defined.
End witnesses.
End Lookup.
