(* ===== verification/Node.v ===== *)
(** [node.rs], [config.rs]: a node's configuration, its state and its copy of
    the cluster document.

    The serialized form of the document is what [serde_json] makes of the
    derived implementation, so it is a parameter ([DocumentText]); the TLS
    material and the filesystem identifier of a device ([st_dev]) are what the
    operating system and the TLS library give.  A [Node] is a record; an
    operation that changes it returns the changed record, and
    the operation's failure leaves the one the caller has. *)

From Stdlib Require Import QArith.
From S2P Require Import Prelude Text Checksum KeyHash VersionId Erasure Layout Stripe FileSystem ShardFile Record Device DeviceSpec Cluster.

Definition CLUSTER_DOCUMENT_FILE : str := lit "cluster.json".
Definition DEFAULT_PORT : Z := 5263.
Definition DEFAULT_TEMPORARY_MAX_AGE_SECS : Z := 3600.
Definition DEFAULT_STREAM_IDLE_TIMEOUT_SECS : Z := 120.

(** ** Configuration *)

Record TlsPaths := mkTlsPaths { tls_cert : path; tls_key : path; tls_ca : path }.

(** A socket address is its text. *)
Record NodeConfig := mkConfig {
  nc_node_id : NodeId;
  nc_listen : str;
  nc_advertise : option str;
  nc_state_dir : path;
  nc_devices : list path;
  nc_bootstrap_peers : list str;
  nc_temporary_max_age_secs : Z;
  nc_stream_idle_timeout_secs : Z;
  nc_allow_shared_filesystem : bool;
  nc_tls : option TlsPaths;
}.

Inductive ConfigError := NoDevices | DuplicateDevice (p : path).

Definition config_validate (c : NodeConfig) : res ConfigError unit :=
  _ ← ensure (negb (bool_decide (nc_devices c = []))) NoDevices;
  fold_res (λ _ (x : nat * path), ensure (negb (bool_decide (x.2 ∈ take x.1 (nc_devices c)))) (DuplicateDevice x.2))
    (imap pair (nc_devices c)) tt.

Definition advertised_address (c : NodeConfig) : str := default (nc_listen c) (nc_advertise c).

Record ClusterParameters := mkParameters {
  p_name : option str; p_k : Z; p_m : Z; p_block_size : Z; p_headroom : f64;
  p_max_key_bytes : Z; p_max_object_bytes : Z; p_max_user_metadata_bytes : Z;
}.

(** The default headroom is the double nearest to 0.05. *)
Definition default_parameters : ClusterParameters :=
  mkParameters None 3 1 (Z.shiftl 1 20) (Finite (3602879701896397 # 72057594037927936)%Q) DEFAULT_MAX_KEY_BYTES DEFAULT_MAX_OBJECT_BYTES
    DEFAULT_MAX_USER_METADATA_BYTES.

(** ** The node *)

Inductive NodeError :=
| NodeDevice (e : DeviceError)
| SameFilesystem (a b : path)
| NodeIo (p : path) (e : io_error)
| BadDocument (p : path)
| InvalidDocument (e : ClusterDocumentError)
| NotAMember (node : NodeId)
| UnknownDevice (device : DeviceId) (p : path)
| NotNewer (current proposed : Z)
| NodeWrongCluster (ours proposed : Z)
| TlsRequired (transport : Transport)
| NodeTls.

Record ShardWriteKey := mkWriteKey {
  wk_device : DeviceId;
  wk_key_hash : KeyHash;
  wk_version : VersionId;
  wk_shard_index : Z;
}.

#[global] Instance ShardWriteKey_eq_dec : EqDecision ShardWriteKey.
Proof. solve_decision. Defined.

#[global] Instance ShardWriteKey_countable : Countable ShardWriteKey.
Proof.
  apply (inj_countable'
    (λ k, (wk_device k, wk_key_hash k, wk_version k, wk_shard_index k))
    (λ '(d, h, v, i), mkWriteKey d h v i)).
  by intros [].
Defined.

(** [serde_json::to_string_pretty] and [from_str] of a cluster document. *)
Class DocumentText := {
  document_pretty : ClusterDocument → str;
  document_from_str : str → option ClusterDocument;
}.

(** What is documented of them: a text is of scalar values, and reading one
    back gives the document. *)
Definition document_text_correct `{DocumentText} (ok : ClusterDocument → Prop) : Prop :=
  ∀ c, ok c → forallb is_scalar (document_pretty c) = true ∧ document_from_str (document_pretty c) = Some c.

Section node.
Context `{Uuid} `{SerdeJson} `{Rfc3339} `{DocumentText}.
Context {TlsMaterial : Type} (TlsMaterial_load : TlsPaths → option TlsMaterial) (filesystem_id : Device → Z).

Record Node := mkNodeState {
  nd_config : NodeConfig;
  nd_document : ClusterDocument;
  nd_devices : list Device;
  nd_devices_by_id : gmap Z Device;
  nd_writes_in_flight : gset ShardWriteKey;
  nd_removed : bool;
  nd_unavailable_reported : gset Z;
  nd_tls : option TlsMaterial;
}.

Definition set_document (n : Node) (c : ClusterDocument) (removed : bool) : Node :=
  mkNodeState (nd_config n) c (nd_devices n) (nd_devices_by_id n) (nd_writes_in_flight n) removed
    (nd_unavailable_reported n) (nd_tls n).
Definition set_writes (n : Node) (s : gset ShardWriteKey) : Node :=
  mkNodeState (nd_config n) (nd_document n) (nd_devices n) (nd_devices_by_id n) s (nd_removed n)
    (nd_unavailable_reported n) (nd_tls n).
Definition set_reported (n : Node) (s : gset Z) : Node :=
  mkNodeState (nd_config n) (nd_document n) (nd_devices n) (nd_devices_by_id n) (nd_writes_in_flight n)
    (nd_removed n) s (nd_tls n).

Definition node_id (n : Node) : NodeId := nc_node_id (nd_config n).

Definition begin_shard_write (n : Node) (key : ShardWriteKey) : option Node :=
  if bool_decide (key ∈ nd_writes_in_flight n) then None
  else Some (set_writes n ({[key]} ∪ nd_writes_in_flight n)).

(** [Drop for ShardWriteGuard] *)
Definition drop_write_guard (n : Node) (key : ShardWriteKey) : Node :=
  set_writes n (nd_writes_in_flight n ∖ {[key]}).

Definition node_device (n : Node) (id : DeviceId) : option Device := nd_devices_by_id n !! id.

(** The devices a document lists for a node that are not among the opened. *)
Definition not_opened (c : ClusterDocument) (id : NodeId) (by_id : gmap Z Device) : list DeviceEntry :=
  filter (λ d, de_node d = id ∧ de_state d ≠ Removed ∧ by_id !! de_id d = None) (c_devices c).

Definition unavailable_devices (n : Node) : list DeviceId :=
  de_id <$> not_opened (nd_document n) (node_id n) (nd_devices_by_id n).

Definition note_availability (n : Node) (device : DeviceId) (available : bool) : bool * Node :=
  let reported := nd_unavailable_reported n in
  if available then (bool_decide (device ∈ reported), set_reported n (reported ∖ {[device]}))
  else (negb (bool_decide (device ∈ reported)), set_reported n ({[device]} ∪ reported)).

(** ** The document on disk *)

Definition document_path (c : NodeConfig) : path := join (nc_state_dir c) CLUSTER_DOCUMENT_FILE.

(** [path.with_extension("json.tmp")] of the document's path *)
Definition document_temp (p : path) : path := with_file_name p (lit "cluster.json.tmp").

(** [fs::write] *)
Definition fs_write (p : path) (bytes : list Z) : io io_error unit :=
  _ ← fs_create p; fs_write_all p bytes.

Definition save_document (p : path) (c : ClusterDocument) : io NodeError unit :=
  let temp := document_temp p in
  io_map_err (NodeIo p)
    (_ ← fs_write temp (as_bytes (document_pretty c));
     _ ← fs_open temp;
     _ ← fs_sync temp;
     _ ← fs_rename temp p;
     _ ← fs_open (parent p);
     fs_sync (parent p)).

Definition load_document (p : path) : io NodeError ClusterDocument :=
  json ← io_map_err (NodeIo p) (read_to_string p);
  document ← lift (ok_or (document_from_str json) (BadDocument p));
  _ ← lift (map_err InvalidDocument (document_validate document));
  mret document.

Definition save_document_for (c : NodeConfig) (document : ClusterDocument) : io NodeError unit :=
  _ ← io_map_err (NodeIo (nc_state_dir c)) (fs_create_dir_all 0 (nc_state_dir c));
  save_document (document_path c) document.

Definition load_document_for (c : NodeConfig) : io NodeError (option ClusterDocument) :=
  present ← fs_exists (document_path c);
  if present : bool then c ← load_document (document_path c); mret (Some c) else mret None.

(** ** Opening *)

(** [by_filesystem.entry(id).or_default().push(device)] *)
Fixpoint push_group {A : Type} (k : Z) (x : A) (m : list (Z * list A)) : list (Z * list A) :=
  match m with
  | [] => [(k, [x])]
  | (k', xs) :: rest =>
      if k <? k' then (k, [x]) :: m
      else if k =? k' then (k', xs ++ [x]) :: rest
      else (k', xs) :: push_group k x rest
  end.

Definition by_filesystem (devices : list Device) : list (Z * list Device) :=
  fold_left (λ m d, push_group (filesystem_id d) d m) devices [].

Definition check_filesystems (allow : bool) (devices : list Device) : res NodeError unit :=
  fold_res (λ _ (g : Z * list Device),
    match g.2 with
    | a :: b :: _ => ensure allow (SameFilesystem (d_root a) (d_root b))
    | _ => Ok tt
    end) (by_filesystem devices) tt.

Definition index_device (document : ClusterDocument) (by_id : gmap Z Device) (d : Device)
    : res NodeError (gmap Z Device) :=
  _ ← ensure (bool_decide (is_Some (device document (device_id d)))) (UnknownDevice (device_id d) (d_root d));
  Ok (<[device_id d := d]> by_id).

Definition is_active_member (document : ClusterDocument) (id : NodeId) : bool :=
  match Cluster.node document id with Some n => bool_decide (n_state n = NodeActive) | None => false end.

Definition assemble (config : NodeConfig) (document : ClusterDocument) (devices : list Device)
    : res NodeError Node :=
  tls ← match nc_tls config with
        | Some paths => Some <$> ok_or (TlsMaterial_load paths) NodeTls
        | None => Ok None
        end;
  _ ← check_filesystems (nc_allow_shared_filesystem config) devices;
  _ ← ensure (is_active_member document (nc_node_id config)) (NotAMember (nc_node_id config));
  by_id ← fold_res (index_device document) devices ∅;
  Ok (mkNodeState config document devices by_id ∅ false ∅ tls).

(** [fresh]: what [Uuid::new_v4] and the clock give for each device in turn *)
Definition init_cluster (config : NodeConfig) (parameters : ClusterParameters) (cluster_id : Z)
    (fresh : list (Z * Z)) : io NodeError Node :=
  _ ← io_map_err (NodeIo (nc_state_dir config)) (fs_create_dir_all 0 (nc_state_dir config));
  devices ← io_fold (λ devices (x : path * (Z * Z)),
              d ← io_map_err NodeDevice (initialise x.1 cluster_id x.2.1 x.2.2);
              mret (devices ++ [d])) (zip (nc_devices config) fresh) [];
  let id := nc_node_id config in
  let document := {|
    c_version := 1; c_cluster_id := cluster_id; c_name := p_name parameters;
    c_k := p_k parameters; c_m := p_m parameters; c_block_size := p_block_size parameters;
    c_independence_level := LevelDevice; c_headroom := p_headroom parameters;
    c_max_key_bytes := p_max_key_bytes parameters; c_max_object_bytes := p_max_object_bytes parameters;
    c_max_user_metadata_bytes := p_max_user_metadata_bytes parameters; c_transport := Plain;
    c_nodes := [Cluster.mkNode id [advertised_address config] None NodeActive];
    c_devices := (λ d, mkDeviceEntry (device_id d) id Active None) <$> devices |} in
  _ ← lift (map_err InvalidDocument (document_validate document));
  _ ← save_document (document_path config) document;
  lift (assemble config document devices).

(** One configured path: a missing or empty directory is skipped. *)
Definition open_device (cluster_id : Z) (devices : list Device) (p : path) : io NodeError (list Device) :=
  r ← attempt (Device_open p (Some cluster_id));
  match r with
  | Ok d => mret (devices ++ [d])
  | Err (NotInitialised _) => mret devices
  | Err (DevIo _ NotFound) => mret devices
  | Err e => throw (NodeDevice e)
  | Panic => lift Panic
  end.

Definition Node_open (config : NodeConfig) : io NodeError Node :=
  document ← load_document (document_path config);
  _ ← lift (ensure (bool_decide (c_transport document = Plain) || bool_decide (is_Some (nc_tls config)))
              (TlsRequired (c_transport document)));
  devices ← io_fold (open_device (c_cluster_id document)) (nc_devices config) [];
  _ ← io_fold (λ _ d, _ ← io_map_err NodeDevice (cleanup_temporaries d (nc_temporary_max_age_secs config)); mret tt)
        devices tt;
  lift (assemble config document devices).

(** ** Changing the document *)

Definition apply_document (n : Node) (proposed : ClusterDocument) : io NodeError Node :=
  _ ← lift (map_err InvalidDocument (document_validate proposed));
  let current := nd_document n in
  _ ← lift (ensure (bool_decide (c_cluster_id proposed = c_cluster_id current))
              (NodeWrongCluster (c_cluster_id current) (c_cluster_id proposed)));
  _ ← lift (ensure (negb (c_version proposed <=? c_version current))
              (NotNewer (c_version current) (c_version proposed)));
  _ ← lift (ensure (bool_decide (c_transport proposed = Plain) || bool_decide (is_Some (nd_tls n)))
              (TlsRequired (c_transport proposed)));
  _ ← save_document (document_path (nd_config n)) proposed;
  let still_active := is_active_member proposed (node_id n) in
  mret (set_document n proposed (nd_removed n || negb still_active)).

Definition document_with_this_node (config : NodeConfig) (current : ClusterDocument) (devices : list DeviceId)
    : ClusterDocument :=
  let id := nc_node_id config in
  let nodes := match Cluster.node current id with
               | None => c_nodes current ++ [Cluster.mkNode id [advertised_address config] None NodeActive]
               | Some _ => c_nodes current
               end in
  let entries := fold_left (λ ds d,
      if bool_decide (d ∈ de_id <$> ds) then ds else ds ++ [mkDeviceEntry d id Active None])
    devices (c_devices current) in
  {| c_version := wrap64 (c_version current + 1); c_cluster_id := c_cluster_id current;
     c_name := c_name current; c_k := c_k current; c_m := c_m current; c_block_size := c_block_size current;
     c_independence_level := c_independence_level current; c_headroom := c_headroom current;
     c_max_key_bytes := c_max_key_bytes current; c_max_object_bytes := c_max_object_bytes current;
     c_max_user_metadata_bytes := c_max_user_metadata_bytes current; c_transport := c_transport current;
     c_nodes := nodes; c_devices := entries |}.
End node.

Arguments Node : clear implicits.

(** ** The document on disk: lemmas *)

(** Inverting a run that succeeded. *)
Lemma io_bind_Ok {E A B : Type} (m : io E A) (f : A → io E B) (w w' : World) (b : B) :
  (m ≫= f) w = (Ok b, w') → ∃ a w1, m w = (Ok a, w1) ∧ f a w1 = (Ok b, w').
Proof. unfold mbind, io_bind. destruct (m w) as [[a|e|] w1]; [by exists a, w1|done|done]. Qed.

Lemma io_lift_Ok {E A : Type} (r : res E A) (w w' : World) (a : A) :
  lift r w = (Ok a, w') → r = Ok a ∧ w' = w.
Proof. unfold lift. naive_solver. Qed.

Lemma io_ret_Ok {E A : Type} (a b : A) (w w' : World) :
  (mret a : io E A) w = (Ok b, w') → b = a ∧ w' = w.
Proof. unfold mret, io_ret. naive_solver. Qed.

Ltac io_ok H :=
  match type of H with
  | (_ ≫= _) _ = (Ok _, _) =>
      let a := fresh "a" in let w := fresh "w1" in let Ha := fresh "Hrun" in
      apply io_bind_Ok in H as (a & w & Ha & H)
  end.

Section document.
Context `{DocumentText}.

Lemma document_temp_ne p : file_name p = Some CLUSTER_DOCUMENT_FILE → document_temp p ≠ p.
Proof.
  intros Hp Heq. apply (f_equal file_name) in Heq. rewrite Hp in Heq.
  unfold document_temp, with_file_name, join, file_name in Heq. by rewrite last_snoc in Heq.
Qed.

Lemma document_path_name c : file_name (document_path c) = Some CLUSTER_DOCUMENT_FILE.
Proof. unfold document_path, join, file_name. by rewrite last_snoc. Qed.

(** [fs::write]: the file holds the bytes, or there is an error; nothing
    else changes. *)
Lemma wp_fs_write (Inv : tree → Prop) (temp : path) (bytes : list Z) (w : World)
    (Post : res io_error unit → World → Prop) :
  (∀ t, (∀ q, q ≠ temp → t !! q = w_tree w !! q) → Inv t) →
  (∀ m w', framed temp w w' → w_tree w' !! temp = Some (File bytes m) → Post (Ok tt) w') →
  (∀ e w', framed temp w w' → Post (Err e) w') →
  wp Inv (fs_write temp bytes) w Post.
Proof.
  intros HI Hok Herr. unfold fs_write. apply wp_bind, wp_fs_create.
  { apply HI. intros q Hq. by rewrite lookup_insert_ne. }
  2: { intros e w1 Hw1. by apply Herr, unmoved_framed. }
  intros w1 Hw1. pose proof (moved_touched _ _ _ _ _ _ Hw1) as T1. destruct Hw1 as (Ht1 & Ho1 & _).
  assert (offset_of w1 temp = O) as Hoff by (unfold offset_of; by rewrite Ho1, lookup_insert_eq).
  eapply wp_fs_write_all; [by rewrite Ht1, lookup_insert_eq| | |].
  - intros bs. apply HI. intros q Hq. rewrite lookup_insert_ne by done. by apply (touched_framed _ _ _ T1).
  - intros w2 Hw2. pose proof (touched_trans _ _ _ _ T1 (moved_touched _ _ _ _ _ _ Hw2)) as T2.
    destruct Hw2 as (Ht2 & _). rewrite Hoff in Ht2. eapply Hok; [by apply touched_framed|].
    rewrite Ht2, lookup_insert_eq. unfold overwrite. cbn. by rewrite drop_nil, app_nil_r.
  - intros k n w2 Hw2. apply Herr, touched_framed. eapply touched_trans; [exact T1|by eapply moved_touched].
Qed.

(** Opening and syncing changes nothing. *)
Lemma wp_open_sync (Inv : tree → Prop) {B : Type} (p : path) (w : World) (K : io io_error B)
    (Post : res io_error B → World → Prop) :
  (∀ w', unmoved w w' → wp Inv K w' Post) → (∀ e w', unmoved w w' → Post (Err e) w') →
  wp Inv (_ ← fs_open p; _ ← fs_sync p; K) w Post.
Proof.
  intros Hok Herr.
  assert (∀ w1 w2 : World, unmoved w w1 → unmoved w1 w2 → unmoved w w2) as Htr.
  { intros w1 w2 (? & ? & ? & ? & ?) (? & ? & ? & ? & ?). split_and!; congruence. }
  unfold fs_open. apply wp_bind, wp_bind, wp_fs_metadata; [|intros e w1 Hw1 _; by apply Herr].
  intros n w1 _ Hw1. apply wp_ret. apply wp_bind, wp_may_fail.
  - intros w2 Hw2. by eapply Hok, Htr.
  - intros k w2 Hw2. by eapply Herr, Htr.
Qed.

(** A save replaces the file as a whole, and reports success only with the
    new document in place. *)
Lemma wp_save_document (Inv : tree → Prop) (p : path) (c : ClusterDocument) (w : World) :
  let bytes := as_bytes (document_pretty c) in
  file_name p = Some CLUSTER_DOCUMENT_FILE →
  (∀ t, replaced (w_tree w) (document_temp p) p bytes t → Inv t) →
  wp Inv (save_document p c) w (λ r w',
    replaced (w_tree w) (document_temp p) p bytes (w_tree w') ∧ r ≠ Panic
    ∧ (r = Ok tt → ∃ m, w_tree w' !! p = Some (File bytes m))).
Proof.
  intros bytes Hp HI. set (temp := document_temp p) in *. pose proof (document_temp_ne p Hp) as Hne. fold temp in Hne.
  assert (∀ t, (∀ q, q ≠ temp → t !! q = w_tree w !! q) → replaced (w_tree w) temp p bytes t) as Htemp.
  { intros t Ht. split; [by intros; apply Ht|]. left. by apply Ht. }
  assert (∀ e (w' : World), framed temp w w' →
    replaced (w_tree w) temp p bytes (w_tree w') ∧ map_err (NodeIo p) (Err e) ≠ (Panic : res NodeError unit)
    ∧ (map_err (NodeIo p) (Err e) = Ok tt → ∃ m, w_tree w' !! p = Some (File bytes m))) as Hfail.
  { intros e w' [Hf _]. split_and!; [by apply Htemp|done|done]. }
  unfold save_document. fold temp. apply wp_map_err, wp_bind, wp_fs_write.
  { intros t Ht. by apply HI, Htemp. }
  2: { intros e w1 F1. by apply Hfail. }
  intros m w1 F1 Hfile. apply wp_open_sync.
  2: { intros e w2 Hw2. apply Hfail. eapply framed_trans; [exact F1|by apply unmoved_framed]. }
  intros w2 Hw2. pose proof (framed_trans _ _ _ _ F1 (unmoved_framed temp _ _ Hw2)) as F2.
  assert (replaced (w_tree w) temp p bytes (<[p := File bytes m]> (delete temp (w_tree w2)))) as Hrep.
  { split; [|right; eexists; by rewrite lookup_insert_eq].
    intros q Hq Hqp. rewrite lookup_insert_ne, lookup_delete_ne by done. by apply F2. }
  apply wp_bind. eapply wp_fs_rename; [by rewrite (proj1 Hw2)|by apply HI| |].
  2: { intros e w3 Hw3. apply Hfail. eapply framed_trans; [exact F2|by apply unmoved_framed]. }
  intros w3 (Ht3 & _). unfold fs_open. apply wp_bind, wp_bind, wp_fs_metadata.
  - intros n' w4 _ (Ht4 & _). apply wp_ret, wp_may_fail.
    + intros w5 (Ht5 & _). rewrite Ht5, Ht4, Ht3. split_and!; [done|done|]. intros _. eexists. by rewrite lookup_insert_eq.
    + intros k w5 (Ht5 & _). rewrite Ht5, Ht4, Ht3. by split_and!.
  - intros e w4 (Ht4 & _) _. rewrite Ht4, Ht3. by split_and!.
Qed.
End document.

(** ** Adopting documents *)

Section adopting.
Context `{Uuid} `{DocumentText} {TlsMaterial : Type}.
Implicit Types (n : Node TlsMaterial) (c proposed : ClusterDocument).

(** What a proposed document must satisfy. *)
Definition acceptable n proposed : Prop :=
  document_validate proposed = Ok tt
  ∧ c_cluster_id proposed = c_cluster_id (nd_document n)
  ∧ c_version (nd_document n) < c_version proposed
  ∧ (c_transport proposed = Plain ∨ is_Some (nd_tls n)).

Definition adopted n proposed : Node TlsMaterial :=
  set_document n proposed (nd_removed n || negb (is_active_member proposed (node_id n))).

(** The guards, all passed or one refusing with nothing touched. *)
Lemma apply_document_guards n proposed (w : World) :
  (acceptable n proposed
   ∧ apply_document n proposed w
     = (_ ← save_document (document_path (nd_config n)) proposed; mret (adopted n proposed)) w)
  ∨ (¬ acceptable n proposed ∧ ∃ r, apply_document n proposed w = (r, w) ∧ ∀ n', r ≠ Ok n').
Proof.
  unfold apply_document, acceptable.
  destruct (document_validate proposed) as [[]|e|] eqn:Hv; cbn [map_err].
  2-3: right; (split; [naive_solver|]); eexists; by split.
  rewrite io_lift_ok. destruct (decide (c_cluster_id proposed = c_cluster_id (nd_document n))) as [Hc|Hc];
    [rewrite (bool_decide_eq_true_2 _ Hc)|rewrite (bool_decide_eq_false_2 _ Hc)]; cbn [ensure].
  2: right; (split; [naive_solver|]); eexists; by split.
  rewrite io_lift_ok. destruct (Z.leb_spec (c_version proposed) (c_version (nd_document n))) as [Hle|Hlt]; cbn [negb ensure].
  { right. split; [intros (_ & _ & ? & _); lia|]. eexists. by split. }
  rewrite io_lift_ok. destruct (bool_decide (c_transport proposed = Plain) || bool_decide (is_Some (nd_tls n))) eqn:Ht; cbn [ensure].
  - left. rewrite io_lift_ok. split; [|done]. split_and!; [done..|].
    apply orb_true_iff in Ht as [?%bool_decide_eq_true| ?%bool_decide_eq_true]; auto.
  - right. apply orb_false_iff in Ht as [Ht1%bool_decide_eq_false Ht2%bool_decide_eq_false].
    split; [naive_solver|]. eexists. by split.
Qed.

Lemma wp_apply_document n proposed (w : World) :
  let p := document_path (nd_config n) in
  let bytes := as_bytes (document_pretty proposed) in
  acceptable n proposed →
  wp (λ t, replaced (w_tree w) (document_temp p) p bytes t) (apply_document n proposed) w (λ r w',
    replaced (w_tree w) (document_temp p) p bytes (w_tree w') ∧ r ≠ Panic
    ∧ ∀ n', r = Ok n' → n' = adopted n proposed ∧ ∃ m, w_tree w' !! p = Some (File bytes m)).
Proof.
  intros p bytes Hacc. destruct (apply_document_guards n proposed w) as [[_ Heq]|[? _]]; [|done].
  enough (wp (λ t, replaced (w_tree w) (document_temp p) p bytes t)
    (_ ← save_document (document_path (nd_config n)) proposed; mret (adopted n proposed)) w (λ r w',
    replaced (w_tree w) (document_temp p) p bytes (w_tree w') ∧ r ≠ Panic
    ∧ ∀ n', r = Ok n' → n' = adopted n proposed ∧ ∃ m, w_tree w' !! p = Some (File bytes m))) as Hwp.
  { unfold wp in *. by rewrite Heq. }
  apply wp_bind. eapply wp_mono; [apply wp_save_document; [apply document_path_name|done]|].
  cbn beta. intros [[]|e|] w1 (Hrep & Hp & Hok).
  - apply wp_ret. split_and!; [done|done|]. intros n' [= <-]. split; [done|]. by apply Hok.
  - by split_and!.
  - by split_and!.
Qed.

(** A series of proposals; a refused or failed one leaves the node as it is. *)
Definition adopt (s : Node TlsMaterial * World) proposed : Node TlsMaterial * World :=
  match apply_document s.1 proposed s.2 with
  | (Ok n', w') => (n', w')
  | (_, w') => (s.1, w')
  end.

(** The document's file holds a whole valid document of the cluster, at
    least as new as [v]. *)
Definition disk_ok (p : path) (cluster v : Z) (ok : ClusterDocument → Prop) (t : tree) : Prop :=
  ∃ c m, t !! p = Some (File (as_bytes (document_pretty c)) m)
    ∧ document_validate c = Ok tt ∧ c_cluster_id c = cluster ∧ v ≤ c_version c ∧ ok c.

(** What holds of the node and the trees written so far, [new]. *)
Record adopting (n : Node TlsMaterial) (ok : ClusterDocument → Prop) (w : World)
    (s : Node TlsMaterial * World) : Prop := {
  ad_config : nd_config s.1 = nd_config n;
  ad_cluster : c_cluster_id (nd_document s.1) = c_cluster_id (nd_document n);
  ad_version : c_version (nd_document n) ≤ c_version (nd_document s.1);
  ad_valid : document_validate (nd_document s.1) = Ok tt;
  ad_removed : nd_removed n = true → nd_removed s.1 = true;
  ad_trees : ∃ new, w_trace s.2 = new ++ w_trace w
    ∧ Forall (disk_ok (document_path (nd_config n)) (c_cluster_id (nd_document n)) (c_version (nd_document n)) ok)
        (w_tree s.2 :: new);
}.

Lemma disk_ok_replaced (p : path) (cluster v : Z) (ok : ClusterDocument → Prop) c (t0 t : tree) (temp : path) :
  disk_ok p cluster v ok t0 → document_validate c = Ok tt → c_cluster_id c = cluster → v ≤ c_version c → ok c →
  replaced t0 temp p (as_bytes (document_pretty c)) t → disk_ok p cluster v ok t.
Proof.
  intros (c0 & m0 & Hp & Hrest) Hv Hc Hle Hok [_ [Heq|[m Hm]]].
  - exists c0, m0. by rewrite Heq.
  - by exists c, m.
Qed.

Lemma adopt_adopting n ok (w : World) s proposed :
  ok proposed → adopting n ok w s → adopting n ok w (adopt s proposed).
Proof.
  intros Hokp [Hcfg Hcl Hver Hval Hrem (new & Htr & Hnew)]. destruct s as [n1 w1]. cbn [fst snd] in *. unfold adopt. cbn [fst snd].
  destruct (apply_document_guards n1 proposed w1) as [[Hacc _]|[_ (r & -> & Hr)]].
  2: { destruct r as [n'| |]; [by destruct (Hr n')|..]; by split; try (exists new). }
  pose proof (wp_apply_document n1 proposed w1 Hacc) as Hwp. unfold wp in Hwp.
  destruct Hacc as (Hv & Hc & Hlt & _). apply Forall_cons in Hnew as [Ht1 Hnew]. rewrite Hcfg in Hwp.
  destruct (apply_document n1 proposed w1) as [r w2] eqn:Happ.
  destruct Hwp as [(Hrep & Hp & Hres) (new' & Htr' & Hnew')].
  assert (∃ new, w_trace w2 = new ++ w_trace w
    ∧ Forall (disk_ok (document_path (nd_config n)) (c_cluster_id (nd_document n)) (c_version (nd_document n)) ok)
        (w_tree w2 :: new)) as Htrees.
  { exists (new' ++ new). split; [by rewrite Htr', Htr, app_assoc|].
    assert (∀ t, replaced (w_tree w1) (document_temp (document_path (nd_config n))) (document_path (nd_config n))
      (as_bytes (document_pretty proposed)) t →
      disk_ok (document_path (nd_config n)) (c_cluster_id (nd_document n)) (c_version (nd_document n)) ok t) as Hstep.
    { intros t. apply disk_ok_replaced; [done|done|congruence|lia|done]. }
    constructor; [by apply Hstep|]. apply Forall_app. split; [|done]. by eapply Forall_impl. }
  destruct r as [n'|e|]; [|by split|done]. destruct (Hres n' eq_refl) as [-> _].
  split; cbn; [done|congruence|lia|done| |done]. intros Hr. by rewrite Hrem.
Qed.

Lemma adopt_all n ok (w : World) proposals s :
  Forall ok proposals → adopting n ok w s → adopting n ok w (fold_left adopt proposals s).
Proof. intros Hok. revert s. induction Hok as [|c l Hc _ IH]; intros s Hs; [done|]. by apply IH, adopt_adopting. Qed.

(** Reading the document back. *)
Lemma load_document_ok (ok : ClusterDocument → Prop) (p : path) (cluster v : Z) (w : World) :
  document_text_correct ok → no_faults w → disk_ok p cluster v ok (w_tree w) →
  ∃ c, load_document p w = (Ok c, w) ∧ document_validate c = Ok tt ∧ c_cluster_id c = cluster ∧ v ≤ c_version c.
Proof.
  intros Htext Hnf (c & m & Hp & Hv & Hc & Hle & Hok). exists c. split; [|done].
  destruct (Htext c Hok) as [Hsc Hback].
  unfold load_document, read_to_string, fs_read, io_map_err, mbind, io_bind. rewrite (may_fail_run w Hnf).
  unfold get. rewrite Hp. unfold mret, io_ret, lift. rewrite from_utf8_as_bytes by done. cbn [ok_or map_err].
  rewrite Hback. cbn [ok_or]. by rewrite Hv.
Qed.
End adopting.

(** ** Opening: lemmas *)

Section opening.
Context `{Uuid} `{SerdeJson} `{Rfc3339} `{DocumentText}.
Context {TlsMaterial : Type} (TlsMaterial_load : TlsPaths → option TlsMaterial) (filesystem_id : Device → Z).

Section groups.
Context {A : Type} (key : A → Z).

Record groups_ok (xs : list A) (m : list (Z * list A)) : Prop := {
  go_sorted : StronglySorted Z.lt m.*1;
  go_keys : Forall (λ g, Forall (λ x, key x = g.1) g.2) m;
  go_all : concat m.*2 ≡ₚ xs;
}.

Lemma push_group_keys k (x : A) m u : u ∈ (push_group k x m).*1 ↔ u = k ∨ u ∈ m.*1.
Proof.
  induction m as [|[k' l] m IH]; cbn [push_group fmap list_fmap fst]; [set_solver|].
  destruct (Z.ltb_spec k k'), (Z.eqb_spec k k'); cbn [fmap list_fmap fst]; rewrite ?elem_of_cons, ?IH;
    (lia || (subst; naive_solver) || naive_solver).
Qed.

Lemma push_group_ok k (x : A) xs m : key x = k → groups_ok xs m → groups_ok (xs ++ [x]) (push_group k x m).
Proof.
  intros Hk [Hs Hf Hp].
  assert (StronglySorted Z.lt (push_group k x m).*1 ∧ Forall (λ g, Forall (λ x, key x = g.1) g.2) (push_group k x m)
    ∧ concat (push_group k x m).*2 ≡ₚ x :: concat m.*2) as (? & ? & Hc).
  { clear Hp. induction m as [|[k' l] m IH]; cbn [push_group fmap list_fmap fst snd concat].
    { split_and!; by repeat constructor. }
    cbn [fmap list_fmap fst] in Hs. apply StronglySorted_inv in Hs as [Hs Hlt]. apply Forall_cons in Hf as [Hl Hf].
    destruct (Z.ltb_spec k k'); [|destruct (Z.eqb_spec k k') as [->|]]; cbn [fmap list_fmap fst snd concat].
    - split_and!; [|by repeat constructor|done]. constructor; [by constructor|]. constructor; [lia|].
      eapply Forall_impl; [exact Hlt|]. cbn. intros; lia.
    - split_and!; [by constructor| |]; [|by rewrite <- app_assoc, Permutation_middle].
      constructor; [|done]. apply Forall_app. split; [done|by repeat constructor].
    - destruct (IH Hs Hf) as (IHs & IHf & IHp). split_and!; [|by constructor|].
      + constructor; [done|]. apply Forall_forall. intros u [->|Hu]%push_group_keys; [lia|].
        rewrite Forall_forall in Hlt. by apply Hlt.
      + rewrite IHp. by rewrite Permutation_middle. }
  split; [done|done|]. rewrite Hc, Hp. apply Permutation_cons_append.
Qed.

(** Groups of at most one: every key is different. *)
Lemma groups_single xs m : groups_ok xs m → Forall (λ g, (length g.2 ≤ 1)%nat) m → NoDup (key <$> xs).
Proof.
  intros [Hs Hf Hp] Hl. rewrite <- Hp. clear Hp xs. induction m as [|[k l] m IH]; cbn; [constructor|].
  cbn in Hs. apply StronglySorted_inv in Hs as [Hs Hlt]. apply Forall_cons in Hf as [Hkl Hf]. apply Forall_cons in Hl as [Hl1 Hl].
  cbn in *. rewrite fmap_app. specialize (IH Hs Hf Hl). destruct l as [|x [|]]; cbn in *; [done| |lia].
  apply NoDup_cons. split; [|done]. apply Forall_cons in Hkl as [-> _].
  intros (y & Hy & Hin)%list_elem_of_fmap. rewrite list_elem_of_In, in_concat in Hin. destruct Hin as (g & Hg & Hin).
  rewrite <- list_elem_of_In in Hg. rewrite <- list_elem_of_In in Hin. apply list_elem_of_fmap in Hg as ([k' g'] & -> & Hg). cbn in Hin.
  rewrite Forall_forall in Hf. rewrite Forall_forall in Hlt. specialize (Hf _ Hg). rewrite Forall_forall in Hf. specialize (Hf _ Hin). cbn in Hf.
  specialize (Hlt k' (list_elem_of_fmap_2 fst _ _ Hg)). lia.
Qed.
End groups.

Lemma by_filesystem_ok devices : groups_ok filesystem_id devices (by_filesystem filesystem_id devices).
Proof.
  unfold by_filesystem. assert (∀ todo before m, groups_ok filesystem_id before m →
    groups_ok filesystem_id (before ++ todo) (fold_left (λ m d, push_group (filesystem_id d) d m) todo m)) as Hgo.
  { induction todo as [|d todo IH]; intros before m Hm; cbn [fold_left]; [by rewrite app_nil_r|].
    replace (before ++ d :: todo) with ((before ++ [d]) ++ todo) by (by rewrite <- app_assoc).
    by apply IH, push_group_ok. }
  apply (Hgo devices [] []). split; constructor.
Qed.

Lemma check_filesystems_Ok devices :
  check_filesystems filesystem_id false devices = Ok tt → NoDup (filesystem_id <$> devices).
Proof.
  intros Hc. apply (groups_single _ _ _ (by_filesystem_ok devices)). unfold check_filesystems in Hc.
  induction (by_filesystem filesystem_id devices) as [|[k l] m IH]; [constructor|]. cbn [fold_res] in Hc.
  apply bind_Ok in Hc as ([] & Hl & Hc). constructor; [|by apply IH]. cbn in *.
  destruct l as [|a [|b l]]; cbn in *; [lia|lia|done].
Qed.

Lemma index_device_Ok document devices by_id0 by_id :
  fold_res (index_device document) devices by_id0 = Ok by_id →
  Forall (λ d, is_Some (device document (device_id d)) ∧ is_Some (by_id !! device_id d)) devices
  ∧ (∀ i, is_Some (by_id0 !! i) → is_Some (by_id !! i))
  ∧ (∀ i d, by_id !! i = Some d → (d ∈ devices ∧ device_id d = i) ∨ by_id0 !! i = Some d).
Proof.
  revert by_id0. induction devices as [|d devices IH]; intros by_id0; cbn [fold_res].
  { intros [= <-]. split_and!; [constructor|done|by right]. }
  intros (by_id1 & Hd & Hrest)%bind_Ok. unfold index_device in Hd. inv_ok Hd. injection Hd as <-.
  rewrite ensure_Ok, bool_decide_eq_true in *. destruct (IH _ Hrest) as (Hall & Hkeep & Hfrom).
  split_and!.
  - constructor; [|done]. split; [done|]. apply Hkeep. rewrite lookup_insert_eq. by eexists.
  - intros i [d' Hi]. apply Hkeep. destruct (decide (i = device_id d)) as [->|];
      [rewrite lookup_insert_eq|rewrite lookup_insert_ne by done]; by eexists.
  - intros i d' Hi. destruct (Hfrom i d' Hi) as [[? ?]|Hins]; [left; by split; [apply list_elem_of_further|]|].
    destruct (decide (i = device_id d)) as [->|].
    + rewrite lookup_insert_eq in Hins. injection Hins as <-. left. split; [apply list_elem_of_here|done].
    + rewrite lookup_insert_ne in Hins by done. by right.
Qed.

(** An opened device is at the path asked for and of the cluster. *)
Lemma Device_open_Ok p cluster d (w w' : World) :
  Device_open p (Some cluster) w = (Ok d, w') → d_root d = p ∧ di_cluster_id (d_identity d) = cluster.
Proof.
  unfold Device_open. intros Hr. do 6 io_ok Hr.
  match goal with Hc : lift (check_identity _ _ _) _ = _ |- _ => apply io_lift_Ok in Hc as [Hc _]; rename Hc into Hid end.
  unfold check_identity in Hid. inv_ok Hid. rewrite ensure_Ok in Hid.
  apply io_ret_Ok in Hr as [-> _]. cbn. split; [done|]. by apply Z.eqb_eq in Hid.
Qed.

Lemma open_devices_Ok cluster paths devices0 devices (w w' : World) :
  io_fold (open_device cluster) paths devices0 w = (Ok devices, w') →
  Forall (λ d, d ∈ devices0 ∨ (d_root d ∈ paths ∧ di_cluster_id (d_identity d) = cluster)) devices.
Proof.
  revert devices0 w. induction paths as [|p paths IH]; intros devices0 w; cbn [io_fold].
  { intros [-> _]%io_ret_Ok. apply Forall_forall. by left. }
  intros (devices1 & w1 & Hd & Hrest)%io_bind_Ok. apply IH in Hrest.
  assert (∀ d, d ∈ devices1 → d ∈ devices0 ∨ (d_root d = p ∧ di_cluster_id (d_identity d) = cluster)) as Hone.
  { unfold open_device in Hd. io_ok Hd. unfold attempt in Hrun.
    destruct (Device_open p (Some cluster) w) as [[d'|e|] w2] eqn:Ho; [..|done]; injection Hrun as <- <-.
    - apply io_ret_Ok in Hd as [-> _]. intros d [?|Hd]%elem_of_app; [by left|right].
      apply list_elem_of_singleton in Hd as ->. by eapply Device_open_Ok.
    - destruct e as [p' []| | | | | | | | | | |]; try done; apply io_ret_Ok in Hd as [-> _]; by left. }
  eapply Forall_impl; [exact Hrest|]. cbn. intros d [Hd1|[? ?]].
  - destruct (Hone d Hd1) as [?|[-> ?]]; [by left|right]. split; [apply list_elem_of_here|done].
  - right. split; [by apply list_elem_of_further|done].
Qed.
End opening.

(** ** Write slots *)

Section slots.
Context {TlsMaterial : Type}.
Implicit Types n : Node TlsMaterial.

(** Requests, by number, and the guards they hold: a request claims a slot
    and holds the guard until it drops it. *)
Inductive slot_step : Node TlsMaterial * gmap nat ShardWriteKey → Node TlsMaterial * gmap nat ShardWriteKey → Prop :=
| slot_claim n n' held r key :
    held !! r = None → begin_shard_write n key = Some n' → slot_step (n, held) (n', <[r := key]> held)
| slot_drop n held r key :
    held !! r = Some key → slot_step (n, held) (drop_write_guard n key, delete r held).

(** The slots taken are those of the guards held, each held once. *)
Record slots_ok (s : Node TlsMaterial * gmap nat ShardWriteKey) : Prop := {
  so_taken : ∀ key, key ∈ nd_writes_in_flight s.1 ↔ ∃ r, s.2 !! r = Some key;
  so_once : ∀ r1 r2 key, s.2 !! r1 = Some key → s.2 !! r2 = Some key → r1 = r2;
}.

Lemma slot_step_ok s s' : slots_ok s → slot_step s s' → slots_ok s'.
Proof.
  intros Hs Hstep. revert Hs. destruct Hstep as [n n' held r key Hr Hb|n held r key Hr]; intros [Ht Ho]; cbn [fst snd] in *.
  - unfold begin_shard_write in Hb. case_bool_decide as Hin; [done|]. injection Hb as <-. split; cbn.
    + intros key'. rewrite elem_of_union, elem_of_singleton, Ht. split.
      * intros [->|(r' & Hr')]; [exists r; by rewrite lookup_insert_eq|]. exists r'. rewrite lookup_insert_ne; [done|congruence].
      * intros (r' & Hr'). destruct (decide (r' = r)) as [->|]; [rewrite lookup_insert_eq in Hr'; left; congruence|].
        rewrite lookup_insert_ne in Hr' by done. right. by exists r'.
    + assert (∀ r', held !! r' ≠ Some key) as Hfree by (intros r' Hr'; apply Hin, Ht; by exists r').
      intros r1 r2 key'. destruct (decide (r1 = r)) as [->|], (decide (r2 = r)) as [->|];
        rewrite ?lookup_insert_eq, ?lookup_insert_ne by done; [done| | |by apply Ho]; congruence.
  - split; cbn.
    + intros key'. rewrite elem_of_difference, elem_of_singleton, Ht. split.
      * intros [(r' & Hr') Hne]. exists r'. rewrite lookup_delete_ne; [done|congruence].
      * intros (r' & Hr'). destruct (decide (r' = r)) as [->|]; [by rewrite lookup_delete_eq in Hr'|].
        rewrite lookup_delete_ne in Hr' by done. split; [by exists r'|]. intros ->. by destruct (Ho r' r key).
    + intros r1 r2 key' H1 H2. apply lookup_delete_Some in H1 as [_ H1], H2 as [_ H2]. by eapply Ho.
Qed.
End slots.

(** ** Properties *)

Section properties.
Context `{Uuid} `{SerdeJson} `{Rfc3339} `{DocumentText}.
Context {TlsMaterial : Type} (TlsMaterial_load : TlsPaths → option TlsMaterial) (filesystem_id : Device → Z).
Implicit Types n : Node TlsMaterial.

(** C18. Adopting a cluster document: only a valid document of the node's
    own cluster with a higher version (and, off plain transport, with TLS
    material loaded) is adopted; any other is refused with the disk
    untouched.  Whatever call fails on the way, the file on disk is in every
    instant the old one or exactly the new one, the node serves the new
    document only once it is in place, and it marks itself removed when the
    document no longer lists it as active. *)
Theorem apply_document_durable n (proposed : ClusterDocument) (w : World) :
  let p := document_path (nd_config n) in
  let bytes := as_bytes (document_pretty proposed) in
  (acceptable n proposed →
   run_trees (apply_document n proposed w) w
     (λ t, replaced (w_tree w) (document_temp p) p bytes t)
     (λ r w', r ≠ Panic ∧ ∀ n', r = Ok n' →
        (∃ m, w_tree w' !! p = Some (File bytes m)) ∧ nd_document n' = proposed
        ∧ nd_removed n' = nd_removed n || negb (is_active_member proposed (node_id n))
        ∧ nd_writes_in_flight n' = nd_writes_in_flight n))
  ∧ (¬ acceptable n proposed →
     (apply_document n proposed w).2 = w ∧ ∀ n', (apply_document n proposed w).1 ≠ Ok n').
Proof.
  intros p bytes. split.
  - intros Hacc. eapply wp_run; [by apply wp_apply_document|]. cbn beta.
    intros r w' (Hrep & Hp & Hok). split_and!; [done|done|]. intros n' [-> Hm]%Hok. by split_and!.
  - intros Hacc. destruct (apply_document_guards n proposed w) as [[? _]|[_ (r & -> & Hr)]]; [done|]. by split.
Qed.

(** C35. The document's history: through any series of proposals, refused or
    failing at any system call, the node's document stays valid, stays of its
    cluster and never goes back in version, and a node once removed stays
    removed.  A crash at any instant leaves a file from which a restart loads
    a valid document of the cluster, no older than the first. *)
Theorem document_history (ok : ClusterDocument → Prop) n (w : World) (proposals : list ClusterDocument) :
  document_text_correct ok → Forall ok proposals →
  document_validate (nd_document n) = Ok tt →
  disk_ok (document_path (nd_config n)) (c_cluster_id (nd_document n)) (c_version (nd_document n)) ok (w_tree w) →
  let '(n', w') := fold_left adopt proposals (n, w) in
  document_validate (nd_document n') = Ok tt
  ∧ c_cluster_id (nd_document n') = c_cluster_id (nd_document n)
  ∧ c_version (nd_document n) ≤ c_version (nd_document n')
  ∧ (nd_removed n = true → nd_removed n' = true)
  ∧ ∃ new, w_trace w' = new ++ w_trace w
      ∧ ∀ t (w0 : World), t ∈ w_tree w' :: new → w_tree w0 = t → no_faults w0 →
        ∃ c, load_document (document_path (nd_config n)) w0 = (Ok c, w0) ∧ document_validate c = Ok tt
          ∧ c_cluster_id c = c_cluster_id (nd_document n) ∧ c_version (nd_document n) ≤ c_version c.
Proof.
  intros Htext Hok Hv Hdisk.
  assert (adopting n ok w (fold_left adopt proposals (n, w))) as [Hcfg Hcl Hver Hval Hrem (new & Htr & Hnew)].
  { apply adopt_all; [done|]. split; cbn; [done|done|lia|done|done|]. exists []. split; [done|]. by constructor. }
  destruct (fold_left adopt proposals (n, w)) as [n' w']. cbn [fst snd] in *.
  split_and!; [done..|]. exists new. split; [done|]. intros t w0 Ht Hw0 Hnf.
  rewrite Forall_forall in Hnew. apply (load_document_ok ok); [done|done|]. rewrite Hw0. by apply Hnew.
Qed.

(** A node that opens is fit to serve: its document is valid and lists
    it as an active member; its transport can be served; every device it
    opened sits at a configured path, is of the document's cluster and is in
    the document; the index by id finds exactly opened devices; unless the
    configuration allows it, no two devices are on one filesystem; and every
    device the document lists for the node is open or reported unavailable. *)
Theorem node_open_sound (config : NodeConfig) n (w w' : World) :
  Node_open TlsMaterial_load filesystem_id config w = (Ok n, w') →
  document_validate (nd_document n) = Ok tt
  ∧ is_active_member (nd_document n) (nc_node_id config) = true
  ∧ (c_transport (nd_document n) ≠ Plain → is_Some (nd_tls n))
  ∧ Forall (λ d, d_root d ∈ nc_devices config ∧ di_cluster_id (d_identity d) = c_cluster_id (nd_document n)
                 ∧ is_Some (device (nd_document n) (device_id d)) ∧ is_Some (node_device n (device_id d)))
      (nd_devices n)
  ∧ (∀ i d, node_device n i = Some d → d ∈ nd_devices n ∧ device_id d = i)
  ∧ (nc_allow_shared_filesystem config = false → NoDup (filesystem_id <$> nd_devices n))
  ∧ (∀ e, e ∈ c_devices (nd_document n) → de_node e = nc_node_id config → de_state e ≠ Removed →
       is_Some (node_device n (de_id e)) ∨ de_id e ∈ unavailable_devices n)
  ∧ nd_writes_in_flight n = ∅.
Proof.
  unfold Node_open. intros Hr. do 4 io_ok Hr. apply io_lift_Ok in Hr as [Has _].
  match goal with Hl : load_document _ _ = (Ok ?c, _) |- _ => rename c into document; rename Hl into Hload end.
  match goal with Hl : lift (ensure _ _) _ = _ |- _ => apply io_lift_Ok in Hl as [Htls _]; apply ensure_Ok in Htls end.
  match goal with Hl : io_fold (open_device _) _ _ _ = (Ok ?d, _) |- _ => rename d into devices; apply open_devices_Ok in Hl as Hdev end.
  assert (document_validate document = Ok tt) as Hv.
  { unfold load_document in Hload. do 3 io_ok Hload. apply io_ret_Ok in Hload as [-> _].
    match goal with Hl : lift (map_err _ (document_validate _)) _ = _ |- _ => apply io_lift_Ok in Hl as [Hl _]; rename Hl into Hval end.
    by destruct (document_validate _) as [[]| |]. }
  unfold assemble in Has. inv_ok Has. injection Has as <-. rewrite ensure_Ok in *.
  match goal with Hf : fold_res (index_device _) _ _ = Ok ?b |- _ => rename b into by_id; apply index_device_Ok in Hf as (Hin & _ & Hfrom) end.
  match goal with Hc : check_filesystems _ _ _ = Ok ?u |- _ => destruct u; rename Hc into Hfs end.
  unfold unavailable_devices, not_opened, node_device, node_id. cbn [nd_document nd_tls nd_devices nd_devices_by_id nd_config nd_writes_in_flight].
  split_and!; [done|done| | | |by intros Ha; rewrite Ha in Hfs; apply check_filesystems_Ok| |done].
  - intros Hnp. apply orb_true_iff in Htls as [?%bool_decide_eq_true|Ht%bool_decide_eq_true]; [done|].
    destruct Ht as [paths Ht]. match goal with H : _ = Ok ?x |- is_Some ?x => rename H into Hld end.
    rewrite Ht in Hld. destruct (TlsMaterial_load paths); [|done]. injection Hld as <-. by eexists.
  - apply Forall_forall. intros d Hd. rewrite Forall_forall in Hdev, Hin.
    destruct (Hdev d Hd) as [?%not_elem_of_nil|[? ?]]; [done|]. by split_and!; [..|apply Hin|apply Hin].
  - intros i d Hi. destruct (Hfrom i d Hi) as [?|He]; [done|]. by rewrite lookup_empty in He.
  - intros e He Hnode Hst. destruct (by_id !! de_id e) as [d|] eqn:Hb; [left; by eexists|right].
    apply list_elem_of_fmap. exists e. split; [done|]. by apply list_elem_of_filter.
Qed.

(** C37. One writer per shard: however requests interleave, from a node with
    no writes under way, two requests never hold the guard of the same shard
    on the same device, and a slot is taken exactly while a request holds it,
    so a dropped guard frees it. *)
Theorem write_slots_exclusive n n' (held : gmap nat ShardWriteKey) :
  nd_writes_in_flight n = ∅ → rtc slot_step (n, ∅) (n', held) →
  (∀ r1 r2 key, held !! r1 = Some key → held !! r2 = Some key → r1 = r2)
  ∧ (∀ key, begin_shard_write n' key = None ↔ ∃ r, held !! r = Some key).
Proof.
  intros Hn Hrtc. assert (slots_ok (n', held)) as [Ht Ho].
  { assert (slots_ok (n, ∅)) as Hinit; [|clear Hn; induction Hrtc; eauto using slot_step_ok].
    split; cbn; [|by intros ???; rewrite lookup_empty]. intros key. rewrite Hn. split; [set_solver|].
    intros (r & Hr). by rewrite lookup_empty in Hr. }
  split; [exact Ho|]. intros key. cbn in Ht. rewrite <- Ht. unfold begin_shard_write.
  case_bool_decide; naive_solver.
Qed.
End properties.

(** ** Witnesses *)

Section witnesses.
#[local] Existing Instance poly_xxh3.
#[local] Existing Instance poly_sha256.
#[local] Existing Instance packed_json.
#[local] Existing Instance decimal_uuid.
#[local] Existing Instance decimal_time.

Definition config1 : NodeConfig :=
  mkConfig 11 (lit "10.0.0.1:5263") None [lit "s"] [[lit "d"]; [lit "e"]] [] 3600 120 false None.

(** The document of a new cluster, and its successor that removes the node. *)
Definition document_v (version : Z) (state : NodeState) : ClusterDocument := {|
  c_version := version; c_cluster_id := 193; c_name := None; c_k := 3; c_m := 1; c_block_size := 1048576;
  c_independence_level := LevelDevice; c_headroom := Finite (3602879701896397 # 72057594037927936)%Q;
  c_max_key_bytes := DEFAULT_MAX_KEY_BYTES; c_max_object_bytes := DEFAULT_MAX_OBJECT_BYTES;
  c_max_user_metadata_bytes := DEFAULT_MAX_USER_METADATA_BYTES; c_transport := Plain;
  c_nodes := [Cluster.mkNode 11 [lit "10.0.0.1:5263"] None state];
  c_devices := [mkDeviceEntry 101 11 Active None] |}.
Definition doc1 : ClusterDocument := document_v 1 NodeActive.
Definition doc2 : ClusterDocument := document_v 2 NodeRemoved.

(** A table of the two. *)
#[local] Instance table_text : DocumentText := {|
  document_pretty := λ c, if c_version c =? 1 then lit "1" else lit "2";
  document_from_str := λ s, if str_eqb s (lit "1") then Some doc1 else Some doc2;
|}.

Lemma table_text_correct : document_text_correct (λ c, c = doc1 ∨ c = doc2).
Proof. by intros c [-> | ->]. Qed.

(** No TLS; every device on a filesystem of its own. *)
Definition no_tls : TlsPaths → option unit := λ _, None.
Definition own_filesystem (d : Device) : Z := device_id d.

(** The world after [init_cluster] on one device, the second path missing. *)
Definition cluster1 : res NodeError (Node unit) * World :=
  init_cluster no_tls own_filesystem (mkConfig 11 (lit "10.0.0.1:5263") None [lit "s"] [[lit "d"]] [] 3600 120 false None)
    default_parameters 193 [(101, 0)] blank_world.

Definition node1 : Node unit :=
  mkNodeState config1 doc1 [] ∅ ∅ false ∅ None.

Lemma doc1_valid : document_validate doc1 = Ok tt.
Proof. by vm_compute. Defined.

Lemma doc2_acceptable : acceptable node1 doc2.
Proof. split_and!; [by vm_compute|reflexivity|reflexivity|by left]. Defined.

Lemma cluster1_disk : disk_ok (document_path config1) 193 1 (λ c, c = doc1 ∨ c = doc2) (w_tree cluster1.2).
Proof. exists doc1, 100. split_and!; [by vm_compute|by vm_compute|reflexivity|by vm_compute|by left]. Defined.

Lemma apply_document_durable_witness : (apply_document node1 doc1 cluster1.2).2 = cluster1.2.
Proof.
  apply (proj2 (apply_document_durable node1 doc1 cluster1.2)). intros (_ & _ & Hlt & _). by vm_compute in Hlt.
Defined.

Lemma document_history_witness :
  let '(n', w') := fold_left adopt [doc1; doc2] (node1, cluster1.2) in
  document_validate (nd_document n') = Ok tt.
Proof.
  pose proof (document_history (λ c, c = doc1 ∨ c = doc2) node1 cluster1.2 [doc1; doc2]
    table_text_correct ltac:(apply List.Forall_cons; [by left|apply List.Forall_cons; [by right|apply List.Forall_nil]])
    doc1_valid cluster1_disk) as Hh.
  destruct (fold_left adopt [doc1; doc2] (node1, cluster1.2)) as [n' w']. exact (proj1 Hh).
Defined.

Lemma node_open_sound_witness :
  ∃ n w', Node_open no_tls own_filesystem config1 cluster1.2 = (Ok n, w')
    ∧ NoDup (own_filesystem <$> nd_devices n) ∧ is_active_member (nd_document n) 11 = true.
Proof.
  assert (∃ n, (Node_open no_tls own_filesystem config1 cluster1.2).1 = Ok n) as [n Hn]
    by (eexists; vm_compute; reflexivity).
  destruct (Node_open no_tls own_filesystem config1 cluster1.2) as [r w'] eqn:Hrun. cbn [fst] in Hn. subst r.
  pose proof (node_open_sound no_tls own_filesystem config1 n cluster1.2 w' Hrun) as (_ & Hact & _ & _ & _ & Hnd & _).
  exists n, w'. split; [reflexivity|]. split; [by apply Hnd|exact Hact].
Defined.

Lemma write_slots_exclusive_witness :
  begin_shard_write (drop_write_guard (set_writes node1 {[mkWriteKey 101 [] [] 0]}) (mkWriteKey 101 [] [] 0))
    (mkWriteKey 101 [] [] 0) = None ↔ ∃ r, (delete 7%nat {[7%nat := mkWriteKey 101 [] [] 0]} : gmap nat ShardWriteKey) !! r = Some (mkWriteKey 101 [] [] 0).
Proof.
  apply (write_slots_exclusive node1 _ (delete 7%nat {[7%nat := mkWriteKey 101 [] [] 0]})); [reflexivity|].
  apply (rtc_l _ _ (set_writes node1 ({[mkWriteKey 101 [] [] 0]} ∪ ∅), {[7%nat := mkWriteKey 101 [] [] 0]})).
  - by apply (slot_claim node1 _ ∅ 7%nat).
  - apply rtc_once. rewrite (union_empty_r_L {[mkWriteKey 101 [] [] 0]}).
    apply (slot_drop (set_writes node1 {[mkWriteKey 101 [] [] 0]}) _ 7%nat). apply lookup_singleton_eq.
Defined.
End witnesses.
