(* ===== verification/LocalOps.v ===== *)
(** [local_ops.rs]: what a node does with a request from another node, on its
    own devices.

    A handler that answers with one response is a computation [io Failure
    Response]: the error is the [Failure] the source returns.  The streaming
    handlers also carry the connection: the messages still to arrive, those
    written, and how many more can be written before the peer is gone.  A
    panic inside a blocking task is an error of the request ([blocking]).
    The text of an error is what [format!] makes of a [Reason]. *)

From S2P Require Import Prelude Text Checksum KeyHash VersionId Erasure Layout Stripe FileSystem ShardFile Record Device DeviceSpec Cluster Scrub Frame Handshake Message Node.

Module LocalOps.
Import Message.

(** ** Failures *)

Inductive Reason :=
| RDevice (e : DeviceError)
| RNode (e : NodeError)
| RDiskTask
| RNotOpened (device : DeviceId) (node : NodeId)
| RNotAttached (device : DeviceId) (node : NodeId)
| RNotActive (device : DeviceId)
| RScheme (e : SchemeError)
| ROutside (index k m : Z)
| RBeingWritten
| RStripe (sequence expected : Z)
| RAbandoned (message : str)
| REndLacks
| RSizeDiffers (size requested : Z)
| RUnexpected (id : Z) (m : Message)
| RRange (first_block block_count available : Z)
| REncode
| RClientOperation (r : Request).

(** [ConnectionEnd] *)
Inductive ConnectionEnd :=
| PeerClosed
| EndWire
| EndProtocolViolation (message : str).

Inductive Failure :=
| FError (d : ErrorDetail)
| FClose (e : ConnectionEnd).

Definition with_device (d : ErrorDetail) (device : DeviceId) : ErrorDetail :=
  mkDetail (e_code d) (e_message d) (e_node d) (Some device) (e_key d) (e_version d) (e_shard_index d) (e_stripe d).

Definition device_error_code (e : DeviceError) : ErrorCode :=
  match e with
  | DevIo _ FileSystem.NotFound => NotFound
  | DevShardFile (SfIo FileSystem.NotFound) => NotFound
  | DevIo _ _ | DevUnavailable _ => DeviceUnavailable
  | DevRecord _ _ => RecordsInconsistent
  | RecordExists _ _ => WriteFailed
  | DevShardFile _ | BadObjectSize _ => WriteFailed
  | _ => Internal
  end.

Definition node_error_code (e : NodeError) : ErrorCode :=
  match e with
  | NotNewer _ _ | NodeWrongCluster _ _ => DocumentVersionMismatch
  | InvalidDocument _ => ProtocolViolation
  | _ => Internal
  end.

(** ** Connections *)

Inductive Incoming :=
| Arrives (m : Message)
| ReadFails (e : ConnectionEnd).

Record Conn := mkConn { cn_in : list Incoming; cn_out : list Message; cn_room : option nat }.

(** [read_message_within]: the next message; a connection with nothing more
    to come is closed. *)
Definition receive (c : Conn) : res Failure Message * Conn :=
  match cn_in c with
  | [] => (Err (FClose PeerClosed), c)
  | Arrives m :: rest => (Ok m, mkConn rest (cn_out c) (cn_room c))
  | ReadFails e :: rest => (Err (FClose e), mkConn rest (cn_out c) (cn_room c))
  end.

(** [write_message] *)
Definition send (c : Conn) (m : Message) : res Failure unit * Conn :=
  match cn_room c with
  | Some O => (Err (FClose EndWire), c)
  | Some (S n) => (Ok tt, mkConn (cn_in c) (cn_out c ++ [m]) (Some n))
  | None => (Ok tt, mkConn (cn_in c) (cn_out c ++ [m]) None)
  end.

Definition respond (c : Conn) (id : Z) (result : res Failure Response) : res Failure unit * Conn :=
  match result with
  | Ok response => send c (MResponse id response)
  | Err (FError d) =>
      match send c (MResponse id (RespError d)) with
      | (Ok _, c') => (Err (FError d), c')
      | r => r
      end
  | Err (FClose e) => (Err (FClose e), c)
  | Panic => (Panic, c)
  end.

(** ** Pages *)

Definition is_full (limit : option Z) (page : list KeyEntry) (bytes : Z) (entry : KeyEntry) : bool :=
  match limit with Some l => l <=? Z.of_nat (length page) | None => false end
  || (negb (bool_decide (page = []))
      && (MAX_LIST_PAGE_BYTES <? wrap64 (bytes + Z.of_nat (str_len (ke_key entry))))).

Fixpoint page_loop (limit : option Z) (entries page : list KeyEntry) (bytes : Z) : list KeyEntry * bool :=
  match entries with
  | [] => (page, false)
  | entry :: entries =>
      if is_full limit page bytes entry then (page, true)
      else page_loop limit entries (page ++ [entry]) (wrap64 (bytes + Z.of_nat (str_len (ke_key entry))))
  end.

Definition page_of_keys (entries : list KeyEntry) (limit : option Z) : list KeyEntry * bool :=
  page_loop (Z.max 1 <$> limit) entries [] 0.

Definition entry_le (a b : KeyEntry) : Prop :=
  lex_compare (ke_key a) (ke_key b) = Lt
  ∨ (ke_key a = ke_key b ∧ lex_le (ke_version a) (ke_version b)).
#[global] Instance entry_le_dec : RelDecision entry_le.
Proof. intros a b. unfold entry_le. apply _. Defined.

(** [dedup_by]: an entry like the one kept before it is dropped. *)
Fixpoint dedup_after (prev : KeyEntry) (l : list KeyEntry) : list KeyEntry :=
  match l with
  | [] => []
  | e :: l =>
      if bool_decide (ke_key e = ke_key prev ∧ ke_version e = ke_version prev) then dedup_after prev l
      else e :: dedup_after e l
  end.

Definition dedup (l : list KeyEntry) : list KeyEntry :=
  match l with [] => [] | e :: l => e :: dedup_after e l end.

Definition after_key (start_after : option str) (entries : list KeyEntry) : list KeyEntry :=
  match start_after with
  | Some after => filter (λ e, lex_compare (ke_key e) after = Gt) entries
  | None => entries
  end.

(** [local_list] after the walk: sort, drop duplicates, apply the cursor, cut. *)
Definition list_page (entries : list KeyEntry) (start_after : option str) (limit : option Z) : list KeyEntry * bool :=
  page_of_keys (after_key start_after (dedup (merge_sort entry_le entries))) limit.

(** *** Record copies *)

Definition located_le (a b : LocatedRecord) : Prop :=
  lex_compare (r_version (lr_record a)) (r_version (lr_record b)) = Lt
  ∨ (r_version (lr_record a) = r_version (lr_record b) ∧ lr_device a ≤ lr_device b).
#[global] Instance located_le_dec : RelDecision located_le.
Proof. intros a b. unfold located_le. apply _. Defined.

(** [(r.record.version, r.device) > (after.version, after.device)] *)
Definition located_after (after : LookupCursor) (r : LocatedRecord) : bool :=
  match lex_compare (r_version (lr_record r)) (lc_version after) with
  | Gt => true
  | Eq => lc_device after <? lr_device r
  | Lt => false
  end.

Definition after_cursor (after : option LookupCursor) (records : list LocatedRecord) : list LocatedRecord :=
  match after with
  | Some after => filter (λ r, located_after after r = true) records
  | None => records
  end.

Record PutShardParams := mkPutShard {
  ps_device : DeviceId; ps_key_hash : KeyHash; ps_version : VersionId; ps_shard_index : Z;
  ps_k : Z; ps_m : Z; ps_block_length : Z; ps_object_size : Z;
}.

Definition write_key (p : PutShardParams) : ShardWriteKey :=
  mkWriteKey (ps_device p) (ps_key_hash p) (ps_version p) (ps_shard_index p).

(** ** Handlers *)

Section handlers.
Context `{Sha256} `{Xxh3} `{SerdeJson} `{Uuid} `{Rfc3339} `{DocumentText} `{Cbor LocatedRecord} `{Cbor MetadataRecord}.
Context {TlsMaterial : Type} (text : Reason → str).
Implicit Types n : Node TlsMaterial.

Definition detail (code : ErrorCode) (r : Reason) : ErrorDetail := ErrorDetail_new code (text r).

Definition device_error_detail (e : DeviceError) : ErrorDetail := detail (device_error_code e) (RDevice e).

(** Waiting for a task on the blocking pool: its result, or that it panicked. *)
Definition join_task {E F A : Type} (m : io F A) : io E (res F A) := λ w,
  let '(r, w') := m w in (Ok r, w').

(** [spawn_blocking]: an error becomes its detail; so does a panic. *)
Definition blocking {A : Type} (m : io DeviceError A) : io Failure A := λ w,
  match m w with
  | (Ok a, w') => (Ok a, w')
  | (Err e, w') => (Err (FError (device_error_detail e)), w')
  | (Panic, w') => (Err (FError (detail Internal RDiskTask)), w')
  end.

Definition own_device n (id : DeviceId) : res Failure Device :=
  match node_device n id with
  | Some d => Ok d
  | None =>
      Err (FError (with_device (detail DeviceUnavailable
        (if bool_decide (id ∈ unavailable_devices n) then RNotOpened id (node_id n)
         else RNotAttached id (node_id n))) id))
  end.

(** [.map_err(|f| match f { Failure::Error(d) => .. with_device .. })] *)
Definition on_device {A : Type} (id : DeviceId) (m : io Failure A) : io Failure A :=
  io_map_err (λ f, match f with FError d => FError (with_device d id) | other => other end) m.

(** Collect from every device; one that is unavailable is named instead. *)
Definition from_devices {A B : Type} n (read : Device → io DeviceError (list A)) (locate : DeviceId → A → B)
    : io Failure (list B * list DeviceId) :=
  io_fold (λ (st : list B * list DeviceId) d,
    let id := device_id d in
    r ← attempt (blocking (read d));
    match r with
    | Ok found => mret (st.1 ++ (locate id <$> found), st.2)
    | Err (FError e) =>
        if bool_decide (e_code e = DeviceUnavailable) then mret (st.1, st.2 ++ [id])
        else throw (FError (with_device e id))
    | Err other => throw other
    | Panic => lift Panic
    end) (nd_devices n) ([], unavailable_devices n).

Fixpoint lookup_page (records page : list LocatedRecord) (bytes : Z) : res Failure (list LocatedRecord * bool) :=
  match records with
  | [] => Ok (page, false)
  | located :: records =>
      encoded ← ok_or (encode_cbor located) (FError (detail Internal REncode));
      let len := Z.of_nat (length encoded) in
      if negb (bool_decide (page = [])) && (MAX_LIST_PAGE_BYTES <? wrap64 (bytes + len)) then Ok (page, true)
      else lookup_page records (page ++ [located]) (wrap64 (bytes + len))
  end.

Definition local_lookup n (key_hash : KeyHash) (after : option LookupCursor) : io Failure Response :=
  '(records, unread) ← from_devices n (λ d, read_records d key_hash) mkLocated;
  '(page, truncated) ← lift (lookup_page (after_cursor after (merge_sort located_le records)) [] 0);
  mret (RespLocalLookup page truncated unread).

(** The page a walk fills: records, bytes, whether it was cut, whether a
    record could not be encoded. *)
Record RecordPage := mkPage { rp_page : list DeviceRecord; rp_bytes : Z; rp_truncated : bool; rp_failed : bool }.

Definition page_record (s : RecordPage) (record : MetadataRecord) (shard_present : bool) : RecordPage * WalkStep :=
  match encode_cbor record with
  | None => (mkPage (rp_page s) (rp_bytes s) (rp_truncated s) true, Stop)
  | Some encoded =>
      let len := Z.of_nat (length encoded) in
      if negb (bool_decide (length (rp_page s) = O)) && (MAX_LIST_PAGE_BYTES <? wrap64 (rp_bytes s + len))
      then (mkPage (rp_page s) (rp_bytes s) true (rp_failed s), Stop)
      else (mkPage (rp_page s ++ [mkDeviceRecord record shard_present]) (wrap64 (rp_bytes s + len))
              (rp_truncated s) (rp_failed s), Continue)
  end.

Definition local_records n (id : DeviceId) (after : option RecordCursor) : io Failure Response :=
  d ← lift (own_device n id);
  page ← on_device (device_id d)
    (blocking (walk_records_from page_record (λ s _ _, s) d
       ((λ c, (rc_key_hash c, rc_version c)) <$> after) (mkPage [] 0 false false)));
  _ ← lift (ensure (negb (rp_failed page)) (FError (detail Internal REncode)));
  mret (RespLocalRecords (rp_page page) (rp_truncated page)).

(** One record counted; a panic stops the walk. *)
Definition count_contents (s : res DeviceError (DeviceCounts * gset KeyHash)) (r : MetadataRecord)
    : res DeviceError (DeviceCounts * gset KeyHash) :=
  '(c, keys) ← s;
  let versions := wrap64 (ct_versions c + 1) in
  let keys := {[r_key_hash r]} ∪ keys in
  match record_scheme r with
  | Ok scheme =>
      geometry ← shard_geometry scheme (r_block_size r) (r_size r);
      let blocks := match geometry with Some g => wrap64 (ct_blocks c + g_block_count g) | None => ct_blocks c end in
      len ← shard_file_length scheme (r_block_size r) (r_size r);
      Ok (mkCounts versions (ct_keys c) blocks (wrap64 (ct_shard_bytes c + default 0 len)), keys)
  | _ => Ok (mkCounts versions (ct_keys c) (ct_blocks c) (ct_shard_bytes c), keys)
  end.

Definition local_device_contents n (id : DeviceId) : io Failure Response :=
  d ← lift (own_device n id);
  counts ← on_device (device_id d) (blocking (
    s ← walk_records_from
      (λ s r _, let s' := count_contents s r in (s', match s' with Ok _ => Continue | _ => Stop end))
      (λ s _ _, s) d None (Ok (mkCounts 0 0 0 0, ∅));
    '(c, keys) ← lift s;
    mret (mkCounts (ct_versions c) (Z.of_nat (size keys)) (ct_blocks c) (ct_shard_bytes c))));
  mret (RespLocalDeviceContents counts).

Definition key_entry (r : MetadataRecord) : KeyEntry := mkKeyEntry (r_key r) (r_size r) (r_version r).

Definition matches_prefix (prefix : option str) (r : MetadataRecord) : bool :=
  match prefix with Some p => starts_with p (r_key r) | None => true end.

(** The entries one device has for a listing. *)
Definition walk_entries (prefix : option str) (d : Device) : io DeviceError (list KeyEntry) :=
  walk_records (λ out r, if matches_prefix prefix r then out ++ [key_entry r] else out) (λ out _ _, out) d [].

Definition local_list n (q : ListQuery) : io Failure Response :=
  '(entries, unread) ← from_devices n (walk_entries (q_prefix q)) (λ _ e, e);
  let '(page, truncated) := list_page entries (q_start_after q) (q_limit q) in
  mret (RespLocalList page truncated unread).

(** *** Records *)

Definition put_meta n (id : DeviceId) (record : MetadataRecord) : io Failure Response :=
  d ← lift (own_device n id);
  _ ← on_device id (blocking (write_record d record));
  mret RespPutMeta.

(** The blocking part of [get_meta]. *)
Definition probe_record (d : Device) (id : DeviceId) (key_hash : KeyHash) (version : VersionId) (probe : bool)
    : io DeviceError (option MetadataRecord * option bool) :=
  r ← attempt (read_record d key_hash version);
  record ← match r with
           | Ok record => mret (Some record)
           | Err (DevIo _ FileSystem.NotFound) => mret None
           | Err e => throw e
           | Panic => lift Panic
           end;
  if probe then
    present ← match record with
              | Some record =>
                  match shard_on record id with
                  | Some index =>
                      fs_is_file (join (device_object_directory d key_hash) (shard_file_name version index))
                  | None => mret false
                  end
              | None => mret false
              end;
    mret (record, Some present)
  else mret (record, None).

Definition get_meta n (id : DeviceId) (key_hash : KeyHash) (version : VersionId) (probe : bool) : io Failure Response :=
  d ← lift (own_device n id);
  result ← on_device id (blocking (probe_record d id key_hash version probe));
  mret (RespGetMeta result.1 result.2).

Definition local_delete_version n (id : DeviceId) (key_hash : KeyHash) (version : VersionId) : io Failure Response :=
  d ← lift (own_device n id);
  _ ← on_device id (blocking (delete_version d key_hash version));
  mret RespDeleteVersion.

Definition abort_shard n (id : DeviceId) (key_hash : KeyHash) (version : VersionId) (shard_index : Z)
    : io Failure Response :=
  d ← lift (own_device n id);
  _ ← on_device id (blocking (
    _ ← remove_temporary_shard d key_hash version shard_index;
    delete_version d key_hash version));
  mret RespAbortShard.

(** *** Streams *)

(** How a request ends: its outcome, the node and the connection after it. *)
Record Served := mkServed { sv_outcome : res Failure unit; sv_node : Node TlsMaterial; sv_conn : Conn }.

Definition answer n (c : Conn) (id : Z) (result : res Failure Response) : Served :=
  let '(r, c') := respond c id result in mkServed r n c'.

(** [stream_violation]: report, whether or not it arrives, and close. *)
Definition stream_violation n (c : Conn) (id : Z) (message : str) : Served :=
  let '(_, c') := send c (MResponse id (RespError (ErrorDetail_new ProtocolViolation message))) in
  mkServed (Err (FClose (EndProtocolViolation message))) n c'.

(** Leaving with the write unfinished: the write is dropped, then the guard. *)
Definition abandon (key : ShardWriteKey) (s : ShardWrite) (k : Served) : io Failure Served :=
  _ ← attempt (E := DeviceError) (shard_abort s);
  mret (mkServed (sv_outcome k) (drop_write_guard (sv_node k) key) (sv_conn k)).

Fixpoint put_shard_loop n (id : Z) (p : PutShardParams) (todo : list Incoming) (c : Conn) (s : ShardWrite)
    (expected_stripe : Z) : io Failure Served :=
  let key := write_key p in
  match todo with
  | [] => abandon key s (mkServed (Err (FClose PeerClosed)) n c)
  | ReadFails e :: rest => abandon key s (mkServed (Err (FClose e)) n (mkConn rest (cn_out c) (cn_room c)))
  | Arrives m :: rest =>
      let c := mkConn rest (cn_out c) (cn_room c) in
      let violation := λ r, abandon key s (stream_violation n c id (text r)) in
      match m with
      | MData got data =>
          if negb (got =? id) then violation (RUnexpected id m)
          else if negb (sequence data =? expected_stripe) then violation (RStripe (sequence data) expected_stripe)
          else
            let block := mkShardBlock (ps_shard_index p) (df_bytes data) (df_checksum data) in
            r ← join_task (shard_append_block s block);
            match r with
            | Ok s' => put_shard_loop n id p rest c s' (wrap64 (expected_stripe + 1))
            | Err e => violation (RDevice e)
            | Panic => violation RDiskTask
            end
      | MEndOfStream got e =>
          if negb (got =? id) then violation (RUnexpected id m)
          else
            match se_error e with
            | Some error =>
                _ ← attempt (E := DeviceError) (shard_abort s);
                mret (answer (drop_write_guard n key) c id
                        (Err (FError (detail WriteFailed (RAbandoned (e_message error))))))
            | None =>
                match se_object_size e, se_object_checksum e with
                | Some size, Some checksum =>
                    if negb (size =? ps_object_size p) then violation (RSizeDiffers size (ps_object_size p))
                    else
                      finished ← attempt (blocking (shard_finish s size checksum));
                      let n := drop_write_guard n key in
                      mret match finished with
                           | Ok _ => answer n c id (Ok PutShardDone)
                           | Err (FError d) => answer n c id (Err (FError (with_device d (ps_device p))))
                           | Err other => mkServed (Err other) n c
                           | Panic => mkServed Panic n c
                           end
                | _, _ => violation REndLacks
                end
            end
      | other => violation (RUnexpected id other)
      end
  end.

(** Claim the slot, reserve, answer ready, then take the stream. *)
Definition put_shard_claimed n (id : Z) (p : PutShardParams) (c : Conn) (d : Device) (scheme : Scheme)
    : io Failure Served :=
  let key := write_key p in
  let header := mkHeader scheme (ps_shard_index p) (ps_block_length p) (ps_key_hash p) (ps_version p) in
  begun ← attempt (blocking (begin_shard d (ps_key_hash p) header (ps_object_size p)));
  match begun with
  | Err (FError e) => mret (answer (drop_write_guard n key) c id (Err (FError (with_device e (ps_device p)))))
  | Err other => mret (mkServed (Err other) (drop_write_guard n key) c)
  | Panic => mret (mkServed Panic (drop_write_guard n key) c)
  | Ok s =>
      match respond c id (Ok PutShardReady) with
      | (Ok _, c) => put_shard_loop n id p (cn_in c) c s 0
      | (f, c) => abandon key s (mkServed f n c)
      end
  end.

Definition put_shard n (id : Z) (p : PutShardParams) (c : Conn) : io Failure Served :=
  let refuse := λ e, mret (answer n c id (Err (FError e))) in
  match own_device n (ps_device p) with
  | Err f => mret (answer n c id (Err f))
  | Panic => mret (mkServed Panic n c)
  | Ok d =>
      if bool_decide ((de_state <$> device (nd_document n) (ps_device p)) ≠ Some Active)
      then refuse (with_device (detail WriteFailed (RNotActive (ps_device p))) (ps_device p))
      else
        match Scheme_new (ps_k p) (ps_m p) with
        | Err e => refuse (detail ProtocolViolation (RScheme e))
        | Panic => mret (mkServed Panic n c)
        | Ok scheme =>
            if negb (contains scheme (ps_shard_index p))
            then refuse (detail ProtocolViolation (ROutside (ps_shard_index p) (ps_k p) (ps_m p)))
            else
              match begin_shard_write n (write_key p) with
              | None =>
                  let d := detail WriteFailed RBeingWritten in
                  refuse (mkDetail (e_code d) (e_message d) None (Some (ps_device p)) None
                            (Some (ps_version p)) (Some (ps_shard_index p)) None)
              | Some n => put_shard_claimed n id p c d scheme
              end
        end
  end.

(** The blocks of [get_shard], one message each; a block that cannot be read
    ends the stream with the error. *)
Fixpoint send_blocks n (c : Conn) (id : Z) (p : DeviceId * VersionId * Z) (reader : ShardFileReader)
    (numbers : list Z) : io Failure Served :=
  let '(device_id, version, shard_index) := p in
  match numbers with
  | [] =>
      mret (let '(r, c) := send c (MEndOfStream id StreamEnd_ok) in mkServed r n c)
  | number :: numbers =>
      read ← attempt (blocking (io_map_err DevShardFile (read_block reader number)));
      match read with
      | Ok block =>
          match send c (MData id (mkDataFrame number (sb_checksum block) (sb_bytes block))) with
          | (Ok _, c) => send_blocks n c id p reader numbers
          | (f, c) => mret (mkServed f n c)
          end
      | Err (FError d) =>
          let detail := mkDetail (e_code d) (e_message d) (e_node d) (Some device_id) (e_key d)
                          (Some version) (Some shard_index) (Some number) in
          mret (match send c (MEndOfStream id (StreamEnd_failed detail)) with
                | (Ok _, c) => mkServed (Err (FError detail)) n c
                | (f, c) => mkServed f n c
                end)
      | Err other => mret (mkServed (Err other) n c)
      | Panic => mret (mkServed Panic n c)
      end
  end.

Definition get_shard n (id : Z) (c : Conn) (device_id : DeviceId) (key_hash : KeyHash) (version : VersionId)
    (shard_index first_block block_count : Z) : io Failure Served :=
  match own_device n device_id with
  | Err f => mret (answer n c id (Err f))
  | Panic => mret (mkServed Panic n c)
  | Ok d =>
      opened ← attempt (blocking (open_shard d key_hash version shard_index));
      match opened with
      | Err (FError e) => mret (answer n c id (Err (FError (with_device e device_id))))
      | Err other => mret (mkServed (Err other) n c)
      | Panic => mret (mkServed Panic n c)
      | Ok reader =>
          let available := ShardFile.block_count reader in
          let past := match checked_add64 first_block block_count with
                      | Some e => available <? e
                      | None => true
                      end in
          if past
          then mret (answer n c id (Err (FError (detail ProtocolViolation (RRange first_block block_count available)))))
          else
            match respond c id (Ok (RespGetShard block_count)) with
            | (Ok _, c) =>
                send_blocks n c id (device_id, version, shard_index) reader
                  ((λ i, first_block + Z.of_nat i) <$> seq 0 (Z.to_nat block_count))
            | (f, c) => mret (mkServed f n c)
            end
      end
  end.
End handlers.
End LocalOps.
