(* ===== verification/LocalOpsSpec.v ===== *)
(** What the local operations promise: shards and records stored through them
    are stored whole or not at all, the write slot is always given back, what
    was streamed is what is served, and no request takes the node down. *)

From S2P Require Import Prelude Text Checksum KeyHash VersionId Erasure XorCode Layout Stripe FileSystem ShardFile Record Device DeviceSpec Cluster Scrub Frame Handshake Message Node LocalOps ScrubSpec.

Module LocalOpsSpec.
Import Message LocalOps.

(** ** Rules for tasks *)

Section rules.
Context (Inv : tree → Prop) (text : Reason → str).

Lemma wp_blocking {A : Type} (m : io DeviceError A) (w : World) (Post : res Failure A → World → Prop) :
  wp Inv m w (λ r w', match r with
    | Ok a => Post (Ok a) w'
    | Err e => Post (Err (FError (device_error_detail text e))) w'
    | Panic => Post (Err (FError (detail text Internal RDiskTask))) w'
    end) → wp Inv (blocking text m) w Post.
Proof. unfold wp, blocking. by destruct (m w) as [[a|e|] w']. Qed.

Lemma wp_join_task {E F A : Type} (m : io F A) (w : World) (Post : res E (res F A) → World → Prop) :
  wp Inv m w (λ r w', Post (Ok r) w') → wp Inv (join_task m) w Post.
Proof. unfold wp, join_task. by destruct (m w) as [r w']. Qed.
End rules.

(** ** Streams of blocks *)

(** The messages of a whole [PutShard] stream from sequence number [n] on. *)
Inductive streamed `{Xxh3} (id size ock : Z) : Z → list Incoming → list block → Prop :=
| streamed_end n e rest :
    se_error e = None → se_object_size e = Some size → se_object_checksum e = Some ock →
    streamed id size ock n (Arrives (MEndOfStream id e) :: rest) []
| streamed_data n data rest blocks :
    sequence data = n → df_checksum data = checksum_block (df_bytes data) →
    streamed id size ock (wrap64 (n + 1)) rest blocks →
    streamed id size ock n (Arrives (MData id data) :: rest) (df_bytes data :: blocks).

(** A stream determines its blocks. *)
Lemma streamed_det `{Xxh3} id size n todo ock blocks :
  streamed id size ock n todo blocks → ∀ ock' blocks', streamed id size ock' n todo blocks' → ock = ock' ∧ blocks = blocks'.
Proof.
  induction 1 as [n e rest He Hsz Hock|n data rest blocks Hn Hck Hs IH]; intros ock' blocks' Hs';
    inversion Hs'; simplify_eq; [done|].
  match goal with Hx : streamed _ _ ock' _ rest _ |- _ => apply IH in Hx as [-> ->] end. done.
Qed.

(** A checksum as the wire carries it. *)
Definition incoming_typed (i : Incoming) : Prop :=
  match i with
  | Arrives (MEndOfStream _ e) => ∀ ock, se_object_checksum e = Some ock → is_u64 ock
  | _ => True
  end.

(** The messages a request wrote. *)
Definition wrote_since (c c' : Conn) (new : list Message) : Prop := cn_out c' = cn_out c ++ new.

Lemma send_out c m : ∃ new, wrote_since c (send c m).2 new ∧ (∀ x, x ∈ new → x = m)
  ∧ ((send c m).1 = Ok tt → m ∈ new) ∧ (send c m).1 ≠ Panic.
Proof.
  unfold send, wrote_since. destruct (cn_room c) as [[|k]|]; cbn [fst snd].
  - exists []. rewrite app_nil_r. split_and!; [done|by intros ? ?%not_elem_of_nil|done|done].
  - exists [m]. split_and!; [done|by intros ? ?%list_elem_of_singleton|intros _; by apply list_elem_of_singleton|done].
  - exists [m]. split_and!; [done|by intros ? ?%list_elem_of_singleton|intros _; by apply list_elem_of_singleton|done].
Qed.

(** The answer to a refused request is never [PutShardDone]. *)
Lemma answer_error {T : Type} (n : Node T) c id f :
  ∃ new, wrote_since c (sv_conn (answer n c id (Err f))) new ∧ MResponse id PutShardDone ∉ new
    ∧ sv_node (answer n c id (Err f)) = n ∧ sv_outcome (answer n c id (Err f)) ≠ Ok tt
    ∧ sv_outcome (answer n c id (Err f)) ≠ Panic.
Proof.
  unfold answer, respond. destruct f as [d|e].
  - destruct (send_out c (MResponse id (RespError d))) as (new & Hw & Hin & _ & Hp).
    exists new. destruct (send c _) as [[[]|f|] c']; cbn in *; [|..|done];
      (split_and!; [done|by intros ?%Hin|done|done|done]).
  - exists []. unfold wrote_since. rewrite app_nil_r. split_and!; [done|apply not_elem_of_nil|done|done|done].
Qed.

Lemma answer_done {T : Type} (n : Node T) c id :
  ∃ new, wrote_since c (sv_conn (answer n c id (Ok PutShardDone))) new
    ∧ sv_node (answer n c id (Ok PutShardDone)) = n
    ∧ (sv_outcome (answer n c id (Ok PutShardDone)) = Ok tt → MResponse id PutShardDone ∈ new)
    ∧ sv_outcome (answer n c id (Ok PutShardDone)) ≠ Panic.
Proof.
  unfold answer, respond. destruct (send_out c (MResponse id PutShardDone)) as (new & Hw & _ & Hok & Hp).
  exists new. destruct (send c _) as [r c']. by split_and!.
Qed.

Lemma violation_out {T : Type} (n : Node T) c id message :
  ∃ new, wrote_since c (sv_conn (stream_violation n c id message)) new ∧ MResponse id PutShardDone ∉ new
    ∧ sv_node (stream_violation n c id message) = n
    ∧ sv_outcome (stream_violation n c id message) = Err (FClose (EndProtocolViolation message)).
Proof.
  unfold stream_violation.
  destruct (send_out c (MResponse id (RespError (ErrorDetail_new ProtocolViolation message)))) as (new & Hw & Hin & _).
  exists new. destruct (send c _) as [r' c']. split_and!; [done|by intros ?%Hin|done|done].
Qed.

(** ** Storing a shard *)

Section put.
Context `{Sha256} `{Xxh3} `{SerdeJson} `{Uuid} `{Rfc3339}.
Context {T : Type} (text : Reason → str).
Context (d : Device) (scheme : Scheme) (id : Z) (p : PutShardParams).

Abbreviation h := (mkHeader scheme (ps_shard_index p) (ps_block_length p) (ps_key_hash p) (ps_version p)).
Abbreviation size := (ps_object_size p).

Context (Had : addressable h size) (w0 : World).

Abbreviation file := (shard_path d (ps_key_hash p) h).
Abbreviation temp := (temp_of w0 file).
Abbreviation step := (shard_step d (w_tree w0) temp file h size).

(** The file holds exactly these blocks. *)
Definition stored_shard (t : tree) (ock : BlockChecksum) (blocks : list block) : Prop :=
  ∃ c m, t !! file = Some (File c m) ∧ complete_shard h size ock blocks c.

(** How a request under way may end: the guard dropped, and success reported
    only for a shard that is stored. *)
Definition put_ends (n : Node T) (c : Conn) (stored : Prop) (sv : Served) : Prop :=
  sv_node sv = drop_write_guard n (write_key p) ∧ sv_outcome sv ≠ Panic
  ∧ ∃ new, wrote_since c (sv_conn sv) new
      ∧ (sv_outcome sv = Ok tt → MResponse id PutShardDone ∈ new)
      ∧ (MResponse id PutShardDone ∈ new → stored).

Lemma addressable_returns : returns (shard_geometry (E := ShardFileError) scheme (ps_block_length p) size).
Proof.
  destruct Had as [(Hs & _ & Hb & _) _ Hst _]. cbn in *. unfold is_uint in Hb.
  destruct (Z.eqb_spec (ps_block_length p) 0) as [Hz|Hz].
  { unfold shard_geometry. rewrite Hz, orb_true_r. done. }
  apply shard_geometry_returns. unfold wrap64, wrap. destruct Hs as [Hk _]. rewrite Z.mod_small by nia. nia.
Qed.

Lemma wp_abandon (s : ShardWrite) (w : World) n c (k : Served) (new : list Message) (stored : World → Prop) :
  sw_temp_path s = temp → quiet d (ps_key_hash p) h w0 (w_tree w) →
  sv_node k = n → sv_outcome k ≠ Panic → sv_outcome k ≠ Ok tt →
  wrote_since c (sv_conn k) new → MResponse id PutShardDone ∉ new →
  wp step (abandon (write_key p) s k) w (λ r w', step (w_tree w') ∧ ∃ sv, r = Ok sv ∧ put_ends n c (stored w') sv).
Proof.
  intros Ht Hq Hn Hp Hok Hw Hnew. unfold abandon. apply wp_bind, wp_attempt.
  eapply wp_mono; [apply wp_shard_abort; done|]. cbn beta. intros r w1 [-> Q1]. apply wp_ret.
  split; [by apply quiet_step|]. eexists. split; [done|]. split_and!; cbn; [by rewrite Hn|done|].
  exists new. by split_and!.
Qed.

Lemma wp_put_shard_loop todo : ∀ (n : Node T) c s blocks (w : World) expected,
  in_progress d (ps_key_hash p) h size w0 s blocks w → Forall incoming_typed todo →
  wp step (put_shard_loop text n id p todo c s expected) w (λ r w', step (w_tree w') ∧ ∃ sv, r = Ok sv
    ∧ put_ends n c (∃ more ock, streamed id size ock expected todo more
                      ∧ stored_shard (w_tree w') ock (blocks ++ more)) sv).
Proof.
  induction todo as [|i rest IH]; intros n c s blocks w expected Hip Htyped;
    pose proof (ip_temp _ _ _ _ _ _ _ _ Hip) as Hst; pose proof (ip_quiet _ _ _ _ _ _ _ _ Hip) as Hq; cbn [put_shard_loop].
  { apply (wp_abandon s w n c _ []); try done; [|apply not_elem_of_nil]. unfold wrote_since. by rewrite app_nil_r. }
  apply Forall_cons in Htyped as [Hi Htyped].
  destruct i as [m|e].
  2: { apply (wp_abandon s w n c _ []); try done; [|apply not_elem_of_nil]. unfold wrote_since. cbn. by rewrite app_nil_r. }
  set (c1 := mkConn rest (cn_out c) (cn_room c)).
  assert (∀ w' r (stored : World → Prop), quiet d (ps_key_hash p) h w0 (w_tree w') →
    wp step (abandon (write_key p) s (stream_violation n c1 id (text r))) w'
      (λ r w', step (w_tree w') ∧ ∃ sv, r = Ok sv ∧ put_ends n c (stored w') sv)) as Hviol.
  { intros w' r stored Q. destruct (violation_out n c1 id (text r)) as (new & Hw & Hnew & Hn & Ho).
    eapply wp_abandon; [done|done|done|by rewrite Ho|by rewrite Ho|exact Hw|done]. }
  destruct m as [hello|got request|got response|got data|got e]; try by apply Hviol.
  - destruct (Z.eqb_spec got id) as [->|]; cbn [negb]; [|by apply Hviol].
    destruct (Z.eqb_spec (sequence data) expected) as [Hseq|]; cbn [negb]; [|by apply Hviol].
    apply wp_bind, wp_join_task. eapply wp_mono; [by apply wp_shard_append|]. cbn beta.
    intros r w1 (Q1 & _ & Hr). destruct r as [s'|e|]; [|by apply Hviol|done].
    destruct Hr as [Hacc Hip']. eapply wp_mono; [by apply IH|]. cbn beta.
    intros r w2 (S2 & sv & -> & Hn & Hp & new & Hw & Hok & Hdone). split; [done|]. exists sv. split; [done|].
    split_and!; [done|done|]. exists new. split_and!; [done|done|]. intros Hin.
    destruct (Hdone Hin) as (more & ock & Hs & Hst'). exists (df_bytes data :: more), ock.
    apply accept_block_Ok in Hacc as (_ & _ & _ & Hck). cbn in Hck.
    split; [by constructor|]. by rewrite <- app_assoc in Hst'.
  - destruct (Z.eqb_spec got id) as [->|]; cbn [negb]; [|by apply Hviol].
    destruct (se_error e) as [error|] eqn:He.
    { apply wp_bind, wp_attempt. eapply wp_mono; [by eapply wp_shard_abort|]. cbn beta. intros r w1 [-> Q1].
      apply wp_ret. split; [by apply quiet_step|]. eexists. split; [done|].
      destruct (answer_error (drop_write_guard n (write_key p)) c1 id (FError (detail text WriteFailed (RAbandoned (e_message error)))))
        as (new & Hw & Hnew & Hn & Hok & Hp).
      split_and!; [done|done|]. exists new. by split_and!. }
    destruct (se_object_size e) as [sz|] eqn:Hsz; [|by apply Hviol].
    destruct (se_object_checksum e) as [ock|] eqn:Hock; [|by apply Hviol].
    destruct (Z.eqb_spec sz (ps_object_size p)) as [->|]; cbn [negb]; [|by apply Hviol].
    apply wp_bind, wp_attempt, wp_blocking.
    eapply wp_mono; [eapply wp_shard_finish; [done|exact Hip|by apply Hi|apply addressable_returns]|]. cbn beta.
    intros r w1 [S1 Hr]. set (n1 := drop_write_guard n (write_key p)).
    destruct r as [footer|err|]; [| |done]; apply wp_ret; (split; [done|]); (eexists; split; [reflexivity|]).
    + destruct (answer_done n1 c1 id) as (new & Hw & Hn & Hok & Hp). split_and!; [done|done|].
      exists new. split_and!; [done|done|]. intros _. exists [], ock. split; [by constructor|]. by rewrite app_nil_r.
    + destruct (answer_error n1 c1 id (FError (with_device (device_error_detail text err) (ps_device p))))
        as (new & Hw & Hnew & Hn & Hok & Hp). split_and!; [done|done|]. exists new. by split_and!.
Qed.

Lemma wp_put_shard_claimed (n : Node T) c :
  Forall incoming_typed (cn_in c) →
  wp step (put_shard_claimed text n id p c d scheme) w0 (λ r w', step (w_tree w') ∧ ∃ sv, r = Ok sv
    ∧ put_ends n c (∃ blocks ock, streamed id size ock 0 (cn_in c) blocks
                      ∧ stored_shard (w_tree w') ock blocks) sv).
Proof.
  intros Htyped. unfold put_shard_claimed. apply wp_bind, wp_attempt, wp_blocking.
  eapply wp_mono; [by apply wp_begin_shard|]. cbn beta. intros r w1 [Q1 Hr].
  assert (∀ err, put_ends n c False (answer (drop_write_guard n (write_key p)) c id (Err (FError err)))) as Herr.
  { intros err. destruct (answer_error (drop_write_guard n (write_key p)) c id (FError err)) as (new & Hw & Hnew & Hn & Hok & Hp).
    split_and!; [done|done|]. exists new. by split_and!. }
  assert (∀ sv (P : Prop), put_ends n c False sv → put_ends n c P sv) as Hany.
  { intros sv P (? & ? & new & ? & ? & Hd). split_and!; [done|done|]. exists new. split_and!; [done|done|].
    intros Hin. destruct (Hd Hin). }
  destruct r as [s|err|].
  - unfold respond. destruct (send_out c (MResponse id PutShardReady)) as (new & Hw & Hin & Hok & Hp).
    assert (MResponse id PutShardDone ∉ new) as Hnew by (by intros ?%Hin).
    destruct (send c (MResponse id PutShardReady)) as [[[]|f|] c1] eqn:Hsend; cbn [fst snd] in *; [| |done].
    + assert (cn_in c1 = cn_in c) as Hc1 by (unfold send in Hsend; destruct (cn_room c) as [[|]|]; by simplify_eq).
      rewrite Hc1. eapply wp_mono; [by apply wp_put_shard_loop|]. cbn beta.
      intros r w2 (S2 & sv & -> & Hn & Hp2 & new2 & Hw2 & Hok2 & Hd2). split; [done|]. exists sv. split; [done|].
      split_and!; [done|done|]. exists (new ++ new2). unfold wrote_since in *. split_and!.
      * by rewrite Hw2, Hw, app_assoc.
      * intros ?. apply elem_of_app. right. by apply Hok2.
      * intros [?|?]%elem_of_app; [done|by apply Hd2].
    + eapply (wp_abandon s w1 n c _ new); try done. by eapply ip_temp.
  - apply wp_ret. split; [by apply quiet_step|]. eexists. split; [done|]. by apply Hany.
  - apply wp_ret. split; [by apply quiet_step|]. eexists. split; [done|]. by apply Hany.
Qed.
End put.

Lemma claim_drop {T : Type} (n n' : Node T) key :
  begin_shard_write n key = Some n' → nd_writes_in_flight (drop_write_guard n' key) = nd_writes_in_flight n.
Proof. unfold begin_shard_write. case_bool_decide as Hk; [done|]. intros [= <-]. cbn. set_solver. Qed.

(** ** Serving a shard *)

Section get.
Context `{Sha256} `{Xxh3} `{SerdeJson} `{Uuid} `{Rfc3339}.
Context {T : Type} (text : Reason → str).

(** The messages that serve blocks from number [first] on. *)
Definition data_messages (id first : Z) (blocks : list block) : list Message :=
  imap (λ i b, MData id (mkDataFrame (first + Z.of_nat i) (checksum_block b) b)) blocks.

Lemma blocking_run {A : Type} (m : io DeviceError A) (w : World) (a : A) :
  m w = (Ok a, w) → blocking text m w = (Ok a, w).
Proof. intros Hm. unfold blocking. by rewrite Hm. Qed.

Lemma attempt_run {E F A : Type} (m : io F A) (w : World) (a : A) :
  m w = (Ok a, w) → attempt (F := E) m w = (Ok (Ok a), w).
Proof. intros Hm. unfold attempt. by rewrite Hm. Qed.

Lemma map_err_run {E F A : Type} (f : E → F) (m : io E A) (w : World) (a : A) :
  m w = (Ok a, w) → io_map_err f m w = (Ok a, w).
Proof. intros Hm. unfold io_map_err. by rewrite Hm. Qed.

Lemma open_shard_run (d : Device) key_hash version index (w : World) c m reader :
  no_faults w → w_tree w !! join (device_object_directory d key_hash) (shard_file_name version index) = Some (File c m) →
  open_bytes c = Ok reader → open_shard d key_hash version index w = (Ok reader, w).
Proof.
  intros Hw Hp Ho. unfold open_shard. apply map_err_run. unfold ShardFileReader_open, fs_read, io_map_err, mbind, io_bind.
  rewrite (may_fail_run w Hw). unfold get. rewrite Hp. cbn. unfold lift. by rewrite Ho.
Qed.

(** Every block read back, one message each, then the end. *)
Lemma send_blocks_run (n : Node T) id device version index reader (blocks : list block) (w : World) : ∀ (todo : list block) c (first : nat),
  no_faults w → cn_room c = None →
  (∀ i b, todo !! i = Some b → blocks !! (first + i)%nat = Some b) →
  (∀ i b, blocks !! i = Some b → block_bytes reader (Z.of_nat i) = Ok (mkShardBlock index b (checksum_block b))) →
  send_blocks text n c id (device, version, index) reader ((λ i, Z.of_nat first + Z.of_nat i) <$> seq 0 (length todo)) w
  = (Ok (mkServed (Ok tt) n (mkConn (cn_in c)
      (cn_out c ++ data_messages id (Z.of_nat first) todo ++ [MEndOfStream id StreamEnd_ok]) None)), w).
Proof.
  induction todo as [|b todo IH]; intros c first Hw Hroom Htodo Hblk.
  { cbn. unfold send. by rewrite Hroom. }
  cbn [length seq fmap list_fmap send_blocks]. rewrite Z.add_0_r.
  erewrite io_run_ok.
  2: { apply attempt_run, blocking_run, map_err_run, read_block_run; [done|]. apply (Hblk first b).
       specialize (Htodo O b eq_refl). by rewrite Nat.add_0_r in Htodo. }
  cbn [sb_checksum sb_bytes]. unfold send. rewrite Hroom. rewrite <- fmap_S_seq, <- list_fmap_compose.
  rewrite (list_fmap_ext _ (λ i, Z.of_nat (S first) + Z.of_nat i) (seq 0 (length todo))) by (intros; cbn; lia).
  rewrite IH; [|done|done| |done].
  - cbn [cn_in cn_out]. rewrite <- app_assoc. unfold data_messages. cbn [imap app]. do 6 f_equal.
    + cbn. f_equal. f_equal. lia.
    + f_equal. apply imap_ext. intros i x _. cbn. f_equal. f_equal. lia.
  - intros i x Hi. replace (S first + i)%nat with (first + S i)%nat by lia. by apply Htodo.
Qed.

Lemma get_shard_run (n : Node T) id c (d : Device) scheme p size ock (blocks : list block) (first count : nat) (w : World) cbytes m :
  let h := mkHeader scheme (ps_shard_index p) (ps_block_length p) (ps_key_hash p) (ps_version p) in
  no_faults w → cn_room c = None → node_device n (ps_device p) = Some d →
  w_tree w !! shard_path d (ps_key_hash p) h = Some (File cbytes m) → complete_shard h size ock blocks cbytes →
  (first + count ≤ length blocks)%nat →
  get_shard text n id c (ps_device p) (ps_key_hash p) (ps_version p) (ps_shard_index p) (Z.of_nat first) (Z.of_nat count) w
  = (Ok (mkServed (Ok tt) n (mkConn (cn_in c)
      (cn_out c ++ MResponse id (RespGetShard (Z.of_nat count))
         :: data_messages id (Z.of_nat first) (take count (drop first blocks)) ++ [MEndOfStream id StreamEnd_ok]) None)), w).
Proof.
  intros h Hw Hroom Hd Hfile (last & -> & Hok) Hrange. unfold get_shard, own_device. rewrite Hd.
  erewrite io_run_ok; [|by eapply attempt_run, blocking_run, open_shard_run; [done|exact Hfile|by apply open_image]].
  unfold ShardFile.block_count. cbn [sr_footer footer_for sf_block_count].
  assert (Z.of_nat (length blocks) < 2 ^ 64) as Hlen.
  { pose proof (so_length _ _ _ _ _ Hok) as Hmax. pose proof (shard_last _ _ _ _ _ Hok). pose proof (shard_count _ _ _ _ _ Hok).
    unfold image_length, HEADER_LEN, FOOTER_FIXED_LEN, TRAILER_LEN in Hmax. nia. }
  unfold checked_add64. rewrite (proj2 (Z.ltb_lt _ _)) by lia. rewrite (proj2 (Z.ltb_ge _ _)) by lia.
  unfold respond, send at 1. rewrite Hroom. rewrite Nat2Z.id.
  assert (length (take count (drop first blocks)) = count) as Hl by (rewrite length_take, length_drop; lia).
  replace (seq 0 count) with (seq 0 (length (take count (drop first blocks)))) by (by rewrite Hl).
  erewrite send_blocks_run; [|done|done| |].
  - cbn [cn_in cn_out]. by rewrite <- app_assoc.
  - intros i b Hi. apply lookup_take_Some in Hi as [Hi _]. by rewrite lookup_drop in Hi.
  - intros i b Hi. by apply (read_image h blocks last size ock Hok).
Qed.
End get.

(** ** Requests that cannot take the node down *)

Section panics.
Context `{Sha256} `{Xxh3} `{SerdeJson} `{Uuid} `{Rfc3339} `{DocumentText} `{Cbor LocatedRecord} `{Cbor MetadataRecord}.
Context {T : Type} (text : Reason → str).

(** A computation that never panics. *)
Definition calm_io {E A : Type} (m : io E A) : Prop := ∀ w : World, (m w).1 ≠ Panic.

(** A request that always comes to an end of its own. *)
Definition settles (m : io Failure Served) : Prop :=
  ∀ w : World, ∃ (sv : Served (TlsMaterial := T)) (w' : World), m w = (Ok sv, w') ∧ sv_outcome sv ≠ Panic.

Lemma calm_ret {E A : Type} (a : A) : calm_io (E := E) (mret a).
Proof. done. Qed.

Lemma calm_throw {E A : Type} (e : E) : calm_io (A := A) (throw e).
Proof. done. Qed.

Lemma calm_lift {E A : Type} (r : res E A) : returns r → calm_io (lift r).
Proof. intros Hr w. done. Qed.

Lemma calm_bind {E A B : Type} (m : io E A) (f : A → io E B) :
  calm_io m → (∀ a, calm_io (f a)) → calm_io (m ≫= f).
Proof.
  intros Hm Hf w. unfold mbind, io_bind. specialize (Hm w). destruct (m w) as [[a|e|] w1]; [apply Hf|done|done].
Qed.

Lemma calm_map_err {E F A : Type} (f : E → F) (m : io E A) : calm_io m → calm_io (io_map_err f m).
Proof. intros Hm w. unfold io_map_err. specialize (Hm w). by destruct (m w) as [[a|e|] w1]. Qed.

Lemma calm_attempt {E F A : Type} (m : io F A) : calm_io m → calm_io (attempt (F := E) m).
Proof. intros Hm w. unfold attempt. specialize (Hm w). by destruct (m w) as [[a|e|] w1]. Qed.

Lemma calm_fold {E A S : Type} (f : S → A → io E S) l : (∀ s x, calm_io (f s x)) → ∀ s, calm_io (io_fold f l s).
Proof. intros Hf. induction l as [|x l IH]; intros s; cbn [io_fold]; [apply calm_ret|]. apply calm_bind; [apply Hf|exact IH]. Qed.

Lemma calm_blocking {A : Type} (m : io DeviceError A) : calm_io (blocking text m).
Proof. intros w. unfold blocking. by destruct (m w) as [[a|e|] w1]. Qed.

Lemma own_device_returns (n : Node T) i : returns (own_device text n i).
Proof. unfold own_device. by destruct (node_device n i). Qed.

Lemma calm_on_device {A : Type} i (m : io DeviceError A) : calm_io (on_device i (blocking text m)).
Proof. apply calm_map_err, calm_blocking. Qed.

Lemma calm_own (n : Node T) i {A : Type} (f : Device → io Failure A) :
  (∀ d, calm_io (f d)) → calm_io (d ← lift (own_device text n i); f d).
Proof. intros Hf. apply calm_bind; [apply calm_lift, own_device_returns|exact Hf]. Qed.

Lemma calm_from_devices {A B : Type} (n : Node T) read (locate : DeviceId → A → B) :
  calm_io (from_devices text n read locate).
Proof.
  apply calm_fold. intros [bs ids] d w. unfold mbind, io_bind, attempt, blocking.
  destruct (read d w) as [[found|e|] w1]; cbn; [done| |];
    (case_bool_decide; [done|]); done.
Qed.

Lemma lookup_page_returns records : ∀ page bytes, returns (lookup_page text records page bytes).
Proof.
  induction records as [|r records IH]; intros page bytes; cbn [lookup_page]; [done|].
  apply bind_returns; [apply ok_or_returns|]. intros encoded _. destruct (_ && _); [done|]. apply IH.
Qed.

Lemma settles_ret (sv : Served) : sv_outcome sv ≠ Panic → settles (mret sv).
Proof. intros Hp w. by exists sv, w. Qed.

Lemma settles_attempt {A : Type} (m : io DeviceError A) (f : res Failure A → io Failure Served) :
  (∀ r, r ≠ Panic → settles (f r)) → settles (r ← attempt (blocking text m); f r).
Proof.
  intros Hf w. unfold mbind, io_bind, attempt, blocking.
  destruct (m w) as [[a|e|] w1]; by apply Hf.
Qed.

Lemma settles_join {A : Type} (m : io DeviceError A) (f : res DeviceError A → io Failure Served) :
  (∀ r, settles (f r)) → settles (r ← join_task m; f r).
Proof. intros Hf w. unfold mbind, io_bind, join_task. destruct (m w) as [r w1]. apply Hf. Qed.

Lemma settles_abort (s : ShardWrite) (f : res DeviceError unit → io Failure Served) :
  (∀ r, settles (f r)) → settles (r ← attempt (shard_abort s); f r).
Proof.
  intros Hf w. unfold mbind, io_bind, attempt.
  assert ((shard_abort s w).1 ≠ Panic) as Hp.
  { enough (wp (λ _, True) (shard_abort s) w (λ r _, r ≠ Panic)) as Hwp
      by (unfold wp in Hwp; destruct (shard_abort s w) as [r w']; apply Hwp).
    apply wp_ignore, wp_fs_remove_file; done. }
  destruct (shard_abort s w) as [[a|e|] w1]; [apply Hf|apply Hf|done].
Qed.

Lemma settles_abandon key s (k : Served) : sv_outcome k ≠ Panic → settles (abandon key s k).
Proof. intros Hk. apply settles_abort. intros _. by apply settles_ret. Qed.

Lemma send_no_panic c m : (send c m).1 ≠ Panic.
Proof. unfold send. by destruct (cn_room c) as [[|]|]. Qed.

Lemma answer_no_panic (n : Node T) c id r : r ≠ Panic → sv_outcome (answer n c id r) ≠ Panic.
Proof.
  intros Hr. unfold answer, respond. destruct r as [x|[d|e]|]; [|..|done]; unfold send; by destruct (cn_room c) as [[|]|].
Qed.

Lemma violation_settles (n : Node T) c id key s r : settles (abandon key s (stream_violation n c id (text r))).
Proof.
  apply settles_abandon. destruct (violation_out n c id (text r)) as (? & _ & _ & _ & Ho). by rewrite Ho.
Qed.

Lemma put_shard_loop_settles id p todo : ∀ (n : Node T) c s expected, settles (put_shard_loop text n id p todo c s expected).
Proof.
  induction todo as [|i rest IH]; intros n c s expected; cbn [put_shard_loop]; [by apply settles_abandon|].
  destruct i as [m|e]; [|by apply settles_abandon].
  destruct m as [hello|got request|got response|got data|got e]; try by apply violation_settles.
  - destruct (negb (got =? id)); [by apply violation_settles|].
    destruct (negb (sequence data =? expected)); [by apply violation_settles|].
    apply settles_join. intros [s'|e|]; [by apply IH|by apply violation_settles..].
  - destruct (negb (got =? id)); [by apply violation_settles|].
    destruct (se_error e) as [error|]; [apply settles_abort; intros _; by apply settles_ret, answer_no_panic|].
    destruct (se_object_size e) as [sz|]; [|by apply violation_settles].
    destruct (se_object_checksum e) as [ock|]; [|by apply violation_settles].
    destruct (negb (sz =? ps_object_size p)); [by apply violation_settles|].
    apply settles_attempt. intros [f|[d|e']|] Hr; [| | |done]; apply settles_ret; [by apply answer_no_panic..|done].
Qed.

Lemma send_blocks_settles (n : Node T) id p reader numbers : ∀ c, settles (send_blocks text n c id p reader numbers).
Proof.
  destruct p as [[device version] index]. induction numbers as [|x numbers IH]; intros c; cbn [send_blocks].
  { apply settles_ret. pose proof (send_no_panic c (MEndOfStream id StreamEnd_ok)). by destruct (send c _). }
  apply settles_attempt. intros [block|[d|e]|] Hr; [| | |done].
  - pose proof (send_no_panic c (MData id (mkDataFrame x (sb_checksum block) (sb_bytes block)))) as Hp.
    destruct (send c _) as [[[]|f|] c1]; [apply IH|by apply settles_ret|done].
  - apply settles_ret. set (dt := mkDetail _ _ _ _ _ _ _ _). pose proof (send_no_panic c (MEndOfStream id (StreamEnd_failed dt))) as Hp.
    by destruct (send c _) as [[[]|f|] c1].
  - by apply settles_ret.
Qed.
Lemma put_shard_settles (n : Node T) id p c : settles (put_shard text n id p c).
Proof.
  unfold put_shard. pose proof (own_device_returns n (ps_device p)) as Hown.
  destruct (own_device text n (ps_device p)) as [d|f|]; [|by apply settles_ret, answer_no_panic|done].
  case_bool_decide; [by apply settles_ret, answer_no_panic|].
  destruct (Scheme_new (ps_k p) (ps_m p)) as [scheme|e|] eqn:Hs;
    [|by apply settles_ret, answer_no_panic|by apply Scheme_new_returns in Hs].
  destruct (negb (contains scheme (ps_shard_index p))); [by apply settles_ret, answer_no_panic|].
  destruct (begin_shard_write n (write_key p)) as [n1|]; [|by apply settles_ret, answer_no_panic].
  apply settles_attempt. intros [s|[e|e]|] Hr; [| | |done]; [|by apply settles_ret, answer_no_panic|by apply settles_ret].
  pose proof (send_no_panic c (MResponse id PutShardReady)) as Hp. unfold respond.
  destruct (send c _) as [[[]|f|] c1]; [apply put_shard_loop_settles|by apply settles_abandon|done].
Qed.

Lemma get_shard_settles (n : Node T) id c i key_hash version index first count :
  settles (get_shard text n id c i key_hash version index first count).
Proof.
  unfold get_shard. pose proof (own_device_returns n i) as Hown.
  destruct (own_device text n i) as [d|f|]; [|by apply settles_ret, answer_no_panic|done].
  apply settles_attempt. intros [reader|[e|e]|] Hr; [| | |done]; [|by apply settles_ret, answer_no_panic|by apply settles_ret].
  match goal with |- settles (if ?b then _ else _) => destruct b end; [by apply settles_ret, answer_no_panic|].
  pose proof (send_no_panic c (MResponse id (RespGetShard count))) as Hp. unfold respond.
  destruct (send c _) as [[[]|f|] c1]; [apply send_blocks_settles|by apply settles_ret|done].
Qed.
End panics.

(** ** Properties *)

Section properties.
Context `{Sha256} `{Xxh3} `{SerdeJson} `{Uuid} `{Rfc3339} `{DocumentText} `{Cbor LocatedRecord} `{Cbor MetadataRecord}.
Context {T : Type} (text : Reason → str).

(** The header of the file a request writes. *)
Definition header_of (scheme : Scheme) (p : PutShardParams) : ShardFileHeader :=
  mkHeader scheme (ps_shard_index p) (ps_block_length p) (ps_key_hash p) (ps_version p).

(** A request that ends well has stored what was streamed. *)
Lemma put_shard_stored (n : Node T) (id : Z) (p : PutShardParams) (c : Conn) (d : Device) (scheme : Scheme) (w : World)
    (sv : Served) (w' : World) :
  node_device n (ps_device p) = Some d → Scheme_new (ps_k p) (ps_m p) = Ok scheme →
  addressable (header_of scheme p) (ps_object_size p) → Forall incoming_typed (cn_in c) →
  put_shard text n id p c w = (Ok sv, w') → sv_outcome sv = Ok tt →
  ∃ blocks ock, streamed id (ps_object_size p) ock 0 (cn_in c) blocks ∧ stored_shard d scheme p (w_tree w') ock blocks.
Proof.
  intros Hd Hs Had Htyped Hput Hout. unfold put_shard, own_device in Hput. rewrite Hd, Hs in Hput.
  assert (∀ (n : Node T) e, sv ≠ answer n c id (Err e)) as Hrefuse.
  { intros n' e ->. destruct (answer_error n' c id e) as (_ & _ & _ & _ & Hno & _). done. }
  case_bool_decide; [by injection Hput as Heq _; symmetry in Heq; apply Hrefuse in Heq|].
  destruct (contains scheme (ps_shard_index p)); cbn [negb] in Hput;
    [|by injection Hput as Heq _; symmetry in Heq; apply Hrefuse in Heq].
  destruct (begin_shard_write n (write_key p)) as [n1|];
    [|by injection Hput as Heq _; symmetry in Heq; apply Hrefuse in Heq].
  pose proof (wp_put_shard_claimed text d scheme id p Had w n1 c Htyped) as Hwp. unfold wp in Hwp.
  rewrite Hput in Hwp. destruct Hwp as [(_ & sv' & [= <-] & _ & _ & new & _ & Hok & Hdone) _]. auto.
Qed.

Lemma put_meta_written (i : DeviceId) (d : Device) (r : MetadataRecord) (w w' : World) :
  (_ ← on_device i (blocking text (write_record d r)); mret RespPutMeta) w = (Ok RespPutMeta, w') →
  write_record d r w = (Ok tt, w').
Proof.
  unfold on_device, io_map_err, blocking, mbind, io_bind. destruct (write_record d r w) as [[[]|e|] w1]; cbn; [|done..].
  by intros [= <-].
Qed.


(** The write slot is given back however the request ends: after
    [put_shard], the shards being written on the node are those before it, so
    the same shard can be written again. *)
Theorem put_shard_releases (n : Node T) (id : Z) (p : PutShardParams) (c : Conn) (d : Device) (scheme : Scheme) (w : World) :
  node_device n (ps_device p) = Some d → Scheme_new (ps_k p) (ps_m p) = Ok scheme →
  addressable (header_of scheme p) (ps_object_size p) → Forall incoming_typed (cn_in c) →
  ∃ sv w', put_shard text n id p c w = (Ok sv, w')
    ∧ nd_writes_in_flight (sv_node sv) = nd_writes_in_flight n ∧ nd_document (sv_node sv) = nd_document n.
Proof.
  intros Hd Hs Had Htyped. unfold put_shard, own_device. rewrite Hd, Hs.
  assert (∀ e, ∃ sv w', (mret (answer n c id (Err (FError e))) : io Failure Served) w = (Ok sv, w')
    ∧ nd_writes_in_flight (sv_node sv) = nd_writes_in_flight n ∧ nd_document (sv_node sv) = nd_document n) as Hrefuse.
  { intros e. destruct (answer_error n c id (FError e)) as (new & _ & _ & Hn & _). do 2 eexists. split; [done|]. by rewrite Hn. }
  case_bool_decide; [done|]. destruct (contains scheme (ps_shard_index p)); cbn [negb]; [|done].
  destruct (begin_shard_write n (write_key p)) as [n1|] eqn:Hb; [|done].
  pose proof (wp_put_shard_claimed text d scheme id p Had w n1 c Htyped) as Hwp. unfold wp in Hwp.
  destruct (put_shard_claimed text n1 id p c d scheme w) as [r w']. destruct Hwp as [(_ & sv & -> & Hn & _) _].
  exists sv, w'. split; [done|]. rewrite Hn. split; [by apply claim_drop|].
  unfold begin_shard_write in Hb. case_bool_decide; [done|]. by injection Hb as <-.
Qed.
(** C20. What was streamed is what is served: once [put_shard] has ended well,
    [get_shard] for any range of blocks, on a file system as it was left and
    with no failing call, answers with the block count and then exactly the
    blocks streamed, numbered and with their checksums, and a clean end. *)
Theorem shard_put_get (n n2 : Node T) (id id2 : Z) (p : PutShardParams) (c c2 : Conn) (d : Device) (scheme : Scheme)
    (sv : Served) (w w' w2 : World) (ock : Z) (blocks : list block) (first count : nat) :
  node_device n (ps_device p) = Some d → Scheme_new (ps_k p) (ps_m p) = Ok scheme →
  addressable (header_of scheme p) (ps_object_size p) → Forall incoming_typed (cn_in c) →
  put_shard text n id p c w = (Ok sv, w') → sv_outcome sv = Ok tt →
  streamed id (ps_object_size p) ock 0 (cn_in c) blocks → (first + count ≤ length blocks)%nat →
  no_faults w2 → w_tree w2 = w_tree w' → cn_room c2 = None → node_device n2 (ps_device p) = Some d →
  get_shard text n2 id2 c2 (ps_device p) (ps_key_hash p) (ps_version p) (ps_shard_index p)
      (Z.of_nat first) (Z.of_nat count) w2
  = (Ok (mkServed (Ok tt) n2 (mkConn (cn_in c2)
      (cn_out c2 ++ MResponse id2 (RespGetShard (Z.of_nat count))
         :: data_messages id2 (Z.of_nat first) (take count (drop first blocks))
         ++ [MEndOfStream id2 StreamEnd_ok]) None)), w2).
Proof.
  intros Hd Hs Had Htyped Hput Hout Hstr Hrange Hnf Htree Hroom Hd2.
  destruct (put_shard_stored n id p c d scheme w sv w' Hd Hs Had Htyped Hput Hout)
    as (blocks' & ock' & Hstr' & cb & m & Hfile & Hcomplete).
  destruct (streamed_det _ _ _ _ _ _ Hstr _ _ Hstr') as [-> ->].
  eapply get_shard_run; [done|done|done|by rewrite Htree|done|done].
Qed.

(** A record stored through [PutMeta] is the record [GetMeta] answers
    with, on a file system as it was left and with no failing call. *)
Theorem record_put_get (n : Node T) (i : DeviceId) (r : MetadataRecord) (json : str) (w w' w2 : World) :
  serde_json_correct → uuid_correct → rfc3339_correct →
  serializable r → to_json r = Ok json → forallb is_scalar json = true →
  put_meta text n i r w = (Ok RespPutMeta, w') → no_faults w2 → w_tree w2 = w_tree w' →
  get_meta text n i (r_key_hash r) (r_version r) false w2 = (Ok (RespGetMeta (Some r) None), w2).
Proof.
  intros Hj Hu Ht Hser Htext Hsc Hput Hnf Htree. unfold put_meta, get_meta in *.
  destruct (own_device text n i) as [d|f|] eqn:Hown; [|done..]. rewrite io_lift_ok in Hput |- *.
  apply put_meta_written in Hput as Hw.
  assert (validate r = Ok tt) as Hv.
  { destruct (validate r) as [[]|e|] eqn:Hv; [done|exfalso..]; unfold write_record in Hw; by rewrite Hv in Hw. }
  pose proof (wp_write_record_stored d r json w Hj Hu Ht Hser Hv Htext Hsc) as Hwp. unfold wp in Hwp. rewrite Hw in Hwp.
  destruct Hwp as [[_ Hst] _]. specialize (Hst eq_refl). rewrite <- Htree in Hst.
  rewrite (io_run_ok _ _ w2 w2 (Some r, None)); [reflexivity|]. apply map_err_run, blocking_run. unfold probe_record.
  erewrite io_run_ok; [|by eapply attempt_run, read_record_run]. reflexivity.
Qed.

(** No request takes the node down, whatever the world does: the handlers
    that answer with one response return one or an error, and the streaming
    handlers come to an end of their own; a panic inside a disk task is an
    error of the request that started it. *)
Theorem requests_never_panic (n : Node T) :
  (∀ i r, calm_io (put_meta text n i r))
  ∧ (∀ i key_hash version probe, calm_io (get_meta text n i key_hash version probe))
  ∧ (∀ i key_hash version, calm_io (local_delete_version text n i key_hash version))
  ∧ (∀ i key_hash version index, calm_io (abort_shard text n i key_hash version index))
  ∧ (∀ q, calm_io (local_list text n q))
  ∧ (∀ key_hash after, calm_io (local_lookup text n key_hash after))
  ∧ (∀ i after, calm_io (local_records text n i after))
  ∧ (∀ i, calm_io (local_device_contents text n i))
  ∧ (∀ id p c, settles (put_shard text n id p c))
  ∧ (∀ id c i key_hash version index first count, settles (get_shard text n id c i key_hash version index first count)).
Proof.
  split_and!; intros.
  1-4: by (apply calm_own; intros d; apply calm_bind; [apply calm_on_device|done]).
  - apply calm_bind; [apply calm_from_devices|]. intros [entries unread]. by destruct (list_page _ _ _).
  - apply calm_bind; [apply calm_from_devices|]. intros [records unread].
    apply calm_bind; [apply calm_lift, lookup_page_returns|]. by intros [].
  - apply calm_own. intros d. apply calm_bind; [apply calm_on_device|]. intros page.
    apply calm_bind; [|done]. apply calm_lift. by destruct (negb _).
  - apply calm_own. intros d. apply calm_bind; [apply calm_on_device|done].
  - apply put_shard_settles.
  - apply get_shard_settles.
Qed.
End properties.
(** ** Witnesses *)

Section witnesses.
#[local] Existing Instance poly_xxh3.
#[local] Existing Instance poly_sha256.
#[local] Existing Instance packed_json.
#[local] Existing Instance decimal_uuid.
#[local] Existing Instance decimal_time.

Definition untold : Reason → str := λ _, [].

(** A node with one device; a shard of one block sent to it. *)
Definition node5 : Node unit := Node.mkNodeState config1 doc1 [device5] {[101 := device5]} ∅ false ∅ None.

Definition params5 : PutShardParams := mkPutShard 101 (r_key_hash (record5 3)) (r_version (record5 3)) 0 2 1 4096 5.

Definition stream5 : list Incoming :=
  [Arrives (MData 4 (mkDataFrame 0 (checksum_block [10; 20; 30]) [10; 20; 30]));
   Arrives (MEndOfStream 4 (mkStreamEnd None (Some 5) (Some 77) [] []))].

Definition conn5 : Conn := mkConn stream5 [] None.

Definition put5 : res Failure Served * World := put_shard untold node5 4 params5 conn5 world5.

Lemma addressable5 : addressable (header_of (mkScheme 2 1) params5) (ps_object_size params5).
Proof.
  pose proof (so_header _ _ _ _ _ record_shard_ok) as Hh. split; [exact Hh|split; by vm_compute|by vm_compute|].
  intros n last Hg. vm_compute in Hg. injection Hg as <- <-. by vm_compute.
Qed.

Lemma typed5 : Forall incoming_typed (cn_in conn5).
Proof. apply List.Forall_cons; [done|]. apply List.Forall_cons; [|apply List.Forall_nil]. intros ock [= <-]. split; by vm_compute. Qed.

Lemma streamed5 : streamed 4 5 77 0 (cn_in conn5) [[10; 20; 30]].
Proof. apply streamed_data; [reflexivity|reflexivity|]. by apply streamed_end. Qed.

Lemma put5_outcome : ∃ sv, put5.1 = Ok sv ∧ sv_outcome sv = Ok tt.
Proof. eexists. split; vm_compute; reflexivity. Qed.


Lemma put_shard_releases_witness : ∃ sv w', put5 = (Ok sv, w') ∧ nd_writes_in_flight (sv_node sv) = ∅.
Proof.
  destruct (put_shard_releases untold node5 4 params5 conn5 device5 (mkScheme 2 1) world5 eq_refl eq_refl addressable5 typed5)
    as (sv & w' & Hput & Hw & _). exists sv, w'. split; [exact Hput|exact Hw].
Defined.

Lemma shard_put_get_witness :
  ∃ w2, (get_shard untold node5 9 (mkConn [] [] None) 101 (r_key_hash (record5 3)) (r_version (record5 3)) 0 0 1 w2).1
  = Ok (mkServed (Ok tt) node5 (mkConn []
      [MResponse 9 (RespGetShard 1); MData 9 (mkDataFrame 0 (checksum_block [10; 20; 30]) [10; 20; 30]);
       MEndOfStream 9 StreamEnd_ok] None)).
Proof.
  destruct put5_outcome as (sv & Hsv & Hok).
  assert (put_shard untold node5 4 params5 conn5 world5 = (Ok sv, put5.2)) as Hput.
  { fold put5. destruct put5 as [r w']. cbn [fst snd] in *. by subst r. }
  assert (no_faults put5.2) as Hnf by by vm_compute.
  exists put5.2.
  pose proof (shard_put_get untold node5 node5 4 9 params5 conn5 (mkConn [] [] None) device5 (mkScheme 2 1) sv world5 put5.2 put5.2
    77 [[10; 20; 30]] 0 1 eq_refl eq_refl addressable5 typed5 Hput Hok streamed5 (le_n _) Hnf eq_refl eq_refl eq_refl) as Hget.
  exact (f_equal fst Hget).
Defined.

Lemma record_put_get_witness :
  ∃ w2, (get_meta untold node5 101 (r_key_hash (record5 4)) (r_version (record5 4)) false w2).1
  = Ok (RespGetMeta (Some (record5 4)) None).
Proof.
  assert ((put_meta untold node5 101 (record5 4) world5).1 = Ok RespPutMeta) as Hok by by vm_compute.
  assert (no_faults (put_meta untold node5 101 (record5 4) world5).2) as Hnf by by vm_compute.
  destruct (put_meta untold node5 101 (record5 4) world5) as [r w'] eqn:Hput. cbn [fst snd] in *. subst r. exists w'.
  assert (get_meta untold node5 101 (r_key_hash (record5 4)) (r_version (record5 4)) false w'
    = (Ok (RespGetMeta (Some (record5 4)) None), w')) as Hget; [|by rewrite Hget].
  apply (record_put_get untold node5 101 (record5 4) (text5 4) world5 w' w' packed_json_correct decimal_uuid_correct
    decimal_time_correct); [|by vm_compute|by vm_compute|exact Hput|exact Hnf|reflexivity].
  split; [apply record5_typed; split; lia|split; vm_compute; congruence].
Defined.
End witnesses.
End LocalOpsSpec.
