(* ===== verification/Space.v ===== *)
(** The space a device reports ([Device::space], [device.rs]) and the status
    a node gives of itself ([LocalStatus], [local_ops.rs]).

    What [statvfs] says of a file system is the operating system's and a
    parameter ([Usage]).  The headroom is a binary64 number, and the code
    multiplies in that format, so its rounding is modelled: [round_f64] gives
    the nearest representable number, the even one of two. *)

From Stdlib Require Import QArith Qabs Qround Qpower Lqa.
From S2P Require Import Prelude Text Checksum KeyHash VersionId Erasure Layout Stripe FileSystem ShardFile Record Device DeviceSpec Cluster Scrub Frame Handshake Message Node LocalOps LocalOpsSpec.
Open Scope Z_scope.

Module Space.
Import Message LocalOps LocalOpsSpec.

(** ** Arithmetic in binary64 *)

(** [n / d] to the nearest integer, to the even one between two. *)
Definition round_even (n d : Z) : Z :=
  let f := n / d in
  let r := 2 * (n mod d) in
  if r <? d then f else if d <? r then f + 1 else if Z.even f then f else f + 1.

(** [2 ^ e] *)
Definition power (e : Z) : Q := Qpower 2 e.

(** The exponent of the last digit of a positive number with 53 digits, which
    is never below that of the smallest number there is. *)
Definition last_digit (q : Q) : Z :=
  let a := Z.log2 (Qnum q) - Z.log2 (Zpos (Qden q)) in
  Z.max (-1074) ((if Qle_bool (power a) q then a else a - 1) - 52).

(** A positive number in binary64.  Numbers that are not are left alone: a
    cast to an unsigned integer makes them 0. *)
Definition round_f64 (q : Q) : Q :=
  if Qnum q <=? 0 then q
  else
    let e := last_digit q in
    let scaled := (q / power e)%Q in
    (inject_Z (round_even (Qnum scaled) (Zpos (Qden scaled))) * power e)%Q.

(** [as u64] of a finite number *)
Definition cast_u64 (q : Q) : Z := Z.max 0 (Z.min (Qfloor q) (2 ^ 64 - 1)).

(** [(total as f64 * headroom) as u64] *)
Definition reserved_of (total : Z) (headroom : f64) : Z :=
  match headroom with
  | Finite h => cast_u64 (round_f64 (round_f64 (inject_Z total) * h))
  | Infinite negative => if negative || (total =? 0) then 0 else 2 ^ 64 - 1
  | NaN => 0
  end.

(** *** Its error *)

Open Scope Q_scope.

Lemma round_even_near n d : (0 < d)%Z → (2 * Z.abs (round_even n d * d - n) ≤ d)%Z.
Proof.
  intros Hd. unfold round_even. pose proof (Z.div_mod n d ltac:(lia)). pose proof (Z.mod_pos_bound n d Hd).
  destruct (Z.ltb_spec (2 * (n mod d)) d); [nia|]. destruct (Z.ltb_spec d (2 * (n mod d))); [nia|]. destruct (Z.even _); nia.
Qed.

Lemma round_even_error (q : Q) : Qabs (inject_Z (round_even (Qnum q) (Zpos (Qden q))) - q) <= 1 # 2.
Proof.
  destruct q as [n d]. cbn [Qnum Qden]. pose proof (round_even_near n (Zpos d) ltac:(lia)) as Hn.
  apply Qabs_Qle_condition. unfold Qle, Qminus, Qplus, Qopp, inject_Z; cbn [Qnum Qden]. lia.
Qed.

Lemma power_pos e : 0 < power e.
Proof. by apply Qpower_0_lt. Qed.

Lemma power_succ e : power (e + 1) == 2 * power e.
Proof. unfold power. rewrite Qpower_plus by done. change (Qpower 2 1) with 2. ring. Qed.

Lemma power_log2 n : (0 < n)%Z → power (Z.log2 n) <= inject_Z n < power (Z.log2 n + 1).
Proof.
  intros Hn. destruct (Z.log2_spec n Hn) as [H1 H2]. pose proof (Z.log2_nonneg n). unfold power. change 2 with (inject_Z 2).
  rewrite <- !Zpower_Qpower by lia. split; [by rewrite <- Zle_Qle|by rewrite <- Zlt_Qlt].
Qed.

(** A positive number between two powers. *)
Lemma between_powers (q : Q) : (0 < Qnum q)%Z →
  let a := (Z.log2 (Qnum q) - Z.log2 (Zpos (Qden q)))%Z in power (a - 1) < q /\ q < power (a + 1).
Proof.
  intros Hq a. destruct q as [n d]. cbn [Qnum Qden] in *. pose proof (power_log2 n Hq) as [N1 N2]. pose proof (power_log2 (Zpos d) ltac:(lia)) as [D1 D2].
  set (x := Z.log2 n) in *. set (y := Z.log2 (Zpos d)) in *. rewrite Qmake_Qdiv. assert (0 < inject_Z (Zpos d)) as Hd by done.
  assert (power x == power (a - 1) * power (y + 1)) as Ex by (unfold power; rewrite <- Qpower_plus by done; f_equiv; lia).
  assert (power (x + 1) == power (a + 1) * power y) as Ey by (unfold power; rewrite <- Qpower_plus by done; f_equiv; lia).
  pose proof (power_pos (a - 1)) as P1. pose proof (power_pos (a + 1)) as P2. split.
  - apply Qlt_shift_div_l; [done|]. eapply Qlt_le_trans; [|exact N1]. rewrite Ex. by apply Qmult_lt_l.
  - apply Qlt_shift_div_r; [done|]. eapply Qlt_le_trans; [exact N2|]. rewrite Ey. apply Qmult_le_l; done.
Qed.

(** The number has 53 digits down to the last, or the last is the smallest. *)
Lemma last_digit_spec (q : Q) : (0 < Qnum q)%Z →
  last_digit q = (-1074)%Z ∨ power (last_digit q) * inject_Z (2 ^ 52) <= q.
Proof.
  intros Hq. pose proof (between_powers q Hq) as [Hlo _]. unfold last_digit. set (a := (Z.log2 (Qnum q) - Z.log2 (Zpos (Qden q)))%Z) in *.
  set (E := if Qle_bool (power a) q then a else (a - 1)%Z).
  assert (power E <= q) as HE by (subst E; destruct (Qle_bool (power a) q) eqn:Hb; [by apply Qle_bool_iff|by apply Qlt_le_weak]).
  destruct (decide (-1074 ≤ E - 52)%Z) as [Hc|Hc]; [right|left; lia]. rewrite Z.max_r by lia.
  eapply Qle_trans; [|exact HE]. apply Qle_lteq. right. unfold power. change (inject_Z (2 ^ 52)) with (Qpower 2 52).
  rewrite <- Qpower_plus by done. f_equiv. lia.
Qed.

(** The smallest number there is. *)
Definition least : Q := power (-1074).

Lemma round_error (q : Q) : 0 <= q → Qabs (round_f64 q - q) <= q * (1 # 2 ^ 53) + least * (1 # 2).
Proof.
  intros Hq. assert (0 < least) as Hl by apply power_pos. unfold round_f64. destruct (Z.leb_spec (Qnum q) 0) as [Hz|Hz].
  { assert (q - q == 0) as -> by ring. change (Qabs 0) with 0. change (1 # 2 ^ 53) with (1 # 9007199254740992). lra. }
  set (e := last_digit q). pose proof (power_pos e) as Pe. pose proof (last_digit_spec q Hz) as Hlast. fold e in Hlast.
  pose proof (round_even_error (q / power e)) as Hr. set (m := inject_Z (round_even _ _)) in *.
  assert (m * power e - q == (m - q / power e) * power e) as -> by (field; intros H0; rewrite H0 in Pe; discriminate Pe).
  rewrite Qabs_Qmult, (Qabs_pos (power e)) by (by apply Qlt_le_weak). set (x := Qabs _) in *.
  assert (x * power e <= (1 # 2) * power e) as Hx by (apply Qmult_le_compat_r; [done|lra]). eapply Qle_trans; [exact Hx|].
  change (1 # 2 ^ 53) with (1 # 9007199254740992). destruct Hlast as [->|Hlast]; [fold least; lra|].
  change (inject_Z (2 ^ 52)) with (4503599627370496 # 1) in Hlast. lra.
Qed.

(** *** What is kept free *)

Lemma round_nonneg (q : Q) : 0 <= q → 0 <= round_f64 q.
Proof.
  intros Hq. unfold round_f64. destruct (Z.leb_spec (Qnum q) 0); [done|]. pose proof (power_pos (last_digit q)) as Hp.
  apply Qmult_le_0_compat; [|by apply Qlt_le_weak]. change 0 with (inject_Z 0). rewrite <- Zle_Qle. unfold round_even.
  set (s := q / power (last_digit q)). assert (0 <= Qnum s)%Z as Hs.
  { assert (0 <= s) as Hs by (apply Qle_shift_div_l; [done|]; rewrite Qmult_0_l; done). clearbody s. destruct s as [sn sd]. unfold Qle in Hs. cbn [Qnum Qden] in *. lia. }
  pose proof (Z.div_pos (Qnum s) (Zpos (Qden s)) Hs ltac:(lia)). destruct (_ <? _)%Z; [done|]. destruct (_ <? _)%Z; [lia|]. destruct (Z.even _); lia.
Qed.

(** The bytes kept free are the headroom's share of the file system, to two
    bytes and a part in 2^52. *)
Lemma reserved_near (total : Z) (h : Q) : (0 ≤ total < 2 ^ 64)%Z → 0 <= h → h <= 1 # 2 →
  Qabs (inject_Z (reserved_of total (Finite h)) - inject_Z total * h) <= 2 + inject_Z total * (1 # 2 ^ 52).
Proof.
  intros Ht H0 H1. unfold reserved_of. set (t := inject_Z total). assert (0 <= t) as T0 by (change 0 with (inject_Z 0); subst t; rewrite <- Zle_Qle; lia).
  assert (t <= 18446744073709551616 # 1) as T1 by (subst t; change (18446744073709551616 # 1) with (inject_Z 18446744073709551616); rewrite <- Zle_Qle; lia).
  pose proof (round_error t T0) as Ea. pose proof (round_nonneg t T0) as A0. set (a := round_f64 t) in *.
  assert (0 <= a * h) as Ah by by apply Qmult_le_0_compat.
  pose proof (round_error (a * h) Ah) as Eb. pose proof (round_nonneg _ Ah) as B0. set (b := round_f64 (a * h)) in *.
  assert (0 < least) as L0 by apply power_pos. assert (least <= 1 # 1048576) as L1 by (by vm_compute).
  change (1 # 2 ^ 53) with (1 # 9007199254740992) in *. change (1 # 2 ^ 52) with (1 # 4503599627370496).
  apply Qabs_Qle_condition in Ea as [Ea1 Ea2]. apply Qabs_Qle_condition in Eb as [Eb1 Eb2]. set (l := least) in *. clearbody a b l t.
  assert (0 <= t * h) by by apply Qmult_le_0_compat.
  assert ((a - t) * h <= (t * (1 # 9007199254740992) + l * (1 # 2)) * (1 # 2)) as M1 by nra.
  assert (- ((t * (1 # 9007199254740992) + l * (1 # 2)) * (1 # 2)) <= (a - t) * h) as M2 by nra.
  assert (a * h <= a * (1 # 2)) as M3 by nra.
  assert (b - t * h <= 1 + t * (1 # 4503599627370496)) as U by lra. assert (t * h - b <= 1 + t * (1 # 4503599627370496)) as V by lra.
  assert (t * h <= t * (1 # 2)) as W by nra.
  assert (cast_u64 b = Qfloor b) as ->.
  { unfold cast_u64. assert (0 ≤ Qfloor b)%Z by (change 0%Z with (Qfloor 0); by apply Qfloor_resp_le).
    assert (Qfloor b < 2 ^ 64)%Z; [|lia]. rewrite Zlt_Qlt. eapply Qle_lt_trans; [apply Qfloor_le|]. change (inject_Z (2 ^ 64)) with (18446744073709551616 # 1). lra. }
  pose proof (Qfloor_le b) as F1. pose proof (Qlt_floor b) as F2. rewrite inject_Z_plus in F2. change (inject_Z 1) with 1 in F2.
  apply Qabs_Qle_condition. split; lra.
Qed.
Close Scope Q_scope.

(** ** The space of a device *)

Record StatVfs := mkStatVfs { f_bavail : Z; f_blocks : Z; f_frsize : Z }.

Record SpaceReport := mkSpaceReport { total_bytes : Z; free_bytes : Z }.

(** What the operating system says of the file system a path is on. *)
Class Usage := usage : tree → path → StatVfs.

Section space.
Context `{Usage}.

Definition fs_statvfs (p : path) : io io_error StatVfs :=
  _ ← may_fail; w ← get;
  match w_tree w !! p with
  | Some _ => mret (usage (w_tree w) p)
  | None => throw (missing (w_tree w) p)
  end.

Definition report_of (stat : StatVfs) (headroom : f64) : SpaceReport :=
  let available := wrap64 (f_bavail stat * f_frsize stat) in
  let total := wrap64 (f_blocks stat * f_frsize stat) in
  mkSpaceReport total (Z.max 0 (available - reserved_of total headroom)).

Definition space (d : Device) (headroom : f64) : io DeviceError SpaceReport :=
  _ ← check_present d;
  stat ← at_path (d_root d) (fs_statvfs (d_root d));
  mret (report_of stat headroom).

Definition free_space (d : Device) (headroom : f64) : io DeviceError Z :=
  report ← space d headroom; mret (free_bytes report).

(** Asking changes nothing. *)
Lemma wp_space Inv d headroom w (Post : res DeviceError SpaceReport → World → Prop) :
  (∀ w', w_tree w' = w_tree w → Post (Ok (report_of (usage (w_tree w) (d_root d)) headroom)) w') →
  (∀ e w', w_tree w' = w_tree w → Post (Err e) w') → wp Inv (space d headroom) w Post.
Proof.
  intros Hok Herr. unfold space, check_present. apply wp_bind, wp_bind, wp_attempt.
  assert (∀ w1, w_tree w1 = w_tree w → wp Inv (stat ← at_path (d_root d) (fs_statvfs (d_root d)); mret (report_of stat headroom)) w1 Post) as Hrest.
  { intros w1 Ht1. apply wp_bind, wp_map_err. unfold fs_statvfs. apply wp_bind, wp_may_fail; [|intros k w2 (Ht2 & _); apply Herr; congruence].
    intros w2 (Ht2 & _). apply wp_bind, wp_get. destruct (w_tree w2 !! d_root d); [|apply wp_lift, Herr; congruence].
    apply wp_ret. cbn [map_err]. apply wp_ret. replace (w_tree w2) with (w_tree w) by congruence. apply Hok. congruence. }
  apply wp_fs_metadata.
  - intros n w1 _ (Ht1 & _). by apply wp_ret, Hrest.
  - intros e w1 (Ht1 & _) _. destruct e; apply wp_lift; by apply Herr.
Qed.

Lemma reserved_nonneg total headroom : 0 ≤ reserved_of total headroom.
Proof. unfold reserved_of, cast_u64. destruct headroom as [h|negative|]; [lia| |lia]. by destruct (negative || _). Qed.

(** C28. The space a device reports is within bounds: on a file system whose
    sizes in bytes fit the 64 bits they are computed in, the total is the size
    of the file system, and what is free is what the file system has, less
    the headroom's share of the total, never below zero.  The share is
    computed in floating point and is exact to two bytes and one part in
    2^52; asking changes no file. *)
Theorem space_bounds (d : Device) (h : Q) (w w' : World) (report : SpaceReport) :
  (0 <= h)%Q → (h <= 1 # 2)%Q → space d (Finite h) w = (Ok report, w') →
  let stat := usage (w_tree w) (d_root d) in
  let available := f_bavail stat * f_frsize stat in
  let total := f_blocks stat * f_frsize stat in
  0 ≤ available < 2 ^ 64 → 0 ≤ total < 2 ^ 64 →
  w_tree w' = w_tree w ∧ total_bytes report = total ∧ 0 ≤ free_bytes report ≤ available
  ∧ ∃ reserved, free_bytes report = Z.max 0 (available - reserved)
      ∧ (Qabs (inject_Z reserved - inject_Z total * h) <= 2 + inject_Z total * (1 # 2 ^ 52))%Q.
Proof.
  intros H0 H1 Hr stat available total Ha Ht.
  assert (w_tree w' = w_tree w ∧ report = report_of stat (Finite h)) as [Htree ->].
  { pose proof (wp_space (λ _, True) d (Finite h) w (λ r w', w_tree w' = w_tree w ∧ (∀ x, r = Ok x → x = report_of stat (Finite h)))) as Hwp.
    unfold wp in Hwp. rewrite Hr in Hwp. destruct Hwp as [[? Hx] _]; [intros w1 Hw1; split; [done|]; by intros x [= <-]|done|]. split; [done|by apply Hx]. }
  unfold report_of. cbn [total_bytes free_bytes]. fold available total. unfold wrap. rewrite (Z.mod_small available), (Z.mod_small total) by done.
  pose proof (reserved_nonneg total (Finite h)). split_and!; [done|done|lia|lia|]. exists (reserved_of total (Finite h)). split; [done|]. by apply reserved_near.
Qed.
End space.

(** ** The status of a node *)

Section status.
Context `{Usage} `{Uuid} {TlsMaterial : Type} (text : Reason → str) (BUILD : str).
Implicit Types n : Node TlsMaterial.

Definition state_of (document : ClusterDocument) (id : DeviceId) : DeviceState :=
  match device document id with Some d => de_state d | None => Removed end.

Definition label_of (document : ClusterDocument) (id : DeviceId) : option str := d ← device document id; de_label d.

(** One opened device. *)
Definition open_status (document : ClusterDocument) (node_label : option str) (st : Node TlsMaterial * list DeviceStatus) (d : Device)
    : io Failure (Node TlsMaterial * list DeviceStatus) :=
  let '(n, devices) := st in
  let id := device_id d in
  let status n available report :=
    (n, devices ++ [mkDeviceStatus id (node_id n) (state_of document id) available (label_of document id) node_label
                      (total_bytes report) (free_bytes report)]) in
  asked ← attempt (blocking text (space d (c_headroom document)));
  match asked with
  | Ok report => mret (status (note_availability n id true).2 true report)
  | Err (FError _) => mret (status (note_availability n id false).2 false (mkSpaceReport 0 0))
  | Err other => throw other
  | Panic => lift Panic
  end.

(** The devices listed for the node that were not opened. *)
Definition listed_status n (document : ClusterDocument) (node_label : option str) : list DeviceStatus :=
  (λ e, mkDeviceStatus (de_id e) (node_id n) (de_state e) false (de_label e) node_label 0 0)
    <$> filter (λ e, de_node e = node_id n ∧ node_device n (de_id e) = None) (c_devices document).

Definition local_status n : io Failure (Node TlsMaterial * Response) :=
  let document := nd_document n in
  let node_label := e ← Cluster.node document (node_id n); n_label e in
  '(n', devices) ← io_fold (open_status document node_label) (nd_devices n) (n, []);
  mret (n', RespLocalStatus (node_id n) (c_version document) (bool_decide (is_Some (nd_tls n))) BUILD
              (devices ++ listed_status n document node_label)).

(** *** What it shows *)

(** The status of an opened device: as the document lists it, with the space
    the file system gives, or none. *)
Definition shows n (t : tree) (d : Device) (s : DeviceStatus) : Prop :=
  let document := nd_document n in
  ds_device s = device_id d ∧ ds_node s = node_id n ∧ ds_state s = state_of document (device_id d) ∧ ds_label s = label_of document (device_id d)
  ∧ (if ds_available s then mkSpaceReport (ds_total_bytes s) (ds_free_bytes s) = report_of (usage t (d_root d)) (c_headroom document)
     else ds_total_bytes s = 0 ∧ ds_free_bytes s = 0).

(** The devices last seen unavailable. *)
Definition noted (reported : gset Z) (l : list DeviceStatus) : gset Z :=
  fold_left (λ r s, if ds_available s then r ∖ {[ds_device s]} else {[ds_device s]} ∪ r) l reported.

Lemma set_reported_twice n r r' : set_reported (set_reported n r) r' = set_reported n r'.
Proof. done. Qed.

Lemma wp_open_statuses n node_label l : ∀ r0 sts w,
  wp (λ _, False) (io_fold (open_status (nd_document n) node_label) l (set_reported n r0, sts)) w (λ r w',
    w_tree w' = w_tree w ∧ ∃ new, r = Ok (set_reported n (noted r0 new), sts ++ new) ∧ Forall2 (shows n (w_tree w)) l new).
Proof.
  induction l as [|d l IH]; intros r0 sts w; cbn [io_fold].
  { apply wp_ret. split; [done|]. exists []. by rewrite app_nil_r. }
  assert (∀ s w1, w_tree w1 = w_tree w → shows n (w_tree w) d s →
    wp (λ _, False) (io_fold (open_status (nd_document n) node_label) l (set_reported n (noted r0 [s]), sts ++ [s])) w1 (λ r w',
      w_tree w' = w_tree w ∧ ∃ new, r = Ok (set_reported n (noted r0 new), sts ++ new) ∧ Forall2 (shows n (w_tree w)) (d :: l) new)) as Hnext.
  { intros s w1 Ht1 Hs. eapply wp_mono; [apply IH|]. intros r w2 (Ht2 & new & -> & Hnew). split; [congruence|]. exists (s :: new).
    rewrite <- app_assoc. split; [done|]. rewrite Ht1 in Hnew. by constructor. }
  apply wp_bind. unfold open_status. apply wp_bind, wp_attempt, wp_blocking, wp_space; [intros w1 Ht1|intros e w1 Ht1].
  - apply wp_ret. apply (Hnext (mkDeviceStatus (device_id d) (node_id n) (state_of (nd_document n) (device_id d)) true (label_of (nd_document n) (device_id d)) node_label _ _) w1 Ht1).
    by split_and!.
  - apply wp_ret. apply (Hnext (mkDeviceStatus (device_id d) (node_id n) (state_of (nd_document n) (device_id d)) false (label_of (nd_document n) (device_id d)) node_label _ _) w1 Ht1).
    by split_and!.
Qed.

(** The index finds exactly the opened devices ([Node::open] makes it so). *)
Definition indexed n : Prop := (∀ d, d ∈ nd_devices n → is_Some (node_device n (device_id d)))
  ∧ ∀ i d, node_device n i = Some d → d ∈ nd_devices n ∧ device_id d = i.

Lemma status_order n (l : list DeviceStatus) t : Forall2 (shows n t) (nd_devices n) l → ds_device <$> l = device_id <$> nd_devices n.
Proof. induction 1 as [|d s ds ss (Hs & _) _ IH]; [done|]. cbn. by rewrite Hs, IH. Qed.

Lemma listed_devices n document node_label : ds_device <$> listed_status n document node_label
  = de_id <$> filter (λ e, de_node e = node_id n ∧ node_device n (de_id e) = None) (c_devices document).
Proof. unfold listed_status. by rewrite <- list_fmap_compose. Qed.

Lemma opened_and_listed n node_label l t : indexed n → NoDup (de_id <$> c_devices (nd_document n)) → NoDup (device_id <$> nd_devices n) →
  Forall2 (shows n t) (nd_devices n) l → NoDup (ds_device <$> (l ++ listed_status n (nd_document n) node_label)).
Proof.
  intros [Hin _] Hdoc Hdev Hl. rewrite fmap_app, (status_order _ _ _ Hl), listed_devices. apply NoDup_app. split_and!; [done| |].
  - intros i (d & -> & Hd)%list_elem_of_fmap (e & He & [[_ Hnone] _]%list_elem_of_filter)%list_elem_of_fmap.
    rewrite <- He in Hnone. destruct (Hin d Hd) as [d' Hd']. congruence.
  - eapply sublist_NoDup; [exact Hdoc|apply fmap_sublist, sublist_filter].
Qed.

Lemma device_state c e : NoDup (de_id <$> c_devices c) → e ∈ c_devices c → device c (de_id e) = Some e.
Proof.
  intros Hnd He. unfold device. apply find_unique; [done|by rewrite Z.eqb_refl|]. intros y Hy Hye%Z.eqb_eq. by eapply NoDup_fmap_unique.
Qed.

End status.

(** ** Witnesses: a node with one disk *)

Section witnesses.
#[local] Existing Instance decimal_uuid.
#[local] Instance usage40 : Usage := λ _ _, mkStatVfs 1000 4000 4096.

Definition device40 : Device := mkDevice [lit "d"] (mkIdentity SYSTEM_NAME NOTICE DEVICE_FORMAT_VERSION 1 193 0).
Definition world40 : World := mkWorld (<[join [lit "d"] DEVICE_IDENTITY_FILE := File [] 0]> (w_tree blank_world)) ∅ 0 7 0 [] [].
Definition node40 : Node unit := mkNodeState config1 document2 [device40] {[1 := device40]} ∅ false ∅ None.

(** The double nearest to a twentieth. *)
Definition headroom40 : Q := 3602879701896397 # 72057594037927936.

Lemma space_bounds_witness : ∃ report w', space device40 (Finite headroom40) world40 = (Ok report, w') ∧ free_bytes report = 3276800
  ∧ 0 ≤ free_bytes report ≤ 4096000.
Proof.
  assert ((space device40 (Finite headroom40) world40).1 = Ok (mkSpaceReport 16384000 3276800)) as Hx by (vm_compute; reflexivity).
  destruct (space device40 (Finite headroom40) world40) as [r w'] eqn:Hr. cbn [fst] in Hx. subst r.
  exists (mkSpaceReport 16384000 3276800), w'. split; [reflexivity|]. split; [reflexivity|].
  destruct (space_bounds device40 headroom40 world40 w' (mkSpaceReport 16384000 3276800)) as (_ & _ & Hb & _);
    [discriminate|discriminate|exact Hr|vm_compute; split; [discriminate|reflexivity]..|exact Hb].
Defined.

Lemma indexed40 : indexed node40.
Proof.
  split; [intros d ->%list_elem_of_singleton; by eexists|]. intros i d Hd. unfold node_device in Hd. cbn [node40 nd_devices_by_id] in Hd. apply lookup_singleton_Some in Hd as [<- <-]. split; [apply list_elem_of_here|done].
Qed.

End witnesses.
End Space.
