(* ===== verification/Connection.v ===== *)
(** [djbod-client]: connections to nodes ([connection.rs], [wire.rs]), as
    the coordinator and the command-line tools use them.

    The network is a parameter ([Network]): a state and what it does when a
    connection is opened, when a message is handed to it and when one is
    waited for.  Nothing is assumed of it, so a theorem about every network is
    about every behaviour of the peers and of the wire between.  [net] is the
    monad of code that talks to peers; a computation that has not come to an
    end within its fuel is [None], which only the loops of the coordinator
    that wait on a peer's page after page can be.

    The mutable fields of a [Connection] are in the state, found by the
    number of the connection; [pe_log] is ghost state, every message that was
    sent or received, in order. *)

From S2P Require Import Prelude Text Checksum KeyHash VersionId Erasure Layout Stripe FileSystem ShardFile Record Device Cluster Scrub Frame Handshake Message.

Module Connection.
Import Message.

(** ** The monad *)

Definition net (S E A : Type) : Type := S → option (res E A * S).

#[global] Instance net_ret S E : MRet (net S E) := λ A a s, Some (Ok a, s).
#[global] Instance net_bind S E : MBind (net S E) := λ A B f m s,
  match m s with
  | Some (Ok a, s') => f a s'
  | Some (Err e, s') => Some (Err e, s')
  | Some (Panic, s') => Some (Panic, s')
  | None => None
  end.

Definition nlift {S E A : Type} (r : res E A) : net S E A := λ s, Some (r, s).
Definition nthrow {S E A : Type} (e : E) : net S E A := nlift (Err e).
Definition still_running {S E A : Type} : net S E A := λ _, None.

Definition nmap_err {S E F A : Type} (f : E → F) (m : net S E A) : net S F A := λ s,
  match m s with
  | Some (r, s') => Some (map_err f r, s')
  | None => None
  end.

(** [match m.await { Ok(..) .. Err(..) }] *)
Definition nattempt {S E F A : Type} (m : net S E A) : net S F (res E A) := λ s,
  match m s with
  | Some (Panic, s') => Some (Panic, s')
  | Some (r, s') => Some (Ok r, s')
  | None => None
  end.

(** [tasks.join_next()]: also a panic of the task is a value. *)
Definition joined {S E F A : Type} (m : net S E A) : net S F (res E A) := λ s,
  match m s with
  | Some (r, s') => Some (Ok r, s')
  | None => None
  end.

Fixpoint nfold {S E A B : Type} (f : B → A → net S E B) (l : list A) (b : B) : net S E B :=
  match l with
  | [] => mret b
  | x :: l => b' ← f b x; nfold f l b'
  end.

Fixpoint nmapM {S E A B : Type} (f : A → net S E B) (l : list A) : net S E (list B) :=
  match l with
  | [] => mret []
  | x :: l => y ← f x; ys ← nmapM f l; mret (y :: ys)
  end.

(** ** What a computation can yield, whatever the network does *)

Section yields.
Context {S : Type}.

Definition yields {E A : Type} (m : net S E A) (P : A → Prop) (Q : E → Prop) : Prop :=
  ∀ s s' r, m s = Some (r, s') → match r with Ok a => P a | Err e => Q e | Panic => True end.

Lemma yields_any {E A : Type} (m : net S E A) : yields m (λ _, True) (λ _, True).
Proof. by intros s s' [a|e|] _. Qed.

Lemma yields_mono {E A : Type} (m : net S E A) (P P' : A → Prop) (Q Q' : E → Prop) :
  yields m P Q → (∀ a, P a → P' a) → (∀ e, Q e → Q' e) → yields m P' Q'.
Proof. intros Hm HP HQ s s' r Hr. specialize (Hm s s' r Hr). destruct r; auto. Qed.

Lemma yields_ret {E A : Type} (a : A) (P : A → Prop) (Q : E → Prop) : P a → yields (mret a) P Q.
Proof. by intros HP s s' r [= <- <-]. Qed.

Lemma yields_throw {E A : Type} (e : E) (P : A → Prop) (Q : E → Prop) : Q e → yields (nthrow e) P Q.
Proof. by intros HQ s s' r [= <- <-]. Qed.

Lemma yields_panic {E A : Type} (P : A → Prop) (Q : E → Prop) : yields (nlift Panic) P Q.
Proof. by intros s s' r [= <- <-]. Qed.

Lemma yields_lift {E A : Type} (r : res E A) (P : A → Prop) (Q : E → Prop) :
  (∀ a, r = Ok a → P a) → (∀ e, r = Err e → Q e) → yields (nlift r) P Q.
Proof. intros HP HQ s s' r' [= <- <-]. destruct r; auto. Qed.

Lemma yields_bind {E A B : Type} (m : net S E A) (f : A → net S E B) (P : A → Prop) (P' : B → Prop) (Q : E → Prop) :
  yields m P Q → (∀ a, P a → yields (f a) P' Q) → yields (m ≫= f) P' Q.
Proof.
  intros Hm Hf s s' r. unfold mbind, net_bind. destruct (m s) as [[[a|e|] s1]|] eqn:Hs; [|by intros [= <- <-]; apply (Hm _ _ _ Hs)|by intros [= <- <-]|done].
  intros Hr. exact (Hf a (Hm _ _ _ Hs) _ _ _ Hr).
Qed.

Lemma yields_map_err {E F A : Type} (f : E → F) (m : net S E A) (P : A → Prop) (Q : F → Prop) :
  yields m P (λ e, Q (f e)) → yields (nmap_err f m) P Q.
Proof.
  intros Hm s s' r. unfold nmap_err. destruct (m s) as [[r1 s1]|] eqn:Hs; [|done].
  intros [= <- <-]. specialize (Hm _ _ _ Hs). by destruct r1.
Qed.

Lemma yields_attempt {E F A : Type} (m : net S E A) (P : A → Prop) (Q : E → Prop) :
  yields m P Q →
  yields (nattempt (F := F) m) (λ r, match r with Ok a => P a | Err e => Q e | Panic => True end) (λ _, False).
Proof.
  intros Hm s s' r. unfold nattempt. destruct (m s) as [[r1 s1]|] eqn:Hs; [|done].
  specialize (Hm _ _ _ Hs). by destruct r1; intros [= <- <-].
Qed.

Lemma yields_fold {E A B : Type} (f : B → A → net S E B) (l : list A) (b : B) (I : B → Prop) (Q : E → Prop) :
  (∀ b x, x ∈ l → I b → yields (f b x) I Q) → I b → yields (nfold f l b) I Q.
Proof.
  revert b. induction l as [|x l IH]; intros b Hf Hb; cbn [nfold]; [by apply yields_ret|].
  eapply yields_bind; [apply Hf; [apply list_elem_of_here|done]|]. intros b' Hb'.
  apply IH; [|done]. intros b2 y Hy. by apply Hf, list_elem_of_further.
Qed.
End yields.

(** ** The network *)

Inductive WireError :=
| Closed
| WireIo
| WireFrame (e : Frame.FrameError)
| WireMessage (e : MessageError)
| Idle
| WireUndecodable (id : Z).

Class Network (N : Type) := {
  dial : N → nat → str → bool → bool * N;
  transmit : N → nat → Message → option WireError * N;
  deliver : N → nat → (WireError + Message) * N;
  (** The order in which concurrent tasks, one for each node, come to their end. *)
  completion : N → list NodeId → list NodeId;
  completion_perm n l : completion n l ≡ₚ l;
}.

Inductive Event :=
| Opened (ch : nat)
| Sent (ch : nat) (m : Message)
| Got (ch : nat) (m : Message).

(** What can be described when it was not expected. *)
Inductive Got' :=
| GotMessage (m : Message)
| GotResponse (r : Response).

Inductive ConnectionError :=
| CeWire (e : WireError)
| CeHello (e : Handshake.HelloError)
| UnexpectedMessage (expected : str) (got : Got')
| WrongRequestId (expected got : Z)
| Remote (d : ErrorDetail)
| StreamFailed (d : ErrorDetail).

Inductive StreamItem :=
| ItemData (d : DataFrame)
| ItemEnd (e : StreamEnd).

(** The fields of a [Connection] that change. *)
Record ConnState := mkConnState { cs_peer_hello : Handshake.Hello; cs_next_request_id : Z; cs_tls : bool }.

Record Peers (N : Type) := mkPeers { pe_net : N; pe_conns : list ConnState; pe_log : list Event }.
Arguments mkPeers {N}.
Arguments pe_net {N}.
Arguments pe_conns {N}.
Arguments pe_log {N}.

Section connection.
Context {N : Type} `{Network N} `{Xxh3}.
Abbreviation call E A := (net (Peers N) E A).

Definition write_message (ch : nat) (m : Message) : call WireError unit := λ s,
  match transmit (pe_net s) ch m with
  | (None, n) => Some (Ok tt, mkPeers n (pe_conns s) (pe_log s ++ [Sent ch m]))
  | (Some e, n) => Some (Err e, mkPeers n (pe_conns s) (pe_log s))
  end.

Definition read_message (ch : nat) : call WireError Message := λ s,
  match deliver (pe_net s) ch with
  | (inr m, n) => Some (Ok m, mkPeers n (pe_conns s) (pe_log s ++ [Got ch m]))
  | (inl e, n) => Some (Err e, mkPeers n (pe_conns s) (pe_log s))
  end.

(** [Connector::connect], and the fields of the new connection. *)
Definition open_connection (addr : str) (tls : bool) (our_hello : Handshake.Hello) : call WireError nat := λ s,
  let ch := length (pe_conns s) in
  match dial (pe_net s) ch addr tls with
  | (true, n) => Some (Ok ch, mkPeers n (pe_conns s ++ [mkConnState our_hello 1 tls]) (pe_log s ++ [Opened ch]))
  | (false, n) => Some (Err WireIo, mkPeers n (pe_conns s) (pe_log s))
  end.

Definition set_peer_hello {E : Type} (ch : nat) (h : Handshake.Hello) : call E unit := λ s,
  Some (Ok tt, mkPeers (pe_net s)
    (alter (λ c, mkConnState h (cs_next_request_id c) (cs_tls c)) ch (pe_conns s)) (pe_log s)).

Definition connect_with (tls : bool) (addr : str) (our_hello : Handshake.Hello) : call ConnectionError nat :=
  ch ← nmap_err CeWire (open_connection addr tls our_hello);
  _ ← nmap_err CeWire (write_message ch (MHello our_hello));
  m ← nmap_err CeWire (read_message ch);
  match m with
  | MHello hello =>
      if negb (Handshake.cluster_id hello =? Handshake.cluster_id our_hello) && negb (Handshake.asks_cluster_id our_hello)
      then nthrow (CeHello (Handshake.ClusterId (Handshake.cluster_id hello) (Handshake.cluster_id our_hello)))
      else _ ← set_peer_hello ch hello; mret ch
  | MResponse _ (RespError detail) => nthrow (Remote detail)
  | other => nthrow (UnexpectedMessage (lit "Hello") (GotMessage other))
  end.

Definition peer_hello {E : Type} (ch : nat) : call E Handshake.Hello := λ s,
  Some (expect (cs_peer_hello <$> pe_conns s !! ch), s).

(** What a client sends; [build] is the text the build embeds. *)
Definition client_hello (build : str) (cluster_id : Z) : Handshake.Hello :=
  Handshake.mkHello Handshake.PROTOCOL_VERSION Handshake.Client None cluster_id 0 build None.

(** [wrapping_add(1).max(1)] *)
Definition next_id (id : Z) : Z := Z.max (wrap 32 (id + 1)) 1.

Definition allocate_request_id {E : Type} (ch : nat) : call E Z := λ s,
  let id := match pe_conns s !! ch with Some c => cs_next_request_id c | None => 1 end in
  Some (Ok id, mkPeers (pe_net s)
    (alter (λ c, mkConnState (cs_peer_hello c) (next_id id) (cs_tls c)) ch (pe_conns s)) (pe_log s)).

Definition send_request (ch : nat) (r : Request) : call ConnectionError Z :=
  id ← allocate_request_id ch;
  _ ← nmap_err CeWire (write_message ch (MRequest id r));
  mret id.

Definition read_response (ch : nat) (id : Z) : call ConnectionError Response :=
  m ← nmap_err CeWire (read_message ch);
  match m with
  | MResponse got response =>
      if negb (got =? id) then nthrow (WrongRequestId id got)
      else match response with
           | RespError detail => nthrow (Remote detail)
           | other => mret other
           end
  | other => nthrow (UnexpectedMessage (lit "Response") (GotMessage other))
  end.

Definition request (ch : nat) (r : Request) : call ConnectionError Response :=
  id ← send_request ch r; read_response ch id.

Definition send_data (ch : nat) (id : Z) (d : DataFrame) : call ConnectionError unit :=
  nmap_err CeWire (write_message ch (MData id d)).

Definition send_end (ch : nat) (id : Z) (e : StreamEnd) : call ConnectionError unit :=
  nmap_err CeWire (write_message ch (MEndOfStream id e)).

Definition read_stream_item (ch : nat) (id : Z) : call ConnectionError StreamItem :=
  m ← nmap_err CeWire (read_message ch);
  match m with
  | MData got data => if negb (got =? id) then nthrow (WrongRequestId id got) else mret (ItemData data)
  | MEndOfStream got e => if negb (got =? id) then nthrow (WrongRequestId id got) else mret (ItemEnd e)
  | other => nthrow (UnexpectedMessage (lit "Data or EndOfStream") (GotMessage other))
  end.
End connection.
End Connection.
