(* ===== verification/Coordinator.v ===== *)
(** [coordinator.rs]: the operations of a client, coordinated over the nodes
    of the cluster: connecting, the broadcast and the lookup, status, head,
    delete and list.  [Get.v] and [Put.v] hold the two that stream a body.

    A node's document is read once for an operation: another document adopted
    meanwhile is not modelled.  The tasks of a broadcast run one after the
    other in the order the network says they come to their end ([completion]);
    they use connections of their own, and a network can answer each as it
    would have when interleaved with the others.  The text of an error is what
    [format!] makes of a [CReason]. *)

From S2P Require Import Prelude Text Checksum KeyHash VersionId Erasure Layout Stripe FileSystem ShardFile Record Device Cluster Scrub Frame Handshake Message Node LocalOps Lookup Connection.

Module Coordinator.
Import Message LocalOps Lookup Connection.

Inductive CReason :=
| CNotInDocument (target : NodeId) (version : Z)
| CNoAddress (target : NodeId)
| CBadAddress (target : NodeId) (address : str)
| CConnector (e : NodeError)
| CCannotReach (target : NodeId) (address : str) (e : ConnectionError)
| CMidRequest (target : NodeId) (e : ConnectionError)
| CTaskFailed
| CUnavailableOn (device : DeviceId) (target : NodeId)
| CDeviceRemoved (device : DeviceId)
| CLookup (key : str) (e : LookupError)
| CNotInCluster (device : DeviceId)
| CAnswered (target : NodeId) (asked : str) (answer : Response)
| CEnded (target : NodeId) (answer : Response)
| CHoldsVersion (target : NodeId) (theirs ours : Z)
| CConnectionEnded (e : ConnectionEnd)
| CSchemeError (e : SchemeError)
| CImpossibleSize
| COutOfOrder (got stripe : Z)
| CEndedEarly
| CTooManyUnreadable (unreadable k m : Z)
| CStripeError (e : StripeError)
| CUnrecoverable (stripe : Z) (faults : list BlockFault) (usable needed : Z)
| CUncleanEnd
| CObjectCheck (delivered size : Z) (computed recorded : BlockChecksum)
| CContentType (len : Z)
| CMetadataSize (bytes limit : Z)
| CObjectSize (size limit : Z)
| CShardSize
| CPlacement (eligible needed shard_bytes : Z) (unavailable : list DeviceId)
| CBodyChunk (got expected : Z)
| CBodyChecksum (sequence : Z)
| CBodyTooLong (size : Z)
| CBodyShort (received size : Z)
| CClientAbandoned (message : str)
| CBodyMessage (m : Message)
| CNotClientOperation (r : Request)
| CRecordKey (key found : str)
| CRevisionsDisagree (revision : Z)
| CUnlistedCopy
| CDifferentBody (lower current : Z)
| CFewCopies (vouching listed k : Z)
| CRelocation (lost ranked shard_bytes : Z)
| CRepairStripe (stripe usable needed : Z) (faults : list BlockFault)
| CRepairCheck (computed recorded : BlockChecksum)
| CBecameUnrecoverable (stripe : Z)
| CStreamEndedEarly
| CShardOutside (index k m : Z)
| CNotEligible (device : DeviceId) (shard_bytes : Z)
| CNoneEligible (shard_bytes : Z)
| CMisordered (stripe : Z) (item : StreamItem)
| CSourceChecksum (stripe : Z)
| CSourceEnd
| CCopyAbandoned
| CNotDraining (device : DeviceId) (state : DeviceState)
| CTooFewActive (active required : Z)
| CTooLittleSpace (shard_bytes target_free_bytes : Z)
| CSkipped (skipped total : Z)
| CStaleCopy
| CEncode
| CInventoryTask
| CCrossCheckTask
| CItemCorrupt
| CItemDecode
| CEnd (e : ConnectionEnd)
| CUnexpected (answer : Response)
| CScrubIncomplete (failed_nodes : nat) (stopped : option Z) (findings : nat)
| CRepairsFailed (failures : nat).

(** What a node's texts are: its build, and what [format!] makes of a reason. *)
Class CoordTexts := { BUILD : str; ctext : CReason → str }.

Definition set_node (d : ErrorDetail) (node : option NodeId) : ErrorDetail :=
  mkDetail (e_code d) (e_message d) node (e_device d) (e_key d) (e_version d) (e_shard_index d) (e_stripe d).

Definition is_client_operation (r : Request) : bool :=
  match r with
  | Status | ReqDeviceContents _ | PutObject _ _ _ _ | GetObject _ | HeadObject _ | DeleteObject _ | ListKeys _
  | RepairObject _ | MoveShard _ _ _ | Scrub _ _ | Drain _ _ | Inventory _ => true
  | _ => false
  end.

(** What the broadcast lookup brought back, and the nodes it did not reach. *)
Record Found := mkFound {
  fd_records : list LocatedRecord;
  fd_unread : gmap Z (ErrorCode * str);
  fd_unreachable : list ErrorDetail;
}.

Definition by_node {A : Type} (a b : NodeId * A) : Prop := a.1 ≤ b.1.
#[global] Instance by_node_dec {A : Type} : RelDecision (@by_node A).
Proof. intros a b. unfold by_node. apply _. Defined.

Definition status_by_node (a b : DeviceStatus) : Prop := ds_node a ≤ ds_node b.
#[global] Instance status_by_node_dec : RelDecision status_by_node.
Proof. intros a b. unfold status_by_node. apply _. Defined.

Definition unread_le (a b : UnavailableDevice) : Prop :=
  ud_node a < ud_node b ∨ (ud_node a = ud_node b ∧ ud_device a ≤ ud_device b).
#[global] Instance unread_le_dec : RelDecision unread_le.
Proof. intros a b. unfold unread_le. apply _. Defined.

(** [position] in the document, an absent device before every present one. *)
Definition position (document : ClusterDocument) (id : DeviceId) : nat :=
  match list_find (λ d, de_id d = id) (c_devices document) with Some (i, _) => S i | None => O end.
Definition document_order (document : ClusterDocument) (a b : DeviceStatus) : Prop :=
  (position document (ds_device a) ≤ position document (ds_device b))%nat.
#[global] Instance document_order_dec document : RelDecision (document_order document).
Proof. intros a b. unfold document_order. apply _. Defined.

(** A page as it is merged: the newest entry of each key, the horizon,
    whether a node had more, what was not read. *)
Record Merge := mkMerge {
  mg_newest : list (str * KeyEntry);
  mg_horizon : option str;
  mg_truncated : bool;
  mg_unread : list UnavailableDevice;
}.

Definition note_entry (newest : list (str * KeyEntry)) (item : KeyEntry) : list (str * KeyEntry) :=
  match obj_get (ke_key item) newest with
  | Some existing =>
      if bool_decide (lex_le (ke_version item) (ke_version existing)) then newest
      else btree_insert (ke_key item) item newest
  | None => btree_insert (ke_key item) item newest
  end.

Definition note_horizon (horizon : option str) (truncated : bool) (entries : list KeyEntry) : option str :=
  if truncated then
    match last entries with
    | Some l =>
        match horizon with
        | Some h => if lex_ltb (ke_key l) h then Some (ke_key l) else horizon
        | None => Some (ke_key l)
        end
    | None => horizon
    end
  else horizon.

Definition within (horizon : option str) (entries : list KeyEntry) : list KeyEntry :=
  match horizon with
  | Some h => filter (λ e, lex_le (ke_key e) h) entries
  | None => entries
  end.

Definition merge_page (mg : Merge) (target : NodeId) (entries : list KeyEntry) (truncated : bool)
    (unread : list DeviceId) : Merge :=
  mkMerge (fold_left note_entry entries (mg_newest mg)) (note_horizon (mg_horizon mg) truncated entries)
    (mg_truncated mg || truncated) (mg_unread mg ++ ((λ d, mkUnavailable d target) <$> unread)).

(** A node that cannot be reached: every device listed for it is unread. *)
Definition merge_unreachable (document : ClusterDocument) (mg : Merge) (target : NodeId) : Merge :=
  mkMerge (mg_newest mg) (mg_horizon mg) (mg_truncated mg)
    (mg_unread mg ++ ((λ d, mkUnavailable (de_id d) target)
      <$> filter (λ d, de_node d = target ∧ de_state d ≠ Removed) (c_devices document))).

Definition merged_page (document : ClusterDocument) (limit : option Z) (mg : Merge) : Response :=
  let keys := within (mg_horizon mg) (snd <$> mg_newest mg) in
  let '(keys, cut) := page_of_keys keys limit in
  RespListKeys keys (cut || mg_truncated mg) (merge_sort unread_le (mg_unread mg))
    (Z.of_nat (length (mg_unread mg)) <? c_k document + c_m document).

Section coordinator.
Context {N : Type} `{Network N} `{CoordTexts} `{Sha256} `{Uuid}.
Context {TlsMaterial : Type} (fuel : nat).
Implicit Types n : Node TlsMaterial.
Abbreviation call A := (net (Peers N) Failure A).

Definition cdetail (code : ErrorCode) (r : CReason) : ErrorDetail := ErrorDetail_new code (ctext r).
Definition error (code : ErrorCode) (r : CReason) : Failure := FError (cdetail code r).

(** ** Connections *)

Definition node_address n (target : NodeId) : res Failure str :=
  let document := nd_document n in
  entry ← ok_or (node document target) (error NodeUnreachable (CNotInDocument target (c_version document)));
  first ← ok_or (head (n_addresses entry)) (error NodeUnreachable (CNoAddress target));
  _ ← ensure (SocketAddr.parses first) (error NodeUnreachable (CBadAddress target first));
  Ok first.

(** [Node::connector]: whether to use TLS. *)
Definition connector n : res NodeError bool :=
  match c_transport (nd_document n), nd_tls n with
  | Plain, _ => Ok false
  | _, Some _ => Ok true
  | transport, None => Err (Node.TlsRequired transport)
  end.

Definition our_hello n : Handshake.Hello :=
  Handshake.mkHello Handshake.PROTOCOL_VERSION Handshake.Node (Some (node_id n)) (c_cluster_id (nd_document n))
    (c_version (nd_document n)) BUILD (c_name (nd_document n)).

Definition connect_failure (target : NodeId) (address : str) (e : ConnectionError) : Failure :=
  match e with
  | Remote detail => FError (set_node detail (Some target))
  | other => FError (set_node (cdetail NodeUnreachable (CCannotReach target address other)) (Some target))
  end.

Definition connect_to n (target : NodeId) : call nat :=
  address ← nlift (node_address n target);
  tls ← nlift (map_err (λ e, error TlsRequired (CConnector e)) (connector n));
  nmap_err (connect_failure target address) (connect_with tls address (our_hello n)).

Definition remote_failure (target : NodeId) (e : ConnectionError) : Failure :=
  match e with
  | Remote detail | StreamFailed detail =>
      FError (set_node detail (match e_node detail with Some node => Some node | None => Some target end))
  | other => FError (set_node (cdetail NodeUnreachable (CMidRequest target other)) (Some target))
  end.

(** [connection.request(..).await.map_err(|e| remote_failure(target, e))] *)
Definition ask (target : NodeId) (ch : nat) (r : Request) : call Response :=
  nmap_err (remote_failure target) (request ch r).

Definition ask_node n (target : NodeId) (r : Request) : call Response :=
  ch ← connect_to n target; ask target ch r.

Definition active_ids n : list NodeId := n_id <$> active_nodes (nd_document n).

(** Run a task for every active node, in the order they end; the value of
    each, or its failure. *)
Definition each_node {A : Type} n (task : NodeId → call A) : call (list (NodeId * res Failure A)) := λ s,
  nfold (λ answers target, r ← joined (task target); mret (answers ++ [(target, r)]))
    (completion (pe_net s) (active_ids n)) [] s.

Definition broadcast_each n (r : Request) : call (list (NodeId * res Failure Response)) :=
  answers ← each_node n (λ target, ask_node n target r);
  _ ← nlift (ensure (forallb (λ a, match a.2 with Panic => false | _ => true end) answers)
               (error Internal CTaskFailed));
  mret (merge_sort by_node answers).

Definition broadcast n (r : Request) : call (list (NodeId * Response)) :=
  answers ← broadcast_each n r;
  nlift (map_res (λ a : NodeId * res Failure Response, response ← a.2; Ok (a.1, response)) answers).

(** ** Lookups *)

(** The pages of one node. *)
Fixpoint lookup_pages (fuel : nat) (ch : nat) (target : NodeId) (key_hash : KeyHash)
    (all : list LocatedRecord) (after : option LookupCursor) : call (list LocatedRecord * list DeviceId) :=
  match fuel with
  | O => still_running
  | S fuel =>
      answer ← ask target ch (LocalLookup key_hash after);
      match answer with
      | RespLocalLookup records truncated unread =>
          let after := (λ r, mkLookupCursor (r_version (lr_record r)) (lr_device r)) <$> last records in
          let all := all ++ records in
          match after with
          | Some _ => if truncated then lookup_pages fuel ch target key_hash all after else mret (all, unread)
          | None => mret (all, unread)
          end
      | other => nthrow (error ProtocolViolation (CAnswered target (lit "LocalLookup") other))
      end
  end.

Definition lookup_on n (target : NodeId) (key_hash : KeyHash) : call (list LocatedRecord * list DeviceId) :=
  ch ← connect_to n target; lookup_pages fuel ch target key_hash [] None.

(** One node's answer, as the loop of [lookup_reachable] takes it in. *)
Definition note_lookup (document : ClusterDocument) (found : Found)
    (answer : NodeId * res Failure (list LocatedRecord * list DeviceId)) : res Failure Found :=
  let target := answer.1 in
  match answer.2 with
  | Ok (records, unread) =>
      Ok (mkFound (fd_records found ++ records)
            (fold_left (λ m d, <[d := (DeviceUnavailable, ctext (CUnavailableOn d target))]> m) unread (fd_unread found))
            (fd_unreachable found))
  | Err (FError detail) =>
      if bool_decide (e_code detail = NodeUnreachable) then
        Ok (mkFound (fd_records found)
              (fold_left (λ m d, <[de_id d := (NodeUnreachable, e_message detail)]> m)
                 (filter (λ d, de_node d = target) (c_devices document)) (fd_unread found))
              (fd_unreachable found ++ [detail]))
      else Err (FError detail)
  | Err f => Err f
  | Panic => Err (error Internal CTaskFailed)
  end.

(** [entry(device.id).or_insert(..)] for the removed devices *)
Definition note_removed (unread : gmap Z (ErrorCode * str)) (d : DeviceEntry) : gmap Z (ErrorCode * str) :=
  if bool_decide (de_state d = Removed) then
    match unread !! de_id d with
    | Some _ => unread
    | None => <[de_id d := (DeviceUnavailable, ctext (CDeviceRemoved (de_id d)))]> unread
    end
  else unread.

Definition lookup_reachable n (key_hash : KeyHash) : call Found :=
  let document := nd_document n in
  answers ← each_node n (λ target, lookup_on n target key_hash);
  found ← nlift (fold_res (note_lookup document) answers (mkFound [] ∅ []));
  mret (mkFound (merge_sort located_le (fd_records found))
          (fold_left note_removed (c_devices document) (fd_unread found)) (fd_unreachable found)).

Definition lookup n (key_hash : KeyHash) : call (list LocatedRecord) :=
  found ← lookup_reachable n key_hash;
  match fd_unreachable found with
  | detail :: _ => nthrow (FError detail)
  | [] => mret (fd_records found)
  end.

(** The detail of each refusal of [Lookup.v]. *)
Definition lookup_detail (key : str) (e : LookupError) : ErrorDetail :=
  let d := cdetail (lookup_code e) (CLookup key e) in
  let fields := λ device version, mkDetail (e_code d) (e_message d) None device (Some key) version None None in
  match e with
  | WrongKey v dev | CopiesDisagree v dev _ | UnlistedDevice v dev => fields (Some dev) (Some v)
  | CopiesMissing v _ _ _ => fields None (Some v)
  | TooFewVouching _ v dev _ => fields dev (Some v)
  | OutOfView _ _ | NoObject => fields None None
  | KeyIsEmpty => d
  | KeyIsTooLong _ _ => mkDetail (e_code d) (e_message d) None None (Some (take 64 key ++ lit "...")) None None None
  end.

Definition looked_up {A : Type} (key : str) (r : res LookupError A) : call A :=
  nlift (map_err (λ e, FError (lookup_detail key e)) r).

Definition newest_version n (key : str) : call MetadataRecord :=
  _ ← looked_up key (check_key (nd_document n) key);
  located ← lookup n (hash_key (as_bytes key));
  looked_up key (Lookup.newest_version (nd_document n) key located).

Definition newest_readable_version n (key : str) : call (MetadataRecord * list MissingRecordCopy) :=
  _ ← looked_up key (check_key (nd_document n) key);
  found ← lookup_reachable n (hash_key (as_bytes key));
  looked_up key (Lookup.newest_readable_version (nd_document n) key (mkLookup (fd_records found) (fd_unread found))).

(** ** Operations *)

Definition device_contents n (id : DeviceId) : call Response :=
  let missing := error NotFound (CNotInCluster id) in
  entry ← nlift (ok_or (device (nd_document n) id)
    (match missing with FError d => FError (with_device d id) | f => f end));
  let owner := de_node entry in
  answer ← ask_node n owner (LocalDeviceContents id);
  match answer with
  | RespLocalDeviceContents c =>
      mret (RespDeviceContents (mkContents id owner (de_state entry) (ct_versions c) (ct_keys c) (ct_blocks c)
              (ct_shard_bytes c)))
  | other => nthrow (error ProtocolViolation (CAnswered owner (lit "LocalDeviceContents") other))
  end.

(** [Unreachable::from_failure] *)
Definition unreachable_detail (f : Failure) : ErrorDetail :=
  match f with
  | FError d => d
  | FClose e => cdetail NodeUnreachable (CConnectionEnded e)
  end.

(** A device as the document alone knows it. *)
Definition unseen (label : option str) (target : NodeId) (d : DeviceEntry) : DeviceStatus :=
  mkDeviceStatus (de_id d) target (de_state d) false (de_label d) label 0 0.

Definition devices_of (document : ClusterDocument) (target : NodeId) : list DeviceEntry :=
  filter (λ d, de_node d = target) (c_devices document).

Definition note_status (document : ClusterDocument)
    (st : list NodeStatus * list DeviceStatus * list (NodeId * Response)) (a : NodeId * res Failure Response)
    : res Failure (list NodeStatus * list DeviceStatus * list (NodeId * Response)) :=
  let '(nodes, devices, answered) := st in
  let '(target, answer) := a in
  match answer with
  | Ok response =>
      let nodes := match response with
                   | RespLocalStatus _ _ _ build _ => nodes ++ [mkNodeStatus target NodeActive true (Some build) None]
                   | _ => nodes
                   end in
      Ok (nodes, devices, answered ++ [(target, response)])
  | Err (FError detail) =>
      if bool_decide (e_code detail = DocumentVersionMismatch) then Err (FError detail)
      else Ok (nodes ++ [mkNodeStatus target NodeActive false None (Some (e_message detail))],
               devices ++ (unseen (node document target ≫= n_label) target <$> devices_of document target), answered)
  | Err f =>
      Ok (nodes ++ [mkNodeStatus target NodeActive false None (Some (e_message (unreachable_detail f)))],
          devices ++ (unseen (node document target ≫= n_label) target <$> devices_of document target), answered)
  | Panic => Panic
  end.

Definition device_statuses n (answers : list (NodeId * Response)) : res Failure (list DeviceStatus) :=
  let document := nd_document n in
  devices ← fold_res (λ devices (a : NodeId * Response),
    match a.2 with
    | RespLocalStatus _ document_version _ _ found =>
        _ ← ensure (document_version =? c_version document)
              (FError (set_node (cdetail DocumentVersionMismatch (CHoldsVersion a.1 document_version (c_version document)))
                         (Some a.1)));
        Ok (devices ++ found)
    | other => Err (error ProtocolViolation (CAnswered a.1 (lit "LocalStatus") other))
    end) answers [];
  Ok (merge_sort status_by_node devices).

Definition status n : call Response :=
  let document := nd_document n in
  answers ← broadcast_each n LocalStatus;
  '(nodes, devices, answered) ← nlift (fold_res (note_status document) answers ([], [], []));
  found ← nlift (device_statuses n answered);
  let removed := filter (λ e, n_state e = NodeRemoved) (c_nodes document) in
  let nodes := nodes ++ ((λ e, mkNodeStatus (n_id e) NodeRemoved false None None) <$> removed) in
  let devices := devices ++ found
    ++ (removed ≫= λ e, unseen (n_label e) (n_id e) <$> devices_of document (n_id e)) in
  mret (RespStatus (c_cluster_id document) (c_name document) (c_version document) (node_id n) nodes
          (c_transport document) (merge_sort (document_order document) devices)).

Definition head_object n (key : str) : call Response :=
  '(record, missing) ← newest_readable_version n key;
  mret (RespHeadObject record missing).

(** The node a shard's device is on, unless it is gone or removed. *)
Definition live_owner (document : ClusterDocument) (id : DeviceId) : option NodeId :=
  d ← device document id; if bool_decide (de_state d = Removed) then None else Some (de_node d).

Definition delete_version_everywhere n (record : MetadataRecord) : call unit :=
  nfold (λ _ shard,
    match live_owner (nd_document n) (sl_device shard) with
    | None => mret tt
    | Some owner =>
        _ ← ask_node n owner (DeleteVersion (sl_device shard) (r_key_hash record) (r_version record));
        mret tt
    end) (r_shards record) tt.

Definition delete_object n (key : str) : call Response :=
  _ ← looked_up key (check_key (nd_document n) key);
  located ← lookup n (hash_key (as_bytes key));
  versions ← looked_up key (versions_of key located);
  match versions with
  | [] => nthrow (FError (lookup_detail key NoObject))
  | _ =>
      _ ← nfold (λ _ record, delete_version_everywhere n record) versions tt;
      mret RespDeleteObject
  end.

(** One node's page, or why there is none. *)
Definition note_page (document : ClusterDocument) (mg : Merge) (a : NodeId * res Failure Response) : res Failure Merge :=
  let '(target, answer) := a in
  match answer with
  | Err (FError detail) =>
      if bool_decide (e_code detail = NodeUnreachable) then Ok (merge_unreachable document mg target)
      else Err (FError detail)
  | Err f => Err f
  | Ok (RespLocalList entries truncated unread) => Ok (merge_page mg target entries truncated unread)
  | Ok other => Err (error ProtocolViolation (CAnswered target (lit "LocalList") other))
  | Panic => Panic
  end.

Definition list_keys n (q : ListQuery) : call Response :=
  answers ← broadcast_each n (LocalList q);
  mg ← nlift (fold_res (note_page (nd_document n)) answers (mkMerge [] None false []));
  mret (merged_page (nd_document n) (q_limit q) mg).
End coordinator.
End Coordinator.
