(* ===== verification/Log.v ===== *)
(** What a run leaves in the log of messages, and how to take a successful run
    apart.  [adds P m] says that whatever the network does, all that [m] adds
    to the log are messages received, connections opened and messages sent
    that satisfy [P] (the greeting apart): a property of every prefix of the
    log, so of every instant of the run. *)

From S2P Require Import Prelude Text Checksum KeyHash VersionId Erasure Layout Stripe FileSystem ShardFile Record Device Cluster Scrub Frame Handshake Message Node LocalOps Lookup Connection Coordinator.

Module Log.
Import Message LocalOps Lookup Connection Coordinator.

(** ** Runs that succeed *)

Section runs.
Context {S : Type}.

Lemma bind_ok_inv {E A B : Type} (m : net S E A) (f : A → net S E B) s b s' :
  (m ≫= f) s = Some (Ok b, s') → ∃ a s1, m s = Some (Ok a, s1) ∧ f a s1 = Some (Ok b, s').
Proof. unfold mbind, net_bind. destruct (m s) as [[[a|e|] s1]|]; naive_solver. Qed.

Lemma map_err_ok_inv {E F A : Type} (g : E → F) (m : net S E A) s a s' :
  nmap_err g m s = Some (Ok a, s') → m s = Some (Ok a, s').
Proof. unfold nmap_err. destruct (m s) as [[[x|e|] s1]|]; naive_solver. Qed.

Lemma attempt_ok_inv {E F A : Type} (m : net S E A) s r s' :
  nattempt (F := F) m s = Some (Ok r, s') → m s = Some (r, s').
Proof. unfold nattempt. destruct (m s) as [[[x|e|] s1]|]; naive_solver. Qed.

Lemma lift_ok_inv {E A : Type} (r : res E A) (s : S) a s' : nlift r s = Some (Ok a, s') → r = Ok a ∧ s' = s.
Proof. unfold nlift. naive_solver. Qed.

(** A bind ends where its first part ended otherwise, or goes on. *)
Lemma bind_inv {E A B : Type} (m : net S E A) (f : A → net S E B) s r s' :
  (m ≫= f) s = Some (r, s') →
  (∃ a s1, m s = Some (Ok a, s1) ∧ f a s1 = Some (r, s')) ∨ (∃ r0, m s = Some (r0, s') ∧ ∀ b, r ≠ Ok b).
Proof. unfold mbind, net_bind. destruct (m s) as [[[a|e|] s1]|]; naive_solver. Qed.

Lemma ret_ok_inv {E A : Type} (x : A) (s : S) a s' : (mret x : net S E A) s = Some (Ok a, s') → a = x ∧ s' = s.
Proof. unfold mret, net_ret. naive_solver. Qed.
End runs.

(** Take apart the next bind of a run that succeeded. *)
Ltac next H :=
  let a := fresh "x" in let s := fresh "t" in let R := fresh "R" in
  apply bind_ok_inv in H as (a & s & R & H).

(** ** What a run may say *)

Section log.
Context {N : Type} `{Network N} `{CoordTexts} {TlsMaterial : Type}.
Implicit Types (s : Peers N) (n : Node TlsMaterial) (P : Message → Prop).

Definition says P (e : Event) : Prop :=
  match e with
  | Sent _ (MHello _) => True
  | Sent _ m => P m
  | _ => True
  end.

Definition adds P {E A : Type} (m : net (Peers N) E A) : Prop := ∀ s r s', m s = Some (r, s') →
  ∃ events, pe_log s' = pe_log s ++ events ∧ Forall (says P) events ∧ (length (pe_conns s) ≤ length (pe_conns s'))%nat.

Lemma adds_here P s s' : pe_log s' = pe_log s → (length (pe_conns s) ≤ length (pe_conns s'))%nat →
  ∃ events, pe_log s' = pe_log s ++ events ∧ Forall (says P) events ∧ (length (pe_conns s) ≤ length (pe_conns s'))%nat.
Proof. intros Hl Hc. exists []. by rewrite app_nil_r. Qed.

Lemma adds_mono P P' {E A : Type} (m : net (Peers N) E A) : (∀ x, P x → P' x) → adds P m → adds P' m.
Proof.
  intros HP Hm s r s' Hr. destruct (Hm s r s' Hr) as (e & Hl & Hf & Hc). exists e. split_and!; [done| |done].
  eapply Forall_impl; [exact Hf|]. intros [ch|ch x|ch x]; cbn; [done| |done]. destruct x; auto.
Qed.

Lemma adds_prefix P {E A : Type} (m : net (Peers N) E A) s r s' :
  adds P m → m s = Some (r, s') → pe_log s `prefix_of` pe_log s'.
Proof. intros Hm Hr. destruct (Hm s r s' Hr) as (e & -> & _). by exists e. Qed.

Section rules.
Context (P : Message → Prop).

Lemma adds_lift {E A : Type} (r : res E A) : adds P (nlift r).
Proof. intros s r' s' [= <- <-]. by apply adds_here. Qed.

Lemma adds_throw {E A : Type} (e : E) : adds P (nthrow (A := A) e).
Proof. apply adds_lift. Qed.

Lemma adds_ret {E A : Type} (a : A) : adds P (E := E) (mret a).
Proof. intros s r' s' [= <- <-]. by apply adds_here. Qed.

Lemma adds_bind {E A B : Type} (m : net (Peers N) E A) (f : A → net (Peers N) E B) :
  adds P m → (∀ a, adds P (f a)) → adds P (m ≫= f).
Proof.
  intros Hm Hf s r s'. unfold mbind, net_bind. destruct (m s) as [[[a|e|] s1]|] eqn:Hs; [| | |done].
  - intros Hr. destruct (Hm _ _ _ Hs) as (e1 & L1 & F1 & C1), (Hf _ _ _ _ Hr) as (e2 & L2 & F2 & C2).
    exists (e1 ++ e2). rewrite L2, L1, app_assoc, Forall_app. split_and!; [done|done|done|lia].
  - intros [= <- <-]. by eapply Hm.
  - intros [= <- <-]. by eapply Hm.
Qed.

Lemma adds_map_err {E F A : Type} (g : E → F) (m : net (Peers N) E A) : adds P m → adds P (nmap_err g m).
Proof. intros Hm s r s'. unfold nmap_err. destruct (m s) as [[r1 s1]|] eqn:Hs; [|done]. intros [= <- <-]. by eapply Hm. Qed.

Lemma adds_attempt {E F A : Type} (m : net (Peers N) E A) : adds P m → adds P (nattempt (F := F) m).
Proof.
  intros Hm s r s'. unfold nattempt. destruct (m s) as [[r1 s1]|] eqn:Hs; [|done]. destruct r1; intros [= <- <-]; by eapply Hm.
Qed.

Lemma adds_joined {E F A : Type} (m : net (Peers N) E A) : adds P m → adds P (joined (F := F) m).
Proof. intros Hm s r s'. unfold joined. destruct (m s) as [[r1 s1]|] eqn:Hs; [|done]. intros [= <- <-]. by eapply Hm. Qed.

Lemma adds_fold {E A B : Type} (f : B → A → net (Peers N) E B) l : (∀ b x, adds P (f b x)) → ∀ b, adds P (nfold f l b).
Proof. intros Hf. induction l as [|x l IH]; intros b; cbn [nfold]; [apply adds_ret|]. by apply adds_bind. Qed.

Lemma adds_mapM {E A B : Type} (f : A → net (Peers N) E B) l : (∀ x, adds P (f x)) → adds P (nmapM f l).
Proof.
  intros Hf. induction l as [|x l IH]; cbn [nmapM]; [apply adds_ret|]. apply adds_bind; [done|]. intros y.
  apply adds_bind; [done|]. intros ys. apply adds_ret.
Qed.

Lemma adds_write ch m : says P (Sent ch m) → adds P (write_message ch m).
Proof.
  intros Hm s r s'. unfold write_message. destruct (transmit _ _ _) as [[e|] net']; intros [= <- <-]; cbn [pe_log pe_conns].
  - by apply adds_here.
  - exists [Sent ch m]. by repeat constructor.
Qed.

Lemma adds_write_hello ch h : adds P (write_message ch (MHello h)).
Proof. intros. by apply adds_write. Qed.

Lemma adds_write_request ch id r : P (MRequest id r) → adds P (write_message ch (MRequest id r)).
Proof. intros. by apply adds_write. Qed.

Lemma adds_write_data ch id d : P (MData id d) → adds P (write_message ch (MData id d)).
Proof. intros. by apply adds_write. Qed.

Lemma adds_write_end ch id e : P (MEndOfStream id e) → adds P (write_message ch (MEndOfStream id e)).
Proof. intros. by apply adds_write. Qed.

Lemma adds_read ch : adds P (read_message ch).
Proof.
  intros s r s'. unfold read_message. destruct (deliver _ _) as [[e|m] net']; intros [= <- <-]; cbn [pe_log pe_conns].
  - by apply adds_here.
  - exists [Got ch m]. by repeat constructor.
Qed.

Lemma adds_open addr tls hello : adds P (open_connection addr tls hello).
Proof.
  intros s r s'. unfold open_connection. destruct (dial _ _ _ _) as [[|] net']; intros [= <- <-]; [|by apply adds_here].
  cbn [pe_log pe_conns]. exists [Opened (length (pe_conns s))]. rewrite length_app. split_and!; [done|by repeat constructor|lia].
Qed.

Lemma adds_hello {E : Type} ch h : adds P (E := E) (set_peer_hello ch h).
Proof. intros s r s' [= <- <-]. apply adds_here; [done|]. cbn. by rewrite length_alter. Qed.

Lemma adds_allocate {E : Type} ch : adds P (E := E) (allocate_request_id ch).
Proof. intros s r s' [= <- <-]. apply adds_here; [done|]. cbn. by rewrite length_alter. Qed.
End rules.

End log.

Create HintDb adds.
#[export] Hint Resolve adds_lift adds_throw adds_ret adds_write_hello adds_write_request adds_write_data adds_write_end adds_read adds_open adds_hello adds_allocate : adds.

(** Follow the code, to the operations that send. *)
Ltac adds_step :=
  match goal with
  | |- adds _ (mbind _ _) => apply adds_bind; [|intros ?]
  | |- adds _ (nmap_err _ _) => apply adds_map_err
  | |- adds _ (nattempt _) => apply adds_attempt
  | |- adds _ (joined _) => apply adds_joined
  | |- adds _ (nfold _ _ _) => apply adds_fold; intros ? ?
  | |- adds _ (nmapM _ _) => apply adds_mapM; intros ?
  | |- adds _ (match ?x with _ => _ end) => destruct x
  end.

Ltac adds := repeat first [by eauto with adds | adds_step].

Section operations.
Context {N : Type} `{Network N} `{CoordTexts} {TlsMaterial : Type}.
Implicit Types (s : Peers N) (n : Node TlsMaterial) (P : Message → Prop).

Lemma adds_connect_to P n target : adds P (connect_to n target).
Proof. unfold connect_to, connect_with. adds. Qed.

Lemma adds_read_response P ch id : adds P (read_response ch id).
Proof. unfold read_response. adds. Qed.

Lemma adds_read_item P ch id : adds P (read_stream_item ch id).
Proof. unfold read_stream_item. adds. Qed.

Lemma adds_send_request P ch r : (∀ id, P (MRequest id r)) → adds P (send_request ch r).
Proof. intros HP. unfold send_request. adds. Qed.

Lemma adds_send_data P ch id d : P (MData id d) → adds P (send_data ch id d).
Proof. intros HP. unfold send_data. adds. Qed.

Lemma adds_send_end P ch id e : P (MEndOfStream id e) → adds P (send_end ch id e).
Proof. intros HP. unfold send_end. adds. Qed.

#[local] Hint Resolve adds_connect_to adds_read_response adds_read_item adds_send_request adds_send_data adds_send_end : adds.

Lemma adds_request P ch r : (∀ id, P (MRequest id r)) → adds P (request ch r).
Proof. intros HP. unfold request. adds. Qed.

#[local] Hint Resolve adds_request : adds.

Lemma adds_ask P target ch r : (∀ id, P (MRequest id r)) → adds P (ask target ch r).
Proof. intros HP. unfold ask. adds. Qed.

#[local] Hint Resolve adds_ask : adds.

Lemma adds_ask_node P n target r : (∀ id, P (MRequest id r)) → adds P (ask_node n target r).
Proof. intros HP. unfold ask_node. adds. Qed.

Lemma adds_each_node {A : Type} P n (task : NodeId → net (Peers N) Failure A) :
  (∀ target, adds P (task target)) → adds P (each_node n task).
Proof. intros Ht s r s'. unfold each_node. apply adds_fold. intros answers target. adds. Qed.

Lemma adds_lookup_pages P fuel ch target kh :
  (∀ id after, P (MRequest id (LocalLookup kh after))) → ∀ all after, adds P (lookup_pages fuel ch target kh all after).
Proof. intros HP. induction fuel as [|fuel IH]; intros all after; cbn [lookup_pages]; [done|]. adds. Qed.

#[local] Hint Resolve adds_ask_node adds_each_node adds_lookup_pages : adds.

Lemma adds_lookup_reachable P fuel n kh :
  (∀ id after, P (MRequest id (LocalLookup kh after))) → adds P (lookup_reachable fuel n kh).
Proof. intros HP. unfold lookup_reachable. apply adds_bind; [|intros; adds]. apply adds_each_node. intros target. unfold lookup_on. adds. Qed.

#[local] Hint Resolve adds_lookup_reachable : adds.

Lemma adds_lookup P fuel n kh : (∀ id after, P (MRequest id (LocalLookup kh after))) → adds P (lookup fuel n kh).
Proof. intros HP. unfold lookup. adds. Qed.

Lemma adds_broadcast_each P n r : (∀ id, P (MRequest id r)) → adds P (broadcast_each n r).
Proof. intros HP. unfold broadcast_each. apply adds_bind; [|intros; adds]. apply adds_each_node. intros target. adds. Qed.

#[local] Hint Resolve adds_broadcast_each : adds.

Lemma adds_broadcast P n r : (∀ id, P (MRequest id r)) → adds P (broadcast n r).
Proof. intros HP. unfold broadcast. adds. Qed.

Lemma adds_looked_up {A : Type} P key (r : res LookupError A) : adds P (looked_up (N := N) key r).
Proof. apply adds_lift. Qed.

(** ** What the steps of a successful run add *)

Lemma write_ok ch m s u s' :
  write_message ch m s = Some (Ok u, s') → pe_log s' = pe_log s ++ [Sent ch m] ∧ length (pe_conns s') = length (pe_conns s).
Proof. unfold write_message. destruct (transmit _ _ _) as [[e|] net']; [done|]. by intros [= <- <-]. Qed.

Lemma read_ok ch s m s' :
  read_message ch s = Some (Ok m, s') → pe_log s' = pe_log s ++ [Got ch m] ∧ length (pe_conns s') = length (pe_conns s).
Proof. unfold read_message. destruct (deliver _ _) as [[e|m'] net']; [done|]. by intros [= <- <-]. Qed.

Lemma read_response_ok ch id s r s' :
  read_response ch id s = Some (Ok r, s') →
  pe_log s' = pe_log s ++ [Got ch (MResponse id r)] ∧ length (pe_conns s') = length (pe_conns s).
Proof.
  unfold read_response. intros Hr. next Hr. apply map_err_ok_inv, read_ok in R as [Hl Hc].
  destruct x; try done. destruct (Z.eqb_spec id0 id) as [->|]; [|done]. cbn in Hr.
  destruct response; try done; apply ret_ok_inv in Hr as [-> ->]; done.
Qed.

Lemma send_request_ok ch r s id s' :
  send_request ch r s = Some (Ok id, s') →
  pe_log s' = pe_log s ++ [Sent ch (MRequest id r)] ∧ length (pe_conns s') = length (pe_conns s).
Proof.
  unfold send_request. intros Hr. next Hr. next Hr. apply ret_ok_inv in Hr as [-> ->].
  apply map_err_ok_inv, write_ok in R0 as [-> ->]. unfold allocate_request_id in R. injection R as <- <-. cbn.
  by rewrite length_alter.
Qed.

Lemma connect_ok n target s ch s' :
  connect_to n target s = Some (Ok ch, s') →
  ch = length (pe_conns s) ∧ length (pe_conns s') = Datatypes.S ch
  ∧ ∃ hello, pe_log s' = pe_log s ++ [Opened ch; Sent ch (MHello (our_hello n)); Got ch (MHello hello)].
Proof.
  unfold connect_to. intros Hr. next Hr. apply lift_ok_inv in R as [_ ->]. next Hr. apply lift_ok_inv in R as [_ ->].
  apply map_err_ok_inv in Hr. unfold connect_with in Hr. next Hr. next Hr. next Hr.
  apply map_err_ok_inv in R. apply map_err_ok_inv, write_ok in R0 as [L1 C1]. apply map_err_ok_inv, read_ok in R1 as [L2 C2].
  unfold open_connection in R. destruct (dial _ _ _ _) as [[|] net']; [|done]. injection R as <- <-. cbn in L1, C1.
  destruct x3; try done; [|by destruct response].
  destruct (negb _ && negb _); [done|]. next Hr. unfold set_peer_hello in R. injection R as <- <-.
  apply ret_ok_inv in Hr as [-> ->]. cbn. rewrite length_alter, C2, C1, length_app. cbn. split_and!; [done|lia|].
  exists h. rewrite L2, L1, <- !app_assoc. done.
Qed.

(** Steps that add events of a given shape, one after the other. *)
Lemma fold_log {A : Type} (f : A → net (Peers N) Failure unit) (shape : A → list Event → Prop) l :
  (∀ x s u s', f x s = Some (Ok u, s') →
     ∃ e, shape x e ∧ pe_log s' = pe_log s ++ e ∧ length (pe_conns s') = length (pe_conns s)) →
  ∀ u0 s u s', nfold (λ _ x, f x) l u0 s = Some (Ok u, s') →
  ∃ es, Forall2 shape l es ∧ pe_log s' = pe_log s ++ concat es ∧ length (pe_conns s') = length (pe_conns s).
Proof.
  intros Hf. induction l as [|x l IH]; intros u0 s u s' Hr; cbn [nfold] in Hr.
  { apply ret_ok_inv in Hr as [_ ->]. exists []. cbn. by rewrite app_nil_r. }
  next Hr. destruct (Hf _ _ _ _ R) as (e & He & L1 & C1). destruct (IH _ _ _ _ Hr) as (es & Hes & L2 & C2).
  exists (e :: es). cbn. rewrite L2, L1, <- app_assoc. split_and!; [by constructor|done|congruence].
Qed.

(** Connections opened one after the other, each numbered by its place. *)
Lemma mapM_log {A B : Type} (f : A → net (Peers N) Failure B) (shape : A → B → list Event → Prop) (chan : B → nat) l :
  (∀ x s y s', f x s = Some (Ok y, s') →
     ∃ e, shape x y e ∧ pe_log s' = pe_log s ++ e ∧ chan y = length (pe_conns s)
       ∧ length (pe_conns s') = Datatypes.S (length (pe_conns s))) →
  ∀ s ys s', nmapM f l s = Some (Ok ys, s') →
  ∃ es, Forall3 shape l ys es ∧ pe_log s' = pe_log s ++ concat es ∧ chan <$> ys = seq (length (pe_conns s)) (length l)
    ∧ length (pe_conns s') = (length (pe_conns s) + length l)%nat.
Proof.
  intros Hf. induction l as [|x l IH]; intros s ys s' Hr; cbn [nmapM] in Hr.
  { apply ret_ok_inv in Hr as [-> ->]. exists []. cbn. rewrite app_nil_r. split_and!; [constructor|done|done|lia]. }
  next Hr. next Hr. apply ret_ok_inv in Hr as [-> ->]. destruct (Hf _ _ _ _ R) as (e & He & L1 & C1 & C1').
  apply IH in R0 as (es & Hes & L2 & C2 & C2'). exists (e :: es). cbn [concat fmap list_fmap length seq].
  split_and!; [by constructor|by rewrite L2, L1, <- app_assoc|by rewrite C1, C2, C1'|lia].
Qed.

(** Values that say something of the log so far, which stays true as it grows. *)
Lemma mapM_history {E A B : Type} (f : A → net (Peers N) E B) (Q : list Event → A → B → Prop) l :
  (∀ log e x y, Q log x y → Q (log ++ e) x y) →
  (∀ x s y s', f x s = Some (Ok y, s') → Q (pe_log s') x y ∧ pe_log s `prefix_of` pe_log s') →
  ∀ s ys s', nmapM f l s = Some (Ok ys, s') → Forall2 (Q (pe_log s')) l ys ∧ pe_log s `prefix_of` pe_log s'.
Proof.
  intros Hmono Hf. induction l as [|x l IH]; intros s ys s' Hr; cbn [nmapM] in Hr.
  { apply ret_ok_inv in Hr as [-> ->]. by split; [constructor|]. }
  next Hr. next Hr. apply ret_ok_inv in Hr as [-> ->]. destruct (Hf _ _ _ _ R) as [HQ [e1 L1]].
  apply IH in R0 as [Hys [e2 L2]]. rewrite L2 in Hys |- *. split; [constructor; [by apply Hmono|done]|].
  exists (e1 ++ e2). by rewrite L1, app_assoc.
Qed.

(** Steps whose events satisfy a property that is kept by appending. *)
Lemma fold_events {A B : Type} (f : B → A → net (Peers N) Failure B) (Q : list Event → Prop) l :
  Q [] → (∀ e1 e2, Q e1 → Q e2 → Q (e1 ++ e2)) →
  (∀ b x s b' s', f b x s = Some (Ok b', s') → ∃ e, pe_log s' = pe_log s ++ e ∧ Q e) →
  ∀ b s b' s', nfold f l b s = Some (Ok b', s') → ∃ e, pe_log s' = pe_log s ++ e ∧ Q e.
Proof.
  intros Hnil Happ Hf. induction l as [|x l IH]; intros b s b' s' Hr; cbn [nfold] in Hr.
  { apply ret_ok_inv in Hr as [_ ->]. exists []. by rewrite app_nil_r. }
  next Hr. destruct (Hf _ _ _ _ _ R) as (e1 & L1 & Q1), (IH _ _ _ _ Hr) as (e2 & L2 & Q2).
  exists (e1 ++ e2). rewrite L2, L1, app_assoc. split; [done|by apply Happ].
Qed.

Lemma ask_node_ok n target r s answer s' :
  ask_node n target r s = Some (Ok answer, s') →
  ∃ ch id hello, pe_log s' = pe_log s ++ [Opened ch; Sent ch (MHello (our_hello n)); Got ch (MHello hello);
    Sent ch (MRequest id r); Got ch (MResponse id answer)].
Proof.
  unfold ask_node, ask, request. intros Hr. next Hr. apply connect_ok in R as (-> & _ & hello & L1).
  apply map_err_ok_inv in Hr. next Hr. apply send_request_ok in R as [L2 _]. apply read_response_ok in Hr as [L3 _].
  do 3 eexists. by rewrite L3, L2, L1, <- !app_assoc.
Qed.

Lemma concat_singletons {A B : Type} (g : A → B) l es :
  Forall2 (λ x e, e = [g x]) l es → concat es = g <$> l.
Proof. induction 1 as [|x e l es -> _ IH]; [done|]. cbn. by f_equal. Qed.

(** The messages sent on a connection. *)
Definition sent_on (ch : nat) (events : list Event) : list Message :=
  omap (λ e, match e with Sent c m => if decide (c = ch) then Some m else None | _ => None end) events.

Lemma sent_on_app ch e1 e2 : sent_on ch (e1 ++ e2) = sent_on ch e1 ++ sent_on ch e2.
Proof. apply omap_app. Qed.
End operations.

#[export] Hint Resolve adds_connect_to adds_read_response adds_read_item adds_send_request adds_send_data adds_send_end
  adds_request adds_ask adds_ask_node adds_lookup adds_lookup_reachable adds_broadcast adds_broadcast_each adds_looked_up : adds.

(** The same, where [P] computes. *)
Ltac adds_says :=
  repeat first
    [ progress adds
    | (first [ apply adds_send_request | apply adds_send_data | apply adds_send_end | apply adds_request | apply adds_ask
             | apply adds_ask_node | apply adds_lookup | apply adds_lookup_reachable | apply adds_broadcast
             | apply adds_broadcast_each ]; by intros) ].
End Log.
