(* ===== verification/Get.v ===== *)
(** [coordinator.rs]: [get_object], an object read from its shards and
    streamed to the client, around the shards that cannot be read.

    An early [return] carries what has been written to the client: the
    functions fail with an [Ended], the outcome and the client's connection.
    The hasher is the list of bytes given to it.  [delivered] and [sequence]
    count bytes and chunks of the object and stay below its size. *)

From S2P Require Import Prelude Text Checksum KeyHash VersionId Erasure Layout Stripe FileSystem ShardFile Record Device Cluster Scrub Frame Handshake Message Node LocalOps Lookup Connection Coordinator.

Module Get.
Import Message LocalOps Lookup Connection Coordinator.

(** How a request ends: its outcome and the client's connection. *)
Abbreviation Ended := (res Failure unit * Conn)%type.

Record ShardSource := mkSource {
  ss_index : ShardIndex; ss_device : DeviceId; ss_owner : NodeId; ss_channel : nat; ss_request : Z;
}.

Record UnreadableShard := mkUnreadable {
  us_index : ShardIndex; us_device : DeviceId; us_fault : FaultKind; us_first_stripe : Z;
}.

(** The state of the loop over the stripes. *)
Record Reading := mkReading {
  rd_sources : list ShardSource;
  rd_unreadable : list UnreadableShard;
  rd_parity_open : bool;
  rd_reconstructed : list Reconstruction;
  rd_hasher : list Z;
  rd_delivered : Z;
  rd_sequence : Z;
  rd_conn : Conn;
}.

(** [chunks(size)] of a slice, for a size that is not 0. *)
Fixpoint chunks_fuel (fuel : nat) (size : nat) (l : list Z) : list (list Z) :=
  match fuel, l with
  | S fuel, _ :: _ => take size l :: chunks_fuel fuel size (drop size l)
  | _, _ => []
  end.
Definition chunks (size : nat) (l : list Z) : list (list Z) := chunks_fuel (length l) size l.

Definition fail_and_close (c : Conn) (id : Z) (detail : ErrorDetail) : Ended :=
  let '(_, c') := send c (MEndOfStream id (StreamEnd_failed detail)) in
  (Err (FClose (EndProtocolViolation (e_message detail))), c').

(** A detail about a shard of an object. *)
Definition shard_detail (d : ErrorDetail) (node : option NodeId) (device : option DeviceId) (key : str)
    (version : VersionId) (index stripe : option Z) : ErrorDetail :=
  mkDetail (e_code d) (e_message d) node device (Some key) (Some version) index stripe.

(** Body frames, one for each chunk. *)
Fixpoint write_chunks `{Xxh3} (c : Conn) (id sequence : Z) (l : list (list Z)) : res Failure Z * Conn :=
  match l with
  | [] => (Ok sequence, c)
  | chunk :: l =>
      match send c (MData id (mkDataFrame sequence (checksum_block chunk) chunk)) with
      | (Ok _, c') => write_chunks c' id (sequence + 1) l
      | (Err f, c') => (Err f, c')
      | (Panic, c') => (Panic, c')
      end
  end.

(** How [open_shards] sees a shard it could not open; [None] fails the read. *)
Definition fault_of (detail : ErrorDetail) : option FaultKind :=
  match e_code detail with
  | NotFound => Some Missing
  | DeviceUnavailable | NodeUnreachable => Some (Unavailable (e_message detail))
  | ProtocolViolation | Internal => None
  | _ => Some (Stripe.Unreadable (e_message detail))
  end.

Section get.
Context {N : Type} `{Network N} `{CoordTexts} `{Sha256} `{Uuid} `{Xxh3} `{ReedSolomonLib}.
Context {TlsMaterial : Type} (fuel : nat).
Implicit Types n : Node TlsMaterial.
Abbreviation call A := (net (Peers N) Failure A).

Definition open_shard_source n (record : MetadataRecord) (key : str) (first_block block_count : Z)
    (index : ShardIndex) : call ShardSource :=
  device ← nlift (expect (device_for record index));
  owner ← nlift (ok_or (de_node <$> Cluster.device (nd_document n) device)
    (FError (shard_detail (cdetail DeviceUnavailable (CNotInCluster device)) None (Some device) key
       (r_version record) (Some index) None)));
  ch ← connect_to n owner;
  request_id ← nmap_err (remote_failure owner)
    (send_request ch (GetShard device (r_key_hash record) (r_version record) index first_block block_count));
  answer ← nmap_err (remote_failure owner) (read_response ch request_id);
  match answer with
  | RespGetShard _ => mret (mkSource index device owner ch request_id)
  | other => nthrow (error ProtocolViolation (CAnswered owner (lit "GetShard") other))
  end.

Definition open_shard_sources n (record : MetadataRecord) (key : str) (indices : list ShardIndex)
    (first_block block_count : Z) : call (list ShardSource) :=
  _ ← nlift (map_err (λ e, error RecordsInconsistent (CSchemeError e)) (record_scheme record));
  nmapM (open_shard_source n record key first_block block_count) indices.

(** One block for the stripe from each source. *)
Definition read_stripe_block (stripe : Z) (key : str) (record : MetadataRecord) (source : ShardSource)
    : net (Peers N) ErrorDetail ShardBlock :=
  let context := λ d, shard_detail d (Some (ss_owner source)) (Some (ss_device source)) key (r_version record)
                        (Some (ss_index source)) (Some stripe) in
  item ← nmap_err (λ e, match remote_failure (ss_owner source) e with
                        | FError d => d
                        | FClose _ => cdetail Internal CTaskFailed   (* unreachable!() *)
                        end) (read_stream_item (ss_channel source) (ss_request source));
  match item with
  | ItemData data =>
      if negb (sequence data =? stripe)
      then nthrow (context (cdetail ProtocolViolation (COutOfOrder (sequence data) stripe)))
      else mret (mkShardBlock (ss_index source) (df_bytes data) (df_checksum data))
  | ItemEnd e => nthrow (context (default (cdetail ProtocolViolation CEndedEarly) (se_error e)))
  end.

Definition read_stripe_blocks (sources : list ShardSource) (stripe : Z) (key : str) (record : MetadataRecord)
    : net (Peers N) ErrorDetail (list ShardBlock) :=
  nmapM (read_stripe_block stripe key record) sources.

(** One shard of [indices]: opened, or to be gone around. *)
Definition open_one_shard n (record : MetadataRecord) (key : str) (first_block block_count : Z)
    (st : list ShardSource * list UnreadableShard) (index : ShardIndex) : call (list ShardSource * list UnreadableShard) :=
  device ← nlift (expect (device_for record index));
  opened ← nattempt (open_shard_sources n record key [index] first_block block_count);
  match opened with
  | Ok sources => mret (st.1 ++ sources, st.2)
  | Err (FError detail) =>
      match fault_of detail with
      | Some fault => mret (st.1, st.2 ++ [mkUnreadable index device fault first_block])
      | None => nthrow (FError detail)
      end
  | Err other => nthrow other
  | Panic => nlift Panic
  end.

Definition open_shards n (record : MetadataRecord) (key : str) (indices : list ShardIndex)
    (first_block block_count : Z) : call (list ShardSource * list UnreadableShard) :=
  nfold (open_one_shard n record key first_block block_count) indices ([], []).

Definition too_many_unreadable (key : str) (record : MetadataRecord) (unreadable : list UnreadableShard)
    : res Failure ErrorDetail :=
  first ← expect (head unreadable);
  let code := match us_fault first with
              | Missing => NotFound
              | Unavailable _ => DeviceUnavailable
              | _ => BlockChecksumMismatch
              end in
  Ok (shard_detail (cdetail code (CTooManyUnreadable (Z.of_nat (length unreadable)) (r_k record) (r_m record)))
        None (Some (us_device first)) key (r_version record) (Some (us_index first)) None).

(** ** The stages of [get_object] *)

Abbreviation stage A := (net (Peers N) Ended A).

(** A stage that ends the request with its failure as the response. *)
Definition or_respond {A : Type} (c : Conn) (id : Z) (m : call A) : stage A := nmap_err (λ f, respond c id (Err f)) m.

(** A stage that ends the request by closing the stream. *)
Definition or_close {A : Type} (c : Conn) (id : Z) (m : net (Peers N) ErrorDetail A) : stage A :=
  nmap_err (fail_and_close c id) m.

Definition end_with {A : Type} (f : Failure) (c : Conn) : stage A := nthrow (Err f, c).

Definition parity_indices (s : Scheme) : list ShardIndex :=
  filter (λ i, i ∉ data_shard_indices s) (shard_indices s).

(** Open the data shards, and the parity shards if one is missing. *)
Definition open_object n (c : Conn) (id : Z) (key : str) (record : MetadataRecord) (s : Scheme) (block_count : Z)
    : stage (list ShardSource * list UnreadableShard * bool) :=
  if r_size record =? 0 then mret ([], [], false)
  else
    '(sources, unreadable) ← or_respond c id (open_shards n record key (data_shard_indices s) 0 block_count);
    '(sources, unreadable, parity_open) ←
      (match unreadable with
       | [] => mret (sources, unreadable, false)
       | _ =>
           '(opened, missing) ← or_respond c id (open_shards n record key (parity_indices s) 0 block_count);
           mret (sources ++ opened, unreadable ++ missing, true)
       end : stage (list ShardSource * list UnreadableShard * bool));
    if parity_shards s <? Z.of_nat (length unreadable)
    then detail ← or_respond c id (nlift (too_many_unreadable key record unreadable));
         nthrow (respond c id (Err (FError detail)))
    else mret (sources, unreadable, parity_open).

Definition decode (rd : Reading) (id : Z) (code : ReedSolomonCode) (key : str) (record : MetadataRecord) (stripe : Z)
    (sources : list ShardSource) (received : list ShardBlock) (stripe_len : Z) : stage DecodedStripe :=
  or_close (rd_conn rd) id (nlift (map_err
    (λ e, let d := cdetail Internal (CStripeError e) in
          mkDetail (e_code d) (e_message d) None None (Some key) (Some (r_version record)) None (Some stripe))
    (decode_stripe code (ss_index <$> sources) received stripe_len))).

Definition is_intact (d : DecodedStripe) : bool := match d with Stripe.Intact _ => true | _ => false end.

(** A damaged block: fetch the parity from this stripe on, decode again. *)
Definition with_parity n (rd : Reading) (id : Z) (code : ReedSolomonCode) (key : str) (record : MetadataRecord)
    (block_count stripe stripe_len : Z) (received : list ShardBlock) : stage (DecodedStripe * Reading) :=
  let c := rd_conn rd in
  '(parity, missing) ← nmap_err (λ f, match f with FError d => fail_and_close c id d | other => (Err other, c) end)
    (open_shards n record key (parity_indices (scheme code)) stripe (block_count - stripe));
  blocks ← or_close c id (read_stripe_blocks parity stripe key record);
  let sources := rd_sources rd ++ parity in
  decoded ← decode rd id code key record stripe sources (received ++ blocks) stripe_len;
  mret (decoded, mkReading sources (rd_unreadable rd ++ missing) true (rd_reconstructed rd) (rd_hasher rd)
                   (rd_delivered rd) (rd_sequence rd) c).

(** The reconstructions of one stripe, those of unreadable shards apart. *)
Definition note_fault (rd : Reading) (record : MetadataRecord) (stripe : Z) (l : list Reconstruction) (f : BlockFault)
    : res Ended (list Reconstruction) :=
  if existsb (λ u, us_index u =? bf_index f) (rd_unreadable rd) then Ok l
  else
    device ← expect (device_for record (bf_index f));
    Ok (l ++ [mkReconstruction (bf_index f) device (bf_kind f) stripe 1]).

(** The data of a decoded stripe, and what was reconstructed. *)
Definition stripe_data (rd : Reading) (id : Z) (key : str) (record : MetadataRecord) (stripe : Z) (decoded : DecodedStripe)
    : stage (list Z * list Reconstruction) :=
  match decoded with
  | Stripe.Intact data => mret (data, rd_reconstructed rd)
  | Stripe.Repaired data faults =>
      reconstructed ← nlift (fold_res (note_fault rd record stripe) faults (rd_reconstructed rd));
      mret (data, reconstructed)
  | Unrecoverable usable needed faults =>
      first ← nlift (expect (head faults));
      nthrow (fail_and_close (rd_conn rd) id
        (shard_detail (cdetail BlockChecksumMismatch (CUnrecoverable stripe faults usable needed)) None
           (device_for record (bf_index first)) key (r_version record) (Some (bf_index first)) (Some stripe)))
  end.

Definition stripe_size (s : Scheme) (record : MetadataRecord) : Z := wrap64 (data_shards s * r_block_size record).
Definition stripe_count (s : Scheme) (record : MetadataRecord) : Z :=
  div_ceil (r_size record) (Z.max (stripe_size s record) 1).

(** One stripe: read, decode, deliver. *)
Definition read_stripe n (id : Z) (code : ReedSolomonCode) (key : str) (record : MetadataRecord) (block_count : Z)
    (rd : Reading) (stripe : Z) : stage Reading :=
  received ← or_close (rd_conn rd) id (read_stripe_blocks (rd_sources rd) stripe key record);
  let size := stripe_size (scheme code) record in
  let stripe_len := Z.min (r_size record - stripe * size) size in
  decoded ← decode rd id code key record stripe (rd_sources rd) received stripe_len;
  '(decoded, rd) ←
    (if negb (rd_parity_open rd) && negb (is_intact decoded)
     then with_parity n rd id code key record block_count stripe stripe_len received
     else mret (decoded, rd) : stage (DecodedStripe * Reading));
  '(data, reconstructed) ← stripe_data rd id key record stripe decoded;
  let block_size := Z.to_nat (r_block_size record) in
  _ ← nlift (if (block_size =? 0)%nat then Panic else Ok tt);   (* [chunks(0)] panics *)
  match write_chunks (rd_conn rd) id (rd_sequence rd) (chunks block_size data) with
  | (Ok sequence, c) =>
      mret (mkReading (rd_sources rd) (rd_unreadable rd) (rd_parity_open rd) reconstructed (rd_hasher rd ++ data)
              (rd_delivered rd + Z.of_nat (length data)) sequence c)
  | (Err f, c) => end_with f c
  | (Panic, c) => nlift Panic
  end.

(** Every source must end its stream without an error. *)
Definition close_source (c : Conn) (id : Z) (key : str) (record : MetadataRecord) (source : ShardSource) : stage unit :=
  item ← nattempt (read_stream_item (ss_channel source) (ss_request source));
  let unclean := nthrow (fail_and_close c id
    (shard_detail (cdetail ProtocolViolation CUncleanEnd) (Some (ss_owner source)) (Some (ss_device source)) key
       (r_version record) (Some (ss_index source)) None)) in
  match item with
  | Ok (ItemEnd e) => if se_error e then unclean else mret tt
  | _ => unclean
  end.

Definition whole_shard (count : Z) (u : UnreadableShard) : Reconstruction :=
  mkReconstruction (us_index u) (us_device u) (us_fault u) (us_first_stripe u) (count - us_first_stripe u).

(** After the last stripe: close the streams, check the whole, end. *)
Definition finish_object (id : Z) (key : str) (record : MetadataRecord) (missing : list MissingRecordCopy) (count : Z)
    (rd : Reading) : stage Ended :=
  let c := rd_conn rd in
  _ ← nfold (λ _ source, close_source c id key record source) (rd_sources rd) tt;
  let computed := xxh3_64 (rd_hasher rd) in
  if negb (rd_delivered rd =? r_size record) || negb (computed =? r_object_checksum record)
  then
    let d := cdetail ObjectChecksumMismatch
      (CObjectCheck (rd_delivered rd) (r_size record) computed (r_object_checksum record)) in
    nthrow (fail_and_close c id (mkDetail (e_code d) (e_message d) None None (Some key) (Some (r_version record)) None None))
  else
    mret (send c (MEndOfStream id (mkStreamEnd None None None
                    (rd_reconstructed rd ++ (whole_shard count <$> rd_unreadable rd)) missing))).

Definition stripes (count : Z) : list Z := Z.of_nat <$> seq 0 (Z.to_nat count).

(** [get_object] once its version is known. *)
Definition get_record n (c : Conn) (id : Z) (key : str) (record : MetadataRecord) (missing : list MissingRecordCopy)
    : stage Ended :=
  s ← or_respond c id (nlift (map_err (λ e, error RecordsInconsistent (CSchemeError e)) (record_scheme record)));
  geometry ← or_respond c id (nlift (shard_geometry s (r_block_size record) (Z.max (r_size record) 1)));
  geometry ← or_respond c id (nlift (ok_or geometry (error RecordsInconsistent CImpossibleSize)));
  '(sources, unreadable, parity_open) ← open_object n c id key record s (g_block_count geometry);
  match respond c id (Ok (RespGetObject record)) with
  | (Ok _, c) =>
      code ← nlift (map_err (λ e : Empty_set, match e with end) (ReedSolomonCode_new s));
      let count := stripe_count s record in
      rd ← nfold (read_stripe n id code key record (g_block_count geometry)) (stripes count)
             (mkReading sources unreadable parity_open [] [] 0 0 c);
      finish_object id key record missing count rd
  | (Err f, c) => end_with f c
  | (Panic, _) => nlift Panic
  end.

(** An early return is how the request ends. *)
Definition returning (m : stage Ended) : call Ended := λ s,
  match m s with
  | Some (Ok e, s') | Some (Err e, s') => Some (Ok e, s')
  | Some (Panic, s') => Some (Panic, s')
  | None => None
  end.

Definition get_object n (id : Z) (c : Conn) (key : str) : call Ended :=
  returning (
    '(record, missing) ← or_respond c id (newest_readable_version fuel n key);
    get_record n c id key record missing).
End get.
End Get.
