(* ===== verification/StoredObject.v ===== *)
(** What a stored object is: the abstract specification that a write
    establishes, a read relies on and a repair restores.  The body is cut into
    stripes, each stripe encoded into [k + m] blocks, and column [i] is the
    blocks of shard [i], one for each stripe. *)

From S2P Require Import Prelude Text Checksum KeyHash VersionId Erasure Layout Stripe FileSystem ShardFile Record Device Cluster Scrub Frame Handshake Message Node LocalOps Lookup Connection Coordinator Get.

Module StoredObject.
Import Message LocalOps Lookup Connection Coordinator Get.

(** ** The stripes of a body *)

Lemma lookup_chunks_fuel size l fuel j :
  (0 < size)%nat → (length l ≤ fuel)%nat →
  chunks_fuel fuel size l !! j = if (j * size <? length l)%nat then Some (take size (drop (j * size) l)) else None.
Proof.
  intros Hs. revert l j. induction fuel as [|fuel IH]; intros [|x l] j Hl; cbn [chunks_fuel]; try (cbn in Hl; lia).
  1-2: by destruct (Nat.ltb_spec (j * size) (length (@nil Z))); [cbn in *; lia|].
  destruct j as [|j]; [done|]. rewrite lookup_cons_ne_0 by done. cbn [Nat.pred]. rewrite IH by (rewrite length_drop; cbn in *; lia).
  rewrite length_drop, drop_drop. replace (size + j * size)%nat with (S j * size)%nat by lia.
  destruct (Nat.ltb_spec (j * size) (length (x :: l) - size)), (Nat.ltb_spec (S j * size) (length (x :: l))); done || lia.
Qed.

Lemma lookup_chunks size l j :
  (0 < size)%nat →
  chunks size l !! j = if (j * size <? length l)%nat then Some (take size (drop (j * size) l)) else None.
Proof. intros Hs. by apply lookup_chunks_fuel. Qed.

Lemma length_chunks size l :
  (0 < size)%nat → Z.of_nat (length (chunks size l)) = div_ceil (Z.of_nat (length l)) (Z.of_nat size).
Proof.
  intros Hs. apply div_ceil_least; [lia|lia|].
  destruct (length (chunks size l)) as [|c] eqn:Hc.
  - destruct l as [|x l]; [cbn; lia|]. exfalso. pose proof (lookup_chunks size (x :: l) 0 Hs) as Hl.
    destruct (chunks size (x :: l)); [cbn in Hl; done|done].
  - assert (is_Some (chunks size l !! c)) as [p Hp] by (apply lookup_lt_is_Some; lia).
    assert (chunks size l !! S c = None) as Hn by (apply lookup_ge_None; lia).
    rewrite lookup_chunks in Hp, Hn by done.
    destruct (Nat.ltb_spec (c * size) (length l)); [|done]. destruct (Nat.ltb_spec (S c * size) (length l)); [done|]. nia.
Qed.

Lemma length_chunks_le size l : (0 < size)%nat → (length (chunks size l) ≤ length l)%nat.
Proof.
  intros Hs. pose proof (length_chunks size l Hs) as Hl.
  destruct (div_ceil_spec (Z.of_nat (length l)) (Z.of_nat size)) as (? & ? & ?); [lia|lia|]. nia.
Qed.

Lemma chunks_app size st l :
  (0 < size)%nat → length st = size → chunks size (st ++ l) = st :: chunks size l.
Proof.
  intros Hs Hst. apply list_eq. intros [|j].
  - rewrite lookup_chunks, Nat.mul_0_l, drop_0, length_app by done.
    destruct (Nat.ltb_spec 0 (length st + length l)); [|lia]. by rewrite take_app_le, take_ge by lia.
  - rewrite lookup_cons_ne_0 by done. cbn [Nat.pred]. rewrite !lookup_chunks by done. rewrite length_app, Hst.
    destruct (Nat.ltb_spec (Datatypes.S j * size) (size + length l)), (Nat.ltb_spec (j * size) (length l)); try lia; [|done].
    do 2 f_equal. rewrite drop_app_ge by lia. f_equal. lia.
Qed.

Lemma chunks_short size t : (0 < length t ≤ size)%nat → chunks size t = [t].
Proof.
  intros Ht. apply list_eq. intros [|j]; rewrite lookup_chunks by lia.
  - rewrite Nat.mul_0_l, drop_0. destruct (Nat.ltb_spec 0 (length t)); [|lia]. by rewrite take_ge by lia.
  - destruct (Nat.ltb_spec (Datatypes.S j * size) (length t)); [nia|done].
Qed.

(** Full stripes, then perhaps a shorter one. *)
Definition cut_into (size : nat) (stripes : list (list Z)) : Prop :=
  ∃ full tail, stripes = full ++ tail ∧ Forall (λ st, length st = size) full
    ∧ (tail = [] ∨ ∃ t, tail = [t] ∧ (0 < length t < size)%nat).

Lemma cut_into_app size full stripes :
  Forall (λ st, length st = size) full → cut_into size stripes → cut_into size (full ++ stripes).
Proof.
  intros Hf (full' & tail & -> & Hf' & Ht). exists (full ++ full'), tail. rewrite app_assoc. split_and!; [done|by apply Forall_app|done].
Qed.

Lemma cut_chunks size stripes : (0 < size)%nat → cut_into size stripes → chunks size (concat stripes) = stripes.
Proof.
  intros Hs (full & tail & -> & Hf & Ht). induction Hf as [|st full Hst _ IH].
  - destruct Ht as [->|(t & -> & Ht)]; [done|]. cbn. rewrite app_nil_r. apply chunks_short. lia.
  - cbn [app concat]. rewrite chunks_app by done. by f_equal.
Qed.

(** ** Objects *)

Section stored.
Context `{Xxh3} `{ReedSolomonLib} (record : MetadataRecord) (code : ReedSolomonCode).

Definition stripe_bytes : nat := Z.to_nat (data_shards (scheme code) * r_block_size record).

(** The object's shards: the blocks of each stripe of its body, encoded. *)
Record object_stored (body : list Z) (cols : list (list block)) : Prop := {
  os_scheme : record_scheme record = Ok (scheme code);
  os_new : ReedSolomonCode_new (scheme code) = Ok code;
  os_code : code_ok code;
  os_size : r_size record = Z.of_nat (length body);
  os_bound : is_u64 (r_size record);
  os_checksum : r_object_checksum record = xxh3_64 body;
  os_block : 0 < r_block_size record;
  os_stripe : data_shards (scheme code) * r_block_size record < 2 ^ 64;
  os_columns : ∀ j stripe, chunks stripe_bytes body !! j = Some stripe →
    ∃ blocks, encode_stripe code stripe (r_block_size record) = Ok blocks
      ∧ ∀ i b, blocks !! i = Some b → ∃ col, cols !! i = Some col ∧ col !! j = Some (sb_bytes b);
  os_lengths : Forall (λ col, length col = length (chunks stripe_bytes body)) cols;
}.
End stored.

Arguments os_scheme {_ _ _ _ _ _}.
Arguments os_new {_ _ _ _ _ _}.
Arguments os_code {_ _ _ _ _ _}.
Arguments os_size {_ _ _ _ _ _}.
Arguments os_bound {_ _ _ _ _ _}.
Arguments os_checksum {_ _ _ _ _ _}.
Arguments os_block {_ _ _ _ _ _}.
Arguments os_stripe {_ _ _ _ _ _}.
Arguments os_columns {_ _ _ _ _ _}.
Arguments os_lengths {_ _ _ _ _ _}.

Section lemmas.
Context `{Xxh3} `{ReedSolomonLib} (record : MetadataRecord) (code : ReedSolomonCode) (body : list Z) (cols : list (list block)).
Context (Hos : object_stored record code body cols).
Abbreviation stripe_bytes := (stripe_bytes record code).
Abbreviation count := (Z.of_nat (length (chunks stripe_bytes body))).

Lemma stripe_size_eq : stripe_size (scheme code) record = Z.of_nat stripe_bytes.
Proof.
  destruct (os_code Hos) as [[Hk _] _]. pose proof (os_stripe Hos). pose proof (os_block Hos).
  unfold stripe_size, stripe_bytes, wrap. rewrite Z.mod_small by nia. nia.
Qed.

Lemma stripe_bytes_pos : (0 < stripe_bytes)%nat.
Proof.
  destruct (os_code Hos) as [[Hk _] _]. pose proof (os_block Hos). unfold stripe_bytes. nia.
Qed.

Lemma stripe_count_eq : stripe_count (scheme code) record = count.
Proof.
  pose proof stripe_bytes_pos. unfold stripe_count. rewrite stripe_size_eq, (os_size Hos), Z.max_l by lia.
  by rewrite length_chunks.
Qed.

Lemma stripe_length_eq j stripe :
  chunks (stripe_bytes) body !! j = Some stripe →
  Z.min (r_size record - Z.of_nat j * stripe_size (scheme code) record) (stripe_size (scheme code) record) = Z.of_nat (length stripe).
Proof.
  intros Hst. assert (0 < stripe_bytes)%nat as Hpos by apply stripe_bytes_pos.
  rewrite lookup_chunks in Hst by done. destruct (Nat.ltb_spec (j * stripe_bytes) (length body)); [|done].
  injection Hst as <-. rewrite stripe_size_eq.
  rewrite (os_size Hos), length_take, length_drop. lia.
Qed.

Lemma geometry_run {E : Type} : ∃ g, shard_geometry (E := E) (scheme code) (r_block_size record) (Z.max (r_size record) 1) = Ok (Some g)
  ∧ (body ≠ [] → g_block_count g = count).
Proof.
  pose proof (os_block Hos) as Hb. unfold shard_geometry. fold (stripe_size (scheme code) record). rewrite stripe_size_eq.
  pose proof stripe_bytes_pos as Hpos. rewrite !(proj2 (Z.eqb_neq _ _)) by lia. cbn [orb].
  eexists. split; [done|]. intros Hne. cbn [g_block_count]. rewrite (os_size Hos), Z.max_l, length_chunks by (destruct body; cbn; lia || done). done.
Qed.

Context (Hne : body ≠ []).

Lemma geometry_count g :
  shard_geometry (E := Failure) (scheme code) (r_block_size record) (r_size record) = Ok (Some g) → g_block_count g = count.
Proof.
  intros Hg. destruct (geometry_run (E := Failure)) as (g' & Hg' & Hc). specialize (Hc Hne).
  rewrite Z.max_l in Hg' by (rewrite (os_size Hos); destruct body; cbn; lia || done). congruence.
Qed.

Lemma column_exists i : 0 ≤ i < total_shards (scheme code) → is_Some (cols !! Z.to_nat i).
Proof.
  intros Hi. assert (0 < stripe_bytes)%nat as Hpos by apply stripe_bytes_pos.
  assert (is_Some (chunks (stripe_bytes) body !! 0%nat)) as [stripe Hst].
  { rewrite lookup_chunks by done. destruct body; [done|]. cbn. by eexists. }
  destruct (os_columns Hos _ _ Hst) as (blocks & Henc & Hcols).
  destruct (encoded_block _ _ _ _ i (os_code Hos) Henc Hi) as (bytes & Hb). destruct (Hcols _ _ Hb) as (col & -> & _). by eexists.
Qed.
End lemmas.

Arguments stripe_size_eq {_ _ _ _ _ _}.
Arguments stripe_bytes_pos {_ _ _ _ _ _}.
Arguments stripe_count_eq {_ _ _ _ _ _}.
Arguments stripe_length_eq {_ _ _ _ _ _}.
Arguments geometry_run {_ _ _ _ _ _} _ {E}.
Arguments geometry_count {_ _ _ _ _ _}.
Arguments column_exists {_ _ _ _ _ _}.
End StoredObject.
