(* ===== verification/GetSpec.v ===== *)
(** What a read promises the client, whatever the nodes and the network do. *)

From S2P Require Import Prelude Text Checksum KeyHash VersionId Erasure XorCode Layout Stripe FileSystem ShardFile Record Device DeviceSpec Cluster Scrub Frame Handshake Message Node LocalOps LocalOpsSpec Lookup Connection Coordinator Get.

Module GetSpec.
Import Message LocalOps LocalOpsSpec Lookup Connection Coordinator Get.

(** ** Chunks *)

Lemma concat_chunks_fuel size l fuel : (0 < size)%nat → (length l ≤ fuel)%nat → concat (chunks_fuel fuel size l) = l.
Proof.
  intros Hs. revert l. induction fuel as [|fuel IH]; intros [|x l] Hl; cbn [chunks_fuel]; try done; [cbn in Hl; lia|].
  cbn [concat]. rewrite IH; [apply take_drop|]. rewrite length_drop. cbn in *. lia.
Qed.

Lemma chunks_fuel_sizes size l fuel :
  (0 < size)%nat → Forall (λ p, p ≠ [] ∧ (length p ≤ size)%nat) (chunks_fuel fuel size l).
Proof.
  intros Hs. revert l. induction fuel as [|fuel IH]; intros [|x l]; cbn [chunks_fuel]; try by constructor.
  constructor; [|apply IH]. destruct size as [|size]; [lia|]. cbn [take length]. split; [done|].
  rewrite length_take. lia.
Qed.

Lemma concat_chunks size l : (0 < size)%nat → concat (chunks size l) = l.
Proof. intros Hs. by apply concat_chunks_fuel. Qed.

Lemma chunks_sizes size l : (0 < size)%nat → Forall (λ p, p ≠ [] ∧ (length p ≤ size)%nat) (chunks size l).
Proof. apply chunks_fuel_sizes. Qed.

(** ** What has been written *)

Definition clean_end (id : Z) (m : Message) : Prop := ∃ e, m = MEndOfStream id e ∧ se_error e = None.

(** A request that ended before the whole object was delivered: it says so. *)
Definition ended_early (id : Z) (c : Conn) (e : Ended) : Prop :=
  e.1 ≠ Ok tt ∧ ∃ new, wrote_since c e.2 new ∧ Forall (λ m, ¬ clean_end id m) new.

Lemma wrote_nil c : wrote_since c c [].
Proof. unfold wrote_since. by rewrite app_nil_r. Qed.

Lemma wrote_trans c1 c2 c3 new1 new2 :
  wrote_since c1 c2 new1 → wrote_since c2 c3 new2 → wrote_since c1 c3 (new1 ++ new2).
Proof. unfold wrote_since. intros H1 H2. by rewrite H2, H1, app_assoc. Qed.

Lemma send_written c m : ∃ new, wrote_since c (send c m).2 new ∧ (∀ x, x ∈ new → x = m)
  ∧ ((send c m).1 = Ok tt → new = [m]) ∧ ((send c m).1 ≠ Ok tt → new = []) ∧ (send c m).1 ≠ Panic.
Proof.
  unfold send, wrote_since. destruct (cn_room c) as [[|k]|]; cbn [fst snd].
  - exists []. rewrite app_nil_r. split_and!; [done|by intros ? ?%not_elem_of_nil|done|done|done].
  - exists [m]. split_and!; [done|by intros ? ?%list_elem_of_singleton|done|done|done].
  - exists [m]. split_and!; [done|by intros ? ?%list_elem_of_singleton|done|done|done].
Qed.

(** Whatever was written before, if it has no clean end. *)
Lemma ended_after id c c1 new e :
  wrote_since c c1 new → Forall (λ m, ¬ clean_end id m) new → ended_early id c1 e → ended_early id c e.
Proof.
  intros Hw Hn [Ho (new1 & Hw1 & Hn1)]. split; [done|]. exists (new ++ new1). split; [by eapply wrote_trans|].
  by apply Forall_app.
Qed.

Lemma respond_err_early id c f : ended_early id c (respond c id (Err f)).
Proof.
  unfold respond. destruct f as [d|e]; [|by split; [|exists []; split; [apply wrote_nil|constructor]]].
  destruct (send_written c (MResponse id (RespError d))) as (new & Hw & Hin & _ & _ & Hp).
  assert (Forall (λ m, ¬ clean_end id m) new) as Hc
    by (apply Forall_forall; intros x ->%Hin (e & ? & _); done).
  destruct (send c _) as [[[]|f|] c']; cbn in *; [| |done]; split; try done; by exists new.
Qed.

Lemma fail_and_close_early id c d : ended_early id c (fail_and_close c id d).
Proof.
  unfold fail_and_close. destruct (send_written c (MEndOfStream id (StreamEnd_failed d))) as (new & Hw & Hin & _).
  destruct (send c _) as [r c']; cbn in *. split; [done|]. exists new. split; [done|].
  apply Forall_forall. intros x ->%Hin (e & [= <-] & He). done.
Qed.

Lemma data_not_clean `{Xxh3} id first parts : Forall (λ m, ¬ clean_end id m) (data_messages id first parts).
Proof.
  apply Forall_forall. intros x. unfold data_messages. rewrite elem_of_lookup_imap. intros (i & p & -> & _) (e & ? & _). done.
Qed.

Lemma data_messages_app `{Xxh3} id first (l1 l2 : list (list Z)) :
  data_messages id first (l1 ++ l2) = data_messages id first l1 ++ data_messages id (first + Z.of_nat (length l1)) l2.
Proof.
  unfold data_messages. rewrite imap_app. f_equal. apply imap_ext. intros i x _. cbn. do 2 f_equal. lia.
Qed.

Lemma data_messages_cons `{Xxh3} id first (b : block) (blocks : list block) :
  data_messages id first (b :: blocks) = MData id (mkDataFrame first (checksum_block b) b) :: data_messages id (first + 1) blocks.
Proof.
  unfold data_messages. cbn [imap]. f_equal; [do 2 f_equal; lia|]. apply imap_ext. intros i x _. cbn. do 2 f_equal. lia.
Qed.

Lemma write_chunks_written `{Xxh3} id l : ∀ c seq, let '(r, c') := write_chunks c id seq l in
  r ≠ Panic ∧ ∃ new, wrote_since c c' new ∧ Forall (λ m, ¬ clean_end id m) new
  ∧ ∀ x, r = Ok x → new = data_messages id seq l ∧ x = seq + Z.of_nat (length l).
Proof.
  induction l as [|p l IH]; intros c seq; cbn [write_chunks].
  { split; [done|]. exists []. split_and!; [apply wrote_nil|constructor|]. intros x [= <-]. split; [done|cbn; lia]. }
  set (m := MData id (mkDataFrame seq (checksum_block p) p)).
  destruct (send_written c m) as (new & Hw & Hin & Hok & _ & Hp).
  assert (Forall (λ m, ¬ clean_end id m) new) as Hc by (apply Forall_forall; intros x ->%Hin (e & ? & _); done).
  destruct (send c m) as [[[]|f|] c1]; cbn [fst snd] in *; [| |done].
  2: { split; [done|]. exists new. split_and!; [done|done|]. intros x Hx. discriminate. }
  specialize (IH c1 (seq + 1)). destruct (write_chunks c1 id (seq + 1) l) as [r c'].
  destruct IH as [Hr (new1 & Hw1 & Hn1 & Hx)]. split; [done|].
  exists (new ++ new1). split_and!; [by eapply wrote_trans|by apply Forall_app|].
  intros x Hrx. destruct (Hx x Hrx) as [-> ->]. rewrite (Hok eq_refl). split; [|cbn; lia].
  unfold data_messages. cbn [imap app]. f_equal; [unfold m; do 2 f_equal; lia|].
  apply imap_ext. intros i y _. cbn. do 2 f_equal. lia.
Qed.

Section sound.
Context {N : Type} `{Network N} `{CoordTexts} `{Sha256} `{Uuid} `{Xxh3} `{ReedSolomonLib}.
Context {TlsMaterial : Type} (fuel : nat) (n : Node TlsMaterial) (id : Z) (key : str).

(** The pieces of the body so far, and the connection they went to. *)
Record delivering (c : Conn) (record : MetadataRecord) (rd : Reading) (parts : list (list Z)) : Prop := {
  dl_written : wrote_since c (rd_conn rd) (data_messages id 0 parts);
  dl_hashed : rd_hasher rd = concat parts;
  dl_delivered : rd_delivered rd = Z.of_nat (length (concat parts));
  dl_sequence : rd_sequence rd = Z.of_nat (length parts);
  dl_pieces : Forall (λ p, p ≠ [] ∧ (length p ≤ Z.to_nat (r_block_size record))%nat) parts;
}.

Lemma or_respond_early {A : Type} c (m : net (Peers N) Failure A) (P : A → Prop) :
  yields m P (λ _, True) → yields (or_respond c id m) P (ended_early id c).
Proof. intros Hm. apply yields_map_err. eapply yields_mono; [exact Hm|done|]. intros f _. apply respond_err_early. Qed.

Lemma or_close_early {A : Type} c (m : net (Peers N) ErrorDetail A) (P : A → Prop) :
  yields m P (λ _, True) → yields (or_close c id m) P (ended_early id c).
Proof. intros Hm. apply yields_map_err. eapply yields_mono; [exact Hm|done|]. intros d _. apply fail_and_close_early. Qed.

Lemma open_object_early c record s count : yields (open_object n c id key record s count) (λ _, True) (ended_early id c).
Proof.
  unfold open_object. destruct (r_size record =? 0); [by apply yields_ret|].
  eapply yields_bind; [by apply or_respond_early, yields_any|]. intros [sources unreadable] _.
  eapply (yields_bind _ _ (λ _, True)).
  { destruct unreadable; [by apply yields_ret|].
    eapply yields_bind; [by apply or_respond_early, yields_any|]. intros [opened missing] _. by apply yields_ret. }
  intros [[sources' unreadable'] po] _. destruct (_ <? _); [|by apply yields_ret].
  eapply yields_bind; [by apply or_respond_early, yields_any|]. intros d _. apply yields_throw, respond_err_early.
Qed.

Lemma decode_early rd code record stripe sources received len :
  yields (decode (N := N) rd id code key record stripe sources received len) (λ _, True) (ended_early id (rd_conn rd)).
Proof. apply or_close_early, yields_any. Qed.

(** The second decode leaves what was delivered alone. *)
Definition same_delivery (rd rd' : Reading) : Prop :=
  rd_hasher rd' = rd_hasher rd ∧ rd_delivered rd' = rd_delivered rd ∧ rd_sequence rd' = rd_sequence rd
  ∧ rd_conn rd' = rd_conn rd.

Lemma with_parity_early rd code record count stripe len received :
  yields (with_parity n rd id code key record count stripe len received) (λ x, same_delivery rd x.2)
    (ended_early id (rd_conn rd)).
Proof.
  unfold with_parity. eapply (yields_bind _ _ (λ _, True)).
  { apply yields_map_err. eapply yields_mono; [apply yields_any|done|]. intros [d|e] _; [apply fail_and_close_early|].
    split; [done|]. exists []. split; [apply wrote_nil|constructor]. }
  intros [parity missing] _. eapply yields_bind; [by apply or_close_early, yields_any|]. intros blocks _.
  eapply yields_bind; [apply decode_early|]. intros decoded _. by apply yields_ret.
Qed.

Lemma note_fault_silent rd record stripe l f e : note_fault rd record stripe l f ≠ Err e.
Proof. unfold note_fault. case_match; [done|]. by destruct (device_for record (bf_index f)). Qed.

Lemma stripe_data_early rd record stripe decoded :
  yields (stripe_data (N := N) rd id key record stripe decoded) (λ _, True) (ended_early id (rd_conn rd)).
Proof.
  unfold stripe_data. destruct decoded as [data|data faults|usable needed faults].
  - by apply yields_ret.
  - eapply (yields_bind _ _ (λ _, True)); [|intros l _; by apply yields_ret]. apply yields_lift; [done|]. intros e He. exfalso. revert He.
    generalize (rd_reconstructed rd). induction faults as [|f faults IH]; intros l; cbn [fold_res]; [done|].
    rewrite bind_Err. intros [Hf|(l' & _ & Hl')]; [by apply note_fault_silent in Hf|by apply IH in Hl'].
  - eapply (yields_bind _ _ (λ _, True)); [|intros f _; apply yields_throw, fail_and_close_early].
    apply yields_lift; [done|]. by destruct faults.
Qed.

Lemma read_stripe_delivers c record code count stripe rd parts :
  delivering c record rd parts →
  yields (read_stripe n id code key record count rd stripe)
    (λ rd', ∃ parts', delivering c record rd' parts') (ended_early id c).
Proof.
  intros Hdl. assert (∀ e, ended_early id (rd_conn rd) e → ended_early id c e) as Hearly.
  { intros e. eapply ended_after; [apply (dl_written _ _ _ _ Hdl)|apply data_not_clean]. }
  unfold read_stripe. eapply yields_bind.
  { eapply yields_mono; [by apply or_close_early, yields_any|done|exact Hearly]. }
  intros received _. eapply yields_bind; [eapply yields_mono; [apply decode_early|done|exact Hearly]|].
  intros decoded _. eapply (yields_bind _ _ (λ x, same_delivery rd x.2)).
  { destruct (negb (rd_parity_open rd) && negb (is_intact decoded)); [|by apply yields_ret].
    eapply yields_mono; [apply with_parity_early|done|exact Hearly]. }
  intros [decoded' rd'] (Hh & Hd & Hs & Hc). cbn [snd] in *.
  eapply yields_bind; [eapply yields_mono; [apply stripe_data_early|done|]; rewrite Hc; exact Hearly|].
  intros [data rec] _. set (size := Z.to_nat (r_block_size record)).
  eapply (yields_bind _ _ (λ _, (0 < size)%nat)).
  { apply yields_lift; destruct (Nat.eqb_spec size 0); [done|intros; lia|done|done]. }
  intros _ Hsize. pose proof (write_chunks_written id (chunks size data) (rd_conn rd') (rd_sequence rd')) as Hw.
  destruct (write_chunks _ _ _ _) as [[x|f|] c']; destruct Hw as [Hp (new & Hw & Hn & Hx)]; [| |done].
  2: { apply yields_throw. apply Hearly. rewrite <- Hc. split; [done|]. by exists new. }
  destruct (Hx x eq_refl) as [-> ->]. apply yields_ret. exists (parts ++ chunks size data).
  destruct Hdl as [Dw Dh Dd Ds Dp]. rewrite Hc in Hw. rewrite Hs, Ds in *. split; cbn [rd_conn rd_hasher rd_delivered rd_sequence].
  - rewrite data_messages_app. by eapply wrote_trans.
  - by rewrite concat_app, concat_chunks, Hh, Dh.
  - rewrite concat_app, concat_chunks, length_app, Hd, Dd by done. lia.
  - rewrite length_app. lia.
  - apply Forall_app. split; [done|by apply chunks_sizes].
Qed.

Lemma close_source_early c record source : yields (close_source (N := N) c id key record source) (λ _, True) (ended_early id c).
Proof.
  unfold close_source. eapply yields_bind.
  { eapply yields_mono; [apply yields_attempt, yields_any|intros r Hr; exact Hr|done]. }
  intros [[d|e]|e|] _; try by apply yields_throw, fail_and_close_early.
  destruct (se_error e); [apply yields_throw, fail_and_close_early|by apply yields_ret].
Qed.

(** The object delivered whole: the record, the pieces in order with their
    checksums, of the size and the checksum the record says, and a clean end. *)
Definition delivered_whole (c : Conn) (e : Ended) : Prop :=
  ∃ record parts reconstructed missing,
    wrote_since c e.2 (MResponse id (RespGetObject record) :: data_messages id 0 parts
                       ++ [MEndOfStream id (mkStreamEnd None None None reconstructed missing)])
    ∧ r_key record = key
    ∧ Z.of_nat (length (concat parts)) = r_size record
    ∧ checksum_block (concat parts) = r_object_checksum record
    ∧ Forall (λ p, p ≠ [] ∧ (length p ≤ Z.to_nat (r_block_size record))%nat) parts.

Definition ends_honestly (c : Conn) (e : Ended) : Prop :=
  (e.1 = Ok tt → delivered_whole c e) ∧ (e.1 ≠ Ok tt → ended_early id c e).

Lemma early_honest c e : ended_early id c e → ends_honestly c e.
Proof. intros He. split; [by destruct He|done]. Qed.

Lemma get_record_honest c record missing :
  r_key record = key →
  yields (get_record n c id key record missing) (ends_honestly c) (ended_early id c).
Proof.
  intros Hkey. unfold get_record. eapply yields_bind; [by apply or_respond_early, yields_any|]. intros s _.
  eapply yields_bind; [by apply or_respond_early, yields_any|]. intros g _.
  eapply yields_bind; [by apply or_respond_early, yields_any|]. intros geometry _.
  eapply yields_bind; [apply open_object_early|]. intros [[sources unreadable] po] _. unfold respond.
  destruct (send_written c (MResponse id (RespGetObject record))) as (new & Hw & Hin & Hok & _ & Hp).
  assert (Forall (λ m, ¬ clean_end id m) new) as Hn by (apply Forall_forall; intros x ->%Hin (e & ? & _); done).
  destruct (send c _) as [[[]|f|] c1]; cbn [fst snd] in *; [| |done].
  2: { apply yields_throw. split; [done|]. by exists new. }
  eapply (yields_bind _ _ (λ _, True)); [apply yields_lift; [done|intros e He; by destruct (ReedSolomonCode_new s) as [?|[]|]]|]. intros code _.
  eapply yields_bind.
  { eapply (yields_fold _ _ _ (λ rd, ∃ parts, delivering c1 record rd parts)); [|exists []; split; cbn; [apply wrote_nil|done|done|done|constructor]].
    intros rd stripe _ [parts Hrd]. eapply yields_mono; [by eapply read_stripe_delivers|done|].
    intros e. by eapply ended_after. }
  cbn beta. intros rd [parts Hrd]. destruct Hrd as [Dw Dh Dd _ Dp]. unfold finish_object.
  assert (∀ e, ended_early id (rd_conn rd) e → ended_early id c e) as Hearly.
  { intros e. eapply ended_after; [by eapply wrote_trans|]. apply Forall_app. split; [done|apply data_not_clean]. }
  eapply (yields_bind _ _ (λ _, True)).
  { eapply yields_mono; [apply (yields_fold _ _ _ (λ _, True)); [|done]|done|exact Hearly].
    intros [] source _ _. apply close_source_early. }
  intros [] _. destruct (negb _ || negb _) eqn:Hcheck; [apply yields_throw, Hearly, fail_and_close_early|].
  apply orb_false_iff in Hcheck as [Hd%negb_false_iff%Z.eqb_eq Hx%negb_false_iff%Z.eqb_eq].
  apply yields_ret. set (m := MEndOfStream id _).
  destruct (send_written (rd_conn rd) m) as (new' & Hw' & _ & Hok' & Hno' & _).
  destruct (send (rd_conn rd) m) as [r c2]; cbn [fst snd] in *. split; cbn [fst snd].
  - intros ->. rewrite (Hok eq_refl) in Hw. rewrite (Hok' eq_refl) in Hw'.
    eexists record, parts, _, _. split_and!; [|done|by rewrite <- Dd|unfold checksum_block; by rewrite <- Dh|done].
    apply (wrote_trans c c1 c2 [_]); [done|]. by eapply wrote_trans.
  - intros Hr. apply Hearly. split; [done|]. exists new'. split; [done|].
    rewrite (Hno' Hr). constructor.
Qed.

Lemma newest_key : yields (newest_readable_version fuel n key) (λ x, r_key x.1 = key) (λ _, True).
Proof.
  unfold newest_readable_version. eapply yields_bind; [apply yields_any|]. intros _ _.
  eapply yields_bind; [apply yields_any|]. intros found _. apply yields_lift; [|done].
  intros [r missing] Hr. apply map_err_Ok in Hr. by eapply newest_readable_key.
Qed.

Lemma get_object_honest (c : Conn) (s s' : Peers N) (e : Ended) :
  get_object fuel n id c key s = Some (Ok e, s') → ends_honestly c e.
Proof.
  unfold get_object, returning. set (m := mbind _ _).
  assert (yields m (ends_honestly c) (ended_early id c)) as Hy.
  { eapply yields_bind; [apply or_respond_early, newest_key|]. intros [record missing] Hk. by apply get_record_honest. }
  destruct (m s) as [[[e'|e'|] s1]|] eqn:Hm; [| |done|done];
    intros [= -> ->]; specialize (Hy _ _ _ Hm); [done|by apply early_honest].
Qed.

(** C4. A read tells the truth, whatever nodes and network do: a request that
    ends well has written the record of the key asked for, then the pieces of
    a body, in order and each with its checksum, that together have the size
    and the checksum the record says, then a clean end of stream; and a
    request that ends in any other way has written no clean end, so a client
    never takes a damaged or cut body for the object. *)
Theorem get_object_sound (c : Conn) (s s' : Peers N) (e : Ended) :
  get_object fuel n id c key s = Some (Ok e, s') → ends_honestly c e.
Proof. apply get_object_honest. Qed.
End sound.
End GetSpec.
