(* ===== verification/Serving.v ===== *)
(** A network of nodes that answer: each reachable node greets with its
    [Hello] and answers a request with the messages of a function of the node,
    the request's id and the request.  Messages on one connection arrive in
    order and do not depend on the other connections.

    It is the network of the theorems about what a healthy cluster, or one
    with devices out, achieves; the function is a parameter, so they hold for
    any nodes that answer the requests they are sent as the hypotheses say. *)

From S2P Require Import Prelude Text Checksum KeyHash VersionId Erasure Layout Stripe FileSystem ShardFile Record Device Cluster Scrub Frame Handshake Message Node LocalOps Lookup Connection Coordinator.

Module Serving.
Import Message LocalOps Lookup Connection Coordinator.

Record Line := mkLine { ln_node : NodeId; ln_queue : list Message }.

Section serving.
Context (locate : str → option NodeId) (greet : NodeId → Handshake.Hello) (serve : NodeId → Z → Request → list Message).

Definition on_message (l : Line) (m : Message) : Line :=
  match m with
  | MHello _ => mkLine (ln_node l) (ln_queue l ++ [MHello (greet (ln_node l))])
  | MRequest id r => mkLine (ln_node l) (ln_queue l ++ serve (ln_node l) id r)
  | _ => l
  end.

#[global, refine] Instance serving : Network (gmap nat Line) := {|
  dial q ch addr tls :=
    match locate addr with
    | Some node => (true, <[ch := mkLine node []]> q)
    | None => (false, q)
    end;
  transmit q ch m := (None, alter (λ l, on_message l m) ch q);
  deliver q ch :=
    match q !! ch with
    | Some (mkLine node (m :: queue)) => (inr m, <[ch := mkLine node queue]> q)
    | _ => (inl Closed, q)
    end;
  completion q l := l;
|}.
Proof. done. Defined.

Abbreviation cluster := (Peers (gmap nat Line)).

(** Connections are numbered in order; those there were keep what they had. *)
Record extends (s s' : cluster) : Prop := {
  ex_count : (length (pe_conns s) ≤ length (pe_conns s'))%nat;
  ex_kept : ∀ c, (c < length (pe_conns s))%nat →
    pe_net s' !! c = pe_net s !! c ∧ pe_conns s' !! c = pe_conns s !! c;
}.

#[global] Instance extends_preorder : PreOrder extends.
Proof.
  split.
  - intros s. split; [done|]. by intros.
  - intros s1 s2 s3 [L12 K12] [L23 K23]. split; [lia|]. intros c Hc.
    destruct (K12 c Hc) as [<- <-]. apply K23. lia.
Qed.

Lemma read_message_run (s : cluster) ch node m queue :
  pe_net s !! ch = Some (mkLine node (m :: queue)) →
  read_message ch s = Some (Ok m, mkPeers (<[ch := mkLine node queue]> (pe_net s)) (pe_conns s) (pe_log s ++ [Got ch m])).
Proof. intros Hl. unfold read_message. cbn. by rewrite Hl. Qed.

Context `{CoordTexts} {TlsMaterial : Type} (n : Node TlsMaterial).

(** A node the coordinator can connect to. *)
Definition reachable (target : NodeId) : Prop :=
  ∃ address tls, node_address n target = Ok address ∧ connector n = Ok tls ∧ locate address = Some target
    ∧ Handshake.cluster_id (greet target) = c_cluster_id (nd_document n).

(** A node that does not answer at its address. *)
Definition unreachable (target : NodeId) : Prop :=
  ∃ address tls, node_address n target = Ok address ∧ connector n = Ok tls ∧ locate address = None.

(** A new connection with these messages to come, its next request numbered. *)
Definition fresh (s s' : cluster) (target : NodeId) (queue : list Message) (next : Z) : Prop :=
  let ch := length (pe_conns s) in
  extends s s' ∧ length (pe_conns s') = S ch ∧ pe_net s' !! ch = Some (mkLine target queue)
  ∧ ∃ hello tls, pe_conns s' !! ch = Some (mkConnState hello next tls).

Lemma net_run_ok {E A B : Type} (m : net cluster E A) (f : A → net cluster E B) (s s' : cluster) (a : A) :
  m s = Some (Ok a, s') → (m ≫= f) s = f a s'.
Proof. intros Hm. unfold mbind, net_bind. by rewrite Hm. Qed.

Lemma net_run_err {E A B : Type} (m : net cluster E A) (f : A → net cluster E B) (s s' : cluster) (e : E) :
  m s = Some (Err e, s') → (m ≫= f) s = Some (Err e, s').
Proof. intros Hm. unfold mbind, net_bind. by rewrite Hm. Qed.

Lemma nmap_err_run {E F A : Type} (g : E → F) (m : net cluster E A) (s s' : cluster) (r : res E A) :
  m s = Some (r, s') → nmap_err g m s = Some (map_err g r, s').
Proof. intros Hm. unfold nmap_err. by rewrite Hm. Qed.

Lemma connect_to_run (s : cluster) target :
  reachable target → ∃ s', connect_to n target s = Some (Ok (length (pe_conns s)), s') ∧ fresh s s' target [] 1.
Proof.
  intros (address & tls & Ha & Hc & Hl & Hh). unfold connect_to. rewrite Ha, Hc.
  unfold nlift at 1 2. cbn [map_err]. unfold mbind at 1 2, net_bind at 1 2. unfold nmap_err at 1.
  unfold connect_with, open_connection, mbind, net_bind, nmap_err, write_message, read_message. cbn [dial serving]. rewrite Hl.
  cbn [map_err transmit deliver serving pe_net pe_conns pe_log]. rewrite alter_insert_eq, lookup_insert_eq. cbn [map_err on_message ln_queue ln_node app].
  rewrite Hh, Z.eqb_refl. cbn [negb andb]. unfold set_peer_hello. eexists. split; [reflexivity|].
  assert (∀ c, (c < length (pe_conns s))%nat → length (pe_conns s) ≠ c) as Hne by lia.
  split_and!; cbn.
  - split; cbn; [rewrite length_alter, length_app; cbn; lia|]. intros c Hc'.
    rewrite !lookup_insert_ne by (by apply Hne).
    rewrite list_lookup_alter_ne by (by apply Hne). by rewrite lookup_app_l.
  - rewrite length_alter, length_app. cbn. lia.
  - apply lookup_insert_eq.
  - do 2 eexists. rewrite list_lookup_alter_eq, list_lookup_middle by done. done.
Qed.

Lemma connect_to_fails (s : cluster) target :
  unreachable target → ∃ d s', connect_to n target s = Some (Err (FError d), s') ∧ e_code d = NodeUnreachable ∧ extends s s'.
Proof.
  intros (address & tls & Ha & Hc & Hl). unfold connect_to. rewrite Ha, Hc.
  unfold nlift, mbind, net_bind, nmap_err, connect_with, open_connection, nmap_err. cbn. rewrite Hl. cbn.
  do 2 eexists. split_and!; [done|done|]. by split.
Qed.

(** A request on a connection just opened. *)
Lemma send_request_run (s0 s : cluster) target r :
  fresh s0 s target [] 1 →
  ∃ s', send_request (length (pe_conns s0)) r s = Some (Ok 1, s') ∧ fresh s0 s' target (serve target 1 r) 2.
Proof.
  intros ([Hle Hk] & Hlen & Hnet & hello & tls & Hcs). unfold send_request, allocate_request_id, nmap_err, write_message, mbind, net_bind.
  cbn. rewrite Hcs. cbn. eexists. split; [done|]. set (ch := length (pe_conns s0)) in *.
  split_and!; cbn.
  - split; cbn; [rewrite length_alter; lia|]. intros c Hc.
    rewrite lookup_alter_ne, list_lookup_alter_ne by lia. by apply Hk.
  - by rewrite length_alter.
  - rewrite lookup_alter_eq, Hnet. done.
  - do 2 eexists. rewrite list_lookup_alter_eq, Hcs. done.
Qed.

(** A message taken from a connection just opened. *)
Lemma fresh_pop (s0 s : cluster) target m queue next :
  fresh s0 s target (m :: queue) next →
  ∃ s', read_message (length (pe_conns s0)) s = Some (Ok m, s') ∧ fresh s0 s' target queue next.
Proof.
  intros ([Hle Hk] & Hlen & Hnet & hello & tls & Hcs). rewrite (read_message_run _ _ _ _ _ Hnet). eexists. split; [done|].
  split_and!; cbn; [|done|by rewrite lookup_insert_eq|by do 2 eexists].
  split; cbn; [lia|]. intros c Hc. rewrite lookup_insert_ne by lia. by apply Hk.
Qed.

Lemma read_response_run (s0 s : cluster) target id response queue next :
  fresh s0 s target (MResponse id response :: queue) next → (∀ d, response ≠ RespError d) →
  ∃ s', read_response (length (pe_conns s0)) id s = Some (Ok response, s') ∧ fresh s0 s' target queue next.
Proof.
  intros Hf Hr. destruct (fresh_pop _ _ _ _ _ _ Hf) as (s' & Hread & Hf'). exists s'. split; [|done].
  unfold read_response. rewrite (net_run_ok _ _ _ _ _ (nmap_err_run _ _ _ _ _ Hread)). cbn. rewrite Z.eqb_refl. cbn.
  destruct response; try done. by edestruct Hr.
Qed.

Lemma read_response_refused (s0 s : cluster) target id d queue next :
  fresh s0 s target (MResponse id (RespError d) :: queue) next →
  ∃ s', read_response (length (pe_conns s0)) id s = Some (Err (Remote d), s') ∧ fresh s0 s' target queue next.
Proof.
  intros Hf. destruct (fresh_pop _ _ _ _ _ _ Hf) as (s' & Hread & Hf'). exists s'. split; [|done].
  unfold read_response. rewrite (net_run_ok _ _ _ _ _ (nmap_err_run _ _ _ _ _ Hread)). cbn. by rewrite Z.eqb_refl.
Qed.

(** One request to a node, answered in one message. *)
Lemma ask_node_run (s : cluster) target r response :
  reachable target → serve target 1 r = [MResponse 1 response] → (∀ d, response ≠ RespError d) →
  ∃ s', ask_node n target r s = Some (Ok response, s') ∧ extends s s'.
Proof.
  intros Hr Hs Hne. destruct (connect_to_run s target Hr) as (s1 & H1 & F1).
  destruct (send_request_run s s1 target r F1) as (s2 & H2 & F2). rewrite Hs in F2.
  destruct (read_response_run s s2 target 1 response [] 2 F2 Hne) as (s3 & H3 & F3).
  exists s3. split; [|apply F3]. unfold ask_node. rewrite (net_run_ok _ _ _ _ _ H1).
  unfold ask. erewrite nmap_err_run; [|unfold request; rewrite (net_run_ok _ _ _ _ _ H2); exact H3]. done.
Qed.
End serving.
End Serving.
