(* ===== verification/Degraded.v ===== *)
(** Reading an object when shards are out: on a network whose nodes serve the
    shards they hold, [get_object] delivers the object whole as long as at
    most [m] of its [k + m] shards cannot be opened. *)

From S2P Require Import Prelude Text Checksum KeyHash VersionId Erasure XorCode Layout Stripe FileSystem ShardFile Record Device DeviceSpec Cluster Scrub Frame Handshake Message Node LocalOps LocalOpsSpec Lookup Connection Coordinator Get StoredObject GetSpec Serving.

Module Degraded.
Import Message LocalOps LocalOpsSpec Lookup Connection Coordinator Get StoredObject GetSpec Serving.

Section degraded.
Context (locate : str → option NodeId) (greet : NodeId → Handshake.Hello) (serve : NodeId → Z → Request → list Message).
Context `{CoordTexts} `{Sha256} `{Uuid} `{Xxh3} `{ReedSolomonLib} {TlsMaterial : Type} (fuel : nat).
Context (n : Node TlsMaterial) (key : str) (record : MetadataRecord) (code : ReedSolomonCode).
#[local] Hint Extern 0 (Network (gmap nat Line)) => exact (serving locate greet serve) : typeclass_instances.
Abbreviation cluster := (Peers (gmap nat Line)).

Context (body : list Z) (cols : list (list block)) (Hos : object_stored record code body cols).

Abbreviation stripe_bytes := (stripe_bytes record code).
Abbreviation count := (Z.of_nat (length (chunks stripe_bytes body))).

(** A shard its node serves; a shard that cannot be opened. *)
Definition shard_served (i : ShardIndex) : Prop :=
  ∃ d e col, device_for record i = Some d ∧ device (nd_document n) d = Some e ∧ reachable locate greet n (de_node e)
    ∧ cols !! Z.to_nat i = Some col
    ∧ serve (de_node e) 1 (GetShard d (r_key_hash record) (r_version record) i 0 count)
      = MResponse 1 (RespGetShard count) :: data_messages 1 0 col ++ [MEndOfStream 1 StreamEnd_ok].

Inductive shard_out (i : ShardIndex) : Prop :=
| out_unlisted d : device_for record i = Some d → device (nd_document n) d = None → shard_out i
| out_unreachable d e :
    device_for record i = Some d → device (nd_document n) d = Some e → unreachable locate n (de_node e) → shard_out i
| out_refused d e detail queue :
    device_for record i = Some d → device (nd_document n) d = Some e → reachable locate greet n (de_node e) →
    serve (de_node e) 1 (GetShard d (r_key_hash record) (r_version record) i 0 count)
      = MResponse 1 (RespError detail) :: queue →
    is_Some (fault_of detail) → shard_out i.

(** A source whose next block is number [j] of its shard. *)
Definition feeding (s : cluster) (j : nat) (src : ShardSource) : Prop :=
  (ss_channel src < length (pe_conns s))%nat
  ∧ ∃ col, cols !! Z.to_nat (ss_index src) = Some col
    ∧ pe_net s !! ss_channel src = Some (mkLine (ss_owner src)
        (data_messages (ss_request src) (Z.of_nat j) (drop j col) ++ [MEndOfStream (ss_request src) StreamEnd_ok])).

Definition fed (s : cluster) (j : nat) (sources : list ShardSource) : Prop :=
  Forall (feeding s j) sources ∧ NoDup (ss_channel <$> sources).

Lemma feeding_extends s s' j src : extends s s' → feeding s j src → feeding s' j src.
Proof.
  intros [Hle Hk] [Hc (col & Hcol & Hl)]. split; [lia|]. exists col. split; [done|].
  by destruct (Hk _ Hc) as [-> _].
Qed.

Lemma fed_extends s s' j sources : extends s s' → fed s j sources → fed s' j sources.
Proof. intros He [Hf Hnd]. split; [|done]. eapply Forall_impl; [exact Hf|]. intros src. by apply feeding_extends. Qed.

(** ** Opening *)

Lemma open_one (s s' : cluster) i r :
  open_shard_source n record key 0 count i s = Some (r, s') → r ≠ Panic →
  open_shard_sources n record key [i] 0 count s = Some ((λ src, [src]) <$> r, s').
Proof.
  intros Hr Hp. unfold open_shard_sources. rewrite (os_scheme Hos). rewrite (net_run_ok _ _ s s (scheme code)) by done.
  cbn [nmapM]. unfold mbind, net_bind. rewrite Hr. by destruct r.
Qed.

Lemma open_served (s : cluster) i :
  shard_served i →
  ∃ src s', open_shard_sources n record key [i] 0 count s = Some (Ok [src], s') ∧ extends s s'
    ∧ ss_index src = i ∧ feeding s' 0 src ∧ ss_channel src = length (pe_conns s).
Proof.
  intros (d & e & col & Hd & He & Hr & Hcol & Hserve).
  destruct (connect_to_run locate greet serve n s _ Hr) as (s1 & R1 & F1).
  destruct (send_request_run locate greet serve s s1 _ (GetShard d (r_key_hash record) (r_version record) i 0 count) F1) as (s2 & R2 & F2).
  rewrite Hserve in F2.
  destruct (read_response_run locate greet serve s s2 _ _ _ _ _ F2 ltac:(done)) as (s3 & R3 & F3).
  exists (mkSource i d (de_node e) (length (pe_conns s)) 1), s3.
  destruct F3 as (Hex & Hlen & Hnet & _). split_and!; [|done|done| |done].
  - change (Ok [?x]) with ((λ src, [src]) <$> (Ok x : res Failure ShardSource)). apply open_one; [|done]. unfold open_shard_source. rewrite Hd, (net_run_ok _ _ s s d) by done. rewrite He.
    rewrite (net_run_ok _ _ s s (de_node e)) by done.
    rewrite (net_run_ok _ _ _ _ _ R1), (net_run_ok _ _ _ _ _ (nmap_err_run _ _ _ _ _ R2)).
    by rewrite (net_run_ok _ _ _ _ _ (nmap_err_run _ _ _ _ _ R3)).
  - split; cbn [ss_channel]; [lia|]. exists col. split; [done|]. cbn [ss_channel ss_owner ss_request]. by rewrite drop_0.
Qed.

Lemma open_out (s : cluster) i :
  shard_out i →
  ∃ d detail fault s', device_for record i = Some d
    ∧ open_shard_sources n record key [i] 0 count s = Some (Err (FError detail), s') ∧ fault_of detail = Some fault ∧ extends s s'.
Proof.
  intros [d Hd Hn|d e Hd He Hu|d e detail queue Hd He Hr Hserve [fault Hf]].
  - eexists d, _, (Unavailable (ctext (CNotInCluster d))), s. split; [done|]. split.
    + apply (open_one s s i (Err (FError _))); [|done]. unfold open_shard_source. rewrite Hd, (net_run_ok _ _ s s d) by done. by rewrite Hn.
    + by split.
  - destruct (connect_to_fails locate greet serve n s _ Hu) as (dt & s' & R1 & Hc & Hex).
    exists d, dt, (Unavailable (e_message dt)), s'. split; [done|]. split; [|split; [|done]; unfold fault_of; by rewrite Hc].
    apply (open_one s s' i (Err (FError dt))); [|done]. unfold open_shard_source. rewrite Hd, (net_run_ok _ _ s s d) by done.
    rewrite He, (net_run_ok _ _ s s (de_node e)) by done. by rewrite (net_run_err _ _ _ _ _ R1).
  - destruct (connect_to_run locate greet serve n s _ Hr) as (s1 & R1 & F1).
    destruct (send_request_run locate greet serve s s1 _ (GetShard d (r_key_hash record) (r_version record) i 0 count) F1) as (s2 & R2 & F2).
    rewrite Hserve in F2. destruct (read_response_refused locate greet serve s s2 _ _ _ _ _ F2) as (s3 & R3 & F3).
    destruct F3 as (Hex & _). eexists d, _, fault, s3. split; [done|]. split.
    + eapply (open_one s s3 i (Err _)); [|done]. unfold open_shard_source. rewrite Hd, (net_run_ok _ _ s s d) by done.
      rewrite He, (net_run_ok _ _ s s (de_node e)) by done.
      rewrite (net_run_ok _ _ _ _ _ R1), (net_run_ok _ _ _ _ _ (nmap_err_run _ _ _ _ _ R2)).
      by rewrite (net_run_err _ _ _ _ _ (nmap_err_run _ _ _ _ _ R3)).
    + split; [exact Hf|done].
Qed.

Context (lost : list ShardIndex).
Context (Hserved : ∀ i, i ∈ shard_indices (scheme code) → i ∉ lost → shard_served i).
Context (Hout : ∀ i, i ∈ shard_indices (scheme code) → i ∈ lost → shard_out i).

(** What is opened, in order: the shards that are not lost. *)
Lemma open_shards_run indices : ∀ (s : cluster) sources0 unreadable0 before,
  (∀ i, i ∈ indices → i ∈ shard_indices (scheme code)) → fed s 0 before →
  ∃ sources unreadable s', nfold (open_one_shard n record key 0 count) indices (sources0, unreadable0) s
      = Some (Ok (sources0 ++ sources, unreadable0 ++ unreadable), s')
    ∧ fed s' 0 (before ++ sources)
    ∧ ss_index <$> sources = filter (λ i, i ∉ lost) indices ∧ us_index <$> unreadable = filter (λ i, i ∈ lost) indices.
Proof.
  induction indices as [|i indices IH]; intros s sources0 unreadable0 before Hi Hfed; cbn [nfold].
  { exists [], [], s. rewrite !app_nil_r. by split_and!. }
  assert (i ∈ shard_indices (scheme code)) as Hix by (by apply Hi, list_elem_of_here).
  assert (∀ j, j ∈ indices → j ∈ shard_indices (scheme code)) as Hi' by (intros j Hj; by apply Hi, list_elem_of_further).
  rewrite !filter_cons. destruct (decide (i ∈ lost)) as [Hl|Hl].
  - destruct (open_out s i (Hout i Hix Hl)) as (d & detail & fault & s1 & Hd & R1 & Hf & Hex).
    destruct (IH s1 sources0 (unreadable0 ++ [mkUnreadable i d fault 0]) before Hi' (fed_extends _ _ _ _ Hex Hfed))
      as (sources & unreadable & s' & R2 & Hfed2 & Hs & Hu).
    exists sources, (mkUnreadable i d fault 0 :: unreadable), s'. rewrite decide_False by tauto.
    split_and!; [|done|done|by cbn; f_equal].
    rewrite (net_run_ok _ _ s s1 (sources0, unreadable0 ++ [mkUnreadable i d fault 0])).
    { rewrite R2. by rewrite <- app_assoc. }
    unfold open_one_shard. rewrite Hd, (net_run_ok _ _ s s d) by done.
    rewrite (net_run_ok _ _ s s1 (Err (FError detail))) by (unfold nattempt; by rewrite R1). by rewrite Hf.
  - destruct (open_served s i (Hserved i Hix Hl)) as (src & s1 & R1 & Hex & Hsi & Hfeed & Hch).
    assert (fed s1 0 (before ++ [src])) as Hfed1.
    { destruct (fed_extends _ _ _ _ Hex Hfed) as [Hf1 Hnd1]. split; [by apply Forall_app; split; [|constructor]|].
      rewrite fmap_app. apply NoDup_app. split_and!; [done| |apply NoDup_singleton].
      intros c Hc ->%list_elem_of_singleton. apply list_elem_of_fmap in Hc as (src' & Heq & Hin).
      destruct Hfed as [Hf0 _]. rewrite Forall_forall in Hf0. destruct (Hf0 src' Hin) as [Hlt _]. lia. }
    destruct (IH s1 (sources0 ++ [src]) unreadable0 (before ++ [src]) Hi' Hfed1) as (sources & unreadable & s' & R2 & Hfed2 & Hs & Hu).
    exists (src :: sources), unreadable, s'. rewrite decide_True by done. rewrite <- app_assoc in Hfed2.
    split_and!; [|done|cbn; by f_equal|done].
    rewrite (net_run_ok _ _ s s1 (sources0 ++ [src], unreadable0)).
    { rewrite R2. by rewrite <- app_assoc. }
    unfold open_one_shard. destruct (Hserved i Hix Hl) as (d & _ & _ & Hd & _). rewrite Hd, (net_run_ok _ _ s s d) by done.
    by rewrite (net_run_ok _ _ s s1 (Ok [src])) by (unfold nattempt; by rewrite R1).
Qed.

(** ** Which shards those are *)

Lemma data_parity_indices : data_shard_indices (scheme code) ++ parity_indices (scheme code) ≡ₚ shard_indices (scheme code).
Proof.
  destruct (os_code Hos) as [Hs _]. pose proof (scheme_ok_total _ Hs) as Ht. destruct Hs as [Hk Hm].
  unfold parity_indices. apply NoDup_Permutation.
  - apply NoDup_app. split_and!; [apply NoDup_indices_upto; unfold total_shards in *; lia|
      |apply NoDup_filter, NoDup_indices_upto; lia].
    intros i Hi [Hn _]%list_elem_of_filter. done.
  - apply NoDup_indices_upto. lia.
  - intros i. rewrite elem_of_app, list_elem_of_filter. unfold data_shard_indices, shard_indices, total_shards in *.
    rewrite !elem_of_indices_upto by lia. destruct (decide (0 ≤ i < data_shards (scheme code))); lia.
Qed.

Context (Hfew : Z.of_nat (length (filter (λ i, i ∈ lost) (shard_indices (scheme code)))) ≤ parity_shards (scheme code)).

(** The sources a read goes on with. *)
Record sources_ok (sources : list ShardSource) : Prop := {
  sk_nodup : NoDup (ss_index <$> sources);
  sk_range : Forall (λ i, 0 ≤ i < total_shards (scheme code)) (ss_index <$> sources);
  sk_enough : data_shards (scheme code) ≤ Z.of_nat (length sources);
}.

Lemma sources_ok_kept sources indices :
  ss_index <$> sources = filter (λ i, i ∉ lost) indices → indices `sublist_of` (data_shard_indices (scheme code) ++ parity_indices (scheme code)) →
  data_shards (scheme code) ≤ Z.of_nat (length (filter (λ i, i ∉ lost) indices)) → sources_ok sources.
Proof.
  intros Hs Hsub Hk. pose proof data_parity_indices as Hperm. destruct (os_code Hos) as [Hsc _].
  pose proof (scheme_ok_total _ Hsc) as Ht.
  assert (NoDup (data_shard_indices (scheme code) ++ parity_indices (scheme code))) as Hnd
    by (rewrite Hperm; apply NoDup_indices_upto; lia).
  split.
  - rewrite Hs. apply NoDup_filter. by eapply sublist_NoDup.
  - rewrite Hs. apply Forall_forall. intros i [_ Hi]%list_elem_of_filter. eapply elem_of_sublist in Hi; [|exact Hsub].
    rewrite Hperm in Hi. pose proof (shard_indices_range _ Hsc) as Hr. rewrite Forall_forall in Hr. by apply Hr.
  - rewrite <- Hs, length_fmap in Hk. done.
Qed.

Lemma kept_count :
  data_shards (scheme code) ≤ Z.of_nat (length (filter (λ i, i ∉ lost) (data_shard_indices (scheme code) ++ parity_indices (scheme code)))).
Proof.
  rewrite data_parity_indices. destruct (os_code Hos) as [Hsc _]. destruct Hsc as [Hk Hm].
  pose proof (Permutation_length (filter_app_complement (λ i, i ∈ lost) (shard_indices (scheme code)))) as Hl.
  rewrite length_app in Hl. unfold shard_indices in Hl at 3. rewrite length_indices_upto in Hl. unfold total_shards in *. lia.
Qed.

(** The shards a read reports as gone around: lost ones, and every lost data
    shard among them. *)
Definition names_lost (indices : list ShardIndex) : Prop :=
  (∀ i, i ∈ indices → i ∈ lost) ∧ (∀ i, i ∈ data_shard_indices (scheme code) → i ∈ lost → i ∈ indices).

Lemma open_object_run (s : cluster) c id block_count :
  (body ≠ [] → block_count = count) →
  ∃ sources unreadable po s',
    open_object n c id key record (scheme code) block_count s = Some (Ok (sources, unreadable, po), s')
    ∧ fed s' 0 sources ∧ (body ≠ [] → sources_ok sources ∧ names_lost (us_index <$> unreadable)).
Proof.
  intros Hcount. unfold open_object. rewrite (os_size Hos). destruct (Z.eqb_spec (Z.of_nat (length body)) 0) as [Hz|Hz].
  { exists [], [], false, s. split_and!; [done|by split; constructor|]. by destruct body. }
  rewrite Hcount by (by intros ->).
  assert (∀ i, i ∈ data_shard_indices (scheme code) → i ∈ shard_indices (scheme code)) as Hdata
    by (intros i Hi; rewrite <- data_parity_indices; apply elem_of_app; by left).
  assert (∀ i, i ∈ parity_indices (scheme code) → i ∈ shard_indices (scheme code)) as Hparity
    by (intros i Hi; rewrite <- data_parity_indices; apply elem_of_app; by right).
  destruct (open_shards_run (data_shard_indices (scheme code)) s [] [] [] Hdata) as (sources & unreadable & s1 & R1 & Hfed1 & Hs1 & Hu1);
    [by split; constructor|]. cbn [app] in R1, Hfed1.
  rewrite (net_run_ok _ _ s s1 (sources, unreadable)) by (by apply (nmap_err_run _ _ _ _ _ R1)).
  destruct unreadable as [|u unreadable].
  - rewrite (net_run_ok _ _ s1 s1 (sources, [], false)) by done. destruct (os_code Hos) as [Hsc _]. destruct Hsc as [Hk Hm].
    rewrite (proj2 (Z.ltb_ge _ _)) by (cbn; lia). exists sources, [], false, s1. split_and!; [done|done|]. intros _. split.
    2: { split; [by intros i ?%not_elem_of_nil|]. intros i Hi Hl. cbn. cbn in Hu1. rewrite Hu1. by apply list_elem_of_filter. }
    apply (sources_ok_kept _ (data_shard_indices (scheme code))); [done|by apply sublist_inserts_r|].
    pose proof (Permutation_length (filter_app_complement (λ i, i ∈ lost) (data_shard_indices (scheme code)))) as Hl.
    rewrite <- Hu1, length_app in Hl. unfold data_shard_indices in Hl at 2. rewrite length_indices_upto in Hl. cbn in Hl. lia.
  - destruct (open_shards_run (parity_indices (scheme code)) s1 [] [] sources Hparity Hfed1) as (opened & missing & s2 & R2 & Hfed2 & Hs2 & Hu2).
    cbn [app] in R2. set (all := u :: unreadable) in *.
    rewrite (net_run_ok _ _ s1 s2 (sources ++ opened, all ++ missing, true)).
    2: { rewrite (net_run_ok _ _ s1 s2 (opened, missing)); [done|]. by apply (nmap_err_run _ _ _ _ _ R2). }
    assert (Z.of_nat (length (all ++ missing)) ≤ parity_shards (scheme code)) as Hm.
    { rewrite <- (length_fmap us_index), fmap_app, Hu1, Hu2, <- filter_app, data_parity_indices. exact Hfew. }
    rewrite (proj2 (Z.ltb_ge _ _)) by done. exists (sources ++ opened), (all ++ missing), true, s2. split_and!; [done|done|]. intros _. split.
    2: { rewrite fmap_app, Hu1, Hu2. split.
         - intros i [Hi|Hi]%elem_of_app; by apply list_elem_of_filter in Hi as [? _].
         - intros i Hi Hl. apply elem_of_app. left. by apply list_elem_of_filter. }
    eapply sources_ok_kept; [by rewrite fmap_app, Hs1, Hs2, <- filter_app|done|apply kept_count].
Qed.

(** ** Reading *)

(** The connections not named are as they were. *)
Definition untouched (s s' : cluster) (channels : list nat) : Prop :=
  pe_conns s' = pe_conns s ∧ ∀ c, c ∉ channels → pe_net s' !! c = pe_net s !! c.

Lemma feeding_untouched s s' j src channels :
  untouched s s' channels → ss_channel src ∉ channels → feeding s j src → feeding s' j src.
Proof.
  intros [Hc Hn] Hnot [Hlt (col & Hcol & Hl)]. split; [by rewrite Hc|]. exists col. split; [done|]. by rewrite Hn.
Qed.

(** Block [j] of a source's shard. *)
Definition block_of (j : nat) (src : ShardSource) (b : ShardBlock) : Prop :=
  ∃ col bytes, cols !! Z.to_nat (ss_index src) = Some col ∧ col !! j = Some bytes
    ∧ b = mkShardBlock (ss_index src) bytes (checksum_block bytes).

Lemma read_stripe_block_run (s : cluster) j src :
  feeding s j src → (j < length (chunks stripe_bytes body))%nat →
  ∃ b s', read_stripe_block (Z.of_nat j) key record src s = Some (Ok b, s') ∧ block_of j src b
    ∧ feeding s' (S j) src ∧ untouched s s' [ss_channel src].
Proof.
  intros [Hlt (col & Hcol & Hl)] Hj.
  assert (is_Some (col !! j)) as [bytes Hb].
  { apply lookup_lt_is_Some. pose proof (os_lengths Hos) as Hlen. rewrite Forall_forall in Hlen.
    rewrite (Hlen col); [done|]. by eapply list_elem_of_lookup_2. }
  rewrite (drop_S _ _ _ Hb), data_messages_cons in Hl. cbn [app] in Hl.
  pose proof (read_message_run locate greet serve s _ _ _ _ Hl) as R1.
  set (s1 := mkPeers _ _ _) in R1. set (frame := mkDataFrame _ _ _) in R1.
  assert (read_stream_item (ss_channel src) (ss_request src) s = Some (Ok (ItemData frame), s1)) as R2.
  { unfold read_stream_item. rewrite (net_run_ok _ _ _ _ _ (nmap_err_run _ _ _ _ _ R1)). cbn. by rewrite Z.eqb_refl. }
  exists (mkShardBlock (ss_index src) bytes (checksum_block bytes)), s1. split_and!.
  - unfold read_stripe_block. rewrite (net_run_ok _ _ _ _ _ (nmap_err_run _ _ _ _ _ R2)). cbn. by rewrite Z.eqb_refl.
  - exists col, bytes. by split_and!.
  - split; [done|]. exists col. split; [done|]. unfold s1. cbn [pe_net]. rewrite lookup_insert_eq. do 4 f_equal. lia.
  - split; [done|]. intros c Hc. unfold s1. cbn [pe_net]. rewrite lookup_insert_ne; [done|]. intros <-. apply Hc, list_elem_of_here.
Qed.

Lemma read_blocks_run j sources : ∀ s : cluster,
  fed s j sources → (j < length (chunks stripe_bytes body))%nat →
  ∃ blocks s', read_stripe_blocks sources (Z.of_nat j) key record s = Some (Ok blocks, s') ∧ Forall2 (block_of j) sources blocks
    ∧ fed s' (S j) sources ∧ untouched s s' (ss_channel <$> sources).
Proof.
  induction sources as [|src sources IH]; intros s [Hf Hnd] Hj; unfold read_stripe_blocks; cbn [nmapM].
  { exists [], s. by split_and!; [|constructor|split; constructor|]. }
  apply Forall_cons in Hf as [Hsrc Hf]. cbn in Hnd. apply NoDup_cons in Hnd as [Hni Hnd].
  destruct (read_stripe_block_run s j src Hsrc Hj) as (b & s1 & R1 & Hb & Hfeed & Hun).
  assert (fed s1 j sources) as Hfed1.
  { split; [|done]. apply Forall_forall. intros src' Hin. rewrite Forall_forall in Hf.
    eapply feeding_untouched; [exact Hun| |by apply Hf]. intros Heq%list_elem_of_singleton. apply Hni. rewrite <- Heq. by apply list_elem_of_fmap_2. }
  destruct (IH s1 Hfed1 Hj) as (blocks & s2 & R2 & Hbs & [Hfed2 _] & Hun2).
  exists (b :: blocks), s2. split_and!.
  - rewrite (net_run_ok _ _ _ _ _ R1). unfold read_stripe_blocks in R2. by rewrite (net_run_ok _ _ _ _ _ R2).
  - by constructor.
  - split; [|by constructor]. constructor; [by eapply feeding_untouched|done].
  - destruct Hun as [Hc Hn], Hun2 as [Hc2 Hn2]. split; [congruence|]. intros c Hc'. cbn in Hc'. apply not_elem_of_cons in Hc' as [? ?].
    rewrite Hn2, Hn by (done || by rewrite list_elem_of_singleton). done.
Qed.

(** The blocks of a stripe decode to it. *)
Lemma decode_stripe_run j stripe sources blocks :
  chunks stripe_bytes body !! j = Some stripe → sources_ok sources → Forall2 (block_of j) sources blocks →
  decode_stripe code (ss_index <$> sources) blocks (Z.of_nat (length stripe)) = Ok (Stripe.Intact stripe).
Proof.
  intros Hst [Hnd Hr Hk] Hbl. destruct (os_columns Hos j stripe Hst) as (eblocks & Henc & Hcols).
  destruct (os_code Hos) as [Hsc _]. eapply decode_untouched; [apply (os_code Hos)|exact Henc|done|done| | |by rewrite length_fmap].
  - clear -Hbl. induction Hbl as [|src b sources blocks (col & bytes & _ & _ & ->) _ IH]; [done|]. cbn. by f_equal.
  - apply Forall_forall. intros b Hb. apply list_elem_of_lookup in Hb as [x Hx].
    destruct (Forall2_lookup_r _ _ _ _ _ Hbl Hx) as (src & Hsrc & col & bytes & Hcol & Hbytes & ->).
    rewrite Forall_forall in Hr. assert (0 ≤ ss_index src < total_shards (scheme code)) as Hi.
    { apply Hr, list_elem_of_fmap. exists src. split; [done|]. by eapply list_elem_of_lookup_2. }
    destruct (encoded_block _ _ _ _ _ (os_code Hos) Henc Hi) as (bytes' & Hb').
    destruct (Hcols _ _ Hb') as (col' & Hcol' & Hj'). cbn in Hj'. simplify_eq. by eapply list_elem_of_lookup_2.
Qed.

(** ** Delivering *)

Lemma write_chunks_run id l : ∀ c seq, cn_room c = None →
  write_chunks c id seq l = (Ok (seq + Z.of_nat (length l)), mkConn (cn_in c) (cn_out c ++ data_messages id seq l) None).
Proof.
  induction l as [|p l IH]; intros c seq Hr; cbn [write_chunks].
  { destruct c as [i o r]. cbn in *. subst r. rewrite app_nil_r. do 2 f_equal. lia. }
  unfold send. rewrite Hr, IH by done. rewrite data_messages_cons. cbn [cn_in cn_out length]. rewrite <- app_assoc. cbn [app].
  do 2 f_equal. lia.
Qed.

(** The loop after [j] stripes. *)
Record after (id : Z) (c : Conn) (j : nat) (sources : list ShardSource) (rd : Reading) : Prop := {
  af_sources : rd_sources rd = sources;
  af_hasher : rd_hasher rd = concat (take j (chunks stripe_bytes body));
  af_delivered : rd_delivered rd = Z.of_nat (length (concat (take j (chunks stripe_bytes body))));
  af_reconstructed : rd_reconstructed rd = [];
  af_conn : ∃ parts, rd_sequence rd = Z.of_nat (length parts) ∧ concat parts = concat (take j (chunks stripe_bytes body))
    ∧ rd_conn rd = mkConn (cn_in c) (cn_out c ++ data_messages id 0 parts) None;
}.

Lemma read_stripe_run (s : cluster) id c j stripe sources rd :
  chunks stripe_bytes body !! j = Some stripe → sources_ok sources → fed s j sources → after id c j sources rd →
  ∃ rd' s', read_stripe n id code key record count rd (Z.of_nat j) s = Some (Ok rd', s')
    ∧ after id c (S j) sources rd' ∧ fed s' (S j) sources ∧ rd_unreadable rd' = rd_unreadable rd.
Proof.
  intros Hst Hsk Hfed [As Ah Ad Ar (parts & Aq & Ap & Ac)].
  destruct (read_blocks_run j sources s Hfed) as (blocks & s1 & R1 & Hbl & Hfed1 & _); [by eapply lookup_lt_Some|].
  pose proof (stripe_bytes_pos Hos) as Hpos. pose proof (stripe_length_eq Hos j stripe Hst) as Hlen.
  set (bs := Z.to_nat (r_block_size record)). assert (0 < bs)%nat as Hbs by (pose proof (os_block Hos); lia).
  exists (mkReading sources (rd_unreadable rd) (rd_parity_open rd) (rd_reconstructed rd) (rd_hasher rd ++ stripe)
    (rd_delivered rd + Z.of_nat (length stripe)) (rd_sequence rd + Z.of_nat (length (chunks bs stripe)))
    (mkConn (cn_in c) (cn_out (rd_conn rd) ++ data_messages id (rd_sequence rd) (chunks bs stripe)) None)), s1.
  split_and!.
  - unfold read_stripe. rewrite As, (net_run_ok _ _ s s1 blocks), Hlen by (by apply (nmap_err_run _ _ _ _ _ R1)).
    rewrite (net_run_ok _ _ s1 s1 (Stripe.Intact stripe)).
    2: { unfold decode, or_close, nmap_err, nlift. by rewrite (decode_stripe_run j stripe sources blocks). }
    cbn [is_intact negb]. rewrite andb_false_r. rewrite (net_run_ok _ _ s1 s1 (Stripe.Intact stripe, rd)) by done.
    rewrite (net_run_ok _ _ s1 s1 (stripe, rd_reconstructed rd)) by done. fold bs.
    rewrite (net_run_ok _ _ s1 s1 tt) by (by rewrite (proj2 (Nat.eqb_neq bs 0)) by lia).
    rewrite write_chunks_run by (by rewrite Ac). rewrite As, Ac. done.
  - assert (concat (take (S j) (chunks stripe_bytes body)) = concat (take j (chunks stripe_bytes body)) ++ stripe) as Htake.
    { rewrite (take_S_r _ _ _ Hst), concat_app. cbn. by rewrite app_nil_r. }
    split; rewrite ?Htake; cbn [rd_sources rd_hasher rd_delivered rd_sequence rd_conn].
    + done.
    + by rewrite Ah.
    + rewrite length_app, Ad. lia.
    + done.
    + exists (parts ++ chunks bs stripe). rewrite length_app, concat_app, Ap, concat_chunks, data_messages_app, Aq, Ac by done.
      cbn [cn_out]. rewrite <- app_assoc. split_and!; [lia|done|done].
  - done.
  - done.
Qed.

Lemma read_stripes_run id c block_count sources todo : ∀ j (s : cluster) rd,
  (j + todo = length (chunks stripe_bytes body))%nat → (body ≠ [] → block_count = count ∧ sources_ok sources) →
  fed s j sources → after id c j sources rd →
  ∃ rd' s', nfold (read_stripe n id code key record block_count) (Z.of_nat <$> seq j todo) rd s = Some (Ok rd', s')
    ∧ after id c (length (chunks stripe_bytes body)) sources rd' ∧ fed s' (length (chunks stripe_bytes body)) sources
    ∧ rd_unreadable rd' = rd_unreadable rd.
Proof.
  induction todo as [|todo IH]; intros j s rd Hj Hb Hfed Haf; cbn [seq fmap list_fmap nfold].
  { exists rd, s. rewrite Nat.add_0_r in Hj. subst j. by split_and!. }
  destruct (lookup_lt_is_Some_2 (chunks stripe_bytes body) j) as [stripe Hst]; [lia|].
  destruct Hb as [-> Hsk]; [intros ->; done|].
  destruct (read_stripe_run s id c j stripe sources rd Hst Hsk Hfed Haf) as (rd1 & s1 & R1 & Haf1 & Hfed1 & Hu1).
  destruct (IH (S j) s1 rd1) as (rd2 & s2 & R2 & Haf2 & Hfed2 & Hu2); [lia|done|done|done|].
  exists rd2, s2. rewrite (net_run_ok _ _ _ _ _ R1), R2. split_and!; [done|done|done|congruence].
Qed.

Lemma close_source_run (s : cluster) c id src :
  feeding s (length (chunks stripe_bytes body)) src →
  ∃ s', close_source c id key record src s = Some (Ok tt, s') ∧ untouched s s' [ss_channel src].
Proof.
  intros [Hlt (col & Hcol & Hl)].
  assert (length col = length (chunks stripe_bytes body)) as Hlen.
  { pose proof (os_lengths Hos) as Hlen. rewrite Forall_forall in Hlen. apply Hlen. by eapply list_elem_of_lookup_2. }
  rewrite drop_ge in Hl by lia. cbn [app] in Hl. pose proof (read_message_run locate greet serve s _ _ _ _ Hl) as R1.
  set (s1 := mkPeers _ _ _) in R1. exists s1. split.
  - unfold close_source. rewrite (net_run_ok _ _ s s1 (Ok (ItemEnd StreamEnd_ok))); [done|].
    unfold nattempt, read_stream_item. rewrite (net_run_ok _ _ _ _ _ (nmap_err_run _ _ _ _ _ R1)). cbn. by rewrite Z.eqb_refl.
  - split; [done|]. intros ch Hch. unfold s1. cbn [pe_net]. rewrite lookup_insert_ne; [done|]. intros <-. apply Hch, list_elem_of_here.
Qed.

Lemma close_sources_run c id sources : ∀ s : cluster,
  fed s (length (chunks stripe_bytes body)) sources →
  ∃ s', nfold (λ _ src, close_source c id key record src) sources tt s = Some (Ok tt, s').
Proof.
  induction sources as [|src sources IH]; intros s [Hf Hnd]; cbn [nfold]; [by eexists|].
  apply Forall_cons in Hf as [Hsrc Hf]. cbn in Hnd. apply NoDup_cons in Hnd as [Hni Hnd].
  destruct (close_source_run s c id src Hsrc) as (s1 & R1 & Hun). rewrite (net_run_ok _ _ _ _ _ R1). apply IH. split; [|done].
  apply Forall_forall. intros src' Hin. rewrite Forall_forall in Hf. eapply feeding_untouched; [exact Hun| |by apply Hf].
  intros Heq%list_elem_of_singleton. apply Hni. rewrite <- Heq. by apply list_elem_of_fmap_2.
Qed.

End degraded.
(** ** Witnesses: three nodes, one of them down *)

Section witnesses.
#[local] Existing Instance poly_xxh3.
#[local] Existing Instance poly_sha256.
#[local] Existing Instance decimal_uuid.
#[local] Existing Instance xor_lib.
#[local] Instance untold_texts : CoordTexts := {| BUILD := []; ctext := λ _, [] |}.

Definition body6 : list Z := data5.

Definition record6 : MetadataRecord := {|
  r_format_version := 1; r_system := SYSTEM_NAME; r_bucket := lit "default";
  r_key := lit "a"; r_key_hash := hash_key (as_bytes (lit "a")); r_version := replicate 16 7;
  r_created := 0; r_size := 5; r_object_checksum := xxh3_64 body6; r_k := 2; r_m := 1; r_block_size := 4096;
  r_shards := [mkLocation 0 101; mkLocation 1 102; mkLocation 2 103];
  r_revision := 0; r_content_type := None; r_user_metadata := [] |}.

Definition document6 : ClusterDocument := {|
  c_version := 1; c_cluster_id := 193; c_name := None; c_k := 2; c_m := 1; c_block_size := 4096;
  c_independence_level := LevelDevice; c_headroom := c_headroom doc1;
  c_max_key_bytes := DEFAULT_MAX_KEY_BYTES; c_max_object_bytes := DEFAULT_MAX_OBJECT_BYTES;
  c_max_user_metadata_bytes := DEFAULT_MAX_USER_METADATA_BYTES; c_transport := Plain;
  c_nodes := [Cluster.mkNode 11 [lit "10.0.0.1:5263"] None NodeActive; Cluster.mkNode 12 [lit "10.0.0.2:5263"] None NodeActive;
              Cluster.mkNode 13 [lit "10.0.0.3:5263"] None NodeActive];
  c_devices := [mkDeviceEntry 101 11 Active None; mkDeviceEntry 102 12 Active None; mkDeviceEntry 103 13 Active None] |}.

Definition node6 : Node unit := Node.mkNodeState config1 document6 [] ∅ ∅ false ∅ None.

Definition locate6 (address : str) : option NodeId :=
  if str_eqb address (lit "10.0.0.1:5263") then Some 11 else if str_eqb address (lit "10.0.0.3:5263") then Some 13 else None.

Definition greet6 (node : NodeId) : Handshake.Hello := Handshake.mkHello 1 Handshake.Node (Some node) 193 1 [] None.

Definition columns6 : list (list block) := (λ b, [sb_bytes b]) <$> blocks5.

(** Node [11 + i] has device [101 + i] with shard [i] and a record copy. *)
Definition serve6 (node id : Z) (r : Request) : list Message :=
  match r with
  | LocalLookup _ _ => [MResponse id (RespLocalLookup [mkLocated (node + 90) record6] false [])]
  | GetShard _ _ _ i _ count =>
      MResponse id (RespGetShard count) :: data_messages id 0 (default [] (columns6 !! Z.to_nat i)) ++ [MEndOfStream id StreamEnd_ok]
  | _ => []
  end.

Definition cluster6 : Peers (gmap nat Line) := mkPeers ∅ [] [].
Definition client6 : Conn := mkConn [] [] None.

#[local] Hint Extern 0 (Network (gmap nat Line)) => exact (serving locate6 greet6 serve6) : typeclass_instances.

Definition lookup6 := newest_readable_version (N := gmap nat Line) 3 node6 (lit "a") cluster6.

Lemma stored6 : object_stored record6 code21 body6 columns6.
Proof.
  split; [by vm_compute|by vm_compute|apply code21_ok|by vm_compute|by split; vm_compute|reflexivity|reflexivity|by vm_compute| |].
  - intros [|j] stripe Hst; [|by vm_compute in Hst]. vm_compute in Hst. injection Hst as <-. exists blocks5.
    split; [by vm_compute|]. intros i b Hb. exists [sb_bytes b]. split; [|done]. unfold columns6. by rewrite list_lookup_fmap, Hb.
  - repeat constructor.
Qed.

Lemma served6 i : i ∈ [0; 1; 2] → i ∉ [1] → shard_served locate6 greet6 serve6 node6 record6 code21 body6 columns6 i.
Proof.
  intros Hi Hl. assert (i = 0 ∨ i = 2) as [-> | ->] by set_solver.
  - exists 101, (mkDeviceEntry 101 11 Active None), (default [] (columns6 !! 0%nat)).
    split_and!; [by vm_compute|by vm_compute| |by vm_compute|by vm_compute].
    exists (lit "10.0.0.1:5263"), false. split_and!; by vm_compute.
  - exists 103, (mkDeviceEntry 103 13 Active None), (default [] (columns6 !! 2%nat)).
    split_and!; [by vm_compute|by vm_compute| |by vm_compute|by vm_compute].
    exists (lit "10.0.0.3:5263"), false. split_and!; by vm_compute.
Qed.

Lemma out6 i : i ∈ [1] → shard_out locate6 greet6 serve6 node6 record6 code21 body6 i.
Proof.
  intros ->%list_elem_of_singleton. apply (out_unreachable _ _ _ _ _ _ _ 1 102 (mkDeviceEntry 102 12 Active None)); [by vm_compute|by vm_compute|].
  exists (lit "10.0.0.2:5263"), false. split_and!; by vm_compute.
Qed.


Lemma get_object_sound_witness :
  ∃ e s', get_object 3 node6 4 client6 (lit "a") cluster6 = Some (Ok e, s') ∧ ends_honestly 4 (lit "a") client6 e.
Proof.
  assert (∃ e s', get_object 3 node6 4 client6 (lit "a") cluster6 = Some (Ok e, s')) as (e & s' & Hget)
    by (do 2 eexists; by vm_compute).
  exists e, s'. split; [exact Hget|]. exact (get_object_sound 3 node6 4 (lit "a") client6 cluster6 s' e Hget).
Defined.
End witnesses.
End Degraded.
