(* ===== verification/Put.v ===== *)
(** [coordinator.rs]: [put_object], a body received from the client, encoded
    stripe by stripe and sent to the devices it is placed on, then the record
    on each, then the older versions deleted.

    The version and the time are arguments: what [versions.next()] and
    [now_utc()] return when they are called ([VersionId.v] models the
    generator).  Every refusal closes the client's connection, so what is left
    unread of its stream is not followed on those paths. *)

From S2P Require Import Prelude Text Checksum KeyHash VersionId Erasure Layout Stripe FileSystem ShardFile Record Device Cluster Scrub Frame Handshake Message Node LocalOps Lookup Connection Coordinator Get.

Module Put.
Import Message LocalOps Lookup Connection Coordinator Get.

Record PutParams := mkPutParams {
  pp_key : str; pp_size : Z; pp_content_type : option str; pp_user_metadata : list (str * str);
}.

Record ShardWriter := mkWriter {
  wr_index : ShardIndex; wr_device : DeviceId; wr_owner : NodeId; wr_channel : nat; wr_request : Z;
}.

Record PreparedPut := mkPrepared {
  pr_scheme : Scheme; pr_record : MetadataRecord; pr_writers : list ShardWriter; pr_unavailable : list UnavailableDevice;
}.

(** ** Placement *)

Definition eligible (shard_bytes : Z) (d : DeviceStatus) : bool :=
  bool_decide (ds_state d = Active) && ds_available d && (shard_bytes <=? ds_free_bytes d).

(** Most free space first, ties by device id. *)
Definition roomier (a b : DeviceStatus) : Prop :=
  ds_free_bytes b < ds_free_bytes a ∨ (ds_free_bytes a = ds_free_bytes b ∧ ds_device a ≤ ds_device b).
#[global] Instance roomier_dec : RelDecision roomier.
Proof. intros a b. unfold roomier. apply _. Defined.

Definition active_unavailable (statuses : list DeviceStatus) : list DeviceStatus :=
  filter (λ d, ds_state d = Active ∧ ds_available d = false) statuses.

Definition metadata_bytes (m : list (str * str)) : Z :=
  fold_right (λ kv t, Z.of_nat (str_len kv.1 + str_len kv.2) + t) 0 m.

(** [MetadataRecord { object_checksum, ..record_template }] *)
Definition set_checksum (r : MetadataRecord) (c : BlockChecksum) : MetadataRecord := {|
  r_format_version := r_format_version r; r_system := r_system r; r_bucket := r_bucket r; r_key := r_key r;
  r_key_hash := r_key_hash r; r_version := r_version r; r_created := r_created r; r_size := r_size r;
  r_object_checksum := c; r_k := r_k r; r_m := r_m r; r_block_size := r_block_size r; r_shards := r_shards r;
  r_revision := r_revision r; r_content_type := r_content_type r; r_user_metadata := r_user_metadata r |}.

(** The state of the body loop. *)
Record Receiving := mkReceiving {
  rv_hasher : list Z; rv_received : Z; rv_expected : Z; rv_buffer : list Z; rv_stripe : Z;
}.

Section put.
Context {N : Type} `{Network N} `{CoordTexts} `{Sha256} `{Uuid} `{Xxh3} `{ReedSolomonLib}.
Context {TlsMaterial : Type} (fuel : nat).
Implicit Types n : Node TlsMaterial.
Abbreviation call A := (net (Peers N) Failure A).

Definition place (statuses : list DeviceStatus) (s : Scheme) (shard_bytes : Z) : res Failure (list DeviceStatus) :=
  let eligible := merge_sort roomier (filter (λ d, eligible shard_bytes d = true) statuses) in
  let total := Z.to_nat (total_shards s) in
  _ ← ensure (negb (length eligible <? total)%nat)
        (error InsufficientDevices (CPlacement (Z.of_nat (length eligible)) (total_shards s) shard_bytes
           (ds_device <$> active_unavailable statuses)));
  Ok (take total eligible).

Definition abort_shard_writers (writers : list ShardWriter) (key_hash : KeyHash) (version : VersionId) : call unit :=
  nfold (λ _ w,
    _ ← nattempt (request (wr_channel w) (AbortShard (wr_device w) key_hash version (wr_index w)));
    mret tt) writers tt.

(** The checks on the request itself. *)
Definition check_put n (p : PutParams) : res Failure unit :=
  let document := nd_document n in
  _ ← map_err (λ e, FError (lookup_detail (pp_key p) e)) (check_key document (pp_key p));
  _ ← match pp_content_type p with
      | Some t => ensure (Z.of_nat (str_len t) <=? MAX_CONTENT_TYPE_BYTES)
                    (error MetadataTooLarge (CContentType (Z.of_nat (str_len t))))
      | None => Ok tt
      end;
  let bytes := metadata_bytes (pp_user_metadata p) in
  _ ← ensure (bytes <=? c_max_user_metadata_bytes document)
        (error MetadataTooLarge (CMetadataSize bytes (c_max_user_metadata_bytes document)));
  ensure (pp_size p <=? c_max_object_bytes document)
    (error ObjectTooLarge (CObjectSize (pp_size p) (c_max_object_bytes document))).

(** The devices of every node. *)
Definition all_statuses n : call (list DeviceStatus) :=
  answers ← broadcast n LocalStatus;
  nlift (fold_res (λ statuses (a : NodeId * Response),
    match a.2 with
    | RespLocalStatus _ _ _ _ devices => Ok (statuses ++ devices)
    | other => Err (error ProtocolViolation (CAnswered a.1 (lit "LocalStatus") other))
    end) answers []).

(** A connection to the device's node, ready for the shard. *)
Definition open_writer n (p : PutParams) (s : Scheme) (key_hash : KeyHash) (version : VersionId)
    (i : nat) (status : DeviceStatus) : call ShardWriter :=
  let index := wrap 8 (Z.of_nat i) in
  ch ← connect_to n (ds_node status);
  request_id ←
    (if 0 <? pp_size p then
       request_id ← nmap_err (remote_failure (ds_node status))
         (send_request ch (PutShard (ds_device status) key_hash version index (wrap 8 (data_shards s))
            (wrap 8 (parity_shards s)) (c_block_size (nd_document n)) (pp_size p)));
       answer ← nmap_err (remote_failure (ds_node status)) (read_response ch request_id);
       match answer with
       | PutShardReady => mret request_id
       | other => nthrow (error ProtocolViolation (CAnswered (ds_node status) (lit "PutShard") other))
       end
     else mret 0 : call Z);
  mret (mkWriter index (ds_device status) (ds_node status) ch request_id).

(** The record to complete, before the body is known. *)
Definition record_template n (p : PutParams) (s : Scheme) (version : VersionId) (now : Z) (writers : list ShardWriter)
    : MetadataRecord := {|
  r_format_version := RECORD_FORMAT_VERSION; r_system := SYSTEM_NAME; r_bucket := lit "default"; r_key := pp_key p;
  r_key_hash := hash_key (as_bytes (pp_key p)); r_version := version; r_created := now; r_size := pp_size p;
  r_object_checksum := 0; r_k := wrap 8 (data_shards s); r_m := wrap 8 (parity_shards s);
  r_block_size := c_block_size (nd_document n);
  r_shards := (λ w, mkLocation (wr_index w) (wr_device w)) <$> writers;
  r_revision := 0; r_content_type := pp_content_type p; r_user_metadata := pp_user_metadata p |}.

Definition prepare_put n (p : PutParams) (version : VersionId) (now : Z) : call PreparedPut :=
  _ ← nlift (check_put n p);
  let document := nd_document n in
  s ← nlift (map_err (λ e, error Internal (CSchemeError e)) (document_scheme document));
  let key_hash := hash_key (as_bytes (pp_key p)) in
  existing ← lookup fuel n key_hash;
  _ ← looked_up (pp_key p) (versions_of (pp_key p) existing);
  statuses ← all_statuses n;
  shard_bytes ← nlift (if pp_size p =? 0 then Ok 0
                       else len ← shard_file_length s (c_block_size document) (pp_size p);
                            ok_or len (error Internal CShardSize));
  chosen ← nlift (place statuses s shard_bytes);
  writers ← nmapM (λ x : nat * DeviceStatus, open_writer n p s key_hash version x.1 x.2) (imap pair chosen);
  mret (mkPrepared s (record_template n p s version now writers) writers
          ((λ d, mkUnavailable (ds_device d) (ds_node d)) <$> active_unavailable statuses)).

(** ** The body *)

Definition send_stripe (writers : list ShardWriter) (code : ReedSolomonCode) (stripe : list Z) (record : MetadataRecord)
    (stripe_number : Z) : call unit :=
  blocks ← nlift (map_err (λ e, error Internal (CStripeError e)) (encode_stripe code stripe (r_block_size record)));
  nfold (λ _ (x : ShardWriter * ShardBlock),
    let '(w, b) := x in
    nmap_err (remote_failure (wr_owner w))
      (send_data (wr_channel w) (wr_request w) (mkDataFrame stripe_number (sb_checksum b) (sb_bytes b))))
    (zip writers blocks) tt.

(** [while !bytes.is_empty()]: fill the stripe, send it when it is full. *)
Fixpoint fill_stripes (fuel : nat) (writers : list ShardWriter) (code : ReedSolomonCode) (record : MetadataRecord)
    (stripe_size : nat) (bytes buffer : list Z) (stripe_number : Z) : call (list Z * Z) :=
  match bytes with
  | [] => mret (buffer, stripe_number)
  | _ =>
      match fuel with
      | O => still_running
      | S fuel =>
          let room := (stripe_size - length buffer)%nat in
          let take_ := Nat.min room (length bytes) in
          let buffer := buffer ++ take take_ bytes in
          let bytes := drop take_ bytes in
          if bool_decide (length buffer = stripe_size) then
            _ ← send_stripe writers code buffer record stripe_number;
            fill_stripes fuel writers code record stripe_size bytes [] (stripe_number + 1)
          else fill_stripes fuel writers code record stripe_size bytes buffer stripe_number
      end
  end.

(** One message of the body. *)
Definition receive_chunk (writers : list ShardWriter) (code : ReedSolomonCode) (record : MetadataRecord) (stripe_size : nat)
    (rv : Receiving) (data : DataFrame) : call Receiving :=
  _ ← nlift (ensure (sequence data =? rv_expected rv)
               (error ProtocolViolation (CBodyChunk (sequence data) (rv_expected rv))));
  _ ← nlift (ensure (checksum_block (df_bytes data) =? df_checksum data)
               (error ProtocolViolation (CBodyChecksum (sequence data))));
  let received := rv_received rv + Z.of_nat (length (df_bytes data)) in
  _ ← nlift (ensure (received <=? r_size record) (error ProtocolViolation (CBodyTooLong (r_size record))));
  '(buffer, stripe) ← fill_stripes (S (length (df_bytes data))) writers code record stripe_size (df_bytes data)
                        (rv_buffer rv) (rv_stripe rv);
  mret (mkReceiving (rv_hasher rv ++ df_bytes data) received (wrap64 (rv_expected rv + 1)) buffer stripe).

(** The client's stream, to its end. *)
Fixpoint receive_body (writers : list ShardWriter) (code : ReedSolomonCode) (record : MetadataRecord) (stripe_size : nat)
    (todo : list Incoming) (rv : Receiving) : call (Receiving * list Incoming) :=
  match todo with
  | [] => nthrow (FClose PeerClosed)
  | ReadFails e :: _ => nthrow (FClose e)
  | Arrives (MData _ data) :: rest =>
      rv ← receive_chunk writers code record stripe_size rv data;
      receive_body writers code record stripe_size rest rv
  | Arrives (MEndOfStream _ e) :: rest =>
      _ ← nlift match se_error e with
                | Some d => Err (error WriteFailed (CClientAbandoned (e_message d)))
                | None => Ok tt
                end;
      _ ← nlift (ensure (rv_received rv =? r_size record)
                   (error ProtocolViolation (CBodyShort (rv_received rv) (r_size record))));
      _ ← (match rv_buffer rv with
           | [] => mret tt
           | buffer => send_stripe writers code buffer record (rv_stripe rv)
           end : call unit);
      mret (rv, rest)
  | Arrives other :: _ => nthrow (error ProtocolViolation (CBodyMessage other))
  end.

Definition finish_writer (record : MetadataRecord) (checksum : BlockChecksum) (w : ShardWriter) : call unit :=
  nmap_err (remote_failure (wr_owner w))
    (send_end (wr_channel w) (wr_request w) (mkStreamEnd None (Some (r_size record)) (Some checksum) [] [])).

Definition await_writer (w : ShardWriter) : call unit :=
  answer ← nmap_err (remote_failure (wr_owner w)) (read_response (wr_channel w) (wr_request w));
  match answer with
  | PutShardDone => mret tt
  | other => nthrow (error ProtocolViolation (CEnded (wr_owner w) other))
  end.

Definition stream_body_to_writers (todo : list Incoming) (writers : list ShardWriter) (s : Scheme) (record : MetadataRecord)
    : call (BlockChecksum * list Incoming) :=
  code ← nlift (map_err (λ e : Empty_set, match e with end) (ReedSolomonCode_new s));
  let stripe_size := Z.to_nat (wrap64 (data_shards s * r_block_size record)) in
  '(rv, rest) ← receive_body writers code record stripe_size todo (mkReceiving [] 0 0 [] 0);
  let checksum := xxh3_64 (rv_hasher rv) in
  _ ← (if 0 <? r_size record then
         _ ← nfold (λ _ w, finish_writer record checksum w) writers tt;
         nfold (λ _ w, await_writer w) writers tt
       else mret tt : call unit);
  mret (checksum, rest).

Definition write_record_to (record : MetadataRecord) (w : ShardWriter) : call unit :=
  answer ← nmap_err (remote_failure (wr_owner w)) (request (wr_channel w) (PutMeta (wr_device w) record));
  match answer with
  | RespPutMeta => mret tt
  | other => nthrow (error ProtocolViolation (CAnswered (wr_owner w) (lit "PutMeta") other))
  end.

Definition write_records (writers : list ShardWriter) (record : MetadataRecord) : call unit :=
  nfold (λ _ w, write_record_to record w) writers tt.

(** ** The whole *)

Definition close_with (c : Conn) (id : Z) (f : Failure) : Ended :=
  match f with
  | FError d => fail_and_close c id d
  | other => (Err other, c)
  end.

(** Older versions of the key, deleted. *)
Definition replace_older n (record : MetadataRecord) : call unit :=
  located ← lookup fuel n (r_key_hash record);
  older ← looked_up (r_key record) (versions_of (r_key record) located);
  nfold (λ _ old, delete_version_everywhere n old)
    (filter (λ r, r_version r ≠ r_version record) older) tt.

Definition put_object n (id : Z) (c : Conn) (p : PutParams) (version : VersionId) (now : Z) : call Ended :=
  prepared ← nattempt (prepare_put n p version now);
  match prepared with
  | Panic => nlift Panic
  | Err f => mret (close_with c id f)
  | Ok pr =>
      let writers := pr_writers pr in
      let abort := abort_shard_writers writers (r_key_hash (pr_record pr)) version in
      outcome ← nattempt (stream_body_to_writers (cn_in c) writers (pr_scheme pr) (pr_record pr));
      match outcome with
      | Panic => nlift Panic
      | Err f => _ ← abort; mret (close_with c id f)
      | Ok (checksum, rest) =>
          let c := mkConn rest (cn_out c) (cn_room c) in
          let record := set_checksum (pr_record pr) checksum in
          written ← nattempt (write_records writers record);
          match written with
          | Panic => nlift Panic
          | Err f => _ ← abort; mret (close_with c id f)
          | Ok _ =>
              replaced ← nattempt (replace_older n record);
              match replaced with
              | Panic => nlift Panic
              | Err f => mret (close_with c id f)
              | Ok _ => mret (respond c id (Ok (RespPutObject version (pr_unavailable pr))))
              end
          end
      end
  end.
End put.
End Put.
