(* ===== verification/PutSpec.v ===== *)
(** What a write promises: where it places the shards, and what it has sent,
    and been told, in which order, when it reports success, whatever the
    nodes and the network do. *)

From S2P Require Import Prelude Text Checksum KeyHash VersionId Erasure XorCode Layout Stripe FileSystem ShardFile Record Device DeviceSpec Cluster Scrub Frame Handshake Message Node LocalOps LocalOpsSpec Lookup Connection Coordinator Log Get StoredObject GetSpec Put Serving Degraded.

Module PutSpec.
Import Message LocalOps LocalOpsSpec Lookup Connection Coordinator Log Get StoredObject GetSpec Put Serving Degraded.

(** ** Placement *)

Section place.
Context `{CoordTexts}.

(** Where a write goes: placement succeeds exactly when [k + m] devices
    are active, available and have room for a shard file; then it takes
    [k + m] of them, and no eligible device that was left out has more free
    space than one that was taken, nor as much with a smaller id. *)
Theorem place_best (statuses : list DeviceStatus) (s : Scheme) (shard_bytes : Z) :
  0 ≤ total_shards s →
  let candidates := filter (λ d, eligible shard_bytes d = true) statuses in
  (total_shards s ≤ Z.of_nat (length candidates) ↔ ∃ chosen, place statuses s shard_bytes = Ok chosen)
  ∧ ∀ chosen, place statuses s shard_bytes = Ok chosen →
      Z.of_nat (length chosen) = total_shards s
      ∧ ∃ rest, chosen ++ rest ≡ₚ candidates ∧ ∀ a b, a ∈ chosen → b ∈ rest → roomier a b.
Proof.
  intros Ht candidates. unfold place. fold candidates. set (sorted := merge_sort roomier candidates).
  assert (sorted ≡ₚ candidates) as Hperm by apply merge_sort_Permutation.
  assert (StronglySorted roomier sorted) as Hsorted.
  { apply StronglySorted_merge_sort.
    - intros a b c [?|[? ?]] [?|[? ?]]; unfold roomier; lia.
    - intros a b. unfold roomier. lia. }
  set (total := Z.to_nat (total_shards s)).
  split.
  - rewrite <- (Permutation_length Hperm). destruct (Nat.ltb_spec (length sorted) total); cbn; split; intros Hx; [lia|by destruct Hx|by eexists|lia].
  - intros chosen. destruct (Nat.ltb_spec (length sorted) total); cbn; [done|]. intros [= <-]. split; [rewrite length_take; lia|].
    exists (drop total sorted). rewrite take_drop. split; [done|]. intros a b Ha Hb.
    rewrite <- (take_drop total sorted) in Hsorted. by eapply StronglySorted_app_1_elem_of.
Qed.
End place.

(** ** The log *)

Section log.
Context {N : Type} `{Network N} `{CoordTexts} `{Sha256} `{Uuid} `{Xxh3} `{ReedSolomonLib} {TlsMaterial : Type}.
Implicit Types (s : Peers N) (n : Node TlsMaterial).

(** The steps that only have to add to the log. *)
Lemma lookup_prefix fuel n kh s r s' : lookup fuel n kh s = Some (r, s') → pe_log s `prefix_of` pe_log s'.
Proof. apply (adds_prefix (λ _, True)). adds. Qed.

Lemma all_statuses_prefix n s r s' : all_statuses n s = Some (r, s') → pe_log s `prefix_of` pe_log s'.
Proof. apply (adds_prefix (λ _, True)). unfold all_statuses. adds. Qed.

Lemma replace_older_prefix fuel n record s r s' :
  replace_older fuel n record s = Some (r, s') → pe_log s `prefix_of` pe_log s'.
Proof. apply (adds_prefix (λ _, True)). unfold replace_older, delete_version_everywhere. adds. Qed.

(** ** Stripes *)

Definition block_event (number : Z) (x : ShardWriter * ShardBlock) : Event :=
  Sent (wr_channel x.1) (MData (wr_request x.1) (mkDataFrame number (sb_checksum x.2) (sb_bytes x.2))).

(** The stripes from number [j] on, each encoded and sent, a block to each writer. *)
Inductive stripes_sent (writers : list ShardWriter) (code : ReedSolomonCode) (block_size : Z) : Z → list (list Z) → list Event → Prop :=
| sent_none j : stripes_sent writers code block_size j [] []
| sent_stripe j stripe blocks rest events :
    encode_stripe code stripe block_size = Ok blocks →
    stripes_sent writers code block_size (j + 1) rest events →
    stripes_sent writers code block_size j (stripe :: rest) ((block_event j <$> zip writers blocks) ++ events).

Lemma stripes_sent_app writers code bs j l1 e1 l2 e2 :
  stripes_sent writers code bs j l1 e1 → stripes_sent writers code bs (j + Z.of_nat (length l1)) l2 e2 →
  stripes_sent writers code bs j (l1 ++ l2) (e1 ++ e2).
Proof.
  induction 1 as [j|j stripe blocks rest events Henc Hs IH]; cbn [app length]; intros H2'.
  - by rewrite Z.add_0_r in H2'.
  - rewrite <- app_assoc. econstructor; [done|]. apply IH. replace (j + 1 + Z.of_nat (length rest)) with (j + Z.of_nat (Datatypes.S (length rest))) by lia. done.
Qed.

Lemma send_stripe_ok writers code stripe record number s u s' :
  send_stripe writers code stripe record number s = Some (Ok u, s') →
  ∃ blocks, encode_stripe code stripe (r_block_size record) = Ok blocks
    ∧ pe_log s' = pe_log s ++ (block_event number <$> zip writers blocks) ∧ length (pe_conns s') = length (pe_conns s).
Proof.
  unfold send_stripe. intros Hr. next Hr. apply lift_ok_inv in R as [Henc ->]. apply map_err_Ok in Henc.
  exists x. split; [done|].
  eapply (fold_log (λ y : ShardWriter * ShardBlock, let '(w, b) := y in nmap_err (remote_failure (wr_owner w))
      (send_data (wr_channel w) (wr_request w) (mkDataFrame number (sb_checksum b) (sb_bytes b))))
    (λ y e, e = [block_event number y])) in Hr as (es & Hes & Hl & Hc).
  - by rewrite Hl, (concat_singletons _ _ _ Hes).
  - intros [w b] t u' t' Hw. apply map_err_ok_inv in Hw. unfold send_data in Hw. apply map_err_ok_inv, write_ok in Hw as [Hl Hc].
    by eexists.
Qed.

Definition open_buffer (size : nat) (buffer : list Z) : Prop := buffer = [] ∨ (length buffer < size)%nat.

Lemma fill_stripes_ok writers code record size fuel : ∀ bytes buffer number s buffer' number' s',
  fill_stripes fuel writers code record size bytes buffer number s = Some (Ok (buffer', number'), s') →
  open_buffer size buffer →
  ∃ stripes events, stripes_sent writers code (r_block_size record) number stripes events
    ∧ Forall (λ st, length st = size) stripes ∧ buffer ++ bytes = concat stripes ++ buffer'
    ∧ number' = number + Z.of_nat (length stripes) ∧ open_buffer size buffer'
    ∧ pe_log s' = pe_log s ++ events ∧ length (pe_conns s') = length (pe_conns s).
Proof.
  induction fuel as [|fuel IH]; intros [|x bytes] buffer number s buffer' number' s' Hr Hb; cbn [fill_stripes] in Hr; try done.
  1-2: apply ret_ok_inv in Hr as [[= -> ->] ->]; exists [], []; rewrite !app_nil_r;
    split_and!; first [done|constructor|cbn; lia].
  set (all := x :: bytes) in *. set (taken := Nat.min (size - length buffer) (length all)) in *.
  assert (length (buffer ++ take taken all) = (length buffer + taken)%nat) as Hlen by (rewrite length_app, length_take; lia).
  assert (buffer ++ all = (buffer ++ take taken all) ++ drop taken all) as Hall by (by rewrite <- app_assoc, take_drop).
  case_bool_decide as Hfull.
  - next Hr. apply send_stripe_ok in R as (blocks & Henc & L1 & C1).
    apply IH in Hr as (stripes & events & Hs & Hf & Heq & -> & Hb' & L2 & C2); [|by left].
    exists ((buffer ++ take taken all) :: stripes), ((block_event number <$> zip writers blocks) ++ events).
    split_and!; [by econstructor|by constructor| |cbn; lia|done|by rewrite L2, L1, <- app_assoc|congruence].
    rewrite Hall. cbn [app concat]. cbn [app] in Heq. rewrite Heq. by rewrite !app_assoc.
  - apply IH in Hr as (stripes & events & Hs & Hf & Heq & Hn & Hb' & L2 & C2).
    + exists stripes, events. by rewrite Hall, Heq.
    + right. destruct Hb as [->|Hb]; cbn [app length] in *; lia.
Qed.

(** ** The client's stream *)

(** The messages of a whole body from sequence number [j] on. *)
Inductive body_stream : Z → list Incoming → list Z → list Incoming → Prop :=
| body_end j i e rest : se_error e = None → body_stream j (Arrives (MEndOfStream i e) :: rest) [] rest
| body_data j i data todo bytes rest :
    sequence data = j → df_checksum data = checksum_block (df_bytes data) →
    body_stream (wrap64 (j + 1)) todo bytes rest →
    body_stream j (Arrives (MData i data) :: todo) (df_bytes data ++ bytes) rest.

Lemma receive_body_ok writers code record size todo : ∀ rv s rv' rest s',
  receive_body writers code record size todo rv s = Some (Ok (rv', rest), s') → open_buffer size (rv_buffer rv) →
  ∃ bytes stripes events, body_stream (rv_expected rv) todo bytes rest
    ∧ rv_hasher rv' = rv_hasher rv ++ bytes ∧ rv_received rv + Z.of_nat (length bytes) = r_size record
    ∧ stripes_sent writers code (r_block_size record) (rv_stripe rv) stripes events
    ∧ cut_into size stripes ∧ rv_buffer rv ++ bytes = concat stripes
    ∧ pe_log s' = pe_log s ++ events ∧ length (pe_conns s') = length (pe_conns s).
Proof.
  induction todo as [|i todo IH]; intros rv s rv' rest s' Hr Hb; cbn [receive_body] in Hr; [done|].
  destruct i as [m|e]; [|done]. destruct m as [hello|got request|got response|got data|got e]; try done.
  - next Hr. unfold receive_chunk in R. next R. next R. next R. next R.
    apply lift_ok_inv in R0 as [Hseq%ensure_Ok%Z.eqb_eq ->]. apply lift_ok_inv in R1 as [Hck%ensure_Ok%Z.eqb_eq ->].
    apply lift_ok_inv in R2 as [_ ->]. destruct x3 as [buffer number].
    apply fill_stripes_ok in R3 as (stripes & events & Hs & Hf & Heq & -> & Hb' & L1 & C1); [|done].
    apply ret_ok_inv in R as [-> ->]. apply IH in Hr as (bytes & stripes2 & events2 & Hst & Hh & Hsz & Hs2 & Hcut & Hcat & L2 & C2); [|done].
    cbn [rv_expected rv_hasher rv_received rv_stripe rv_buffer] in *.
    exists (df_bytes data ++ bytes), (stripes ++ stripes2), (events ++ events2). split_and!.
    + by constructor.
    + by rewrite Hh, <- app_assoc.
    + rewrite length_app. lia.
    + by eapply stripes_sent_app.
    + by apply cut_into_app.
    + by rewrite app_assoc, Heq, concat_app, <- app_assoc, Hcat.
    + by rewrite L2, L1, <- app_assoc.
    + congruence.
  - destruct (se_error e) as [d|] eqn:He; [by next Hr|]. next Hr. apply lift_ok_inv in R as [_ ->]. next Hr.
    apply lift_ok_inv in R as [Hsz%ensure_Ok%Z.eqb_eq ->]. next Hr. apply ret_ok_inv in Hr as [[= -> ->] ->].
    destruct (rv_buffer rv) as [|b buffer] eqn:Hbuf.
    + apply ret_ok_inv in R as [_ ->]. exists [], [], []. rewrite !app_nil_r. split_and!; try done; [by constructor|cbn; lia|constructor|].
      exists [], []. split_and!; [done|constructor|by left].
    + apply send_stripe_ok in R as (blocks & Henc & L1 & C1). exists [], [b :: buffer], ((block_event (rv_stripe rv) <$> zip writers blocks) ++ []).
      split_and!; [by constructor|by rewrite app_nil_r|cbn; lia|econstructor; [done|constructor]| |cbn; by rewrite !app_nil_r|by rewrite app_nil_r|done].
      exists [], [b :: buffer]. split_and!; [done|constructor|]. right. eexists. split; [done|].
      destruct Hb as [|Hb]; [done|]. cbn in *. lia.
Qed.

(** The stripes sent are the stripes of the body. *)
Lemma sent_chunks writers code bs j size stripes events :
  stripes_sent writers code bs j stripes events → cut_into size stripes → stripes = chunks size (concat stripes).
Proof.
  intros Hs Hcut. destruct (decide (0 < size)%nat) as [Hp|Hp]; [by rewrite cut_chunks|].
  destruct Hcut as (full & tail & -> & Hf & [->|(t & _ & Ht)]); [|lia].
  destruct Hf as [|st full Hst _]; [done|]. exfalso. destruct st as [|z st]; [|cbn in Hst; lia].
  inversion Hs as [|? ? ? ? ? Henc]; subst. unfold encode_stripe in Henc. done.
Qed.

(** ** The writers *)

(** How a writer was opened: a connection of its own and, unless the object
    is empty, the request for its shard, answered ready. *)
Definition opened_as n (p : PutParams) (sch : Scheme) (version : VersionId) (x : nat * DeviceStatus) (w : ShardWriter)
    (events : list Event) : Prop :=
  let ch := wr_channel w in
  wr_index w = wrap 8 (Z.of_nat x.1) ∧ wr_device w = ds_device x.2 ∧ wr_owner w = ds_node x.2
  ∧ ∃ hello, events = [Opened ch; Sent ch (MHello (our_hello n)); Got ch (MHello hello)]
      ++ if 0 <? pp_size p
         then [Sent ch (MRequest (wr_request w) (PutShard (wr_device w) (hash_key (as_bytes (pp_key p))) version (wr_index w)
                  (wrap 8 (data_shards sch)) (wrap 8 (parity_shards sch)) (c_block_size (nd_document n)) (pp_size p)));
               Got ch (MResponse (wr_request w) PutShardReady)]
         else [].

Lemma open_writer_ok n p sch version i status s w s' :
  open_writer n p sch (hash_key (as_bytes (pp_key p))) version i status s = Some (Ok w, s') →
  ∃ e, opened_as n p sch version (i, status) w e ∧ pe_log s' = pe_log s ++ e
    ∧ wr_channel w = length (pe_conns s) ∧ length (pe_conns s') = Datatypes.S (length (pe_conns s)).
Proof.
  unfold open_writer. intros Hr. next Hr. apply connect_ok in R as (-> & C1 & hello & L1). next Hr.
  apply ret_ok_inv in Hr as [-> ->]. unfold opened_as. cbn. destruct (0 <? pp_size p).
  - next R. next R. apply map_err_ok_inv, send_request_ok in R0 as [L2 C2]. apply map_err_ok_inv, read_response_ok in R1 as [L3 C3].
    destruct x1; try done. apply ret_ok_inv in R as [-> ->]. eexists. split; [split_and!; [done|done|done|by eexists]|]. split_and!; [|done|lia].
    rewrite L3, L2, L1, <- !app_assoc. done.
  - apply ret_ok_inv in R as [-> ->]. eexists. split; [split_and!; [done|done|done|by eexists]|]. split_and!; [by rewrite L1|done|done].
Qed.

Lemma open_writers_ok n p sch version l s ws s' :
  nmapM (λ x : nat * DeviceStatus, open_writer n p sch (hash_key (as_bytes (pp_key p))) version x.1 x.2) l s = Some (Ok ws, s') →
  ∃ es, Forall3 (opened_as n p sch version) l ws es ∧ pe_log s' = pe_log s ++ concat es
    ∧ wr_channel <$> ws = seq (length (pe_conns s)) (length l).
Proof.
  intros Hr. apply (mapM_log _ (opened_as n p sch version) wr_channel) in Hr as (es & Hes & L & C & _); [by exists es|].
  intros [i st] t w t'. apply open_writer_ok.
Qed.

Definition end_event (size : Z) (checksum : BlockChecksum) (w : ShardWriter) : Event :=
  Sent (wr_channel w) (MEndOfStream (wr_request w) (mkStreamEnd None (Some size) (Some checksum) [] [])).
Definition done_event (w : ShardWriter) : Event := Got (wr_channel w) (MResponse (wr_request w) PutShardDone).

Definition finish_events (size : Z) (checksum : BlockChecksum) (writers : list ShardWriter) : list Event :=
  if 0 <? size then (end_event size checksum <$> writers) ++ (done_event <$> writers) else [].

(** The record sent on a writer's connection and acknowledged. *)
Definition record_written (record : MetadataRecord) (w : ShardWriter) (events : list Event) : Prop :=
  ∃ id, events = [Sent (wr_channel w) (MRequest id (PutMeta (wr_device w) record)); Got (wr_channel w) (MResponse id RespPutMeta)].

Lemma finish_writer_ok record checksum w s u s' :
  finish_writer record checksum w s = Some (Ok u, s') →
  ∃ e, e = [end_event (r_size record) checksum w] ∧ pe_log s' = pe_log s ++ e ∧ length (pe_conns s') = length (pe_conns s).
Proof. intros Hw. apply map_err_ok_inv in Hw. unfold send_end in Hw. apply map_err_ok_inv, write_ok in Hw as [L C]. by eexists. Qed.

Lemma await_writer_ok w s u s' :
  await_writer w s = Some (Ok u, s') →
  ∃ e, e = [done_event w] ∧ pe_log s' = pe_log s ++ e ∧ length (pe_conns s') = length (pe_conns s).
Proof.
  unfold await_writer. intros Hw. next Hw. apply map_err_ok_inv, read_response_ok in R as [L C]. destruct x; try done.
  apply ret_ok_inv in Hw as [_ ->]. by eexists.
Qed.

Lemma stream_body_ok todo writers sch record s checksum rest s' :
  stream_body_to_writers todo writers sch record s = Some (Ok (checksum, rest), s') →
  ∃ code body events, ReedSolomonCode_new sch = Ok code ∧ body_stream 0 todo body rest
    ∧ Z.of_nat (length body) = r_size record ∧ checksum = xxh3_64 body
    ∧ stripes_sent writers code (r_block_size record) 0
        (chunks (Z.to_nat (wrap64 (data_shards sch * r_block_size record))) body) events
    ∧ pe_log s' = pe_log s ++ events ++ finish_events (r_size record) checksum writers.
Proof.
  unfold stream_body_to_writers. intros Hr. next Hr. apply lift_ok_inv in R as [Hcode ->]. apply map_err_Ok in Hcode. next Hr.
  destruct x0 as [rv rest']. apply receive_body_ok in R as (body & stripes & events & Hst & Hh & Hsz & Hs & Hcut & Hcat & L1 & C1); [|by left].
  cbn [rv_expected rv_hasher rv_received rv_stripe rv_buffer app] in *. next Hr. apply ret_ok_inv in Hr as [[= -> ->] ->].
  rewrite Hh in *. exists x, body, events. split_and!; [done|done|lia|done| |].
  - rewrite Hcat, <- (sent_chunks _ _ _ _ _ _ _ Hs Hcut). done.
  - unfold finish_events. destruct (0 <? r_size record).
    + next R. apply (fold_log (finish_writer record (xxh3_64 body)) (λ w e, e = [end_event (r_size record) (xxh3_64 body) w])) in R0 as (es & Hes & L2 & _); [|intros ? ? ? ?; apply finish_writer_ok].
      apply (fold_log await_writer (λ w e, e = [done_event w])) in R as (es2 & Hes2 & L3 & _); [|intros ? ? ? ?; apply await_writer_ok].
      by rewrite L3, L2, L1, (concat_singletons _ _ _ Hes), (concat_singletons _ _ _ Hes2), <- !app_assoc.
    + apply ret_ok_inv in R as [_ ->]. by rewrite app_nil_r.
Qed.

Lemma write_records_ok writers record s u s' :
  write_records writers record s = Some (Ok u, s') →
  ∃ es, Forall2 (record_written record) writers es ∧ pe_log s' = pe_log s ++ concat es.
Proof.
  intros Hr. apply (fold_log (write_record_to record) (record_written record)) in Hr as (es & Hes & L & _); [by exists es|].
  intros w q1 v q2 Hw. unfold write_record_to in Hw. next Hw. apply map_err_ok_inv in R. unfold request in R. next R.
  apply send_request_ok in R0 as [L1 C1]. apply read_response_ok in R as [L2 C2]. destruct x; try done.
  apply ret_ok_inv in Hw as [_ ->]. eexists. split; [by eexists|]. rewrite L2, L1, <- app_assoc. split; [done|congruence].
Qed.

Lemma prepare_put_ok fuel n p version now s pr s' :
  prepare_put fuel n p version now s = Some (Ok pr, s') →
  ∃ statuses shard_bytes chosen before opens,
    document_scheme (nd_document n) = Ok (pr_scheme pr) ∧ check_put n p = Ok tt
    ∧ place statuses (pr_scheme pr) shard_bytes = Ok chosen
    ∧ pr_record pr = record_template n p (pr_scheme pr) version now (pr_writers pr)
    ∧ pe_log s `prefix_of` before ∧ pe_log s' = before ++ concat opens
    ∧ Forall3 (opened_as n p (pr_scheme pr) version) (imap pair chosen) (pr_writers pr) opens
    ∧ ∃ first, wr_channel <$> pr_writers pr = seq first (length chosen).
Proof.
  unfold prepare_put. intros Hr. next Hr. apply lift_ok_inv in R as [Hc ->]. destruct x.
  next Hr. apply lift_ok_inv in R as [Hs ->]. apply map_err_Ok in Hs.
  next Hr. apply lookup_prefix in R. rename R into P1. next Hr. apply lift_ok_inv in R as [_ ->].
  next Hr. apply all_statuses_prefix in R. rename R into P2. next Hr. apply lift_ok_inv in R as [_ ->].
  next Hr. apply lift_ok_inv in R as [Hp ->]. next Hr. apply open_writers_ok in R as (es & Hos & L & Hch).
  apply ret_ok_inv in Hr as [-> ->]. cbn. rewrite length_imap in Hch.
  do 5 eexists. split_and!; [done|done|done|done|by etrans|done|done|by eexists].
Qed.

(** What a successful write has done: [record] is what it stored. *)
Definition write_committed n (c : Conn) (p : PutParams) (version : VersionId) (now : Z) (log log' : list Event)
    (sch : Scheme) (code : ReedSolomonCode) (writers : list ShardWriter) (body : list Z) (sends : list Event)
    (record : MetadataRecord) : Prop :=
  ∃ statuses shard_bytes chosen rest before opens writes after first,
    check_put n p = Ok tt ∧ document_scheme (nd_document n) = Ok sch ∧ ReedSolomonCode_new sch = Ok code
    ∧ place statuses sch shard_bytes = Ok chosen
    ∧ body_stream 0 (cn_in c) body rest ∧ Z.of_nat (length body) = pp_size p
    ∧ record = set_checksum (record_template n p sch version now writers) (checksum_block body)
    ∧ log `prefix_of` before
    ∧ log' = before ++ concat opens ++ sends ++ finish_events (pp_size p) (checksum_block body) writers ++ concat writes ++ after
    ∧ Forall3 (opened_as n p sch version) (imap pair chosen) writers opens
    ∧ wr_channel <$> writers = seq first (length chosen)
    ∧ stripes_sent writers code (c_block_size (nd_document n)) 0
        (chunks (Z.to_nat (wrap64 (data_shards sch * c_block_size (nd_document n)))) body) sends
    ∧ Forall2 (record_written record) writers writes.

Lemma put_object_committed (fuel : nat) n (id : Z) (c c' : Conn) (p : PutParams) (version : VersionId) (now : Z) s s' :
  put_object fuel n id c p version now s = Some (Ok (Ok tt, c'), s') →
  ∃ sch code writers body sends record unavailable,
    write_committed n c p version now (pe_log s) (pe_log s') sch code writers body sends record
    ∧ cn_out c' = cn_out c ++ [MResponse id (RespPutObject version unavailable)].
Proof.
  unfold put_object. intros Hr. next Hr. apply attempt_ok_inv in R. destruct x as [pr|f|]; [|exfalso|done].
  2: { apply ret_ok_inv in Hr as [Hf _]. destruct f as [d|e]; [|done]. unfold close_with, fail_and_close in Hf. by destruct (send _ _). }
  apply prepare_put_ok in R as (statuses & shard_bytes & chosen & before & opens & Hs & Hck & Hpl & Hrec & Hpre & L1 & Hop & first & Hch).
  next Hr. apply attempt_ok_inv in R. destruct x as [[checksum rest]|f|]; [|exfalso|done].
  2: { next Hr. apply ret_ok_inv in Hr as [Hf _]. destruct f as [d|e]; [|done]. unfold close_with, fail_and_close in Hf. by destruct (send _ _). }
  apply stream_body_ok in R as (code & body & sends & Hcode & Hst & Hlen & -> & Hsent & L2).
  next Hr. apply attempt_ok_inv in R. destruct x as [[]|f|]; [|exfalso|done].
  2: { next Hr. apply ret_ok_inv in Hr as [Hf _]. destruct f as [d|e]; [|done]. unfold close_with, fail_and_close in Hf. by destruct (send _ _). }
  apply write_records_ok in R as (writes & Hw & L3).
  next Hr. apply attempt_ok_inv in R. destruct x as [[]|f|]; [|exfalso|done].
  2: { apply ret_ok_inv in Hr as [Hf _]. destruct f as [d|e]; [|done]. unfold close_with, fail_and_close in Hf. by destruct (send _ _). }
  apply replace_older_prefix in R as [after L4]. apply ret_ok_inv in Hr as [Hresp ->].
  rewrite Hrec in *. cbn [r_size r_block_size record_template] in *.
  exists (pr_scheme pr), code, (pr_writers pr), body, sends,
    (set_checksum (record_template n p (pr_scheme pr) version now (pr_writers pr)) (checksum_block body)), (pr_unavailable pr).
  split.
  - exists statuses, shard_bytes, chosen, rest, before, opens, writes, after, first.
    split_and!; [done|done|done|done|done|done|reflexivity|done| |done|done|done|done].
    by rewrite L4, L3, L2, L1, <- !app_assoc.
  - unfold respond in Hresp. destruct (send_written (mkConn rest (cn_out c) (cn_room c)) (MResponse id (RespPutObject version (pr_unavailable pr))))
      as (new & Hwr & _ & Hok & _). rewrite <- Hresp in Hwr, Hok. cbn [fst snd] in *. rewrite (Hok eq_refl) in Hwr. exact Hwr.
Qed.

(** C3. The order of a write, whatever nodes and network do: a [put_object]
    that ends well has checked the request and placed the object; the client's
    stream was complete, in order, each chunk matching its checksum, and of
    the size announced; it then opened a stream of its own to each chosen
    device, sent each its block of every stripe of the body, encoded in order,
    ended every stream with the object's size and checksum and was told by
    every node that the shard is stored; only after that it sent the record,
    with that checksum and those devices, to every device, and every one
    acknowledged it; what follows in the log, the deletion of older versions
    included, came after; and the client is told the version. *)
Theorem put_object_protocol (fuel : nat) n (id : Z) (c c' : Conn) (p : PutParams) (version : VersionId) (now : Z) s s' :
  put_object fuel n id c p version now s = Some (Ok (Ok tt, c'), s') →
  ∃ sch code writers body sends record unavailable,
    write_committed n c p version now (pe_log s) (pe_log s') sch code writers body sends record
    ∧ r_version record = version ∧ r_key record = pp_key p ∧ r_shards record = (λ w, mkLocation (wr_index w) (wr_device w)) <$> writers
    ∧ cn_out c' = cn_out c ++ [MResponse id (RespPutObject version unavailable)].
Proof.
  intros Hr. destruct (put_object_committed _ _ _ _ _ _ _ _ _ _ Hr) as (sch & code & writers & body & sends & record & un & Hw & Ho).
  exists sch, code, writers, body, sends, record, un. split; [done|].
  destruct Hw as (? & ? & ? & ? & ? & ? & ? & ? & ? & _ & _ & _ & _ & _ & _ & -> & _). done.
Qed.

(** ** Columns *)

Lemma sent_on_others number writers : ∀ blocks ch,
  ch ∉ wr_channel <$> writers → sent_on ch (block_event number <$> zip writers blocks) = [].
Proof.
  induction writers as [|w writers IH]; intros [|b blocks] ch Hn; try done. cbn in Hn. apply not_elem_of_cons in Hn as [Hne Hn].
  cbn. rewrite decide_False by congruence. by apply IH.
Qed.

Lemma sent_on_stripe number writers : ∀ blocks i w b,
  NoDup (wr_channel <$> writers) → writers !! i = Some w → blocks !! i = Some b →
  sent_on (wr_channel w) (block_event number <$> zip writers blocks)
  = [MData (wr_request w) (mkDataFrame number (sb_checksum b) (sb_bytes b))].
Proof.
  induction writers as [|w0 writers IH]; intros [|b0 blocks] [|i] w b Hnd Hw Hb; try done; cbn in Hnd; apply NoDup_cons in Hnd as [Hni Hnd].
  - cbn in Hw, Hb. simplify_eq. cbn. rewrite decide_True by done. f_equal. by apply sent_on_others.
  - cbn in Hw, Hb. cbn [zip zip_with fmap list_fmap].
    change (sent_on (wr_channel w) ([block_event number (w0, b0)] ++ (block_event number <$> zip writers blocks))
      = [MData (wr_request w) (mkDataFrame number (sb_checksum b) (sb_bytes b))]).
    assert (wr_channel w0 ≠ wr_channel w) as Hne.
    { intros Heq. apply Hni. rewrite Heq. apply list_elem_of_fmap_2. by eapply list_elem_of_lookup_2. }
    rewrite sent_on_app. cbn. rewrite decide_False by done. cbn [app]. by apply (IH blocks i).
Qed.

(** The blocks of shard [i], stripe by stripe. *)
Definition column (encoded : list (list ShardBlock)) (i : nat) : list block :=
  (λ blocks, default [] (sb_bytes <$> (blocks : list ShardBlock) !! i)) <$> encoded.

(** Each writer is sent the column of its shard. *)
Lemma stripes_sent_columns writers code bs j stripes events :
  code_ok code → NoDup (wr_channel <$> writers) → stripes_sent writers code bs j stripes events →
  ∃ encoded, Forall2 (λ st blocks, encode_stripe code st bs = Ok blocks) stripes encoded
    ∧ ∀ i w, writers !! i = Some w → Z.of_nat i < total_shards (scheme code) →
        sent_on (wr_channel w) events = data_messages (wr_request w) j (column encoded i).
Proof.
  intros Hok Hnd. induction 1 as [j|j stripe blocks rest events Henc Hs IH]; [by exists []; split; [constructor|]|].
  destruct IH as (encoded & Hall & Hsent). exists (blocks :: encoded). split; [by constructor|]. intros i w Hw Hi.
  destruct (encoded_block code stripe bs blocks (Z.of_nat i) Hok Henc) as (bytes & Hb); [lia|]. rewrite Nat2Z.id in Hb.
  rewrite sent_on_app, (sent_on_stripe _ _ _ i w _ Hnd Hw Hb), (Hsent i w Hw Hi).
  unfold column. rewrite fmap_cons, Hb, data_messages_cons. done.
Qed.

Lemma data_streamed id size ock blocks : ∀ j rest, 0 ≤ j → j + Z.of_nat (length blocks) < 2 ^ 64 →
  streamed id size ock j ((Arrives <$> data_messages id j blocks)
    ++ Arrives (MEndOfStream id (mkStreamEnd None (Some size) (Some ock) [] [])) :: rest) blocks.
Proof.
  induction blocks as [|b blocks IH]; intros j rest Hj Hb; [by apply streamed_end|]. rewrite data_messages_cons.
  cbn [fmap list_fmap app]. cbn [length] in Hb. apply (streamed_data _ _ _ _ (mkDataFrame j (checksum_block b) b)); [done|done|].
  unfold wrap. rewrite Z.mod_small by lia. apply IH; lia.
Qed.

(** The devices of the record, by shard. *)
Lemma template_device n p sch version now ws i w checksum :
  (∀ j x, ws !! j = Some x → wr_index x = Z.of_nat j) → ws !! i = Some w →
  device_for (set_checksum (record_template n p sch version now ws) checksum) (Z.of_nat i) = Some (wr_device w).
Proof.
  intros Hix Hw. unfold device_for. cbn [r_shards set_checksum record_template].
  assert (∀ off, (∀ j x, ws !! j = Some x → wr_index x = Z.of_nat (off + j)) →
    find_device ((λ w, mkLocation (wr_index w) (wr_device w)) <$> ws) (Z.of_nat (off + i)) = Some (wr_device w)) as Hgo; [|by apply (Hgo O)].
  clear Hix. revert i Hw. induction ws as [|x ws IH]; intros [|i] Hw off Hix; try done; cbn in *; simplify_eq.
  - rewrite (Hix O _ eq_refl), Z.eqb_refl. done.
  - rewrite (Hix O x eq_refl). destruct (Z.eqb_spec (Z.of_nat (off + 0)) (Z.of_nat (off + Datatypes.S i))); [lia|].
    replace (off + Datatypes.S i)%nat with (Datatypes.S off + i)%nat by lia. apply IH; [done|]. intros j y Hy.
    rewrite (Hix (Datatypes.S j) y Hy). f_equal. lia.
Qed.

(** The end of its stream, on each connection. *)
Lemma sent_on_finish size checksum writers i w :
  NoDup (wr_channel <$> writers) → writers !! i = Some w → 0 < size →
  sent_on (wr_channel w) (finish_events size checksum writers)
  = [MEndOfStream (wr_request w) (mkStreamEnd None (Some size) (Some checksum) [] [])].
Proof.
  intros Hnd Hw Hs. unfold finish_events. rewrite (proj2 (Z.ltb_lt _ _)) by done. rewrite sent_on_app.
  assert (∀ l ch, sent_on ch (done_event <$> l) = []) as -> by (induction l; done). rewrite app_nil_r.
  assert (∀ l ch, ch ∉ wr_channel <$> l → sent_on ch (end_event size checksum <$> l) = []) as Hnone.
  { induction l as [|x l IH]; intros ch Hn; [done|]. cbn in Hn. apply not_elem_of_cons in Hn as [Hne Hn].
    cbn. rewrite decide_False by congruence. by apply IH. }
  revert i Hw. induction writers as [|x ws IH]; intros i Hw; [done|]. cbn in Hnd. apply NoDup_cons in Hnd as [Hni Hnd].
  destruct i as [|i]; cbn in Hw.
  - simplify_eq. cbn. rewrite decide_True by done. f_equal. by apply Hnone.
  - change (sent_on (wr_channel w) ([end_event size checksum x] ++ (end_event size checksum <$> ws))
      = [MEndOfStream (wr_request w) (mkStreamEnd None (Some size) (Some checksum) [] [])]). rewrite sent_on_app. cbn.
    rewrite decide_False; [by apply (IH Hnd i)|]. intros Heq. apply Hni. rewrite Heq. apply list_elem_of_fmap_2. by eapply list_elem_of_lookup_2.
Qed.

Lemma place_length statuses sch sb chosen :
  place statuses sch sb = Ok chosen → length chosen = Z.to_nat (total_shards sch).
Proof.
  unfold place. match goal with |- context [negb (length ?l <? ?t)%nat] => destruct (Nat.ltb_spec (length l) t) end; cbn; [done|].
  intros [= <-]. rewrite length_take. lia.
Qed.

(** The columns of an encoded body are what an object stored consists of. *)
Lemma columns_stored n p sch code version now writers body encoded :
  document_ok (nd_document n) → is_u64 (pp_size p) → Z.of_nat (length body) = pp_size p →
  sch = mkScheme (c_k (nd_document n)) (c_m (nd_document n)) → scheme code = sch → code_ok code → ReedSolomonCode_new sch = Ok code →
  let record := set_checksum (record_template n p sch version now writers) (checksum_block body) in
  Forall2 (λ st blocks, encode_stripe code st (c_block_size (nd_document n)) = Ok blocks) (chunks (stripe_bytes record code) body) encoded →
  object_stored record code body (column encoded <$> seq 0 (Z.to_nat (total_shards sch))).
Proof.
  intros Hdoc Hu Hlen Hsch Hsc Hok Hnew record Henc. pose proof (dok_scheme _ Hdoc) as Hs. pose proof (dok_block_size _ Hdoc) as [Hbs _].
  destruct Hs as [Hk Hm]. unfold MAX_DATA_SHARDS, MAX_PARITY_SHARDS, MIN_BLOCK_SIZE_BYTES, MAX_BLOCK_SIZE_BYTES in *. cbn [data_shards parity_shards] in *.
  split; cbn [r_size r_block_size r_object_checksum record set_checksum record_template] in *.
  - unfold record_scheme. cbn. rewrite Hsc, Hsch. cbn. unfold wrap. rewrite !Z.mod_small by lia.
    apply Scheme_new_Ok; [unfold is_uint; lia|unfold is_uint; lia|]. split; [done|]. apply (dok_scheme _ Hdoc).
  - by rewrite Hsc.
  - done.
  - by rewrite Hlen.
  - done.
  - done.
  - lia.
  - rewrite Hsc, Hsch. cbn. nia.
  - intros j stripe Hj. destruct (Forall2_lookup_l _ _ _ _ _ Henc Hj) as (blocks & Hb & He). exists blocks. split; [done|].
    intros i b Hi. exists (column encoded i). apply encoded_blocks_length in He as Hl; [|done]. rewrite Hsc in Hl.
    apply lookup_lt_Some in Hi as Hlt. split.
    + rewrite list_lookup_fmap, lookup_seq_lt by lia. done.
    + unfold column. rewrite list_lookup_fmap, Hb. cbn. by rewrite Hi.
  - apply Forall_fmap, Forall_true. intros i. unfold compose, column. rewrite length_fmap. symmetry. by eapply Forall2_length.
Qed.

(** What the node of a writer is sent for its shard, after the request. *)
Definition shard_stream (size : Z) (checksum : BlockChecksum) (writers : list ShardWriter) (sends : list Event) (w : ShardWriter)
    : list Incoming := Arrives <$> sent_on (wr_channel w) (sends ++ finish_events size checksum writers).

Lemma put_object_stores (fuel : nat) n (id : Z) (c c' : Conn) (p : PutParams) (version : VersionId) (now : Z) s s' :
  put_object fuel n id c p version now s = Some (Ok (Ok tt, c'), s') →
  document_ok (nd_document n) → 0 < pp_size p < 2 ^ 64 →
  (0 < c_m (nd_document n) → rs_correct (Z.to_nat (c_k (nd_document n))) (Z.to_nat (c_m (nd_document n)))) →
  ∃ sch code writers body sends record cols rest,
    write_committed n c p version now (pe_log s) (pe_log s') sch code writers body sends record
    ∧ body_stream 0 (cn_in c) body rest ∧ object_stored record code body cols ∧ length cols = length writers
    ∧ ∀ i w, writers !! i = Some w → ∃ col, cols !! i = Some col
        ∧ device_for record (Z.of_nat i) = Some (wr_device w)
        ∧ streamed (wr_request w) (pp_size p) (checksum_block body) 0
            (shard_stream (pp_size p) (checksum_block body) writers sends w) col.
Proof.
  intros Hr Hdoc Hsize Hrs. destruct (put_object_committed _ _ _ _ _ _ _ _ _ _ Hr) as (sch & code & writers & body & sends & record & un & Hw & _).
  pose proof Hw as (statuses & sb & chosen & rest & before & opens & writes & after & first & _ & Hsch & Hcode & Hpl & Hst & Hlen & Hrec & _ & _ & Hop & Hch & Hsent & _).
  pose proof (dok_scheme _ Hdoc) as Hsok. pose proof (dok_block_size _ Hdoc) as [Hbs _]. pose proof Hsok as [Hk Hm].
  unfold MAX_DATA_SHARDS, MAX_PARITY_SHARDS, MIN_BLOCK_SIZE_BYTES, MAX_BLOCK_SIZE_BYTES in *. cbn [data_shards parity_shards] in *.
  apply Scheme_new_Ok in Hsch as [Hsch _]; [|unfold is_uint; lia..].
  destruct (ReedSolomonCode_new_Ok sch) as (code' & Hnew & Hsc & Hok); [by rewrite Hsch|by rewrite Hsch|].
  rewrite Hnew in Hcode. injection Hcode as ->.
  assert (NoDup (wr_channel <$> writers)) as Hnd by (rewrite Hch; apply NoDup_seq).
  assert (length writers = Z.to_nat (total_shards sch)) as Hwl.
  { rewrite <- (length_fmap wr_channel), Hch, length_seq. by eapply place_length. }
  destruct (stripes_sent_columns _ _ _ _ _ _ Hok Hnd Hsent) as (encoded & Henc & Hcols).
  assert (Z.to_nat (wrap64 (data_shards sch * c_block_size (nd_document n))) = stripe_bytes record code) as Hsb.
  { unfold stripe_bytes. rewrite Hrec, Hsc. cbn. unfold wrap. rewrite Z.mod_small; [done|]. rewrite Hsch. cbn. nia. }
  rewrite Hsb in Henc.
  exists sch, code, writers, body, sends, record, (column encoded <$> seq 0 (Z.to_nat (total_shards sch))), rest.
  split_and!; [done|done| |by rewrite length_fmap, length_seq|].
  { rewrite Hrec in Henc |- *. eapply columns_stored; try done; [unfold is_uint; lia]. }
  intros i w Hi. apply lookup_lt_Some in Hi as Hlt. exists (column encoded i). split_and!.
  - rewrite list_lookup_fmap, lookup_seq_lt by lia. done.
  - rewrite Hrec. apply template_device; [|done]. intros j x Hx.
    destruct (Forall3_lookup_m _ _ _ _ _ _ Hop Hx) as ([j' st] & e & Hj & _ & Hidx & _).
    rewrite list_lookup_imap in Hj. destruct (chosen !! j); [|done]. injection Hj as <- _. rewrite Hidx. cbn [fst].
    apply lookup_lt_Some in Hx. unfold wrap. rewrite Z.mod_small; [done|]. rewrite Hsch in Hwl. unfold total_shards in Hwl. cbn in Hwl. lia.
  - assert (Z.of_nat i < total_shards (scheme code)) as Hit by (rewrite Hsc; lia). destruct Hsize as [Hsz Hsz'].
    unfold shard_stream. rewrite sent_on_app, (Hcols i w Hi Hit), (sent_on_finish _ _ _ i w Hnd Hi Hsz), fmap_app.
    apply data_streamed; [lia|]. unfold column. rewrite length_fmap, <- (Forall2_length _ _ _ Henc).
    assert (0 < stripe_bytes record code)%nat as Hpos by (rewrite <- Hsb; unfold wrap; rewrite Hsch; cbn; rewrite Z.mod_small; nia).
    pose proof (length_chunks_le (stripe_bytes record code) body Hpos). lia.
Qed.

(** C2. A write leaves what a read needs: when [put_object] has ended well for
    an object that is not empty, the record and the columns of blocks it sent
    are an object stored ([object_stored], what [degraded_read] asks for): the
    body is the one the client streamed; and the node of shard [i], on the
    device the record lists for [i], was sent exactly column [i], as the whole
    stream that [put_shard] stores. *)
Theorem put_stores_object (fuel : nat) n (id : Z) (c c' : Conn) (p : PutParams) (version : VersionId) (now : Z) s s' :
  put_object fuel n id c p version now s = Some (Ok (Ok tt, c'), s') →
  document_ok (nd_document n) → 0 < pp_size p < 2 ^ 64 →
  (0 < c_m (nd_document n) → rs_correct (Z.to_nat (c_k (nd_document n))) (Z.to_nat (c_m (nd_document n)))) →
  ∃ sch code writers body sends record cols rest,
    write_committed n c p version now (pe_log s) (pe_log s') sch code writers body sends record
    ∧ body_stream 0 (cn_in c) body rest ∧ object_stored record code body cols ∧ length cols = length writers
    ∧ ∀ i w, writers !! i = Some w → ∃ col, cols !! i = Some col
        ∧ device_for record (Z.of_nat i) = Some (wr_device w)
        ∧ streamed (wr_request w) (pp_size p) (checksum_block body) 0
            (shard_stream (pp_size p) (checksum_block body) writers sends w) col.
Proof. apply put_object_stores. Qed.
End log.

(** ** Witnesses: a cluster of three empty nodes, and a write of five bytes *)

Section witnesses.
#[local] Existing Instance poly_xxh3.
#[local] Existing Instance poly_sha256.
#[local] Existing Instance decimal_uuid.
#[local] Existing Instance xor_lib.
#[local] Instance no_texts : CoordTexts := {| BUILD := []; ctext := λ _, [] |}.

Definition document7 : ClusterDocument := {|
  c_version := 1; c_cluster_id := 193; c_name := None; c_k := 2; c_m := 1; c_block_size := 65536;
  c_independence_level := LevelDevice; c_headroom := c_headroom document2;
  c_max_key_bytes := DEFAULT_MAX_KEY_BYTES; c_max_object_bytes := DEFAULT_MAX_OBJECT_BYTES;
  c_max_user_metadata_bytes := DEFAULT_MAX_USER_METADATA_BYTES; c_transport := Plain;
  c_nodes := c_nodes document6; c_devices := c_devices document6 |}.

Definition node7 : Node unit := Node.mkNodeState config1 document7 [] ∅ ∅ false ∅ None.

Definition locate7 (address : str) : option NodeId :=
  if str_eqb address (lit "10.0.0.2:5263") then Some 12 else locate6 address.

(** The device of a node, with more room on the later nodes. *)
Definition status7 (node : NodeId) : DeviceStatus := mkDeviceStatus (node + 90) node Active true None None 10000000 (node * 100000).

Definition serve7 (node id : Z) (r : Request) : list Message :=
  match r with
  | LocalLookup _ _ => [MResponse id (RespLocalLookup [] false [])]
  | LocalStatus => [MResponse id (RespLocalStatus node 1 false [] [status7 node])]
  | PutShard _ _ _ _ _ _ _ _ => [MResponse id PutShardReady; MResponse id PutShardDone]
  | PutMeta _ _ => [MResponse id RespPutMeta]
  | _ => []
  end.

#[local] Hint Extern 0 (Network (gmap nat Line)) => exact (serving locate7 greet6 serve7) : typeclass_instances.

Definition params7 : PutParams := mkPutParams (lit "a") 5 None [].
Definition version7 : VersionId := replicate 16 7.

(** The body in two chunks. *)
Definition client7 : Conn := mkConn
  [Arrives (MData 4 (mkDataFrame 0 (checksum_block (take 3 data5)) (take 3 data5)));
   Arrives (MData 4 (mkDataFrame 1 (checksum_block (drop 3 data5)) (drop 3 data5)));
   Arrives (MEndOfStream 4 StreamEnd_ok)] [] None.

Definition put7 := put_object (N := gmap nat Line) 3 node7 4 client7 params7 version7 0 cluster6.

Lemma put7_run : ∃ c' s', put7 = Some (Ok (Ok tt, c'), s').
Proof. destruct put7 as [[[[[[]|f|] c']|f|] s']|] eqn:Hr; try (vm_compute in Hr; discriminate). by exists c', s'. Qed.

Lemma document7_ok : document_ok document7.
Proof.
  apply document_validate_Ok; [|by vm_compute].
  split_and!; [split; cbn; lia..| |]; repeat (apply List.Forall_cons; [split; cbn; lia|]); apply List.Forall_nil.
Qed.

Lemma place_best_witness :
  ∃ chosen, place (status7 <$> [11; 12; 13]) (mkScheme 2 0) 1150000 = Ok chosen ∧ Z.of_nat (length chosen) = 2.
Proof.
  destruct (place_best (status7 <$> [11; 12; 13]) (mkScheme 2 0) 1150000) as [[Hp _] Hb]; [by vm_compute|].
  destruct Hp as [chosen Hc]; [by vm_compute|]. exists chosen. split; [exact Hc|]. exact (proj1 (Hb chosen Hc)).
Defined.

Lemma put_object_protocol_witness : ∃ c' s' sch code writers body sends record,
  put7 = Some (Ok (Ok tt, c'), s')
  ∧ write_committed node7 client7 params7 version7 0 [] (pe_log s') sch code writers body sends record.
Proof.
  destruct put7_run as (c' & s' & Hr). exists c', s'.
  destruct (put_object_protocol 3 node7 4 client7 c' params7 version7 0 cluster6 s' Hr) as (sch & code & ws & body & sends & record & _ & Hw & _).
  exists sch, code, ws, body, sends, record. split; [exact Hr|exact Hw].
Defined.

Lemma put_stores_object_witness : ∃ record code cols, object_stored record code data5 cols ∧ length cols = 3%nat.
Proof.
  destruct put7_run as (c' & s' & Hr).
  assert (0 < pp_size params7 < 2 ^ 64) as Hsize by (cbn; lia).
  assert (rs_correct 2 1) as Hrs by (apply xor_correct; lia).
  destruct (put_stores_object 3 node7 4 client7 c' params7 version7 0 cluster6 s' Hr document7_ok Hsize (λ _, Hrs))
    as (sch & code & ws & body & sends & record & cols & rest & Hw & Hb & Hos & Hl & _).
  exists record, code, cols.
  do 3 (match goal with Hb : body_stream _ _ _ _ |- _ => inversion Hb; clear Hb; subst end).
  split; [exact Hos|]. rewrite Hl.
  destruct Hw as (statuses & sb & chosen & ? & ? & ? & ? & ? & ? & _ & Hs & _ & Hp & _ & _ & _ & _ & _ & _ & Hch & _).
  rewrite <- (length_fmap wr_channel), Hch, length_seq, (place_length _ _ _ _ Hp).
  vm_compute in Hs. injection Hs as <-. reflexivity.
Defined.
End witnesses.
End PutSpec.
