(* ===== verification/Repair.v ===== *)
(** [coordinator.rs]: [repair_object], every damaged or missing shard of a
    key's newest version rebuilt from the others, and the record copies that
    are missing written.

    A [RepairSource] is changed by the loops over it: its stream is dropped
    when it ends early.  The state of the loop carries the list. *)

From S2P Require Import Prelude Text Checksum KeyHash VersionId Erasure Layout Stripe FileSystem ShardFile Record Device Cluster Scrub Frame Handshake Message Node LocalOps Lookup Connection Coordinator Get Put.

Module Repair.
Import Message LocalOps Lookup Connection Coordinator Get Put.

Record RepairSource := mkRepairSource {
  rs_index : ShardIndex;
  rs_device : DeviceId;
  rs_owner : NodeId;
  (** The connection and the request of its stream of blocks. *)
  rs_stream : option (nat * Z);
  rs_condition : ShardCondition;
}.

Definition is_intact_condition (c : ShardCondition) : bool :=
  match c with Message.Intact => true | _ => false end.

(** [for shard in next.shards.iter_mut()]: one index, on another device. *)
Definition place_shard (index : ShardIndex) (device : DeviceId) (shards : list ShardLocation) : list ShardLocation :=
  (λ l, if sl_index l =? index then mkLocation (sl_index l) device else l) <$> shards.

(** The record at its next revision, with another placement. *)
Definition replaced (r : MetadataRecord) (shards : list ShardLocation) : MetadataRecord := {|
  r_format_version := r_format_version r; r_system := r_system r; r_bucket := r_bucket r; r_key := r_key r;
  r_key_hash := r_key_hash r; r_version := r_version r; r_created := r_created r; r_size := r_size r;
  r_object_checksum := r_object_checksum r; r_k := r_k r; r_m := r_m r; r_block_size := r_block_size r;
  r_shards := shards; r_revision := wrap64 (r_revision r + 1); r_content_type := r_content_type r;
  r_user_metadata := r_user_metadata r |}.

(** Every device of the record, the newly chosen ones first. *)
Definition devices_new_first (record : MetadataRecord) (relocations : list (ShardIndex * DeviceId)) : list DeviceId :=
  relocations.*2 ++ filter (λ d, d ∉ relocations.*2) (sl_device <$> r_shards record).

(** [relocations.iter().find(|(i, _)| *i == index).map(|(_, d)| *d)] *)
Fixpoint relocated_to (relocations : list (ShardIndex * DeviceId)) (index : ShardIndex) : option DeviceId :=
  match relocations with
  | [] => None
  | (i, d) :: rest => if i =? index then Some d else relocated_to rest index
  end.

(** The state of the first pass. *)
Record Scan := mkScan {
  sc_sources : list RepairSource;
  sc_hasher : list Z;
  sc_corrupt : list (list Z);
}.

Definition note_corrupt {E : Type} (stripe : Z) (corrupt : list (list Z)) (f : BlockFault) : res E (list (list Z)) :=
  let i := Z.to_nat (bf_index f) in
  l ← expect (corrupt !! i);
  Ok (<[i := l ++ [stripe]]> corrupt).

(** A readable shard with a corrupt block. *)
Definition note_condition {E : Type} (corrupt : list (list Z)) (s : RepairSource) : res E RepairSource :=
  stripes ← expect (corrupt !! Z.to_nat (rs_index s));
  Ok match rs_stream s, stripes with
     | Some _, _ :: _ =>
         mkRepairSource (rs_index s) (rs_device s) (rs_owner s) (rs_stream s) (CorruptBlocks stripes)
     | _, _ => s
     end.

Definition set_unreadable (s : RepairSource) (reason : str) : RepairSource :=
  mkRepairSource (rs_index s) (rs_device s) (rs_owner s) None (CondUnreadable reason).

Section repair.
Context {N : Type} `{Network N} `{CoordTexts} `{Sha256} `{Uuid} `{Xxh3} `{ReedSolomonLib}.
Context {TlsMaterial : Type} (fuel : nat).
Implicit Types n : Node TlsMaterial.
Abbreviation call A := (net (Peers N) Failure A).

(** [repairable_record] after its lookup *)
Definition repairable (key : str) (located : list LocatedRecord)
    : res Failure (MetadataRecord * list DeviceId * list (DeviceId * Z)) :=
  match last (group_by_version located) with
  | None => Err (FError (lookup_detail key NoObject))
  | Some (version, copies) =>
      let refuse := λ code reason device,
        FError (shard_detail (cdetail code reason) None device key version None None) in
      _ ← for_each (λ c, ensure (bool_decide (r_key (lr_record c) = key))
            (refuse KeyMismatch (CRecordKey key (r_key (lr_record c))) None)) copies;
      revision ← expect (max_revision copies);
      let current := filter (λ c, r_revision (lr_record c) = revision) copies in
      first ← expect (lr_record <$> head current);
      _ ← for_each (λ c,
            _ ← ensure (bool_decide (lr_record c = first))
                  (refuse RecordsInconsistent (CRevisionsDisagree revision) (Some (lr_device c)));
            ensure (bool_decide (is_Some (shard_on first (lr_device c))))
              (refuse RecordsInconsistent CUnlistedCopy (Some (lr_device c)))) current;
      _ ← for_each (λ c,
            ensure (negb ((r_revision (lr_record c) <? revision) && negb (same_body (lr_record c) first)))
              (refuse RecordsInconsistent (CDifferentBody (r_revision (lr_record c)) revision) (Some (lr_device c)))) copies;
      let vouching := Z.of_nat (length (filter (λ c, r_revision (lr_record c) = revision
                                                    ∨ same_body first (lr_record c) = true) copies)) in
      _ ← ensure (negb (vouching <? r_k first))
            (refuse RecordsInconsistent (CFewCopies vouching (Z.of_nat (length (r_shards first))) (r_k first)) None);
      Ok (first, filter (λ d, d ∉ lr_device <$> current) (sl_device <$> r_shards first), stale_copies first copies)
  end.

Definition repairable_record n (key : str) : call (MetadataRecord * list DeviceId * list (DeviceId * Z)) :=
  _ ← looked_up key (check_key (nd_document n) key);
  located ← lookup fuel n (hash_key (as_bytes key));
  nlift (repairable key located).

(** The owner of a device of the record, which must be in the document. *)
Definition record_owner n (record : MetadataRecord) (device : DeviceId) (index : option Z) : res Failure NodeId :=
  ok_or (de_node <$> Cluster.device (nd_document n) device)
    (FError (shard_detail (cdetail DeviceUnavailable (CNotInCluster device)) None (Some device) (r_key record)
       (r_version record) index None)).

Definition rewrite_record_copies n (record : MetadataRecord) (missing : list DeviceId) : call unit :=
  nfold (λ _ device,
    owner ← nlift (record_owner n record device None);
    answer ← ask_node n owner (PutMeta device record);
    match answer with
    | RespPutMeta => mret tt
    | other => nthrow (error ProtocolViolation (CAnswered owner (lit "PutMeta") other))
    end) missing tt.

Definition remove_stale_copies n (record : MetadataRecord) (stale : list (DeviceId * Z)) : call (list DeviceId) :=
  nfold (λ removed (x : DeviceId * Z),
    match live_owner (nd_document n) x.1 with
    | None => mret removed
    | Some owner =>
        _ ← ask_node n owner (DeleteVersion x.1 (r_key_hash record) (r_version record));
        mret (removed ++ [x.1])
    end) stale [].

(** The bytes a shard file of the object takes. *)
Definition shard_bytes_of (s : Scheme) (record : MetadataRecord) : res Failure Z :=
  if r_size record =? 0 then Ok 0
  else len ← shard_file_length s (r_block_size record) (r_size record);
       ok_or len (error Internal CShardSize).

(** Devices that may take a shard of the version, best first. *)
Definition rank (record : MetadataRecord) (shard_bytes : Z) (statuses : list DeviceStatus) : list DeviceStatus :=
  merge_sort roomier (filter (λ d, eligible shard_bytes d = true ∧ ds_device d ∉ sl_device <$> r_shards record) statuses).

Definition relocate_lost_shards n (record : MetadataRecord) (lost : list ShardIndex)
    : call (MetadataRecord * list (ShardIndex * DeviceId)) :=
  match lost with
  | [] => mret (record, [])
  | _ =>
      s ← nlift (map_err (λ e, error RecordsInconsistent (CSchemeError e)) (record_scheme record));
      shard_bytes ← nlift (shard_bytes_of s record);
      answers ← broadcast n LocalStatus;
      statuses ← nlift (device_statuses n answers);
      let ranked := rank record shard_bytes statuses in
      _ ← nlift (ensure (negb (length ranked <? length lost)%nat)
            (FError (shard_detail (cdetail InsufficientDevices
               (CRelocation (Z.of_nat (length lost)) (Z.of_nat (length ranked)) shard_bytes)) None None (r_key record)
               (r_version record) None None)));
      let relocations := zip lost (ds_device <$> ranked) in
      mret (replaced record (fold_left (λ l (x : ShardIndex * DeviceId), place_shard x.1 x.2 l) relocations (r_shards record)),
            relocations)
  end.

Definition open_repair_source n (record : MetadataRecord) (block_count : Z) (index : ShardIndex) : call RepairSource :=
  device ← nlift (expect (device_for record index));
  match live_owner (nd_document n) device with
  | None => mret (mkRepairSource index device (node_id n) None Lost)
  | Some owner =>
      ch ← connect_to n owner;
      request_id ← nmap_err (remote_failure owner)
        (send_request ch (GetShard device (r_key_hash record) (r_version record) index 0 block_count));
      answer ← nattempt (read_response ch request_id);
      match answer with
      | Ok (RespGetShard _) => mret (mkRepairSource index device owner (Some (ch, request_id)) Message.Intact)
      | Ok other => nthrow (error ProtocolViolation (CAnswered owner (lit "GetShard") other))
      | Err (Remote detail) => mret (mkRepairSource index device owner None (CondUnreadable (e_message detail)))
      | Err e => nthrow (remote_failure owner e)
      | Panic => nlift Panic
      end
  end.

Definition open_repair_sources n (record : MetadataRecord) (block_count : Z) : call (list RepairSource) :=
  s ← nlift (map_err (λ e, error RecordsInconsistent (CSchemeError e)) (record_scheme record));
  nmapM (open_repair_source n record block_count) (shard_indices s).

(** One stripe's block of a source that has a stream. *)
Definition read_repair_block (stripe : Z) (key : str) (record : MetadataRecord)
    (st : list ShardBlock * list RepairSource) (source : RepairSource) : call (list ShardBlock * list RepairSource) :=
  let '(received, sources) := st in
  match rs_stream source with
  | None => mret (received, sources ++ [source])
  | Some (ch, request_id) =>
      item ← nmap_err (remote_failure (rs_owner source)) (read_stream_item ch request_id);
      match item with
      | ItemData data =>
          if sequence data =? stripe
          then mret (received ++ [mkShardBlock (rs_index source) (df_bytes data) (df_checksum data)], sources ++ [source])
          else nthrow (FError (shard_detail (cdetail ProtocolViolation (COutOfOrder (sequence data) stripe))
                 (Some (rs_owner source)) (Some (rs_device source)) key (r_version record) (Some (rs_index source))
                 (Some stripe)))
      | ItemEnd e =>
          mret (received, sources ++ [set_unreadable source
                  match se_error e with Some d => e_message d | None => ctext CStreamEndedEarly end])
      end
  end.

Definition read_repair_stripe (sources : list RepairSource) (stripe : Z) (key : str) (record : MetadataRecord)
    : call (list ShardBlock * list RepairSource) :=
  nfold (read_repair_block stripe key record) sources ([], []).

Definition finish_repair_streams (sources : list RepairSource) (key : str) (record : MetadataRecord) : call unit :=
  nfold (λ _ source,
    match rs_stream source with
    | None => mret tt
    | Some (ch, request_id) =>
        item ← nattempt (read_stream_item ch request_id);
        let unclean := nthrow (FError (shard_detail (cdetail ProtocolViolation CUncleanEnd) (Some (rs_owner source))
          (Some (rs_device source)) key (r_version record) (Some (rs_index source)) None)) in
        match item with
        | Ok (ItemEnd e) => if se_error e then unclean else mret tt
        | _ => unclean
        end
    end) sources tt.

Definition reopen_intact_stream n (record : MetadataRecord) (block_count : Z) (source : RepairSource) : call RepairSource :=
  ch ← connect_to n (rs_owner source);
  request_id ← nmap_err (remote_failure (rs_owner source))
    (send_request ch (GetShard (rs_device source) (r_key_hash record) (r_version record) (rs_index source) 0 block_count));
  answer ← nmap_err (remote_failure (rs_owner source)) (read_response ch request_id);
  match answer with
  | RespGetShard _ =>
      mret (mkRepairSource (rs_index source) (rs_device source) (rs_owner source) (Some (ch, request_id)) Message.Intact)
  | other => nthrow (error ProtocolViolation (CAnswered (rs_owner source) (lit "GetShard") other))
  end.

Definition reopen_intact_streams n (sources : list RepairSource) (record : MetadataRecord) (block_count : Z)
    : call (list RepairSource) :=
  nmapM (reopen_intact_stream n record block_count)
    (filter (λ s, is_intact_condition (rs_condition s) = true) sources).

(** ** Writing the rebuilt shards *)

Definition open_target n (record : MetadataRecord) (key : str) (s : Scheme) (target : ShardIndex * DeviceId)
    : call ShardWriter :=
  let '(index, device) := target in
  owner ← nlift (ok_or (de_node <$> Cluster.device (nd_document n) device)
    (FError (shard_detail (cdetail DeviceUnavailable (CNotInCluster device)) None (Some device) key
       (r_version record) (Some index) None)));
  ch ← connect_to n owner;
  request_id ← nmap_err (remote_failure owner)
    (send_request ch (PutShard device (r_key_hash record) (r_version record) index (wrap 8 (data_shards s))
       (wrap 8 (parity_shards s)) (r_block_size record) (r_size record)));
  answer ← nmap_err (remote_failure owner) (read_response ch request_id);
  match answer with
  | PutShardReady => mret (mkWriter index device owner ch request_id)
  | other => nthrow (error ProtocolViolation (CAnswered owner (lit "PutShard") other))
  end.

(** A block of the stripe for each of the targets. *)
Definition send_rebuilt (writers : list ShardWriter) (stripe : Z) (blocks : list ShardBlock) : call unit :=
  nfold (λ _ w,
    block ← nlift (expect (blocks !! Z.to_nat (wr_index w)));
    nmap_err (remote_failure (wr_owner w))
      (send_data (wr_channel w) (wr_request w) (mkDataFrame stripe (sb_checksum block) (sb_bytes block)))) writers tt.

Definition stripe_length (s : Scheme) (record : MetadataRecord) (stripe : Z) : Z :=
  Z.min (r_size record - stripe * stripe_size s record) (stripe_size s record).

Definition rebuild_stripe (code : ReedSolomonCode) (key : str) (record : MetadataRecord) (writers : list ShardWriter)
    (readers : list RepairSource) (stripe : Z) : call (list RepairSource) :=
  '(received, readers) ← read_repair_stripe readers stripe key record;
  decoded ← nlift (map_err (λ e, error Internal (CStripeError e))
    (decode_stripe code (shard_indices (scheme code)) received (stripe_length (scheme code) record stripe)));
  data ← (match decoded with
          | Stripe.Intact data | Stripe.Repaired data _ => mret data
          | Unrecoverable _ _ _ => nthrow (error BlockChecksumMismatch (CBecameUnrecoverable stripe))
          end : call (list Z));
  blocks ← nlift (map_err (λ e, error Internal (CStripeError e)) (encode_stripe code data (r_block_size record)));
  _ ← send_rebuilt writers stripe blocks;
  mret readers.

Definition rebuild_shards n (key : str) (record : MetadataRecord) (sources : list RepairSource)
    (targets : list (ShardIndex * DeviceId)) : call unit :=
  s ← nlift (map_err (λ e, error RecordsInconsistent (CSchemeError e)) (record_scheme record));
  geometry ← nlift (shard_geometry s (r_block_size record) (r_size record));
  geometry ← nlift (ok_or geometry (error RecordsInconsistent CImpossibleSize));
  code ← nlift (map_err (λ e : Empty_set, match e with end) (ReedSolomonCode_new s));
  writers ← nmapM (open_target n record key s) targets;
  readers ← reopen_intact_streams n sources record (g_block_count geometry);
  readers ← nfold (rebuild_stripe code key record writers) (stripes (g_block_count geometry)) readers;
  _ ← finish_repair_streams readers key record;
  _ ← nfold (λ _ w, finish_writer record (r_object_checksum record) w) writers tt;
  nfold (λ _ w, await_writer w) writers tt.

(** ** The whole *)

Definition in_service n (device : DeviceId) : bool := still_listed (nd_document n) device.

(** The first pass over a stripe: read, verify, decode, note the faults. *)
Definition scan_stripe (code : ReedSolomonCode) (key : str) (record : MetadataRecord) (sc : Scan) (stripe : Z) : call Scan :=
  '(received, sources) ← read_repair_stripe (sc_sources sc) stripe key record;
  decoded ← nlift (map_err (λ e, error Internal (CStripeError e))
    (decode_stripe code (shard_indices (scheme code)) received (stripe_length (scheme code) record stripe)));
  match decoded with
  | Stripe.Intact data => mret (mkScan sources (sc_hasher sc ++ data) (sc_corrupt sc))
  | Stripe.Repaired data faults =>
      corrupt ← nlift (fold_res (note_corrupt stripe) faults (sc_corrupt sc));
      mret (mkScan sources (sc_hasher sc ++ data) corrupt)
  | Unrecoverable usable needed faults =>
      nthrow (FError (shard_detail (cdetail BlockChecksumMismatch (CRepairStripe stripe usable needed faults)) None None key
        (r_version record) None (Some stripe)))
  end.

(** Every stripe decoded and the whole checked: the sources with their conditions. *)
Definition scan_object n (key : str) (record : MetadataRecord) (s : Scheme) : call (list RepairSource) :=
  geometry ← nlift (shard_geometry s (r_block_size record) (r_size record));
  geometry ← nlift (ok_or geometry (error RecordsInconsistent CImpossibleSize));
  sources ← open_repair_sources n record (g_block_count geometry);
  code ← nlift (map_err (λ e : Empty_set, match e with end) (ReedSolomonCode_new s));
  sc ← nfold (scan_stripe code key record) (stripes (g_block_count geometry))
         (mkScan sources [] (replicate (Z.to_nat (total_shards s)) []));
  _ ← finish_repair_streams (sc_sources sc) key record;
  let computed := xxh3_64 (sc_hasher sc) in
  _ ← nlift (ensure (computed =? r_object_checksum record)
        (FError (shard_detail (cdetail ObjectChecksumMismatch (CRepairCheck computed (r_object_checksum record))) None None key
           (r_version record) None None)));
  nlift (map_res (note_condition (sc_corrupt sc)) (sc_sources sc)).

(** The record where it is wanted: on the devices it is missing from, or, at
    its next revision, on every device, the new ones first. *)
Definition complete_records n (record next : MetadataRecord) (relocations : list (ShardIndex * DeviceId))
    (missing : list DeviceId) : call (list DeviceId) :=
  match relocations with
  | [] => _ ← rewrite_record_copies n record missing; mret missing
  | _ => let devices := devices_new_first next relocations in
         _ ← rewrite_record_copies n next devices; mret devices
  end.

Definition empty_shard_report (relocations : list (ShardIndex * DeviceId)) (shard : ShardLocation) : ShardRepair :=
  let to := relocated_to relocations (sl_index shard) in
  mkShardRepair (sl_index shard) (sl_device shard) (match to with Some _ => Lost | None => Message.Intact end) false to.

Definition intact_report (s : RepairSource) : ShardRepair :=
  mkShardRepair (rs_index s) (rs_device s) Message.Intact false None.

Definition shard_report (relocations : list (ShardIndex * DeviceId)) (rewritten : list ShardIndex) (s : RepairSource)
    : ShardRepair :=
  mkShardRepair (rs_index s) (rs_device s) (rs_condition s) (bool_decide (rs_index s ∈ rewritten))
    (relocated_to relocations (rs_index s)).

Definition repair_object n (key : str) : call Response :=
  '(record, missing, stale) ← repairable_record n key;
  s ← nlift (map_err (λ e, error RecordsInconsistent (CSchemeError e)) (record_scheme record));
  let lost := sl_index <$> filter (λ l, in_service n (sl_device l) = false) (r_shards record) in
  let missing := filter (λ d, in_service n d = true) missing in
  let report := λ shards copies removed,
    RespRepairObject (mkRepairReport key (r_version record) shards copies removed) in
  if r_size record =? 0 then
    '(next, relocations) ← relocate_lost_shards n record lost;
    copies ← complete_records n record next relocations missing;
    removed ← remove_stale_copies n record stale;
    mret (report (empty_shard_report relocations <$> r_shards record) copies removed)
  else
    sources ← scan_object n key record s;
    let damaged := filter (λ s, is_intact_condition (rs_condition s) = false) sources in
    match damaged with
    | [] =>
        _ ← rewrite_record_copies n record missing;
        removed ← remove_stale_copies n record stale;
        mret (report (intact_report <$> sources) missing removed)
    | _ =>
        '(next, relocations) ← relocate_lost_shards n record lost;
        let targets := (λ s, (rs_index s, default (rs_device s) (relocated_to relocations (rs_index s)))) <$> damaged in
        _ ← rebuild_shards n key record sources targets;
        copies ← complete_records n record next relocations missing;
        removed ← remove_stale_copies n record stale;
        mret (report (shard_report relocations targets.*1 <$> sources) copies removed)
    end.
End repair.
End Repair.
