(* ===== verification/RepairSpec.v ===== *)
(** What a repair promises, whatever the nodes and the network do: nothing is
    written before the object was read whole and verified, shards before
    records before deletions; and that what it writes is what was lost, as
    long as no corruption goes undetected. *)

From S2P Require Import Prelude Text Checksum KeyHash VersionId Erasure XorCode Layout Stripe FileSystem ShardFile Record Device DeviceSpec Cluster Scrub Frame Handshake Message Node LocalOps LocalOpsSpec Lookup Connection Coordinator Log Get StoredObject GetSpec Put Serving Degraded PutSpec Repair.

Module RepairSpec.
Import Message LocalOps LocalOpsSpec Lookup Connection Coordinator Log Get StoredObject GetSpec Put Serving Degraded PutSpec Repair.

Section repair.
Context {N : Type} `{Network N} `{CoordTexts} `{Sha256} `{Uuid} `{Xxh3} `{ReedSolomonLib} {TlsMaterial : Type}.
Implicit Types (s : Peers N) (n : Node TlsMaterial) (log : list Event).

(** ** What was read *)

Section reading.
Context (record : MetadataRecord) (count : Z).

(** A block of stripe [j] that arrived on a stream that was asked for. *)
Definition arrived log (j : Z) (b : ShardBlock) : Prop := ∃ ch id device,
  Sent ch (MRequest id (GetShard device (r_key_hash record) (r_version record) (sb_index b) 0 count)) ∈ log
  ∧ Got ch (MData id (mkDataFrame j (sb_checksum b) (sb_bytes b))) ∈ log.

Definition streaming log (r : RepairSource) : Prop := ∀ ch id, rs_stream r = Some (ch, id) →
  Sent ch (MRequest id (GetShard (rs_device r) (r_key_hash record) (r_version record) (rs_index r) 0 count)) ∈ log.

Lemma arrived_app log e j b : arrived log j b → arrived (log ++ e) j b.
Proof. intros (ch & id & d & H1' & H2'). exists ch, id, d. by split; apply elem_of_app; left. Qed.

Lemma streaming_app log e r : streaming log r → streaming (log ++ e) r.
Proof. intros Hs ch id Hr. apply elem_of_app. left. by apply Hs. Qed.

Definition received_event (e : Event) : Prop := match e with Got _ _ => True | _ => False end.

(** Nothing was sent. *)
Lemma sent_on_received ch events : Forall received_event events → sent_on ch events = [].
Proof. induction 1 as [|[]]; done. Qed.

(** The loop over the sources, from [received] and [sources] on. *)
Lemma read_repair_blocks_ok key j l : ∀ received sources s received' sources' s',
  nfold (read_repair_block j key record) l (received, sources) s = Some (Ok (received', sources'), s') →
  Forall (streaming (pe_log s)) l →
  ∃ e new kept, pe_log s' = pe_log s ++ e ∧ Forall received_event e ∧ length (pe_conns s') = length (pe_conns s)
    ∧ received' = received ++ new ∧ Forall (arrived (pe_log s') j) new ∧ sb_index <$> new `sublist_of` rs_index <$> l
    ∧ sources' = sources ++ kept ∧ rs_index <$> kept = rs_index <$> l ∧ Forall (streaming (pe_log s')) kept.
Proof.
  induction l as [|x l IH]; intros received sources s received' sources' s' Hr Hl; cbn [nfold] in Hr.
  { apply ret_ok_inv in Hr as [[= -> ->] ->]. exists [], [], []. rewrite !app_nil_r. split_and!; constructor || done. }
  apply Forall_cons in Hl as [Hx Hl]. next Hr. destruct x0 as [received1 sources1]. unfold read_repair_block in R.
  destruct (rs_stream x) as [[ch id]|] eqn:Hst.
  - next R. apply map_err_ok_inv in R0. unfold read_stream_item in R0. next R0. apply map_err_ok_inv, read_ok in R1 as [L1 C1].
    assert (∀ log, pe_log t1 `prefix_of` log → Forall (streaming log) l ∧ streaming log x) as Hmono.
    { intros log [e ->]. rewrite L1. split; [eapply Forall_impl; [exact Hl|]; intros y Hy|]; by apply streaming_app, streaming_app. }
    destruct x1 as [hello|got request|got response|got data|got e]; try done.
    + destruct (Z.eqb_spec got id) as [->|]; [|done]. apply ret_ok_inv in R0 as [-> ->].
      destruct (Z.eqb_spec (sequence data) j) as [Hseq|]; [|done]. apply ret_ok_inv in R as [[= -> ->] ->].
      apply IH in Hr as (e & new & kept & L2 & He & C2 & -> & Hnew & Hsub & -> & Hix & Hkept); [|by apply Hmono].
      exists ([Got ch (MData id data)] ++ e), (mkShardBlock (rs_index x) (df_bytes data) (df_checksum data) :: new), (x :: kept).
      rewrite L2, L1, <- !app_assoc. split_and!; try done; [by apply Forall_app; split; [repeat constructor|]|congruence| | |cbn; by rewrite Hix|].
      * rewrite L2, L1, <- !app_assoc in Hnew. constructor; [|exact Hnew]. exists ch, id, (rs_device x). cbn. split.
        -- apply elem_of_app. left. by apply Hx.
        -- rewrite <- Hseq. destruct data. cbn. apply elem_of_app. right. apply list_elem_of_here.
      * cbn. by apply sublist_skip.
      * rewrite L2, L1, <- !app_assoc in Hkept. constructor; [|exact Hkept]. by apply streaming_app.
    + destruct (Z.eqb_spec got id) as [->|]; [|done]. apply ret_ok_inv in R0 as [-> ->]. apply ret_ok_inv in R as [[= -> ->] ->].
      apply IH in Hr as (ev & new & kept & L2 & He & C2 & -> & Hnew & Hsub & -> & Hix & Hkept); [|by apply Hmono].
      eexists ([Got ch (MEndOfStream id e)] ++ ev), new, (_ :: kept).
      rewrite L2, L1, <- !app_assoc in *. split_and!; try done; [by apply Forall_app; split; [repeat constructor|]|congruence|cbn; by apply sublist_cons|cbn; by rewrite Hix|].
      constructor; [|exact Hkept]. by intros ch' id' Hn.
  - apply ret_ok_inv in R as [[= -> ->] ->].
    apply IH in Hr as (ev & new & kept & L2 & He & C2 & -> & Hnew & Hsub & -> & Hix & Hkept); [|done].
    exists ev, new, (x :: kept). rewrite <- app_assoc. split_and!; try done; [cbn; by apply sublist_cons|cbn; by rewrite Hix|].
    constructor; [|exact Hkept]. intros ch' id' Hn. congruence.
Qed.

Lemma read_repair_stripe_ok key j l s received l' s' :
  read_repair_stripe l j key record s = Some (Ok (received, l'), s') → Forall (streaming (pe_log s)) l →
  ∃ e, pe_log s' = pe_log s ++ e ∧ Forall received_event e ∧ length (pe_conns s') = length (pe_conns s)
    ∧ Forall (arrived (pe_log s') j) received ∧ sb_index <$> received `sublist_of` rs_index <$> l
    ∧ rs_index <$> l' = rs_index <$> l ∧ Forall (streaming (pe_log s')) l'.
Proof.
  intros Hr Hl. apply read_repair_blocks_ok in Hr as (e & new & kept & L & He & C & -> & Hnew & Hsub & -> & Hix & Hk); [|done].
  exists e. done.
Qed.

Lemma finish_repair_streams_ok key l s u s' :
  finish_repair_streams l key record s = Some (Ok u, s') →
  ∃ e, pe_log s' = pe_log s ++ e ∧ Forall received_event e ∧ length (pe_conns s') = length (pe_conns s).
Proof.
  intros Hr. unfold finish_repair_streams in Hr.
  apply (fold_log _ (λ _ e, Forall received_event e)) in Hr as (es & Hes & L & C).
  - exists (concat es). split_and!; [done| |done]. clear -Hes. induction Hes; cbn; [done|]. by apply Forall_app.
  - intros x t v t' Hx. destruct (rs_stream x) as [[ch id]|]; [|apply ret_ok_inv in Hx as [_ ->]; exists []; by rewrite app_nil_r].
    next Hx. apply attempt_ok_inv in R. unfold read_stream_item in R. destruct x0 as [[|e]|e|]; try done.
    destruct (se_error e); [done|]. apply ret_ok_inv in Hx as [_ ->]. next R. apply map_err_ok_inv, read_ok in R0 as [L1 C1].
    destruct x0 as [| | |got d|got e']; try done; destruct (negb _); try done.
    apply ret_ok_inv in R as [_ ->]. eexists. split; [|split; [exact L1|done]]. by repeat constructor.
Qed.
End reading.

(** ** Opening streams *)

Section opening.
Context (record : MetadataRecord) (sch : Scheme) (count : Z).

(** How a target was opened. *)
Definition target_opened n (t : ShardIndex * DeviceId) (w : ShardWriter) (e : list Event) : Prop :=
  let ch := wr_channel w in
  t = (wr_index w, wr_device w)
  ∧ ∃ hello, e = [Opened ch; Sent ch (MHello (our_hello n)); Got ch (MHello hello);
      Sent ch (MRequest (wr_request w) (PutShard (wr_device w) (r_key_hash record) (r_version record) (wr_index w)
        (wrap 8 (data_shards sch)) (wrap 8 (parity_shards sch)) (r_block_size record) (r_size record)));
      Got ch (MResponse (wr_request w) PutShardReady)].

Lemma open_target_ok n key t s w s' :
  open_target n record key sch t s = Some (Ok w, s') →
  ∃ e, target_opened n t w e ∧ pe_log s' = pe_log s ++ e
    ∧ wr_channel w = length (pe_conns s) ∧ length (pe_conns s') = Datatypes.S (length (pe_conns s)).
Proof.
  unfold open_target. destruct t as [index device]. intros Hr. next Hr. apply lift_ok_inv in R as [_ ->].
  next Hr. apply connect_ok in R as (-> & C1 & hello & L1). next Hr. apply map_err_ok_inv, send_request_ok in R as [L2 C2].
  next Hr. apply map_err_ok_inv, read_response_ok in R as [L3 C3]. destruct x1; try done. apply ret_ok_inv in Hr as [-> ->].
  eexists. split; [split; [done|by exists hello]|]. cbn. split_and!; [by rewrite L3, L2, L1, <- !app_assoc|done|lia].
Qed.

Definition reader_channel (r : RepairSource) : nat := default 0%nat (fst <$> rs_stream r).

(** A stream opened again, on a connection of its own. *)
Definition reopened n (r r' : RepairSource) (e : list Event) : Prop :=
  rs_index r' = rs_index r ∧ ∃ ch id hello answer, rs_stream r' = Some (ch, id) ∧ rs_device r' = rs_device r
    ∧ e = [Opened ch; Sent ch (MHello (our_hello n)); Got ch (MHello hello);
           Sent ch (MRequest id (GetShard (rs_device r) (r_key_hash record) (r_version record) (rs_index r) 0 count));
           Got ch (MResponse id answer)].

Lemma reopen_ok n r s r' s' :
  reopen_intact_stream n record count r s = Some (Ok r', s') →
  ∃ e, reopened n r r' e ∧ pe_log s' = pe_log s ++ e
    ∧ reader_channel r' = length (pe_conns s) ∧ length (pe_conns s') = Datatypes.S (length (pe_conns s)).
Proof.
  unfold reopen_intact_stream. intros Hr. next Hr. apply connect_ok in R as (-> & C1 & hello & L1).
  next Hr. apply map_err_ok_inv, send_request_ok in R as [L2 C2]. next Hr. apply map_err_ok_inv, read_response_ok in R as [L3 C3].
  destruct x0; try done. apply ret_ok_inv in Hr as [-> ->]. eexists. split; [split; [done|by do 4 eexists]|].
  cbn. split_and!; [by rewrite L3, L2, L1, <- !app_assoc|done|lia].
Qed.

Lemma reopened_all n l l' es :
  Forall3 (reopened n) l l' es →
  rs_index <$> l' = rs_index <$> l ∧ Forall (streaming record count (concat es)) l'
  ∧ ∀ ch, ch ∉ reader_channel <$> l' → sent_on ch (concat es) = [].
Proof.
  induction 1 as [|r r' e l l' es (Hix & ch & id & hello & answer & Hst & Hdev & ->) _ (IH1 & IH2 & IH3)]; [by split_and!; [|constructor|]|].
  split_and!.
  - cbn. by rewrite Hix, IH1.
  - constructor.
    + intros ch' id' Heq. rewrite Hst in Heq. injection Heq as <- <-. rewrite Hdev, Hix. cbn [concat]. apply elem_of_app. left. set_solver.
    + eapply Forall_impl; [exact IH2|]. intros r0 Hs ch' id' Heq. cbn [concat]. apply elem_of_app. right. by apply Hs.
  - intros ch' Hn. cbn in Hn. apply not_elem_of_cons in Hn as [Hx Hn]. cbn [concat]. rewrite sent_on_app, (IH3 _ Hn), app_nil_r.
    unfold reader_channel in Hx. rewrite Hst in Hx. cbn in Hx. cbn. by rewrite !decide_False by done.
Qed.

(** What opening the targets sent on the connection of one. *)
Lemma sent_on_targets n targets writers es :
  Forall3 (target_opened n) targets writers es → NoDup (wr_channel <$> writers) → ∀ w, w ∈ writers →
  sent_on (wr_channel w) (concat es) = [MHello (our_hello n);
    MRequest (wr_request w) (PutShard (wr_device w) (r_key_hash record) (r_version record) (wr_index w)
        (wrap 8 (data_shards sch)) (wrap 8 (parity_shards sch)) (r_block_size record) (r_size record))].
Proof.
  assert (∀ targets writers es, Forall3 (target_opened n) targets writers es → ∀ ch, ch ∉ wr_channel <$> writers →
    sent_on ch (concat es) = []) as Hnone.
  { induction 1 as [|t w e l l' es' (_ & hello & ->) _ IH]; intros ch Hn; [done|]. cbn in Hn.
    apply not_elem_of_cons in Hn as [Hx Hn]. cbn [concat]. rewrite sent_on_app, (IH _ Hn), app_nil_r. cbn. by rewrite !decide_False by done. }
  induction 1 as [|t w e l l' es' (_ & hello & ->) Hall IH]; intros Hnd w' Hw'; [by apply not_elem_of_nil in Hw'|].
  cbn in Hnd. apply NoDup_cons in Hnd as [Hni Hnd]. cbn [concat]. rewrite sent_on_app. apply elem_of_cons in Hw' as [->|Hw'].
  - rewrite (Hnone _ _ _ Hall _ Hni), app_nil_r. cbn. by rewrite !decide_True by done.
  - rewrite (IH Hnd w' Hw'). cbn. rewrite !decide_False; [done|..]; intros Heq; apply Hni; rewrite Heq; by apply list_elem_of_fmap_2.
Qed.
End opening.

(** ** What was decoded *)

Section stored.
Context (record : MetadataRecord) (code : ReedSolomonCode) (body : list Z) (cols : list (list block)).
Context (Hos : object_stored record code body cols) (Hne : body ≠ []).
Abbreviation count := (Z.of_nat (length (chunks (stripe_bytes record code) body))).

(** No corruption goes undetected: a block whose checksum matches is the block
    of that shard and stripe. *)
Definition undamaged log : Prop := ∀ j b,
  arrived record count log j b → checksum_block (sb_bytes b) = sb_checksum b →
  ∃ col, cols !! Z.to_nat (sb_index b) = Some col ∧ col !! Z.to_nat j = Some (sb_bytes b).

Lemma undamaged_app log e : undamaged (log ++ e) → undamaged log.
Proof. intros Hu j b Hb. apply Hu. by apply arrived_app. Qed.

(** A block that passes its checks is the block of the encoded stripe. *)
Lemma arrived_detected log j stripe blocks received bl :
  undamaged log → chunks (stripe_bytes record code) body !! j = Some stripe →
  encode_stripe code stripe (r_block_size record) = Ok blocks →
  Forall (arrived record count log (Z.of_nat j)) received →
  Forall (λ b, 0 ≤ sb_index b < total_shards (scheme code)) received → corruption_detected blocks received bl.
Proof.
  intros Hu Hst Henc Hr Hix b Hb _ Hc. rewrite Forall_forall in Hr, Hix.
  destruct (Hu _ _ (Hr b Hb) Hc) as (col & Hcol & Hbytes). rewrite Nat2Z.id in Hbytes.
  destruct (os_columns Hos j stripe Hst) as (blocks' & Henc' & Hcols). rewrite Henc in Henc'. injection Henc' as <-.
  destruct (encoded_block _ _ _ _ (sb_index b) (os_code Hos) Henc) as (bytes & Hbl); [by apply Hix|].
  destruct (Hcols _ _ Hbl) as (col' & Hcol' & Hj'). cbn in Hj'. simplify_eq.
  apply list_elem_of_lookup_2 in Hbl. replace b with (mkShardBlock (sb_index b) (sb_bytes b) (checksum_block (sb_bytes b))); [done|].
  rewrite Hc. by destruct b.
Qed.

Lemma decoded_stripe log j stripe l received decoded :
  undamaged log → chunks (stripe_bytes record code) body !! j = Some stripe →
  Forall (arrived record count log (Z.of_nat j)) received → sb_index <$> received `sublist_of` rs_index <$> l →
  NoDup (rs_index <$> l) → Forall (λ i, 0 ≤ i < total_shards (scheme code)) (rs_index <$> l) →
  decode_stripe code (shard_indices (scheme code)) received (stripe_length (scheme code) record (Z.of_nat j)) = Ok decoded →
  match decoded with Stripe.Intact d | Stripe.Repaired d _ => d = stripe | Unrecoverable _ _ _ => True end.
Proof.
  intros Hu Hst Hr Hsub Hnd Hix Hd. unfold stripe_length in Hd. rewrite (stripe_length_eq Hos j stripe Hst) in Hd.
  destruct (os_columns Hos j stripe Hst) as (blocks & Henc & _). pose proof (os_code Hos) as Hok.
  assert (Forall (λ i, 0 ≤ i < total_shards (scheme code)) (sb_index <$> received)) as Hrx.
  { apply Forall_forall. intros i Hi. rewrite Forall_forall in Hix. apply Hix. by eapply elem_of_sublist. }
  eapply decoded_data; [exact Hok|exact Henc| | |exact Hd].
  - destruct Hok as [Hs _]. pose proof (scheme_ok_total _ Hs) as Ht.
    split_and!; [apply NoDup_indices_upto; lia|by apply shard_indices_range|by eapply sublist_NoDup|].
    apply Forall_fmap in Hrx. eapply Forall_impl; [exact Hrx|]. intros b Hb. apply elem_of_indices_upto; [lia|done].
  - eapply arrived_detected; try done. by apply Forall_fmap in Hrx.
Qed.

(** ** What was written *)

(** A block of the stripe to each of the writers. *)
Definition rebuilt_event (j : Z) (blocks : list ShardBlock) (w : ShardWriter) (e : list Event) : Prop :=
  ∃ b, blocks !! Z.to_nat (wr_index w) = Some b
    ∧ e = [Sent (wr_channel w) (MData (wr_request w) (mkDataFrame j (sb_checksum b) (sb_bytes b)))].

Lemma send_rebuilt_ok writers j blocks s u s' :
  send_rebuilt writers j blocks s = Some (Ok u, s') →
  ∃ es, Forall2 (rebuilt_event j blocks) writers es ∧ pe_log s' = pe_log s ++ concat es
    ∧ length (pe_conns s') = length (pe_conns s).
Proof.
  unfold send_rebuilt. intros Hr. apply (fold_log _ (rebuilt_event j blocks)) in Hr as (es & Hes & L & C); [by exists es|].
  intros w t v t' Hw. next Hw. apply lift_ok_inv in R as [Hb ->]. apply map_err_ok_inv in Hw. unfold send_data in Hw.
  apply map_err_ok_inv, write_ok in Hw as [L C]. destruct (blocks !! Z.to_nat (wr_index w)) as [b|] eqn:Hl; [|done].
  injection Hb as ->. eexists. split; [by exists x|]. by split.
Qed.

(** What a writer's connection carries of one stripe. *)
Lemma sent_on_rebuilt j blocks : ∀ writers es w,
  NoDup (wr_channel <$> writers) → Forall2 (rebuilt_event j blocks) writers es → w ∈ writers →
  ∃ b, blocks !! Z.to_nat (wr_index w) = Some b
    ∧ sent_on (wr_channel w) (concat es) = [MData (wr_request w) (mkDataFrame j (sb_checksum b) (sb_bytes b))].
Proof.
  intros writers es w Hnd Hes. revert w.
  assert (∀ l es' ch, Forall2 (rebuilt_event j blocks) l es' → ch ∉ wr_channel <$> l → sent_on ch (concat es') = []) as Hnone.
  { intros l es' ch. induction 1 as [|x e l es' (b & _ & ->) _ IH]; intros Hn; [done|]. cbn in Hn.
    apply not_elem_of_cons in Hn as [Hx Hn]. cbn. rewrite decide_False by congruence. by apply IH. }
  induction Hes as [|x e l es' (b & Hb & ->) Hes IH]; intros w Hw; [by apply not_elem_of_nil in Hw|].
  cbn in Hnd. apply NoDup_cons in Hnd as [Hni Hnd]. cbn [concat]. rewrite sent_on_app.
  apply elem_of_cons in Hw as [->|Hw].
  - exists b. split; [done|]. rewrite (Hnone _ _ _ Hes Hni). cbn. by rewrite decide_True.
  - destruct (IH Hnd w Hw) as (b' & Hb' & ->). exists b'. split; [done|]. cbn. rewrite decide_False; [done|].
    intros Heq. apply Hni. rewrite Heq. by apply list_elem_of_fmap_2.
Qed.

(** Readers of distinct shards, on streams that were asked for. *)
Record readers_ok log (readers : list RepairSource) : Prop := {
  ro_distinct : NoDup (rs_index <$> readers);
  ro_range : Forall (λ i, 0 ≤ i < total_shards (scheme code)) (rs_index <$> readers);
  ro_streaming : Forall (streaming record count log) readers;
}.

Lemma rebuild_stripe_ok key writers readers j stripe s readers' s' :
  rebuild_stripe code key record writers readers (Z.of_nat j) s = Some (Ok readers', s') →
  chunks (stripe_bytes record code) body !! j = Some stripe → NoDup (wr_channel <$> writers) →
  readers_ok (pe_log s) readers → undamaged (pe_log s') →
  readers_ok (pe_log s') readers' ∧ ∃ e, pe_log s' = pe_log s ++ e
    ∧ ∀ w, w ∈ writers → 0 ≤ wr_index w < total_shards (scheme code) →
        ∃ col bytes, cols !! Z.to_nat (wr_index w) = Some col ∧ col !! j = Some bytes
        ∧ sent_on (wr_channel w) e = data_messages (wr_request w) (Z.of_nat j) [bytes].
Proof.
  unfold rebuild_stripe. intros Hr Hst Hnd [Hd Hrg Hs] Hu. next Hr. destruct x as [received l].
  apply (read_repair_stripe_ok _ count) in R as (e1 & L1 & G1 & C1 & Harr & Hsub & Hix & Hs'); [|done].
  next Hr. apply lift_ok_inv in R as [Hdec ->]. apply map_err_Ok in Hdec. next Hr. next Hr.
  apply lift_ok_inv in R0 as [Henc ->]. apply map_err_Ok in Henc. next Hr. apply ret_ok_inv in Hr as [-> ->].
  apply send_rebuilt_ok in R0 as (es & Hes & L2 & C2).
  assert (t0 = t ∧ x0 = stripe) as [-> ->].
  { assert (undamaged (pe_log t)) as Hu1.
    { destruct x; apply ret_ok_inv in R as [_ ->] || done; rewrite L2 in Hu; by eapply undamaged_app. }
    pose proof (decoded_stripe (pe_log t) j stripe readers received x Hu1 Hst Harr Hsub Hd Hrg Hdec) as Hx.
    destruct x; try done; apply ret_ok_inv in R as [-> ->]; by subst. }
  split; [split; [by rewrite Hix|by rewrite Hix|rewrite L2; eapply Forall_impl; [exact Hs'|]; intros r; apply streaming_app]|].
  exists (e1 ++ concat es). split; [by rewrite L2, L1, app_assoc|]. intros w Hw Hwi.
  destruct (sent_on_rebuilt _ _ _ _ w Hnd Hes Hw) as (b & Hb & Hsent).
  destruct (os_columns Hos j stripe Hst) as (blocks & Henc' & Hcols). rewrite Henc in Henc'. injection Henc' as <-.
  destruct (Hcols _ _ Hb) as (col & Hcol & Hj). exists col, (sb_bytes b). split_and!; [done|done|].
  rewrite sent_on_app, (sent_on_received _ _ G1), Hsent. unfold data_messages. cbn.
  destruct (encoded_block _ _ _ _ (wr_index w) (os_code Hos) Henc Hwi) as (bytes & Hb'). simplify_eq. by rewrite Z.add_0_r.
Qed.

Lemma adds_rebuild_stripe key writers readers j :
  adds (λ _, True) (rebuild_stripe code key record writers readers j).
Proof. unfold rebuild_stripe, read_repair_stripe, read_repair_block, send_rebuilt. adds. Qed.

Lemma rebuild_stripes_ok key writers m : ∀ j readers s readers' s',
  nfold (rebuild_stripe code key record writers) (Z.of_nat <$> seq j m) readers s = Some (Ok readers', s') →
  (j + m)%nat = length (chunks (stripe_bytes record code) body) → NoDup (wr_channel <$> writers) →
  readers_ok (pe_log s) readers → undamaged (pe_log s') →
  ∃ e, pe_log s' = pe_log s ++ e
    ∧ ∀ w, w ∈ writers → 0 ≤ wr_index w < total_shards (scheme code) →
        ∃ col, cols !! Z.to_nat (wr_index w) = Some col
        ∧ sent_on (wr_channel w) e = data_messages (wr_request w) (Z.of_nat j) (drop j col).
Proof.
  induction m as [|m IH]; intros j readers s readers' s' Hr Hjm Hnd Hro Hu; cbn [seq fmap list_fmap nfold] in Hr.
  - apply ret_ok_inv in Hr as [-> ->]. exists []. rewrite app_nil_r. split; [done|]. intros w _ Hi.
    destruct (column_exists Hos Hne (wr_index w) Hi) as [col Hcol]. exists col. split; [done|].
    pose proof (os_lengths Hos) as Hl. rewrite Forall_lookup in Hl. rewrite drop_ge; [done|]. rewrite (Hl _ _ Hcol). lia.
  - next Hr. assert (pe_log t `prefix_of` pe_log s') as [e2 L2].
    { eapply (adds_prefix (λ _, True)); [|exact Hr]. apply adds_fold. intros. apply adds_rebuild_stripe. }
    destruct (lookup_lt_is_Some_2 (chunks (stripe_bytes record code) body) j) as [stripe Hst]; [lia|].
    apply (rebuild_stripe_ok _ _ _ _ stripe) in R as (Hro' & e1 & L1 & H1'); [|done|done|done|rewrite L2 in Hu; by eapply undamaged_app].
    apply IH in Hr as (e2' & L2' & H2'); [|lia|done|done|done]. exists (e1 ++ e2'). split; [by rewrite L2', L1, app_assoc|].
    intros w Hw Hi. destruct (H1' w Hw Hi) as (col & bytes & Hcol & Hb & S1). destruct (H2' w Hw Hi) as (col' & Hcol' & S2).
    simplify_eq. exists col. split; [done|]. rewrite sent_on_app, S1, S2, (drop_S col bytes j Hb).
    rewrite !data_messages_cons. by replace (Z.of_nat (Datatypes.S j)) with (Z.of_nat j + 1) by lia.
Qed.

(** What a target's node is sent, and that it said the shard is stored. *)
Definition shard_restored n (events : list Event) (index : ShardIndex) (device : DeviceId) : Prop :=
  ∃ ch id col stream, cols !! Z.to_nat index = Some col
    ∧ sent_on ch events = MHello (our_hello n) :: MRequest id (PutShard device (r_key_hash record) (r_version record) index
        (wrap 8 (data_shards (scheme code))) (wrap 8 (parity_shards (scheme code))) (r_block_size record) (r_size record)) :: stream
    ∧ streamed id (r_size record) (r_object_checksum record) 0 (Arrives <$> stream) col
    ∧ Got ch (MResponse id PutShardDone) ∈ events.

(** Rebuilding leaves every target with its shard. *)
Lemma rebuild_shards_ok n key sources targets s u s' :
  rebuild_shards n key record sources targets s = Some (Ok u, s') →
  NoDup (rs_index <$> sources) → Forall (λ i, 0 ≤ i < total_shards (scheme code)) (rs_index <$> sources) →
  Forall (λ t, 0 ≤ t.1 < total_shards (scheme code)) targets → undamaged (pe_log s') →
  ∃ events, pe_log s' = pe_log s ++ events
    ∧ ∀ index device, (index, device) ∈ targets → shard_restored n events index device.
Proof.
  unfold rebuild_shards. intros Hr Hnd Hrg Htr Hu. pose proof (os_scheme Hos) as Hsch.
  next Hr. apply lift_ok_inv in R as [Hs ->]. apply map_err_Ok in Hs. rewrite Hsch in Hs. injection Hs as <-.
  next Hr. apply lift_ok_inv in R as [Hg ->]. next Hr. apply lift_ok_inv in R as [Hg' ->]. destruct x as [g|]; [|done]. injection Hg' as <-.
  apply (geometry_count Hos Hne) in Hg. next Hr. apply lift_ok_inv in R as [Hcode ->]. apply map_err_Ok in Hcode.
  rewrite (os_new Hos) in Hcode. injection Hcode as <-.
  next Hr. apply (mapM_log _ (target_opened record (scheme code) n) wr_channel) in R as (es1 & Ho & L1 & C1 & C1'); [|intros ? ? ? ?; apply open_target_ok].
  next Hr. rewrite Hg in *. apply (mapM_log _ (reopened record count n) reader_channel) in R as (es2 & Hre & L2 & C2 & C2'); [|intros ? ? ? ?; apply reopen_ok].
  next Hr. next Hr. next Hr. rename x into writers, x0 into readers.
  apply finish_repair_streams_ok in R0 as (e4 & L4 & G4 & C4).
  apply (fold_log (finish_writer record (r_object_checksum record)) (λ w e, e = [end_event (r_size record) (r_object_checksum record) w])) in R1 as (es5 & H5 & L5 & C5); [|intros ? ? ? ?; apply finish_writer_ok].
  apply (fold_log await_writer (λ w e, e = [done_event w])) in Hr as (es6 & H6 & L6 & C6); [|intros ? ? ? ?; apply await_writer_ok].
  apply concat_singletons in H5, H6. rewrite H5 in L5. rewrite H6 in L6.
  destruct (reopened_all _ _ _ _ _ _ Hre) as (Hix & Hstr & Hquiet).
  assert (NoDup (wr_channel <$> writers)) as Hndw by (rewrite C1; apply NoDup_seq).
  unfold stripes in R. rewrite Nat2Z.id in R.
  assert (rs_index <$> filter (λ r : RepairSource, is_intact_condition (rs_condition r) = true) sources `sublist_of` rs_index <$> sources) as Hsub
    by apply fmap_sublist, sublist_filter.
  apply (rebuild_stripes_ok key writers) in R as (e3 & L3 & S3); [|done|done| |].
  2: { split; rewrite ?Hix; [by eapply sublist_NoDup| |].
       - apply Forall_forall. intros i Hi. rewrite Forall_forall in Hrg. apply Hrg. by eapply elem_of_sublist.
       - eapply Forall_impl; [exact Hstr|]. intros r Hs' ch id Hst. rewrite L2. apply elem_of_app. right. by apply Hs'. }
  2: { rewrite L6, L5, L4 in Hu. by do 3 apply undamaged_app in Hu. }
  exists (concat es1 ++ concat es2 ++ e3 ++ e4 ++ finish_events (r_size record) (r_object_checksum record) writers).
  assert (0 < r_size record) as Hsize by (rewrite (os_size Hos); destruct body; cbn; lia || done).
  split. { unfold finish_events. rewrite (proj2 (Z.ltb_lt _ _)) by done. by rewrite L6, L5, L4, L3, L2, L1, <- !app_assoc. }
  intros index device Ht. apply list_elem_of_lookup in Ht as [i Hi].
  destruct (Forall3_lookup_l _ _ _ _ _ _ Ho Hi) as (w & e & Hw & He & Heq & _). injection Heq as -> ->.
  assert (w ∈ writers) as Hwin by by eapply list_elem_of_lookup_2.
  assert (0 ≤ wr_index w < total_shards (scheme code)) as Hwi.
  { rewrite Forall_forall in Htr. apply (Htr (wr_index w, wr_device w)). by eapply list_elem_of_lookup_2. }
  destruct (S3 w Hwin Hwi) as (col & Hcol & Hsent). cbn [drop] in Hsent.
  assert (wr_channel w ∉ reader_channel <$> readers) as Hch.
  { rewrite C2. intros [Hge _]%elem_of_seq. assert (wr_channel w ∈ seq (length (pe_conns s)) (length targets)) as [? ?]%elem_of_seq.
    { rewrite <- C1. by apply list_elem_of_fmap_2. } lia. }
  exists (wr_channel w), (wr_request w), col, (data_messages (wr_request w) 0 col
    ++ [MEndOfStream (wr_request w) (mkStreamEnd None (Some (r_size record)) (Some (r_object_checksum record)) [] [])]).
  split_and!; [done| | |].
  - rewrite !sent_on_app, (sent_on_targets _ _ _ _ _ _ Ho Hndw w Hwin), (Hquiet _ Hch), Hsent, (sent_on_received _ _ G4),
      (sent_on_finish _ _ _ i w Hndw Hw Hsize). done.
  - rewrite fmap_app. apply data_streamed; [lia|]. pose proof (os_lengths Hos) as Hl. rewrite Forall_lookup in Hl. rewrite (Hl _ _ Hcol).
    pose proof (length_chunks_le _ body (stripe_bytes_pos Hos)). pose proof (os_bound Hos) as Hb. rewrite (os_size Hos) in Hb.
    unfold is_uint in Hb. lia.
  - unfold finish_events. rewrite (proj2 (Z.ltb_lt _ _)) by done. do 5 (apply elem_of_app; right). by apply (list_elem_of_fmap_2 done_event).
Qed.
End stored.

(** ** The order of a repair *)

Definition reads_only (m : Message) : Prop :=
  match m with
  | MRequest _ (LocalLookup _ _) | MRequest _ LocalStatus | MRequest _ (GetShard _ _ _ _ _ _) => True
  | _ => False
  end.

Definition writes_shards (m : Message) : Prop :=
  match m with
  | MRequest _ (GetShard _ _ _ _ _ _) | MRequest _ (PutShard _ _ _ _ _ _ _ _) | MData _ _ | MEndOfStream _ _ => True
  | _ => False
  end.

Definition writes_records (m : Message) : Prop := match m with MRequest _ (PutMeta _ _) => True | _ => False end.
Definition deletes (m : Message) : Prop := match m with MRequest _ (DeleteVersion _ _ _) => True | _ => False end.

(** The answer that says a shard or a record is stored. *)
Definition stored_answer (r : Request) : option Response :=
  match r with
  | PutShard _ _ _ _ _ _ _ _ => Some PutShardDone
  | PutMeta _ _ => Some RespPutMeta
  | _ => None
  end.

Definition acknowledged (events : list Event) : Prop := ∀ ch id r answer,
  Sent ch (MRequest id r) ∈ events → stored_answer r = Some answer → Got ch (MResponse id answer) ∈ events.

Lemma acknowledged_nil : acknowledged [].
Proof. by intros ch id r answer ?%not_elem_of_nil. Qed.

Lemma acknowledged_app e1 e2 : acknowledged e1 → acknowledged e2 → acknowledged (e1 ++ e2).
Proof. intros H1' H2' ch id r answer [Hin|Hin]%elem_of_app Hr; apply elem_of_app; [left; by eapply H1'|right; by eapply H2']. Qed.

(** Events with nothing to acknowledge. *)
Lemma acknowledged_other events : Forall (says (λ m, match m with MRequest _ r => stored_answer r = None | _ => True end)) events → acknowledged events.
Proof. intros Hf ch id r answer Hin Hr. rewrite Forall_forall in Hf. specialize (Hf _ Hin). cbn in Hf. congruence. Qed.

Lemma rewrite_acknowledged n record missing s u s' :
  rewrite_record_copies n record missing s = Some (Ok u, s') → ∃ e, pe_log s' = pe_log s ++ e ∧ acknowledged e.
Proof.
  apply fold_events; [apply acknowledged_nil|apply acknowledged_app|]. intros b d t b' t' Hr. next Hr.
  apply lift_ok_inv in R as [_ ->]. next Hr. apply ask_node_ok in R as (ch & id & hello & L). destruct x0; try done.
  apply ret_ok_inv in Hr as [_ ->]. eexists. split; [exact L|]. intros ch' id' r answer Hin Hr.
  rewrite !elem_of_cons, elem_of_nil in Hin. destruct Hin as [?|[[= -> <-]|[?|[[= -> -> ->]|[?|?]]]]]; try done. injection Hr as <-. set_solver.
Qed.

(** The targets opened, the rest of a rebuild only acknowledges them. *)
Lemma rebuild_acknowledged n key record sources targets s u s' :
  rebuild_shards n key record sources targets s = Some (Ok u, s') → ∃ e, pe_log s' = pe_log s ++ e ∧ acknowledged e.
Proof.
  unfold rebuild_shards. intros Hr. next Hr. apply lift_ok_inv in R as [_ ->]. next Hr. apply lift_ok_inv in R as [_ ->].
  next Hr. apply lift_ok_inv in R as [_ ->]. next Hr. apply lift_ok_inv in R as [_ ->]. rename x into sch, x2 into code.
  next Hr. apply (mapM_log _ (target_opened record sch n) wr_channel) in R as (es1 & Ho & L1 & _); [|intros ? ? ? ?; apply open_target_ok].
  rename x into writers. next Hr. next Hr. next Hr. next Hr.
  apply (fold_log await_writer (λ w e, e = [done_event w])) in Hr as (es6 & H6 & L6 & _); [|intros ? ? ? ?; apply await_writer_ok].
  apply concat_singletons in H6.
  assert (∃ e, pe_log t3 = pe_log t ++ e ∧ acknowledged e) as (e & L & Ha).
  { pose (P := λ m, match m with MRequest _ r => stored_answer r = None | _ => True end).
    assert (adds P (reopen_intact_streams n sources record (g_block_count x1))) as A1
      by (unfold reopen_intact_streams, reopen_intact_stream; adds_says).
    assert (∀ readers, adds P (nfold (rebuild_stripe code key record writers) (stripes (g_block_count x1)) readers)) as A2
      by (intros; unfold rebuild_stripe, read_repair_stripe, read_repair_block, send_rebuilt; adds_says).
    assert (∀ readers, adds P (finish_repair_streams readers key record)) as A3
      by (intros; unfold finish_repair_streams; adds_says).
    assert (adds P (nfold (λ _ w, finish_writer record (r_object_checksum record) w) writers tt)) as A4
      by (unfold finish_writer; adds_says).
    destruct (A1 _ _ _ R) as (e1 & M1 & F1 & _), (A2 _ _ _ _ R0) as (e2 & M2 & F2 & _), (A3 _ _ _ _ R1) as (e3 & M3 & F3 & _),
      (A4 _ _ _ R2) as (e4 & M4 & F4 & _).
    exists (e1 ++ e2 ++ e3 ++ e4). split; [by rewrite M4, M3, M2, M1, <- !app_assoc|].
    apply acknowledged_other. by repeat (apply Forall_app; split). }
  exists (concat es1 ++ e ++ concat es6). split; [by rewrite L6, L, L1, <- !app_assoc|].
  intros ch id r answer Hin Hr. rewrite !elem_of_app in Hin |- *. destruct Hin as [Hin|[Hin|Hin]].
  - right; right. rewrite H6. clear -Ho Hin Hr.
    induction Ho as [|t w e l l' es' (_ & hello & ->) _ IH]; [by apply not_elem_of_nil in Hin|]. cbn [concat] in Hin.
    apply elem_of_app in Hin as [Hin|Hin]; [|cbn; by apply list_elem_of_further, IH].
    rewrite !elem_of_cons, elem_of_nil in Hin. destruct Hin as [?|[[= -> <-]|[?|[[= -> -> ->]|[?|?]]]]]; try done.
    injection Hr as <-. apply list_elem_of_here.
  - right; left. by eapply Ha.
  - rewrite H6 in Hin. apply list_elem_of_fmap in Hin as (w & Hw & _). done.
Qed.

(** ** The first pass *)

(** A stripe's data, as the blocks that arrived decode to it. *)
Definition decoded_from record (code : ReedSolomonCode) count log (j : Z) (data : list Z) : Prop := ∃ received decoded,
  Forall (arrived record count log j) received
  ∧ decode_stripe code (shard_indices (scheme code)) received (stripe_length (scheme code) record j) = Ok decoded
  ∧ (decoded = Stripe.Intact data ∨ ∃ faults, decoded = Stripe.Repaired data faults).

(** The object was read whole: every stripe decoded from blocks that arrived,
    and the checksum of the whole is the one recorded. *)
Definition verified record log : Prop := ∃ sch code g datas,
  record_scheme record = Ok sch ∧ ReedSolomonCode_new sch = Ok code
  ∧ shard_geometry (E := Failure) sch (r_block_size record) (r_size record) = Ok (Some g)
  ∧ Forall2 (decoded_from record code (g_block_count g) log) (stripes (g_block_count g)) datas
  ∧ xxh3_64 (concat datas) = r_object_checksum record.

Lemma decoded_from_app record code count log e j data :
  decoded_from record code count log j data → decoded_from record code count (log ++ e) j data.
Proof.
  intros (received & decoded & Ha & Hd). exists received, decoded. split; [|done]. eapply Forall_impl; [exact Ha|]. intros b. apply arrived_app.
Qed.

Lemma verified_app record log e : verified record log → verified record (log ++ e).
Proof.
  intros (sch & code & g & datas & Hs & Hc & Hg & Hd & Hx). exists sch, code, g, datas. split_and!; try done.
  eapply Forall2_impl; [exact Hd|]. intros. by apply decoded_from_app.
Qed.

Lemma open_repair_sources_ok n record sch count s sources s' :
  record_scheme record = Ok sch → open_repair_sources n record count s = Some (Ok sources, s') →
  rs_index <$> sources = shard_indices sch ∧ Forall (streaming record count (pe_log s')) sources.
Proof.
  intros Hsch Hr. unfold open_repair_sources in Hr. next Hr. apply lift_ok_inv in R as [Hx ->]. apply map_err_Ok in Hx.
  rewrite Hsch in Hx. injection Hx as <-.
  apply (mapM_history _ (λ log i y, rs_index y = i ∧ streaming record count log y)) in Hr as [Hall _].
  - split.
    + clear -Hall. induction Hall as [|i y l l' [Hi _] _ IH]; [done|]. cbn. by f_equal.
    + eapply Forall2_Forall_r; [exact Hall|]. apply Forall_true. by intros ? ? [? ?].
  - intros log e i y [Hi Hs]. split; [done|]. by apply streaming_app.
  - intros i t y t' Hy. split; [|eapply (adds_prefix (λ _, True)); [|exact Hy]; unfold open_repair_source; by adds_says].
    unfold open_repair_source in Hy. next Hy. apply lift_ok_inv in R as [_ ->].
    destruct (live_owner _ _); [|by apply ret_ok_inv in Hy as [-> _]]. next Hy. apply connect_ok in R as (-> & _ & hello & L1).
    next Hy. apply map_err_ok_inv, send_request_ok in R as [L2 _]. next Hy. apply attempt_ok_inv in R.
    destruct x1 as [[]|[]|]; try done.
    + apply ret_ok_inv in Hy as [-> ->]. apply read_response_ok in R as [L3 _]. split; [done|]. intros ch id [= <- <-]. cbn.
      rewrite L3, L2. set_solver.
    + by apply ret_ok_inv in Hy as [-> ->].
Qed.

Lemma scan_stripes_ok key record code count l : ∀ sc s sc' s',
  nfold (scan_stripe code key record) l sc s = Some (Ok sc', s') → Forall (streaming record count (pe_log s)) (sc_sources sc) →
  ∃ datas, sc_hasher sc' = sc_hasher sc ++ concat datas ∧ Forall2 (decoded_from record code count (pe_log s')) l datas
    ∧ rs_index <$> sc_sources sc' = rs_index <$> sc_sources sc.
Proof.
  induction l as [|j l IH]; intros sc s sc' s' Hr Hs; cbn [nfold] in Hr.
  { apply ret_ok_inv in Hr as [-> ->]. exists []. cbn. rewrite app_nil_r. split_and!; constructor || done. }
  next Hr. assert (pe_log t `prefix_of` pe_log s') as [e2 L2].
  { eapply (adds_prefix (λ _, True)); [|exact Hr]. unfold scan_stripe, read_repair_stripe, read_repair_block. by adds_says. }
  unfold scan_stripe in R. next R. destruct x0 as [received sources].
  apply (read_repair_stripe_ok _ count) in R0 as (e1 & L1 & _ & _ & Ha & _ & Hix & Hs'); [|done].
  next R. apply lift_ok_inv in R0 as [Hd ->]. apply map_err_Ok in Hd.
  assert (∃ data corrupt, x = mkScan sources (sc_hasher sc ++ data) corrupt ∧ t = t0
    ∧ (x0 = Stripe.Intact data ∨ ∃ faults, x0 = Stripe.Repaired data faults)) as (data & corrupt & -> & -> & Hx0).
  { destruct x0 as [data|data faults|]; try done.
    - apply ret_ok_inv in R as [-> ->]. do 2 eexists. split_and!; [done|done|by left].
    - next R. apply lift_ok_inv in R0 as [_ ->]. apply ret_ok_inv in R as [-> ->]. do 2 eexists. split_and!; [done|done|right; by eexists]. }
  apply IH in Hr as (datas & Hh & Hds & Hi); [|done]. exists (data :: datas). cbn in *. split_and!.
  - by rewrite Hh, <- app_assoc.
  - constructor; [|done]. rewrite L2. apply decoded_from_app. by exists received, x0.
  - by rewrite Hi.
Qed.

Lemma scan_object_ok n key record sch s sources s' :
  record_scheme record = Ok sch → scan_object n key record sch s = Some (Ok sources, s') →
  rs_index <$> sources = shard_indices sch ∧ verified record (pe_log s').
Proof.
  intros Hsch Hr. unfold scan_object in Hr. next Hr. apply lift_ok_inv in R as [Hg ->]. next Hr. apply lift_ok_inv in R as [Hg' ->].
  destruct x as [g|]; [|done]. injection Hg' as <-. next Hr. apply (open_repair_sources_ok _ _ sch) in R as [Hix Hs]; [|done].
  next Hr. apply lift_ok_inv in R as [Hc ->]. apply map_err_Ok in Hc. rename x0 into code. next Hr.
  apply (scan_stripes_ok _ _ _ (g_block_count g)) in R as (datas & Hh & Hd & Hi); [|done]. next Hr.
  apply finish_repair_streams_ok in R as (e & L & _). next Hr. apply lift_ok_inv in R as [Hck%ensure_Ok%Z.eqb_eq ->].
  apply lift_ok_inv in Hr as [Hm ->]. cbn in Hh, Hi. split.
  - rewrite <- Hix, <- Hi. apply map_res_Ok in Hm. clear -Hm. induction Hm as [|y z l l' Hy _ IH]; [done|]. cbn. f_equal; [|done].
    unfold note_condition in Hy. destruct (_ !! Z.to_nat (rs_index y)) as [stripes|]; [|done]. cbn in Hy. injection Hy as <-.
    by destruct (rs_stream y), stripes.
  - rewrite L. apply verified_app. exists sch, code, g, datas. by rewrite <- Hh.
Qed.

(** ** The whole *)

(** The last two phases: the records, then the stale copies. *)
Lemma finish_phases {A : Type} (m : net (Peers N) Failure A) n record stale (f : A → list DeviceId → Response) s r s' :
  adds writes_records m → (∀ s a s', m s = Some (Ok a, s') → ∃ e, pe_log s' = pe_log s ++ e ∧ acknowledged e) →
  (copies ← m; removed ← remove_stale_copies n record stale; mret (f copies removed)) s = Some (r, s') →
  ∃ records removed, pe_log s' = pe_log s ++ records ++ removed ∧ Forall (says writes_records) records
    ∧ Forall (says deletes) removed ∧ (removed ≠ [] → acknowledged records).
Proof.
  intros Hm Hack Hr. apply bind_inv in Hr as [(a & s1 & R1 & Hr)|(r0 & R1 & _)].
  - destruct (Hm _ _ _ R1) as (e1 & L1 & F1 & _), (Hack _ _ _ R1) as (e1' & L1' & A1).
    rewrite L1 in L1'. apply app_inv_head in L1' as <-.
    assert (adds deletes (removed ← remove_stale_copies n record stale; mret (f a removed))) as Hd
      by (unfold remove_stale_copies; adds_says).
    destruct (Hd _ _ _ Hr) as (e2 & L2 & F2 & _). exists e1, e2. by rewrite L2, L1, app_assoc.
  - destruct (Hm _ _ _ R1) as (e1 & L1 & F1 & _). exists e1, []. rewrite app_nil_r. split_and!; [done|done|constructor|done].
Qed.

Lemma complete_records_ok n record next relocations missing :
  adds writes_records (complete_records n record next relocations missing)
  ∧ ∀ s a s', complete_records n record next relocations missing s = Some (Ok a, s') →
      ∃ e, pe_log s' = pe_log s ++ e ∧ acknowledged e.
Proof.
  unfold complete_records. split.
  - unfold rewrite_record_copies. destruct relocations; adds_says.
  - intros s a s' Hr. destruct relocations; next Hr; apply ret_ok_inv in Hr as [_ ->]; by apply rewrite_acknowledged in R.
Qed.

(** A run of a repair, in phases. *)
Definition phases fuel n key s s' : Prop := ∃ reads shards records removed,
  pe_log s' = pe_log s ++ reads ++ shards ++ records ++ removed
  ∧ Forall (says reads_only) reads ∧ Forall (says writes_shards) shards
  ∧ Forall (says writes_records) records ∧ Forall (says deletes) removed
  ∧ (shards ++ records ++ removed ≠ [] → ∃ record missing stale s1,
       repairable_record fuel n key s = Some (Ok (record, missing, stale), s1)
       ∧ (r_size record = 0 ∨ verified record (pe_log s ++ reads)))
  ∧ (records ++ removed ≠ [] → acknowledged shards) ∧ (removed ≠ [] → acknowledged records).

Lemma phases_reading fuel n key s s' e :
  pe_log s' = pe_log s ++ e → Forall (says reads_only) e → phases fuel n key s s'.
Proof. intros L F. exists e, [], [], []. rewrite !app_nil_r. split_and!; constructor || done. Qed.

Lemma adds_repairable_record fuel n key : adds reads_only (repairable_record fuel n key).
Proof. unfold repairable_record. adds_says. Qed.

Lemma adds_scan_object n key record sch : adds reads_only (scan_object n key record sch).
Proof.
  unfold scan_object, open_repair_sources, open_repair_source, scan_stripe, read_repair_stripe, read_repair_block, finish_repair_streams.
  adds_says.
Qed.

Lemma adds_relocate n record lost : adds reads_only (relocate_lost_shards n record lost).
Proof. unfold relocate_lost_shards. adds_says. Qed.

Lemma adds_rebuild n key record sources targets : adds writes_shards (rebuild_shards n key record sources targets).
Proof.
  unfold rebuild_shards, open_target, reopen_intact_streams, reopen_intact_stream, rebuild_stripe, read_repair_stripe, read_repair_block,
    send_rebuilt, finish_repair_streams, finish_writer, await_writer. adds_says.
Qed.

(** C12. The order of a repair, at every instant and whatever nodes and network
    do: it first only reads; it writes nothing unless the record was found to
    be trusted and the object, unless it is empty, was read whole, every
    stripe decoded and the checksum of the whole the recorded one; shards are
    written before records, records only once every shard was acknowledged,
    and stale copies deleted only once every record was. *)
Theorem repair_ordered fuel n (key : str) s (r : res Failure Response) s' :
  repair_object fuel n key s = Some (r, s') → phases fuel n key s s'.
Proof.
  unfold repair_object. intros Hr.
  apply bind_inv in Hr as [([[record missing] stale] & s1 & R1 & Hr)|(r0 & R1 & _)].
  2: { destruct (adds_repairable_record _ _ _ _ _ _ R1) as (e & L & F & _). by eapply phases_reading. }
  destruct (adds_repairable_record _ _ _ _ _ _ R1) as (e1 & L1 & F1 & _).
  apply bind_inv in Hr as [(sch & s2 & R2 & Hr)|(r0 & R2 & _)]; [|injection R2 as _ <-; by eapply phases_reading].
  apply lift_ok_inv in R2 as [Hsch ->]. apply map_err_Ok in Hsch.
  destruct (Z.eqb_spec (r_size record) 0) as [Hz|Hz].
  - apply bind_inv in Hr as [([next relocations] & s2 & R2 & Hr)|(r0 & R2 & _)];
      destruct (adds_relocate _ _ _ _ _ _ R2) as (e2 & L2 & F2 & _); rewrite L1, <- app_assoc in L2.
    2: { eapply phases_reading; [exact L2|]. by apply Forall_app. }
    destruct (complete_records_ok n record next relocations (filter (λ d, in_service n d = true) missing)) as [Hc Ha].
    apply (finish_phases _ n record stale _ _ _ _ Hc Ha) in Hr as (records & removed & L3 & F3 & F4 & A).
    exists (e1 ++ e2), [], records, removed. rewrite L3, L2, <- !app_assoc. split_and!; [done|by apply Forall_app|constructor|done|done| |by intros _; apply acknowledged_nil|done].
    intros _. do 4 eexists. split; [exact R1|by left].
  - apply bind_inv in Hr as [(sources & s2 & R2 & Hr)|(r0 & R2 & _)];
      destruct (adds_scan_object _ _ _ _ _ _ _ R2) as (e2 & L2 & F2 & _); rewrite L1, <- app_assoc in L2.
    2: { eapply phases_reading; [exact L2|]. by apply Forall_app. }
    apply scan_object_ok in R2 as [Hix Hver]; [|done]. rewrite L2 in Hver.
    destruct (filter _ sources) as [|x damaged].
    + assert (∀ s a s', rewrite_record_copies n record (filter (λ d, in_service n d = true) missing) s = Some (Ok a, s') →
        ∃ e, pe_log s' = pe_log s ++ e ∧ acknowledged e) as Ha by (intros ? ? ?; apply rewrite_acknowledged).
      apply (finish_phases _ n record stale (λ _ removed, _)) in Hr as (records & removed & L3 & F3 & F4 & A);
        [|unfold rewrite_record_copies; adds_says|exact Ha].
      exists (e1 ++ e2), [], records, removed. rewrite L3, L2, <- !app_assoc.
      split_and!; [done|by apply Forall_app|constructor|done|done| |by intros _; apply acknowledged_nil|done].
      intros _. do 4 eexists. split; [exact R1|by right].
    + apply bind_inv in Hr as [([next relocations] & s3 & R3 & Hr)|(r0 & R3 & _)];
        destruct (adds_relocate _ _ _ _ _ _ R3) as (e3 & L3 & F3 & _); rewrite L2, <- !app_assoc in L3.
      2: { eapply phases_reading; [exact L3|]. by repeat (apply Forall_app; split). }
      apply (verified_app _ _ e3) in Hver. rewrite <- !app_assoc in Hver.
      apply bind_inv in Hr as [([] & s4 & R4 & Hr)|(r0 & R4 & _)]; destruct (adds_rebuild _ _ _ _ _ _ _ _ R4) as (e4 & L4 & F4 & _).
      2: { exists (e1 ++ e2 ++ e3), e4, [], []. rewrite L4, L3, <- !app_assoc, !app_nil_r.
           split_and!; [done|by repeat (apply Forall_app; split)|done|constructor|constructor| |done|done].
           intros _. do 4 eexists. split; [exact R1|by right]. }
      apply rebuild_acknowledged in R4 as (e4' & L4' & A4). rewrite L4 in L4'. apply app_inv_head in L4' as <-.
      destruct (complete_records_ok n record next relocations (filter (λ d, in_service n d = true) missing)) as [Hc Ha].
      apply (finish_phases _ n record stale _ _ _ _ Hc Ha) in Hr as (records & removed & L5 & F5 & F6 & A).
      exists (e1 ++ e2 ++ e3), e4, records, removed. rewrite L5, L4, L3, <- !app_assoc.
      split_and!; [done|by repeat (apply Forall_app; split)|done|done|done| |done|done].
      intros _. do 4 eexists. split; [exact R1|by right].
Qed.

(** The report of the shards: those that were not intact are those rewritten. *)
Lemma shard_reports relocations (sources : list RepairSource) x :
  NoDup (rs_index <$> sources) → x ∈ sources →
  sp_rewritten (shard_report relocations (rs_index <$> filter (λ r : RepairSource, is_intact_condition (rs_condition r) = false) sources) x)
  = negb (is_intact_condition (rs_condition x)).
Proof.
  intros Hnd Hx. cbn. case_bool_decide as Hin.
  - apply list_elem_of_fmap in Hin as (y & Hy & Hin). apply list_elem_of_filter in Hin as [Hc Hin].
    assert (x = y) as -> by (by eapply (NoDup_fmap_inj rs_index)). by rewrite Hc.
  - destruct (is_intact_condition (rs_condition x)) eqn:Hc; [done|]. exfalso. apply Hin.
    apply list_elem_of_fmap. exists x. split; [done|]. by apply list_elem_of_filter.
Qed.


(** ** Where the two meet *)

Lemma rewrite_sends n record d missing : ∀ u s u' s',
  nfold (λ _ device,
    owner ← nlift (record_owner n record device None);
    answer ← ask_node n owner (PutMeta device record);
    match answer with
    | RespPutMeta => mret tt
    | other => nthrow (error ProtocolViolation (CAnswered owner (lit "PutMeta") other))
    end) missing u s = Some (Ok u', s') → d ∈ missing →
  ∃ e ch id, pe_log s' = pe_log s ++ e ∧ Sent ch (MRequest id (PutMeta d record)) ∈ e.
Proof.
  induction missing as [|x l IH]; intros u s u' s' Hr Hd; [by apply not_elem_of_nil in Hd|]. cbn [nfold] in Hr. next Hr.
  next R. apply lift_ok_inv in R0 as [_ ->]. next R. apply ask_node_ok in R0 as (ch & id & hello & L1).
  destruct x2; try done. apply ret_ok_inv in R as [_ ->].
  assert (pe_log t0 `prefix_of` pe_log s') as [e2 L2] by (eapply (adds_prefix (λ _, True)); [|exact Hr]; by adds_says).
  apply elem_of_cons in Hd as [->|Hd].
  - eexists _, ch, id. split; [by rewrite L2, L1, <- app_assoc|]. set_solver.
  - destruct (IH _ _ _ _ Hr Hd) as (e & ch' & id' & L & Hin). eexists _, ch', id'. split; [by rewrite L, L1, <- app_assoc|].
    apply elem_of_app. by right.
Qed.

Lemma remove_sends n record d stale : ∀ removed s removed' s',
  nfold (λ removed (x : DeviceId * Z),
    match live_owner (nd_document n) x.1 with
    | None => mret removed
    | Some owner =>
        _ ← ask_node n owner (DeleteVersion x.1 (r_key_hash record) (r_version record));
        mret (removed ++ [x.1])
    end) stale removed s = Some (Ok removed', s') → d ∈ stale.*1 → is_Some (live_owner (nd_document n) d) →
  d ∈ removed' ∧ ∃ e ch id, pe_log s' = pe_log s ++ e
    ∧ Sent ch (MRequest id (DeleteVersion d (r_key_hash record) (r_version record))) ∈ e.
Proof.
  intros removed s removed' s' Hr Hd Hlive. revert removed s Hr Hd.
  assert (∀ l removed (s t : Peers N) removed', nfold (λ removed (x : DeviceId * Z),
    match live_owner (nd_document n) x.1 with
    | None => mret removed
    | Some owner =>
        _ ← ask_node n owner (DeleteVersion x.1 (r_key_hash record) (r_version record));
        mret (removed ++ [x.1])
    end : net (Peers N) Failure _) l removed s = Some (Ok removed', t) → d ∈ removed → d ∈ removed') as Hkeep.
  { induction l as [|x l IH]; intros removed s t removed'' Hr Hd; cbn [nfold] in Hr; [by apply ret_ok_inv in Hr as [-> ->]|].
    next Hr. eapply IH; [exact Hr|]. destruct (live_owner (nd_document n) x.1); [|by apply ret_ok_inv in R as [-> _]].
    next R. apply ret_ok_inv in R as [-> _]. apply elem_of_app. by left. }
  induction stale as [|[x rev] l IH]; intros removed s Hr Hd; [by apply not_elem_of_nil in Hd|]. cbn [nfold] in Hr. next Hr.
  cbn in Hd. apply elem_of_cons in Hd as [->|Hd].
  - cbn in R. destruct Hlive as [owner Ho]. rewrite Ho in R. next R. apply ask_node_ok in R0 as (ch & id & hello & L1).
    apply ret_ok_inv in R as [-> ->].
    assert (pe_log t0 `prefix_of` pe_log s') as [e2 L2] by (eapply (adds_prefix (λ _, True)); [|exact Hr]; by adds_says).
    split; [eapply Hkeep; [exact Hr|]; apply elem_of_app; right; by apply list_elem_of_singleton|].
    eexists _, ch, id. split; [by rewrite L2, L1, <- app_assoc|]. set_solver.
  - destruct (IH _ _ Hr Hd) as [Hin (e & ch & id & L & Hs)]. split; [done|].
    assert (pe_log s `prefix_of` pe_log t) as [e1 L1].
    { eapply (adds_prefix (λ _, True)); [|exact R]. cbn. by adds_says. }
    eexists _, ch, id. split; [by rewrite L, L1, <- app_assoc|]. apply elem_of_app. by right.
Qed.

Lemma relocated_elem relocations i d : relocated_to relocations i = Some d → d ∈ relocations.*2.
Proof.
  induction relocations as [|[j e] l IH]; [done|]. cbn. destruct (j =? i); [intros [= ->]; apply list_elem_of_here|].
  intros Hd. apply list_elem_of_further. by apply IH.
Qed.

(** The record on the new device, and then its deletion there. *)
Definition placed_then_deleted record d log log' : Prop := ∃ before after next ch id ch' id',
  log' = log ++ before ++ after
  ∧ Sent ch (MRequest id (PutMeta d next)) ∈ before
  ∧ Sent ch' (MRequest id' (DeleteVersion d (r_key_hash record) (r_version record))) ∈ after.

Lemma finish_deletes n record next relocations missing stale (f : list DeviceId → list DeviceId → Response) s r s' :
  (copies ← complete_records n record next relocations missing;
   removed ← remove_stale_copies n record stale; mret (f copies removed)) s = Some (Ok r, s') →
  ∃ copies removed, r = f copies removed ∧ ∀ i d,
    relocated_to relocations i = Some d → d ∈ stale.*1 → is_Some (live_owner (nd_document n) d) →
    placed_then_deleted record d (pe_log s) (pe_log s') ∧ d ∈ removed.
Proof.
  intros Hr. next Hr. next Hr. apply ret_ok_inv in Hr as [-> ->]. eexists _, _. split; [done|]. intros i d Hrel Hst Hlive.
  apply relocated_elem in Hrel. destruct relocations as [|x0' relocations]; [by apply not_elem_of_nil in Hrel|].
  unfold complete_records in R. next R. apply ret_ok_inv in R as [-> ->].
  apply (rewrite_sends _ _ d) in R1 as (e1 & ch & id & L1 & Hs1).
  2: { unfold devices_new_first. apply elem_of_app. by left. }
  apply (remove_sends _ _ d) in R0 as [Hin (e2 & ch' & id' & L2 & Hs2)]; [|done|done].
  split; [|done]. exists e1, e2, next, ch, id, ch', id'. by rewrite L2, L1, app_assoc.
Qed.

Lemma placed_then_deleted_later record d log e log' :
  placed_then_deleted record d (log ++ e) log' → placed_then_deleted record d log log'.
Proof.
  intros (before & after & next & ch & id & ch' & id' & -> & H1' & H2'). exists (e ++ before), after, next, ch, id, ch', id'.
  rewrite <- !app_assoc. split_and!; [done|apply elem_of_app; by right|done].
Qed.

(** C38. A repair can undo itself: when the device a lost shard was given to is
    one that still has a stale copy of the version, which nothing rules out,
    the repair that reports success has stored the record there and then
    deleted the version, its record and the shard just rebuilt, from it. *)
Theorem repair_deletes_relocated fuel n (key : str) (report : RepairReport) s s' record missing stale s1 x d :
  repair_object fuel n key s = Some (Ok (RespRepairObject report), s') →
  repairable_record fuel n key s = Some (Ok (record, missing, stale), s1) →
  x ∈ rr_shards report → sp_relocated_to x = Some d → d ∈ stale.*1 → is_Some (live_owner (nd_document n) d) →
  placed_then_deleted record d (pe_log s) (pe_log s') ∧ d ∈ rr_stale_copies_removed report.
Proof.
  intros Hr Hrec Hx Hrel Hst Hlive. unfold repair_object in Hr. next Hr. rewrite Hrec in R. injection R as <- <-.
  destruct (adds_repairable_record _ _ _ _ _ _ Hrec) as (e1 & L1 & _).
  next Hr. apply lift_ok_inv in R as [_ ->]. destruct (Z.eqb_spec (r_size record) 0) as [Hz|_].
  - next Hr. destruct x1 as [next relocations]. destruct (adds_relocate _ _ _ _ _ _ R) as (e2 & L2 & _).
    apply (finish_deletes _ _ _ _ _ _ (λ copies removed, _)) in Hr as (copies & removed & [= ->] & Hgo). cbn in Hx |- *.
    apply list_elem_of_fmap in Hx as (y & -> & _). destruct (Hgo _ _ Hrel Hst Hlive) as [Hp Hin]. split; [|done].
    rewrite L2, L1 in Hp. by do 2 apply placed_then_deleted_later in Hp.
  - next Hr. destruct (adds_scan_object _ _ _ _ _ _ _ R) as (e2 & L2 & _). destruct (filter _ x1) as [|d0 damaged].
    + next Hr. next Hr. apply ret_ok_inv in Hr as [[= ->] ->]. cbn in Hx. apply list_elem_of_fmap in Hx as (y & -> & _). done.
    + next Hr. destruct x2 as [next relocations]. destruct (adds_relocate _ _ _ _ _ _ R0) as (e3 & L3 & _).
      next Hr. destruct (adds_rebuild _ _ _ _ _ _ _ _ R1) as (e4 & L4 & _).
      apply (finish_deletes _ _ _ _ _ _ (λ copies removed, _)) in Hr as (copies & removed & [= ->] & Hgo). cbn in Hx |- *.
      apply list_elem_of_fmap in Hx as (y & -> & _). destruct (Hgo _ _ Hrel Hst Hlive) as [Hp Hin]. split; [|done].
      rewrite L4, L3, L2, L1 in Hp. by do 4 apply placed_then_deleted_later in Hp.
Qed.
End repair.

(** ** Witnesses: a device removed, and a copy left behind by an earlier move *)

Section witnesses.
#[local] Existing Instance poly_xxh3.
#[local] Existing Instance poly_sha256.
#[local] Existing Instance decimal_uuid.
#[local] Existing Instance xor_lib.
#[local] Instance bare_texts : CoordTexts := {| BUILD := []; ctext := λ _, [] |}.

(** The current record lists devices 101 to 103; device 104 still has the copy
    of the revision before; device 103 is removed. *)
Definition record8 : MetadataRecord := replaced record6 (r_shards record6).
Definition stale8 : MetadataRecord := {|
  r_format_version := 1; r_system := SYSTEM_NAME; r_bucket := lit "default";
  r_key := lit "a"; r_key_hash := hash_key (as_bytes (lit "a")); r_version := replicate 16 7;
  r_created := 0; r_size := 5; r_object_checksum := xxh3_64 body6; r_k := 2; r_m := 1; r_block_size := 4096;
  r_shards := [mkLocation 0 101; mkLocation 1 102; mkLocation 2 104];
  r_revision := 0; r_content_type := None; r_user_metadata := [] |}.

Definition document8 : ClusterDocument := {|
  c_version := 1; c_cluster_id := 193; c_name := None; c_k := 2; c_m := 1; c_block_size := 4096;
  c_independence_level := LevelDevice; c_headroom := c_headroom doc1;
  c_max_key_bytes := DEFAULT_MAX_KEY_BYTES; c_max_object_bytes := DEFAULT_MAX_OBJECT_BYTES;
  c_max_user_metadata_bytes := DEFAULT_MAX_USER_METADATA_BYTES; c_transport := Plain;
  c_nodes := c_nodes document6 ++ [Cluster.mkNode 14 [lit "10.0.0.4:5263"] None NodeActive];
  c_devices := [mkDeviceEntry 101 11 Active None; mkDeviceEntry 102 12 Active None; mkDeviceEntry 103 13 Removed None;
                mkDeviceEntry 104 14 Active None] |}.

Definition node8 : Node unit := Node.mkNodeState config1 document8 [] ∅ ∅ false ∅ None.

Definition locate8 (address : str) : option NodeId :=
  if str_eqb address (lit "10.0.0.4:5263") then Some 14 else locate7 address.

Definition serve8 (node id : Z) (r : Request) : list Message :=
  match r with
  | LocalLookup _ _ =>
      [MResponse id (RespLocalLookup (if node =? 14 then [mkLocated 104 stale8] else if node =? 13 then [] else [mkLocated (node + 90) record8]) false [])]
  | GetShard _ _ _ i _ count =>
      MResponse id (RespGetShard count) :: data_messages id 0 (default [] (columns6 !! Z.to_nat i)) ++ [MEndOfStream id StreamEnd_ok]
  | DeleteVersion _ _ _ => [MResponse id RespDeleteVersion]
  | r => serve7 node id r
  end.

#[local] Hint Extern 0 (Network (gmap nat Line)) => exact (serving locate8 greet6 serve8) : typeclass_instances.

Definition repair8 := repair_object (N := gmap nat Line) 3 node8 (lit "a") cluster6.
Definition found8 := repairable_record (N := gmap nat Line) 3 node8 (lit "a") cluster6.

(** [undamaged], to be evaluated. *)
Definition block_ok (log : list Event) (e : Event) : bool :=
  match e with
  | Sent ch (MRequest id (GetShard _ _ _ i _ _)) =>
      forallb (λ e', match e' with
                     | Got ch' (MData id' d) =>
                         negb ((ch =? ch')%nat && (id =? id')) || negb (checksum_block (df_bytes d) =? df_checksum d)
                         || bool_decide (columns6 !! Z.to_nat i ≫= (.!! Z.to_nat (sequence d)) = Some (df_bytes d))
                     | _ => true
                     end) log
  | _ => true
  end.

Lemma undamaged_checked log : forallb (block_ok log) log = true → undamaged record8 code21 body6 columns6 log.
Proof.
  intros Hc j b (ch & id & device & Hs & Hg) Hck. rewrite forallb_forall in Hc.
  apply list_elem_of_In in Hs, Hg. specialize (Hc _ Hs). cbn -[checksum_block] in Hc.
  rewrite forallb_forall in Hc. specialize (Hc _ Hg). cbn -[checksum_block] in Hc.
  rewrite Nat.eqb_refl, Z.eqb_refl, Hck, Z.eqb_refl in Hc. cbn -[checksum_block] in Hc. apply bool_decide_eq_true in Hc.
  destruct (columns6 !! Z.to_nat (sb_index b)) as [col|]; [|done]. by exists col.
Qed.

Definition check8 : bool :=
  match repair8, found8 with
  | Some (Ok (RespRepairObject report), s'), Some (Ok (record, missing, stale), s1) =>
      forallb (block_ok (pe_log s')) (pe_log s') && bool_decide (record = record8) && bool_decide (104 ∈ stale.*1)
      && existsb (λ x, bool_decide (sp_relocated_to x = Some 104)) (rr_shards report)
  | _, _ => false
  end.

Lemma run8 : ∃ report s' missing stale s1 x,
  repair8 = Some (Ok (RespRepairObject report), s') ∧ found8 = Some (Ok (record8, missing, stale), s1)
  ∧ undamaged record8 code21 body6 columns6 (pe_log s') ∧ 104 ∈ stale.*1 ∧ x ∈ rr_shards report ∧ sp_relocated_to x = Some 104.
Proof.
  assert (check8 = true) as Hc by by vm_compute. unfold check8 in Hc.
  destruct repair8 as [[[[]|f|] s']|], found8 as [[[[[rec0 missing0] stale]|f0|] s1]|]; try done.
  apply andb_true_iff in Hc as [[[Hu Hr]%andb_true_iff Hs]%andb_true_iff He]. apply bool_decide_eq_true in Hr as ->, Hs.
  apply existsb_exists in He as (x & Hx & Hd). apply bool_decide_eq_true in Hd. apply list_elem_of_In in Hx.
  exists report, s', missing0, stale, s1, x. split_and!; try done. by apply undamaged_checked.
Qed.

Lemma stored8 : object_stored record8 code21 body6 columns6.
Proof. destruct stored6 as [? ? ? ? ? ? ? ? ? ?]. by split. Qed.

Lemma repair_ordered_witness : ∃ r s', repair8 = Some (r, s') ∧ phases 3 node8 (lit "a") cluster6 s'.
Proof.
  destruct run8 as (report & s' & _ & _ & _ & _ & Hr & _). eexists _, s'. split; [exact Hr|].
  exact (repair_ordered 3 node8 (lit "a") cluster6 _ s' Hr).
Defined.


Lemma repair_deletes_relocated_witness : ∃ report s',
  repair8 = Some (Ok (RespRepairObject report), s')
  ∧ placed_then_deleted record8 104 [] (pe_log s') ∧ 104 ∈ rr_stale_copies_removed report.
Proof.
  destruct run8 as (report & s' & missing & stale & s1 & x & Hr & Hf & _ & Hs & Hx & Hd).
  assert (is_Some (live_owner (nd_document node8) 104)) as Hl by (exists 14; by vm_compute).
  destruct (repair_deletes_relocated 3 node8 (lit "a") report cluster6 s' record8 missing stale s1 x 104 Hr Hf Hx Hd Hs Hl) as [Hp Hin].
  exists report, s'. split; [exact Hr|]. split; [exact Hp|exact Hin].
Defined.
End witnesses.
End RepairSpec.
