(* ===== verification/Move.v ===== *)
(** [coordinator.rs]: [move_shard], one shard of an object onto another
    device: copied from where it is, or rebuilt from the others, then the
    record at its next revision on every device, the new one first, then the
    source's copy removed if it can be reached; and [drain], every shard of a
    device moved off it. *)

From S2P Require Import Prelude Text Checksum KeyHash VersionId Erasure Layout Stripe FileSystem ShardFile Record Device Cluster Scrub Frame Handshake Message Node LocalOps Lookup Connection Coordinator Get Put Repair.

Module Move.
Import Message LocalOps Lookup Connection Coordinator Get Put Repair.

Record MovedShard := mkMoved {
  mv_record : MetadataRecord; mv_source : DeviceId; mv_source_cleaned : bool; mv_rebuilt : bool;
}.

Record DrainedShard := mkDrained { dn_shard_index : Z; dn_destination : DeviceId; dn_rebuilt : bool }.

Inductive DrainOutcome :=
| OutMoved (d : DrainedShard)
| OutDeleted.

Definition stream_end (size : Z) (checksum : BlockChecksum) : StreamEnd :=
  mkStreamEnd None (Some size) (Some checksum) [] [].

(** [find(|v| v.version == version)] *)
Fixpoint find_version (version : VersionId) (l : list MetadataRecord) : option MetadataRecord :=
  match l with
  | [] => None
  | r :: l => if bool_decide (r_version r = version) then Some r else find_version version l
  end.

(** [find(|d| d.device == device)] *)
Fixpoint find_status (device : DeviceId) (l : list DeviceStatus) : option DeviceStatus :=
  match l with
  | [] => None
  | d :: l => if ds_device d =? device then Some d else find_status device l
  end.

(** The state of a drain's pass. *)
Record Draining := mkDrainState { dr_conn : Conn; dr_sequence : Z; dr_skipped : nat }.

Section move.
Context {N : Type} `{Network N} `{CoordTexts} `{Sha256} `{Uuid} `{Xxh3} `{ReedSolomonLib}.
Context {TlsMaterial : Type} (fuel : nat).
Implicit Types n : Node TlsMaterial.
Abbreviation call A := (net (Peers N) Failure A).

(** ** Copying a shard *)

(** One block, from the source's stream to the destination's. *)
Definition relay_block (from : nat) (read_id : Z) (to : nat) (write_id : Z) (key : str) (record : MetadataRecord)
    (index : ShardIndex) (source : DeviceId) (source_owner destination_node : NodeId) (stripe : Z) : call unit :=
  let refuse := λ reason, FError (shard_detail (cdetail BlockChecksumMismatch reason) None (Some source) key
                  (r_version record) (Some index) (Some stripe)) in
  item ← nmap_err (remote_failure source_owner) (read_stream_item from read_id);
  block ← nlift match item with
                | ItemData data => if sequence data =? stripe then Ok data else Err (refuse (CMisordered stripe item))
                | other => Err (refuse (CMisordered stripe other))
                end;
  _ ← nlift (ensure (checksum_block (df_bytes block) =? df_checksum block) (refuse (CSourceChecksum stripe)));
  nmap_err (remote_failure destination_node) (send_data to write_id block).

Definition relay_shard_blocks (from : nat) (read_id : Z) (to : nat) (write_id : Z) (key : str) (record : MetadataRecord)
    (index : ShardIndex) (source : DeviceId) (source_owner destination_node : NodeId) (block_count : Z) : call unit :=
  _ ← nfold (λ _ stripe, relay_block from read_id to write_id key record index source source_owner destination_node stripe)
        (stripes block_count) tt;
  item ← nattempt (read_stream_item from read_id);
  let unclean := nthrow (error ProtocolViolation CSourceEnd) in
  _ ← (match item with
       | Ok (ItemEnd e) => if se_error e then unclean else mret tt
       | _ => unclean
       end : call unit);
  nmap_err (remote_failure destination_node)
    (send_end to write_id (stream_end (r_size record) (r_object_checksum record))).

Definition copy_shard n (key : str) (record : MetadataRecord) (index : ShardIndex) (source : DeviceId)
    (destination : DeviceStatus) : call unit :=
  s ← nlift (map_err (λ e, error RecordsInconsistent (CSchemeError e)) (record_scheme record));
  geometry ← nlift (shard_geometry s (r_block_size record) (r_size record));
  geometry ← nlift (ok_or geometry (error RecordsInconsistent CImpossibleSize));
  source_owner ← nlift (ok_or (de_node <$> Cluster.device (nd_document n) source)
    (error DeviceUnavailable (CNotInCluster source)));
  from ← connect_to n source_owner;
  read_id ← nmap_err (remote_failure source_owner)
    (send_request from (GetShard source (r_key_hash record) (r_version record) index 0 (g_block_count geometry)));
  answer ← nmap_err (remote_failure source_owner) (read_response from read_id);
  _ ← (match answer with
       | RespGetShard _ => mret tt
       | other => nthrow (error ProtocolViolation (CAnswered source_owner (lit "GetShard") other))
       end : call unit);
  to ← connect_to n (ds_node destination);
  write_id ← nmap_err (remote_failure (ds_node destination))
    (send_request to (PutShard (ds_device destination) (r_key_hash record) (r_version record) index
       (wrap 8 (data_shards s)) (wrap 8 (parity_shards s)) (r_block_size record) (r_size record)));
  answer ← nmap_err (remote_failure (ds_node destination)) (read_response to write_id);
  _ ← (match answer with
       | PutShardReady => mret tt
       | other => nthrow (error ProtocolViolation (CAnswered (ds_node destination) (lit "PutShard") other))
       end : call unit);
  relayed ← nattempt (relay_shard_blocks from read_id to write_id key record index source source_owner
                        (ds_node destination) (g_block_count geometry));
  match relayed with
  | Ok _ =>
      answer ← nmap_err (remote_failure (ds_node destination)) (read_response to write_id);
      match answer with
      | PutShardDone => mret tt
      | other => nthrow (error ProtocolViolation (CEnded (ds_node destination) other))
      end
  | Err failure =>
      let detail := match failure with FError d => d | FClose _ => cdetail Internal CCopyAbandoned end in
      _ ← nattempt (send_end to write_id (mkStreamEnd (Some detail) None None [] []));
      _ ← nattempt (read_response to write_id);
      nthrow failure
  | Panic => nlift Panic
  end.

(** ** Moving a shard *)

(** The device asked for, if it can take the shard, or the best that can. *)
Definition choose_destination n (record : MetadataRecord) (shard_bytes : Z) (target : option DeviceId) : call DeviceStatus :=
  let refuse := λ reason device, FError (shard_detail (cdetail InsufficientDevices reason) None device (r_key record)
                  (r_version record) None None) in
  match target with
  | Some device =>
      owner ← nlift (ok_or (de_node <$> Cluster.device (nd_document n) device)
        (FError (with_device (cdetail DeviceUnavailable (CNotInCluster device)) device)));
      answer ← ask_node n owner LocalStatus;
      statuses ← nlift (device_statuses n [(owner, answer)]);
      let refused := refuse (CNotEligible device shard_bytes) (Some device) in
      match find_status device statuses with
      | Some d =>
          if eligible shard_bytes d && negb (bool_decide (ds_device d ∈ sl_device <$> r_shards record))
          then mret d else nthrow refused
      | None => nthrow refused
      end
  | None =>
      answers ← broadcast n LocalStatus;
      statuses ← nlift (device_statuses n answers);
      nlift (ok_or (head (rank record shard_bytes statuses)) (refuse (CNoneEligible shard_bytes) None))
  end.

(** The shard on the destination: copied, or else rebuilt. *)
Definition produce_shard n (record : MetadataRecord) (index : ShardIndex) (s : Scheme) (source : DeviceId)
    (destination : DeviceStatus) : call bool :=
  if r_size record =? 0 then mret false
  else
    copied ← nattempt (copy_shard n (r_key record) record index source destination);
    match copied with
    | Ok _ => mret false
    | Err (FError _) =>
        geometry ← nlift (shard_geometry s (r_block_size record) (r_size record));
        geometry ← nlift (ok_or geometry (error RecordsInconsistent CImpossibleSize));
        sources ← open_repair_sources n record (g_block_count geometry);
        _ ← rebuild_shards n (r_key record) record sources [(index, ds_device destination)];
        mret true
    | Err other => nthrow other
    | Panic => nlift Panic
    end.

(** The source's copy, if it can be reached. *)
Definition clean_source n (record : MetadataRecord) (source : DeviceId) : call bool :=
  match de_node <$> Cluster.device (nd_document n) source with
  | None => mret false
  | Some owner =>
      connected ← nattempt (connect_to n owner);
      match connected with
      | Ok ch =>
          answer ← nattempt (request ch (DeleteVersion source (r_key_hash record) (r_version record)));
          mret (match answer with Ok _ => true | _ => false end)
      | _ => mret false
      end
  end.

Definition move_shard_of_record n (record : MetadataRecord) (index : ShardIndex) (target : option DeviceId)
    : call MovedShard :=
  s ← nlift (map_err (λ e, error RecordsInconsistent (CSchemeError e)) (record_scheme record));
  source ← nlift (expect (device_for record index));
  shard_bytes ← nlift (shard_bytes_of s record);
  destination ← choose_destination n record shard_bytes target;
  rebuilt ← produce_shard n record index s source destination;
  let device := ds_device destination in
  let next := replaced record (place_shard index device (r_shards record)) in
  _ ← rewrite_record_copies n next (device :: filter (λ d, d ≠ device) (sl_device <$> r_shards next));
  source_cleaned ← clean_source n record source;
  mret (mkMoved next source source_cleaned rebuilt).

Definition move_shard n (key : str) (shard_index : Z) (target : option DeviceId) : call Response :=
  record ← newest_version fuel n key;
  s ← nlift (map_err (λ e, error RecordsInconsistent (CSchemeError e)) (record_scheme record));
  _ ← nlift (ensure (contains s shard_index)
        (error ProtocolViolation (CShardOutside shard_index (r_k record) (r_m record))));
  moved ← move_shard_of_record n record shard_index target;
  mret (RespMoveShard (mv_record moved) (mv_source moved) (mv_source_cleaned moved) (mv_rebuilt moved)).

(** ** Draining a device *)

(** The pages of one device's records. *)
Fixpoint record_pages (fuel : nat) (ch : nat) (owner : NodeId) (device : DeviceId) (all : list MetadataRecord)
    (after : option RecordCursor) : call (list MetadataRecord) :=
  match fuel with
  | O => still_running
  | S fuel =>
      answer ← ask owner ch (LocalRecords device after);
      match answer with
      | RespLocalRecords records truncated =>
          let after := (λ r, mkRecordCursor (r_key_hash (dr_record r)) (r_version (dr_record r))) <$> last records in
          let all := all ++ (dr_record <$> records) in
          match after with
          | Some _ => if truncated then record_pages fuel ch owner device all after else mret all
          | None => mret all
          end
      | other => nthrow (error ProtocolViolation (CAnswered owner (lit "LocalRecords") other))
      end
  end.

Definition fetch_device_records n (owner : NodeId) (device : DeviceId) : call (list MetadataRecord) :=
  ch ← connect_to n owner; record_pages fuel ch owner device [] None.

Definition shard_to_drain (device : DeviceId) (copy : MetadataRecord) (versions : list MetadataRecord)
    : res Failure ShardIndex :=
  let stale := FError (shard_detail (cdetail RecordsInconsistent CStaleCopy) None (Some device) (r_key copy)
                 (r_version copy) None None) in
  current ← ok_or (find_version (r_version copy) versions) stale;
  ok_or (shard_on current device) stale.

Definition drain_one n (device : DeviceId) (copy : MetadataRecord) : call DrainOutcome :=
  located ← lookup fuel n (r_key_hash copy);
  if negb (bool_decide (r_version copy ∈ (λ c, r_version (lr_record c)) <$> located)) then mret OutDeleted
  else
    versions ← looked_up (r_key copy) (versions_of (r_key copy) located);
    index ← nlift (shard_to_drain device copy versions);
    current ← nlift (expect (find_version (r_version copy) versions));
    moved ← move_shard_of_record n current index None;
    destination ← nlift (expect (device_for (mv_record moved) index));
    mret (OutMoved (mkDrained index destination (mv_rebuilt moved))).

Abbreviation stage A := (net (Peers N) Ended A).
Context `{Cbor DrainEvent}.

(** An event to the client, or the end of the request. *)
Definition send_event {Ev : Type} `{Cbor Ev} (c : Conn) (id sequence : Z) (event : Ev) : res Failure Z * Conn :=
  match encode_cbor event with
  | None => (Err (error Internal CEncode), c)
  | Some bytes =>
      match send c (MData id (mkDataFrame sequence (checksum_block bytes) bytes)) with
      | (Ok _, c') => (Ok (wrap64 (sequence + 1)), c')
      | (Err f, c') => (Err f, c')
      | (Panic, c') => (Panic, c')
      end
  end.

Definition emit {Ev : Type} `{Cbor Ev} (c : Conn) (id sequence : Z) (event : Ev) : stage (Z * Conn) :=
  match send_event c id sequence event with
  | (Ok sequence, c) => mret (sequence, c)
  | (Err f, c) => end_with f c
  | (Panic, _) => nlift Panic
  end.

(** The bytes the device's shards take, as far as they can be sized. *)
Definition drain_bytes {E : Type} (records : list MetadataRecord) : res E Z :=
  fold_res (λ total r,
    match record_scheme r with
    | Ok s => len ← shard_file_length s (r_block_size r) (r_size r); Ok (wrap64 (total + default 0 len))
    | Err _ => Ok total
    | Panic => Panic
    end) records 0.

Definition moved_bytes {E : Type} (r : MetadataRecord) : res E Z :=
  if r_size r =? 0 then Ok 0
  else match record_scheme r with
       | Ok s => len ← shard_file_length s (r_block_size r) (r_size r); Ok (default 0 len)
       | Err _ => Ok 0
       | Panic => Panic
       end.

Definition free_total (active : list DeviceStatus) : Z :=
  fold_left (λ total d, wrap64 (total + ds_free_bytes d)) active 0.

(** Why the estimate says the pass cannot succeed. *)
Definition shortfall (active required target_free_bytes shard_bytes : Z) : option CReason :=
  if active <? required then Some (CTooFewActive active required)
  else if target_free_bytes <? shard_bytes then Some (CTooLittleSpace shard_bytes target_free_bytes)
  else None.

(** One version of the pass. *)
Definition drain_version n (id : Z) (device : DeviceId) (st : Draining) (record : MetadataRecord) : stage Draining :=
  let c := dr_conn st in
  shard_bytes ← nlift (moved_bytes record);
  outcome ← nattempt (drain_one n device record);
  '(event, skipped) ←
    (match outcome with
     | Ok (OutMoved d) =>
         mret (Moved (r_key record) (r_version record) (dn_shard_index d) (dn_destination d) (dn_rebuilt d) shard_bytes,
               dr_skipped st)
     | Ok OutDeleted => mret (Deleted (r_key record) (r_version record), dr_skipped st)
     | Err (FError detail) => mret (Skipped (r_key record) (r_version record) detail, S (dr_skipped st))
     | Err other => end_with other c
     | Panic => nlift Panic
     end : stage (DrainEvent * nat));
  '(sequence, c) ← emit c id (dr_sequence st) event;
  mret (mkDrainState c sequence skipped).

Definition drain n (id : Z) (c : Conn) (device : DeviceId) (partial : bool) : call Ended :=
  let document := nd_document n in
  returning (
    match Cluster.device document device with
    | None => nthrow (respond c id (Err (FError (with_device (cdetail DeviceUnavailable (CNotInCluster device)) device))))
    | Some entry =>
        if negb (bool_decide (de_state entry = Cluster.Draining))
        then nthrow (respond c id (Err (FError (with_device
               (cdetail ProtocolViolation (CNotDraining device (de_state entry))) device))))
        else
          let owner := de_node entry in
          records ← or_respond c id (fetch_device_records n owner device);
          answers ← or_respond c id (broadcast n LocalStatus);
          statuses ← or_respond c id (nlift (device_statuses n answers));
          match respond c id (Ok DrainStarted) with
          | (Ok _, c) =>
              let required := c_k document + c_m document in
              let active := filter (λ d, ds_state d = Active ∧ ds_available d = true) statuses in
              let target_free_bytes := free_total active in
              shard_bytes ← nlift (drain_bytes records);
              '(sequence, c) ← emit c id 0 (Estimate device owner (Z.of_nat (length records)) shard_bytes target_free_bytes
                                 (Z.of_nat (length active)) required);
              match shortfall (Z.of_nat (length active)) required target_free_bytes shard_bytes, partial with
              | Some reason, false =>
                  mret (send c (MEndOfStream id (StreamEnd_failed (with_device (cdetail InsufficientDevices reason) device))))
              | _, _ =>
                  st ← nfold (drain_version n id device) records (mkDrainState c sequence 0);
                  let e := if (0 <? dr_skipped st)%nat
                           then StreamEnd_failed (with_device (cdetail WriteFailed
                                  (CSkipped (Z.of_nat (dr_skipped st)) (Z.of_nat (length records)))) device)
                           else StreamEnd_ok in
                  mret (send (dr_conn st) (MEndOfStream id e))
              end
          | (Err f, c) => end_with f c
          | (Panic, _) => nlift Panic
          end
    end).
End move.
End Move.
