(* ===== verification/MoveSpec.v ===== *)
(** What moving a shard promises, whatever the nodes and the network do: the
    shard is on its new device before any record says so, every record says so
    before the old copy is removed, what is copied is what the source sent,
    block by block, and the record stays well-formed. *)

From S2P Require Import Prelude Text Checksum KeyHash VersionId Erasure XorCode Layout Stripe FileSystem ShardFile Record Device DeviceSpec Cluster Scrub Frame Handshake Message Node LocalOps LocalOpsSpec Lookup Connection Coordinator Log Get StoredObject GetSpec Put Serving Degraded PutSpec Repair RepairSpec Move.

Module MoveSpec.
Import Message LocalOps LocalOpsSpec Lookup Connection Coordinator Log Get StoredObject GetSpec Put Serving Degraded PutSpec Repair RepairSpec Move.

(** ** Placement *)

Lemma place_shard_indices i d l : sl_index <$> place_shard i d l = sl_index <$> l.
Proof. unfold place_shard. rewrite <- list_fmap_compose. apply list_fmap_ext. intros _ x _. unfold compose. by destruct (sl_index x =? i). Qed.

Lemma place_shard_device i d l j :
  find_device (place_shard i d l) j = if j =? i then (λ _, d) <$> find_device l i else find_device l j.
Proof.
  induction l as [|x l IH]; cbn [place_shard fmap list_fmap find_device]; [by destruct (j =? i)|]. unfold place_shard in IH. rewrite IH.
  destruct (Z.eqb_spec (sl_index x) i) as [Hx|Hx], (Z.eqb_spec j i) as [Hj|Hj]; cbn [sl_index sl_device].
  - by rewrite (proj2 (Z.eqb_eq (sl_index x) j)) by congruence.
  - by rewrite (proj2 (Z.eqb_neq (sl_index x) j)) by congruence.
  - by rewrite (proj2 (Z.eqb_neq (sl_index x) j)) by congruence.
  - done.
Qed.

Lemma place_shard_devices i d l d' : d' ∈ sl_device <$> place_shard i d l →
  (d' = d ∧ i ∈ sl_index <$> l) ∨ d' ∈ sl_device <$> l.
Proof.
  unfold place_shard. rewrite <- list_fmap_compose. intros (x & -> & Hx)%list_elem_of_fmap. unfold compose.
  destruct (Z.eqb_spec (sl_index x) i) as [<-|]; [left; split; [done|]|right]; by apply list_elem_of_fmap_2.
Qed.

Lemma place_shard_distinct i d l : NoDup (sl_index <$> l) → NoDup (sl_device <$> l) → d ∉ sl_device <$> l → NoDup (sl_device <$> place_shard i d l).
Proof.
  induction l as [|x l IH]; [constructor|]. cbn [fmap list_fmap place_shard]. intros [Hi Hni]%NoDup_cons [Hd Hnd]%NoDup_cons Hnew.
  rewrite not_elem_of_cons in Hnew. destruct Hnew as [Hne Hnew]. specialize (IH Hni Hnd Hnew). unfold place_shard in IH.
  apply NoDup_cons. split; [|exact IH]. intros Hin. apply (place_shard_devices i d l) in Hin.
  destruct (Z.eqb_spec (sl_index x) i) as [<-|Hx]; cbn in Hin; [|destruct Hin as [[Heq _]|Hin]; [by apply Hne|done]].
  destruct Hin as [[_ ?]|?]; done.
Qed.

Section move.
Context {N : Type} `{Network N} `{CoordTexts} `{Sha256} `{Uuid} `{Xxh3} `{ReedSolomonLib} {TlsMaterial : Type}.
Implicit Types (s : Peers N) (n : Node TlsMaterial) (log : list Event).

(** ** Copying *)

(** One block relayed: received from the source and sent on as it is. *)
Definition relayed (from : nat) (read_id : Z) (to : nat) (write_id : Z) (stripe : Z) (e : list Event) : Prop := ∃ b,
  e = [Got from (MData read_id b); Sent to (MData write_id b)] ∧ sequence b = stripe ∧ checksum_block (df_bytes b) = df_checksum b.

Lemma relay_block_ok from rid to wid key record index source owner dest stripe s u s' :
  relay_block from rid to wid key record index source owner dest stripe s = Some (Ok u, s') →
  ∃ e, relayed from rid to wid stripe e ∧ pe_log s' = pe_log s ++ e ∧ length (pe_conns s') = length (pe_conns s).
Proof.
  unfold relay_block. intros Hr. next Hr. apply map_err_ok_inv in R. unfold read_stream_item in R. next R.
  apply map_err_ok_inv, read_ok in R0 as [L1 C1]. destruct x0 as [| | |got data|got e]; try done.
  2: { destruct (Z.eqb_spec got rid); [|done]. apply ret_ok_inv in R as [-> _]. next Hr. by apply lift_ok_inv in R as [? _]. }
  destruct (Z.eqb_spec got rid) as [->|]; [|done]. apply ret_ok_inv in R as [-> ->].
  next Hr. apply lift_ok_inv in R as [Hb ->]. destruct (Z.eqb_spec (sequence data) stripe) as [Hseq|]; [|done]. injection Hb as <-.
  next Hr. apply lift_ok_inv in R as [Hck%ensure_Ok%Z.eqb_eq ->]. apply map_err_ok_inv in Hr. unfold send_data in Hr.
  apply map_err_ok_inv, write_ok in Hr as [L2 C2]. exists [Got from (MData rid data); Sent to (MData wid data)].
  split_and!; [by exists data|by rewrite L2, L1, <- app_assoc|congruence].
Qed.

(** The destination said that the shard is stored. *)
Definition placed (record : MetadataRecord) (index : ShardIndex) (device : DeviceId) (events : list Event) : Prop := ∃ ch id k m bl size,
  Sent ch (MRequest id (PutShard device (r_key_hash record) (r_version record) index k m bl size)) ∈ events
  ∧ Got ch (MResponse id PutShardDone) ∈ events.

(** A copy that succeeded, message by message. *)
Definition copied n (record : MetadataRecord) (index : ShardIndex) (source destination : DeviceId) (events : list Event) : Prop :=
  ∃ sch g from rid to wid h1 h2 a1 e1 es, record_scheme record = Ok sch
  ∧ shard_geometry (E := Failure) sch (r_block_size record) (r_size record) = Ok (Some g) ∧ from ≠ to
  ∧ Forall2 (relayed from rid to wid) (stripes (g_block_count g)) es ∧ se_error e1 = None
  ∧ events = [Opened from; Sent from (MHello (our_hello n)); Got from (MHello h1);
      Sent from (MRequest rid (GetShard source (r_key_hash record) (r_version record) index 0 (g_block_count g)));
      Got from (MResponse rid (RespGetShard a1));
      Opened to; Sent to (MHello (our_hello n)); Got to (MHello h2);
      Sent to (MRequest wid (PutShard destination (r_key_hash record) (r_version record) index
        (wrap 8 (data_shards sch)) (wrap 8 (parity_shards sch)) (r_block_size record) (r_size record)));
      Got to (MResponse wid PutShardReady)]
    ++ concat es
    ++ [Got from (MEndOfStream rid e1); Sent to (MEndOfStream wid (stream_end (r_size record) (r_object_checksum record)));
        Got to (MResponse wid PutShardDone)].

Lemma relay_shard_blocks_ok from rid to wid key record index source owner dest count s u s' :
  relay_shard_blocks from rid to wid key record index source owner dest count s = Some (Ok u, s') →
  ∃ es e1, Forall2 (relayed from rid to wid) (stripes count) es ∧ se_error e1 = None
    ∧ pe_log s' = pe_log s ++ concat es
        ++ [Got from (MEndOfStream rid e1); Sent to (MEndOfStream wid (stream_end (r_size record) (r_object_checksum record)))].
Proof.
  unfold relay_shard_blocks. intros Hr. next Hr.
  apply (fold_log _ (relayed from rid to wid)) in R as (es & Hes & L1 & _); [|intros ? ? ? ?; apply relay_block_ok].
  next Hr. apply attempt_ok_inv in R. next Hr. apply map_err_ok_inv in Hr. unfold send_end in Hr.
  apply map_err_ok_inv, write_ok in Hr as [L3 _]. destruct x0 as [[data|e1]| |]; try done.
  unfold read_stream_item in R. next R. apply map_err_ok_inv, read_ok in R1 as [L2 _].
  destruct x0 as [| | |got data|got e]; try done; destruct (Z.eqb_spec got rid) as [->|]; try done;
    apply ret_ok_inv in R as [R ->]; try done. injection R as ->. destruct (se_error e) eqn:He; [done|].
  apply ret_ok_inv in R0 as [_ ->]. exists es, e. split_and!; [done|done|]. by rewrite L3, L2, L1, <- !app_assoc.
Qed.

Lemma copy_shard_ok n key record index source destination s u s' :
  copy_shard n key record index source destination s = Some (Ok u, s') →
  ∃ events, pe_log s' = pe_log s ++ events ∧ copied n record index source (ds_device destination) events.
Proof.
  unfold copy_shard. intros Hr. next Hr. apply lift_ok_inv in R as [Hsch%map_err_Ok ->]. rename x into sch.
  next Hr. apply lift_ok_inv in R as [Hg ->]. next Hr. apply lift_ok_inv in R as [Hg'%ok_or_Ok ->]. subst x. rename x0 into g.
  next Hr. apply lift_ok_inv in R as [_ ->]. next Hr. apply connect_ok in R as (-> & C1 & h1 & L1).
  next Hr. rename x0 into rid. apply map_err_ok_inv, send_request_ok in R as [L2 C2].
  next Hr. rename x0 into answer. apply map_err_ok_inv, read_response_ok in R as [L3 C3].
  next Hr. destruct answer; try done. apply ret_ok_inv in R as [_ ->].
  next Hr. apply connect_ok in R as (-> & C4 & h2 & L4). next Hr. rename x1 into wid. apply map_err_ok_inv, send_request_ok in R as [L5 C5].
  next Hr. rename x1 into answer. apply map_err_ok_inv, read_response_ok in R as [L6 C6].
  next Hr. destruct answer; try done. apply ret_ok_inv in R as [_ ->].
  next Hr. rename x2 into done. apply attempt_ok_inv in R. destruct done as [[]|f|]; [|by next Hr; next Hr|done].
  apply relay_shard_blocks_ok in R as (es & e1 & Hes & He & L7). next Hr. rename x2 into answer. apply map_err_ok_inv, read_response_ok in R as [L8 _].
  destruct answer; try done. apply ret_ok_inv in Hr as [_ ->].
  eexists. split; [by rewrite L8, L7, L6, L5, L4, L3, L2, L1, <- !app_assoc|].
  do 11 eexists. split_and!; [exact Hsch|exact Hg| |exact Hes|exact He|reflexivity]. lia.
Qed.

Lemma copied_placed n record index source destination events :
  copied n record index source destination events → placed record index destination events.
Proof.
  intros (sch & g & from & rid & to & wid & h1 & h2 & a1 & e1 & es & _ & _ & _ & _ & _ & ->).
  exists to, wid, (wrap 8 (data_shards sch)), (wrap 8 (parity_shards sch)), (r_block_size record), (r_size record).
  split; [set_solver|]. apply elem_of_app. right. apply elem_of_app. right. set_solver.
Qed.

Lemma rebuild_placed n key record sources index device s u s' :
  rebuild_shards n key record sources [(index, device)] s = Some (Ok u, s') →
  ∃ e, pe_log s' = pe_log s ++ e ∧ placed record index device e.
Proof.
  intros Hr. destruct (rebuild_acknowledged _ _ _ _ _ _ _ _ Hr) as (e & L & Ha). exists e. split; [done|].
  unfold rebuild_shards in Hr. next Hr. apply lift_ok_inv in R as [_ ->]. next Hr. apply lift_ok_inv in R as [_ ->].
  next Hr. apply lift_ok_inv in R as [_ ->]. next Hr. apply lift_ok_inv in R as [_ ->].
  next Hr. apply (mapM_log _ (target_opened record x n) wr_channel) in R as (es & Ho & L1 & _); [|intros ? ? ? ?; apply open_target_ok].
  assert (∃ e2, pe_log s' = pe_log t ++ e2) as [e2 L2].
  { apply (adds_prefix (λ _, True)) in Hr; [destruct Hr as [e2 ->]; by exists e2|].
    unfold reopen_intact_streams, reopen_intact_stream, rebuild_stripe, read_repair_stripe, read_repair_block, send_rebuilt,
      finish_repair_streams, finish_writer, await_writer. by adds_says. }
  rewrite L1, <- app_assoc in L2. rewrite L2 in L. apply app_inv_head in L as <-.
  apply Forall3_cons_inv_l in Ho as (w & l' & e1 & es' & -> & -> & [Ht (hello & He1)] & _). injection Ht as -> ->.
  assert (Sent (wr_channel w) (MRequest (wr_request w) (PutShard (wr_device w) (r_key_hash record) (r_version record) (wr_index w)
    (wrap 8 (data_shards x)) (wrap 8 (parity_shards x)) (r_block_size record) (r_size record))) ∈ concat (e1 :: es') ++ e2) as Hin
    by (apply elem_of_app; left; subst e1; cbn; set_solver).
  do 6 eexists. split; [exact Hin|exact (Ha _ _ _ _ Hin eq_refl)].
Qed.

(** ** The destination *)

Lemma choose_destination_ok n record bytes target s d s' :
  choose_destination n record bytes target s = Some (Ok d, s') → ds_device d ∉ sl_device <$> r_shards record.
Proof.
  unfold choose_destination. destruct target as [device|]; intros Hr.
  - next Hr. next Hr. next Hr. destruct (find_status device _) as [d'|]; [|done].
    destruct (eligible _ _ && _) eqn:He; [|done]. apply ret_ok_inv in Hr as [-> _].
    apply andb_true_iff in He as [_ He]. by apply negb_true_iff, bool_decide_eq_false in He.
  - next Hr. next Hr. apply lift_ok_inv in Hr as [Hh%ok_or_Ok _]. destruct (rank _ _ _) as [|d' l] eqn:Hk; [done|]. injection Hh as ->.
    assert (d ∈ rank record bytes x0) as Hin by (rewrite Hk; apply list_elem_of_here).
    unfold rank in Hin. rewrite merge_sort_Permutation in Hin. by apply list_elem_of_filter in Hin as [[_ ?] _].
Qed.

Lemma adds_choose n record bytes target : adds reads_only (choose_destination n record bytes target).
Proof. unfold choose_destination. adds_says. Qed.

(** ** The order of a move *)

(** The record as it stands once the shard is on [device]. *)
Definition moved_record (record : MetadataRecord) (index : ShardIndex) (device : DeviceId) : MetadataRecord :=
  replaced record (place_shard index device (r_shards record)).

Definition writes_record (next : MetadataRecord) (m : Message) : Prop :=
  match m with MRequest _ (PutMeta _ r) => r = next | _ => False end.
Definition deletes_copy (record : MetadataRecord) (device : option DeviceId) (m : Message) : Prop :=
  match m with MRequest _ (DeleteVersion d kh v) => device = Some d ∧ kh = r_key_hash record ∧ v = r_version record | _ => False end.

(** Every device of a record said that it has it. *)
Definition recorded (next : MetadataRecord) (events : list Event) : Prop := ∀ d, d ∈ sl_device <$> r_shards next → ∃ ch id,
  Sent ch (MRequest id (PutMeta d next)) ∈ events ∧ Got ch (MResponse id RespPutMeta) ∈ events.

Definition move_phases (record : MetadataRecord) (index : ShardIndex) log log' : Prop := ∃ reads shards records removed,
  log' = log ++ reads ++ shards ++ records ++ removed
  ∧ Forall (says reads_only) reads ∧ Forall (says writes_shards) shards
  ∧ Forall (says writes_records) records ∧ Forall (says (deletes_copy record (device_for record index))) removed
  ∧ (records ++ removed ≠ [] → ∃ device, device ∉ sl_device <$> r_shards record
      ∧ (r_size record = 0 ∨ placed record index device shards)
      ∧ Forall (says (writes_record (moved_record record index device))) records
      ∧ (removed ≠ [] → recorded (moved_record record index device) records)).

Lemma adds_produce n record index sch source destination : adds writes_shards (produce_shard n record index sch source destination).
Proof.
  unfold produce_shard, copy_shard, relay_shard_blocks, relay_block, open_repair_sources, open_repair_source.
  pose proof (adds_rebuild n (r_key record) record) as Hb.
  repeat first [apply Hb | progress adds_says].
Qed.

Lemma produce_shard_ok n record index sch source destination s u s' :
  produce_shard n record index sch source destination s = Some (Ok u, s') →
  ∃ e, pe_log s' = pe_log s ++ e ∧ (r_size record = 0 ∨ placed record index (ds_device destination) e).
Proof.
  unfold produce_shard. destruct (Z.eqb_spec (r_size record) 0) as [Hz|_].
  { intros [_ ->]%ret_ok_inv. exists []. rewrite app_nil_r. by split; [|left]. }
  intros Hr. next Hr. apply attempt_ok_inv in R. destruct x as [c|f|]; [| |done].
  - apply ret_ok_inv in Hr as [_ ->]. apply copy_shard_ok in R as (e & L & Hc). exists e. split; [done|]. right. by eapply copied_placed.
  - destruct f; [|done]. next Hr. apply lift_ok_inv in R0 as [_ ->]. next Hr. apply lift_ok_inv in R0 as [_ ->].
    next Hr. next Hr. apply ret_ok_inv in Hr as [_ ->]. apply rebuild_placed in R1 as (e3 & L3 & Hp).
    assert (pe_log s `prefix_of` pe_log t) as [e1 L1].
    { eapply (adds_prefix (λ _, True)); [|exact R]. unfold copy_shard, relay_shard_blocks, relay_block. by adds_says. }
    assert (pe_log t `prefix_of` pe_log t0) as [e2 L2].
    { eapply (adds_prefix (λ _, True)); [|exact R0]. unfold open_repair_sources, open_repair_source. by adds_says. }
    exists (e1 ++ e2 ++ e3). split; [by rewrite L3, L2, L1, <- !app_assoc|]. right.
    destruct Hp as (ch & id & k & m & bl & size & H1' & H2'). exists ch, id, k, m, bl, size. by split; do 2 (apply elem_of_app; right).
Qed.

Lemma rewrite_recorded n next l s u s' d :
  rewrite_record_copies n next l s = Some (Ok u, s') → d ∈ l →
  ∃ e ch id, pe_log s' = pe_log s ++ e ∧ Sent ch (MRequest id (PutMeta d next)) ∈ e ∧ Got ch (MResponse id RespPutMeta) ∈ e.
Proof.
  intros Hr Hd. destruct (rewrite_acknowledged _ _ _ _ _ _ Hr) as (e & L & Ha).
  apply (rewrite_sends _ _ _ _ _ _ _ _ Hr) in Hd as (e' & ch & id & L' & Hin). rewrite L in L'. apply app_inv_head in L' as <-.
  exists e, ch, id. split_and!; [done|done|]. exact (Ha _ _ _ _ Hin eq_refl).
Qed.

Lemma adds_rewrite n next l : adds (writes_record next) (rewrite_record_copies n next l).
Proof. unfold rewrite_record_copies. adds_says. Qed.

Lemma adds_clean n record source : adds (deletes_copy record (Some source)) (clean_source n record source).
Proof. unfold clean_source. adds_says. Qed.

Lemma reading_only record index log e : Forall (says reads_only) e → move_phases record index log (log ++ e).
Proof. intros He. exists e, [], [], []. rewrite !app_nil_r. split_and!; constructor || done. Qed.

Lemma move_record_phases n record index target s r s' :
  move_shard_of_record n record index target s = Some (r, s') → move_phases record index (pe_log s) (pe_log s').
Proof.
  unfold move_shard_of_record. intros Hr.
  apply bind_inv in Hr as [(sch & s1 & R & Hr)|(r0 & R & _)]; [|injection R as _ <-; rewrite <- (app_nil_r (pe_log s)) at 2; by apply reading_only].
  apply lift_ok_inv in R as [_ ->].
  apply bind_inv in Hr as [(source & s1 & R & Hr)|(r0 & R & _)]; [|injection R as _ <-; rewrite <- (app_nil_r (pe_log s)) at 2; by apply reading_only].
  apply lift_ok_inv in R as [Hsrc ->]. destruct (device_for record index) as [src|] eqn:Hdf; [|done]. injection Hsrc as ->.
  apply bind_inv in Hr as [(bytes & s1 & R & Hr)|(r0 & R & _)]; [|injection R as _ <-; rewrite <- (app_nil_r (pe_log s)) at 2; by apply reading_only].
  apply lift_ok_inv in R as [_ ->].
  apply bind_inv in Hr as [(dest & s1 & R & Hr)|(r0 & R & _)]; destruct (adds_choose _ _ _ _ _ _ _ R) as (e1 & L1 & F1 & _).
  2: { rewrite L1. by apply reading_only. }
  apply choose_destination_ok in R as Hnew.
  apply bind_inv in Hr as [(rebuilt & s2 & R2 & Hr)|(r0 & R2 & _)]; destruct (adds_produce _ _ _ _ _ _ _ _ _ R2) as (e2 & L2 & F2 & _).
  2: { exists e1, e2, [], []. rewrite !app_nil_r, L2, L1, <- app_assoc. split_and!; constructor || done. }
  apply produce_shard_ok in R2 as (e2' & L2' & Hplaced). rewrite L2 in L2'. apply app_inv_head in L2' as <-.
  fold (moved_record record index (ds_device dest)) in Hr. set (next := moved_record record index (ds_device dest)) in *.
  assert (∀ e, Forall (says (writes_record next)) e → Forall (says writes_records) e) as Hweak.
  { intros e He. eapply Forall_impl; [exact He|]. intros [|ch [|id rq| | |]|]; cbn; try done. by destruct rq. }
  apply bind_inv in Hr as [([] & s3 & R3 & Hr)|(r0 & R3 & _)]; destruct (adds_rewrite _ _ _ _ _ _ R3) as (e3 & L3 & F3 & _).
  2: { exists e1, e2, e3, []. rewrite !app_nil_r, L3, L2, L1, <- !app_assoc. split_and!; [done|done|done|by apply Hweak|constructor|].
       intros _. exists (ds_device dest). by split_and!. }
  apply bind_inv in Hr as [(cleaned & s4 & R4 & Hr)|(r0 & R4 & _)]; destruct (adds_clean _ _ _ _ _ _ R4) as (e4 & L4 & F4 & _);
    [injection Hr as _ <-|]; exists e1, e2, e3, e4; rewrite L4, L3, L2, L1, <- !app_assoc, Hdf;
    (split_and!; [done|done|done|by apply Hweak|done|]); intros _; exists (ds_device dest); (split_and!; [done|done|done|]); intros _ d Hd.
  all: apply (rewrite_recorded _ _ _ _ _ _ d) in R3 as (e & ch & id & L & H1' & H2');
    [rewrite L3 in L; apply app_inv_head in L as <-; by exists ch, id|];
    destruct (decide (d = ds_device dest)) as [->|Hne]; [apply list_elem_of_here|apply list_elem_of_further]; by apply list_elem_of_filter.
Qed.

(** C13. The order of a move, at every instant and whatever nodes and network
    do: it looks the record up and chooses a device that is not one of the
    record's; a record is written only once that device said it has the shard
    (an empty object has none), it is the record with this one shard moved, at
    the next revision, and the old copy is deleted, and no other, only once
    every device of the new record said it has it. *)
Theorem move_ordered fuel n (key : str) (index : Z) target s (r : res Failure Response) s' :
  move_shard fuel n key index target s = Some (r, s') →
  ∃ reads, Forall (says reads_only) reads
    ∧ (pe_log s' = pe_log s ++ reads
       ∨ ∃ record s1 sch, newest_version fuel n key s = Some (Ok record, s1) ∧ record_scheme record = Ok sch ∧ contains sch index = true
           ∧ move_phases record index (pe_log s ++ reads) (pe_log s')).
Proof.
  unfold move_shard. intros Hr.
  assert (adds reads_only (newest_version fuel n key)) as Hn by (unfold newest_version; adds_says).
  apply bind_inv in Hr as [(record & s1 & R & Hr)|(r0 & R & _)]; destruct (Hn _ _ _ R) as (e & L & F & _); exists e; (split; [done|]).
  2: { by left. }
  apply bind_inv in Hr as [(sch & s2 & R2 & Hr)|(r0 & R2 & _)]; [|left; by injection R2 as _ <-]. apply lift_ok_inv in R2 as [Hsch%map_err_Ok ->].
  apply bind_inv in Hr as [([] & s2 & R2 & Hr)|(r0 & R2 & _)]; [|left; by injection R2 as _ <-]. apply lift_ok_inv in R2 as [Hc%ensure_Ok ->].
  right. exists record, s1, sch. split_and!; [done|done|done|].
  rewrite <- L. apply bind_inv in Hr as [(moved & s2 & R2 & Hr)|(r0 & R2 & _)]; [injection Hr as _ <-|]; by eapply move_record_phases.
Qed.

(** C32. The record stays well-formed as a shard moves: it is valid again, of
    the same body, at the next revision, and differs from the one before in
    the device of this one shard, which is a device that had none. *)
Theorem move_keeps_record n record (index : ShardIndex) target s moved s' :
  move_shard_of_record n record index target s = Some (Ok moved, s') → record_ok record →
  record_ok (mv_record moved) ∧ same_body record (mv_record moved) = true
  ∧ r_revision (mv_record moved) = wrap64 (r_revision record + 1) ∧ device_for record index = Some (mv_source moved)
  ∧ ∃ device, mv_record moved = moved_record record index device
      ∧ device ∉ sl_device <$> r_shards record ∧ device_for (mv_record moved) index = Some device
      ∧ ∀ i, i ≠ index → device_for (mv_record moved) i = device_for record i.
Proof.
  unfold move_shard_of_record. intros Hr Hok. next Hr. next Hr. apply lift_ok_inv in R0 as [Hsrc ->].
  destruct (device_for record index) as [source|] eqn:Hdf; [|done]. injection Hsrc as ->.
  next Hr. next Hr. apply choose_destination_ok in R1 as Hnew. rename x2 into dest. next Hr. next Hr. next Hr.
  apply ret_ok_inv in Hr as [-> _]. cbn [mv_record mv_source]. set (next := replaced _ _).
  assert (∀ i, device_for next i = if i =? index then Some (ds_device dest) else device_for record i) as Hdev.
  { intros i. unfold device_for, next in *. cbn [r_shards replaced]. rewrite place_shard_device, Hdf. done. }
  split_and!; [|by apply same_body_true|done|done|].
  - destruct Hok as [? ? ? ? Hsc ? Hix Hnd]. pose proof (scheme_ok_total _ Hsc).
    assert (NoDup (sl_index <$> r_shards record)) as Hni by (rewrite Hix; apply NoDup_indices_upto; lia).
    split; try done; cbn [r_shards next replaced].
    + by rewrite place_shard_indices.
    + by apply place_shard_distinct.
  - exists (ds_device dest). split_and!; [done|done|by rewrite Hdev, Z.eqb_refl|]. intros i Hi.
    by rewrite Hdev, (proj2 (Z.eqb_neq _ _) Hi).
Qed.

(** A copied shard is what the source sent: a copy that succeeds asked
    the source for every block of the shard and the destination to store it,
    passed each block on as it came, in order, its checksum verified, and
    nothing else, ended the stream with the object's size and checksum, and
    was told that the shard is stored. *)
Theorem copy_shard_relays n (key : str) record index source destination s u s' :
  copy_shard n key record index source destination s = Some (Ok u, s') →
  ∃ events, pe_log s' = pe_log s ++ events ∧ copied n record index source (ds_device destination) events.
Proof. apply copy_shard_ok. Qed.
End move.

(** ** Witnesses: shard 0 of an object moved to a fourth device *)

Section witnesses.
#[local] Existing Instance poly_xxh3.
#[local] Existing Instance poly_sha256.
#[local] Existing Instance decimal_uuid.
#[local] Existing Instance xor_lib.
#[local] Instance bare_texts : CoordTexts := {| BUILD := []; ctext := λ _, [] |}.

Definition document10 : ClusterDocument := {|
  c_version := 1; c_cluster_id := 193; c_name := None; c_k := 2; c_m := 1; c_block_size := 4096;
  c_independence_level := LevelDevice; c_headroom := c_headroom doc1;
  c_max_key_bytes := DEFAULT_MAX_KEY_BYTES; c_max_object_bytes := DEFAULT_MAX_OBJECT_BYTES;
  c_max_user_metadata_bytes := DEFAULT_MAX_USER_METADATA_BYTES; c_transport := Plain;
  c_nodes := c_nodes document8;
  c_devices := [mkDeviceEntry 101 11 Active None; mkDeviceEntry 102 12 Active None; mkDeviceEntry 103 13 Active None;
                mkDeviceEntry 104 14 Active None] |}.
Definition node10 : Node unit := Node.mkNodeState config1 document10 [] ∅ ∅ false ∅ None.

Definition serve10 (node id : Z) (r : Request) : list Message :=
  match r with
  | LocalLookup _ _ => [MResponse id (RespLocalLookup (if node =? 14 then [] else [mkLocated (node + 90) record6]) false [])]
  | r => serve8 node id r
  end.

#[local] Hint Extern 0 (Network (gmap nat Line)) => exact (serving locate8 greet6 serve10) : typeclass_instances.

Definition move10 := move_shard (N := gmap nat Line) 3 node10 (lit "a") 0 None cluster6.
Definition record_move10 := move_shard_of_record (N := gmap nat Line) node10 record6 0 None cluster6.
Definition destination10 : DeviceStatus := mkDeviceStatus 104 14 Active true None None 1000000 1000000.
Definition copy10 := copy_shard (N := gmap nat Line) node10 (lit "a") record6 0 101 destination10 cluster6.

Definition check10 : bool :=
  match move10, record_move10, copy10 with
  | Some (Ok (RespMoveShard _ source cleaned rebuilt), _), Some (Ok _, _), Some (Ok _, _) => (source =? 101) && cleaned && negb rebuilt
  | _, _, _ => false
  end.

Lemma run10 : (∃ r s', move10 = Some (Ok r, s')) ∧ (∃ moved s', record_move10 = Some (Ok moved, s')) ∧ ∃ u s', copy10 = Some (Ok u, s').
Proof.
  assert (check10 = true) as Hc by by vm_compute. unfold check10 in Hc.
  destruct move10 as [[[r|?|] s1]|], record_move10 as [[[moved|?|] s2]|], copy10 as [[[u|?|] s3]|]; try done; try by destruct r.
  split_and!; eauto.
Qed.

Lemma move_ordered_witness : ∃ r s' reads, move10 = Some (Ok r, s') ∧ Forall (says reads_only) reads
  ∧ (pe_log s' = pe_log cluster6 ++ reads ∨ ∃ record s1 sch, newest_version (N := gmap nat Line) 3 node10 (lit "a") cluster6 = Some (Ok record, s1)
      ∧ record_scheme record = Ok sch ∧ contains sch 0 = true ∧ move_phases record 0 (pe_log cluster6 ++ reads) (pe_log s')).
Proof.
  destruct run10 as [(r & s' & Hr) _]. destruct (move_ordered 3 node10 (lit "a") 0 None cluster6 (Ok r) s' Hr) as (reads & Hf & Hp).
  exists r, s', reads. split; [exact Hr|]. split; [exact Hf|exact Hp].
Defined.

Lemma move_keeps_record_witness : ∃ moved s', record_move10 = Some (Ok moved, s') ∧ record_ok (mv_record moved)
  ∧ device_for record6 0 = Some (mv_source moved).
Proof.
  destruct run10 as [_ [(moved & s' & Hr) _]]. assert (record_ok record6) as Hok.
  { split; [reflexivity|intros t [=]|reflexivity|reflexivity|split; split; vm_compute; congruence|split; [reflexivity|reflexivity]| |].
    - assert (sl_index <$> r_shards record6 = shard_indices (mkScheme (r_k record6) (r_m record6))) as -> by (vm_compute; reflexivity).
      reflexivity.
    - apply (bool_decide_unpack _). vm_compute. exact I. }
  destruct (move_keeps_record node10 record6 0 None cluster6 moved s' Hr Hok) as (H1' & _ & _ & H2' & _).
  exists moved, s'. split; [exact Hr|]. split; [exact H1'|exact H2'].
Defined.

Lemma copy_shard_relays_witness : ∃ u s' events, copy10 = Some (Ok u, s') ∧ pe_log s' = pe_log cluster6 ++ events
  ∧ copied node10 record6 0 101 104 events.
Proof.
  destruct run10 as (_ & _ & u & s' & Hr).
  destruct (copy_shard_relays node10 (lit "a") record6 0 101 destination10 cluster6 u s' Hr) as (events & L & Hc).
  exists u, s', events. split; [exact Hr|]. split; [exact L|exact Hc].
Defined.
End witnesses.
End MoveSpec.
