(* ===== verification/Inventory.v ===== *)
(** [coordinator.rs]: the inventory, the state of every version from the
    records alone, and the streams of records it and the cluster's scrub merge.

    A merge runs as a task of its own and hands its events to the request over
    a channel.  The channel is a value ([Channel]): the events sent, and after
    how many more the receiving side is gone, which it is only once the request
    has failed to relay an event.  A source that failed is not read again, so
    what a failed read leaves of it is of no account. *)

From S2P Require Import Prelude Text Checksum KeyHash VersionId Erasure Layout Stripe FileSystem ShardFile Record Device Cluster Scrub Frame Handshake Message Node LocalOps Lookup Connection Coordinator Get Put Repair Move.

Module Inventory.
Import Message LocalOps Lookup Connection Coordinator Get Put Repair Move.

(** ** Channels *)

Record Channel (Ev : Type) := mkChannel { ch_sent : list Ev; ch_room : option nat }.
Arguments mkChannel {Ev}.
Arguments ch_sent {Ev}.
Arguments ch_room {Ev}.

(** [events.send(event).await]: whether it was taken. *)
Definition channel_send {Ev : Type} (c : Channel Ev) (event : Ev) : bool * Channel Ev :=
  match ch_room c with
  | Some O => (false, c)
  | Some (S n) => (true, mkChannel (ch_sent c ++ [event]) (Some n))
  | None => (true, mkChannel (ch_sent c ++ [event]) None)
  end.

(** ** Record streams *)

(** One record as a device stream yields it. *)
Record StreamedRecord := mkStreamed {
  st_device : DeviceId; st_record : MetadataRecord; st_shard_present : bool;
}.

(** One device's [LocalRecords] stream, the pages fetched as they are consumed. *)
Record DeviceStream := mkDeviceStream {
  dv_owner : NodeId; dv_device : DeviceId; dv_connection : nat;
  dv_page : list DeviceRecord; dv_after : option RecordCursor; dv_exhausted : bool;
}.

(** A device's stream, or a fixed sequence that may hold failures. *)
Inductive RecordSource :=
| SourceDevice (d : DeviceStream)
| SourceFixed (owner : NodeId) (device : DeviceId) (items : list (ErrorDetail + StreamedRecord)).

Definition source_owner (s : RecordSource) : NodeId :=
  match s with SourceDevice d => dv_owner d | SourceFixed owner _ _ => owner end.
Definition source_device (s : RecordSource) : DeviceId :=
  match s with SourceDevice d => dv_device d | SourceFixed _ device _ => device end.

(** *** Positions: [(key_hash, version)], in the order of the pair *)

Definition Position : Type := KeyHash * VersionId.
Definition position_of (h : StreamedRecord) : Position := (r_key_hash (st_record h), r_version (st_record h)).

Definition pos_compare (p q : Position) : comparison :=
  match lex_compare p.1 q.1 with Eq => lex_compare p.2 q.2 | c => c end.
Definition pos_min (p q : Position) : Position := match pos_compare q p with Lt => q | _ => p end.

(** [heads.iter().flatten().map(..).min()] *)
Definition smallest (heads : list (option StreamedRecord)) : option Position :=
  match omap (fmap position_of) heads with
  | [] => None
  | p :: ps => Some (fold_left pos_min ps p)
  end.

(** The heads at a position, with the places they were taken from, counted
    from [index]. *)
Fixpoint matching (index : nat) (p : Position) (heads : list (option StreamedRecord)) : list (nat * StreamedRecord) :=
  match heads with
  | [] => []
  | head :: heads =>
      match head with
      | Some h => if bool_decide (position_of h = p) then [(index, h)] else []
      | None => []
      end ++ matching (S index) p heads
  end.
Definition without (p : Position) (heads : list (option StreamedRecord)) : list (option StreamedRecord) :=
  (λ head, h ← head; if bool_decide (position_of h = p) then None else Some h) <$> heads.

Definition group_of (matched : list (nat * StreamedRecord)) : list LocatedRecord :=
  (λ x : nat * StreamedRecord, mkLocated (st_device x.2) (st_record x.2)) <$> matched.
Definition present_of (matched : list (nat * StreamedRecord)) : gmap Z bool :=
  fold_left (λ m x, <[st_device x.2 := st_shard_present x.2]> m) matched ∅.

(** ** Classification *)

Record InventoryCounts := mkInventoryCounts {
  ic_versions_checked : Z; ic_whole : Z; ic_degraded_parity : Z; ic_degraded_data : Z;
  ic_unreadable : Z; ic_inconsistent : Z;
}.
Definition no_counts : InventoryCounts := mkInventoryCounts 0 0 0 0 0 0.

Definition note_state (c : InventoryCounts) (state : ObjectState) : InventoryCounts :=
  let '(mkInventoryCounts versions whole parity data unreadable inconsistent) := c in
  let versions := wrap64 (versions + 1) in
  match state with
  | Whole => mkInventoryCounts versions (wrap64 (whole + 1)) parity data unreadable inconsistent
  | DegradedParity => mkInventoryCounts versions whole (wrap64 (parity + 1)) data unreadable inconsistent
  | DegradedData => mkInventoryCounts versions whole parity (wrap64 (data + 1)) unreadable inconsistent
  | Unreadable => mkInventoryCounts versions whole parity data (wrap64 (unreadable + 1)) inconsistent
  | Inconsistent => mkInventoryCounts versions whole parity data unreadable (wrap64 (inconsistent + 1))
  end.

Definition object_state (record : MetadataRecord) (out : list Z) : ObjectState :=
  if bool_decide (out = []) then Whole
  else if r_m record <? Z.of_nat (length out) then Unreadable
  else if existsb (λ index, index <? r_k record) out then DegradedData
  else DegradedParity.

(** [max_by_key(|c| c.record.revision)]: the last of the highest. *)
Definition max_by_revision (group : list LocatedRecord) : option LocatedRecord :=
  match group with
  | [] => None
  | c :: rest => Some (fold_left (λ best c,
      if r_revision (lr_record c) <? r_revision (lr_record best) then best else c) rest c)
  end.

(** [total.saturating_sub(out)] on bytes *)
Definition saturating_sub (a b : Z) : Z := Z.max 0 (a - b).
Definition total_of (record : MetadataRecord) : Z := wrap 8 (r_k record + r_m record).

(** The listed devices that have no stream and are not unread. *)
Definition lost_devices (record : MetadataRecord) (unread known : list DeviceId) : list DeviceId :=
  filter (λ device, device ∉ known ∧ device ∉ unread) (sl_device <$> r_shards record).

Definition shards_out (record : MetadataRecord) (not_expected : list DeviceId) (present : gmap Z bool) : list Z :=
  sl_index <$> filter (λ shard, sl_device shard ∈ not_expected ∨ present !! sl_device shard = Some false) (r_shards record).

Definition classify_group (group : list LocatedRecord) (present : gmap Z bool) (unread known : list DeviceId)
    : res Failure (ObjectState * MetadataRecord * Z) :=
  current ← expect (max_by_revision group);
  let not_expected := unread ++ lost_devices (lr_record current) unread known in
  match versions_of_excluding (r_key (lr_record current)) group not_expected with
  | Ok [record] =>
      let out := shards_out record not_expected present in
      Ok (object_state record out, record, wrap 8 (Z.of_nat (length out)))
  | Panic => Panic
  | _ => Ok (Inconsistent, lr_record current, 0)
  end.

Definition PROGRESS_EVERY_VERSIONS : Z := 10000.

(** The unread devices in the order of a [BTreeMap]. *)
Definition by_device (a b : DeviceId * NodeId) : Prop := a.1 ≤ b.1.
#[global] Instance by_device_dec : RelDecision by_device.
Proof. intros a b. unfold by_device. apply _. Defined.
Definition unread_list (unread : gmap Z NodeId) : list (DeviceId * NodeId) := merge_sort by_device (map_to_list unread).

(** The state of the merge. *)
Record Merging := mkMerging {
  mi_sources : list RecordSource; mi_heads : list (option StreamedRecord); mi_unread : gmap Z NodeId;
  mi_counts : InventoryCounts; mi_events : Channel InventoryEvent;
}.

Section inventory.
Context {N : Type} `{Network N} `{CoordTexts} `{Sha256} `{Uuid} `{Xxh3} `{ReedSolomonLib}.
Context {TlsMaterial : Type} (fuel : nat).
Implicit Types n : Node TlsMaterial.
Abbreviation call A := (net (Peers N) Failure A).

Definition DeviceStream_open n (owner : NodeId) (device : DeviceId) : call DeviceStream :=
  ch ← connect_to n owner; mret (mkDeviceStream owner device ch [] None false).

(** The next page, if the one in hand is used up and there is one. *)
Definition fetch_page (d : DeviceStream) : call DeviceStream :=
  if bool_decide (dv_page d = []) && negb (dv_exhausted d) then
    answer ← ask (dv_owner d) (dv_connection d) (LocalRecords (dv_device d) (dv_after d));
    match answer with
    | RespLocalRecords records truncated =>
        mret (mkDeviceStream (dv_owner d) (dv_device d) (dv_connection d) records
          ((λ r, mkRecordCursor (r_key_hash (dr_record r)) (r_version (dr_record r))) <$> last records)
          (negb truncated || bool_decide (records = [])))
    | other => nthrow (error ProtocolViolation (CAnswered (dv_owner d) (lit "LocalRecords") other))
    end
  else mret d.

Definition DeviceStream_next (d : DeviceStream) : call (option StreamedRecord * DeviceStream) :=
  d ← fetch_page d;
  mret (match dv_page d with
        | [] => (None, d)
        | r :: page => (Some (mkStreamed (dv_device d) (dr_record r) (dr_shard_present r)),
                        mkDeviceStream (dv_owner d) (dv_device d) (dv_connection d) page (dv_after d) (dv_exhausted d))
        end).

Definition source_next (s : RecordSource) : call (option StreamedRecord * RecordSource) :=
  match s with
  | SourceDevice d => '(head, d) ← DeviceStream_next d; mret (head, SourceDevice d)
  | SourceFixed _ _ [] => mret (None, s)
  | SourceFixed owner device (inr item :: items) => mret (Some item, SourceFixed owner device items)
  | SourceFixed _ _ (inl detail :: _) => nthrow (FError detail)
  end.

(** ** The merge *)

(** The next record of a source becomes its head; a source that fails is
    unread from here on. *)
Definition pull (st : Merging) (index : nat) : call Merging :=
  source ← nlift (expect (mi_sources st !! index));
  r ← nattempt (source_next source);
  match r with
  | Ok (head, source) =>
      mret (mkMerging (<[index := source]> (mi_sources st)) (<[index := head]> (mi_heads st)) (mi_unread st)
              (mi_counts st) (mi_events st))
  | _ =>
      mret (mkMerging (mi_sources st) (<[index := None]> (mi_heads st))
              (<[source_device source := source_owner source]> (mi_unread st)) (mi_counts st) (mi_events st))
  end.

(** What one version adds: its count, its event if it was asked for, and the
    progress; and whether the events are still read. *)
Definition note_version (query : InventoryQuery) (known : list DeviceId) (st : Merging)
    (matched : list (nat * StreamedRecord)) : res Failure (bool * InventoryCounts * Channel InventoryEvent) :=
  '(state, record, out) ← classify_group (group_of matched) (present_of matched) (unread_list (mi_unread st)).*1 known;
  let counts := note_state (mi_counts st) state in
  let '(taken, events) :=
    if bool_decide (iq_keys query = Some state) then
      channel_send (mi_events st)
        (EvObject (r_key record) (r_version record) state (saturating_sub (total_of record) out) (total_of record))
    else (true, mi_events st) in
  let '(taken, events) :=
    if taken && (ic_versions_checked counts mod PROGRESS_EVERY_VERSIONS =? 0)
    then channel_send events (EvProgress (ic_versions_checked counts)) else (taken, events) in
  Ok (taken, counts, events).

Definition summary_event (unread_limit : Z) (st : Merging) : InventoryEvent :=
  let c := mi_counts st in
  EvSummary (ic_versions_checked c) (ic_whole c) (ic_degraded_parity c) (ic_degraded_data c) (ic_unreadable c)
    (ic_inconsistent c) ((λ x : DeviceId * NodeId, mkUnavailable x.1 x.2) <$> unread_list (mi_unread st))
    (Z.of_nat (size (mi_unread st)) <? unread_limit).

Fixpoint merge_groups (fuel : nat) (query : InventoryQuery) (known : list DeviceId) (unread_limit : Z) (st : Merging)
    : call (Channel InventoryEvent) :=
  match fuel with
  | O => still_running
  | S fuel =>
      match smallest (mi_heads st) with
      | None => mret (channel_send (mi_events st) (summary_event unread_limit st)).2
      | Some p =>
          let matched := matching 0 p (mi_heads st) in
          '(taken, counts, events) ← nlift (note_version query known st matched);
          if negb taken then mret events
          else
            st ← nfold pull matched.*1
                   (mkMerging (mi_sources st) (without p (mi_heads st)) (mi_unread st) counts events);
            merge_groups fuel query known unread_limit st
      end
  end.

Definition merge_inventory (sources : list RecordSource) (unread : gmap Z NodeId) (unread_limit : Z)
    (query : InventoryQuery) (events : Channel InventoryEvent) : call (Channel InventoryEvent) :=
  let known := source_device <$> sources in
  st ← nfold pull (seq 0 (length sources))
         (mkMerging sources (replicate (length sources) None) unread no_counts events);
  merge_groups fuel query known unread_limit st.

(** One stream per device of every active node; a device whose stream cannot
    be opened is unread from the start. *)
Definition open_source n (acc : list RecordSource * gmap Z NodeId) (entry : DeviceEntry)
    : call (list RecordSource * gmap Z NodeId) :=
  let '(sources, unread) := acc in
  match node (nd_document n) (de_node entry) with
  | Some owner =>
      if bool_decide (n_state owner = NodeActive) then
        opened ← nattempt (DeviceStream_open n (de_node entry) (de_id entry));
        mret match opened with
             | Ok stream => (sources ++ [SourceDevice stream], unread)
             | _ => (sources, <[de_id entry := de_node entry]> unread)
             end
      else mret acc
  | None => mret acc
  end.

Definition inventory_merge n (query : InventoryQuery) (events : Channel InventoryEvent) : call (Channel InventoryEvent) :=
  let document := nd_document n in
  '(sources, unread) ← nfold (open_source n) (filter (λ d, de_state d ≠ Removed) (c_devices document)) ([], ∅);
  merge_inventory sources unread (c_k document + c_m document) query events.

Abbreviation stage A := (net (Peers N) Ended A).

(** The events of a task relayed to the client, in order. *)
Definition relay {Ev : Type} `{Cbor Ev} (c : Conn) (id sequence : Z) (events : list Ev) : stage (Z * Conn) :=
  nfold (λ acc event, emit acc.2 id acc.1 event) events (sequence, c).

Definition inventory `{Cbor InventoryEvent} n (id : Z) (c : Conn) (query : InventoryQuery) (gone : option nat) : call Ended :=
  match respond c id (Ok InventoryStarted) with
  | (Ok _, c) =>
      merged ← joined (inventory_merge n query (mkChannel [] gone));
      returning (
        match merged with
        | Ok events =>
            '(_, c) ← relay c id 0 (ch_sent events);
            mret (send c (MEndOfStream id StreamEnd_ok))
        | _ => end_with (error Internal CInventoryTask) c
        end)
  | ended => mret ended
  end.
End inventory.
End Inventory.
