(* ===== verification/ClusterScrub.v ===== *)
(** [coordinator.rs]: the scrub of the whole cluster: every node's own scrub,
    the checks only the coordinator can make on each version's copies, and one
    repair per damaged key.

    The nodes scrub concurrently and their events reach the client as they
    come; [weave] is the order they come in, an interleaving of the nodes'
    streams.  As in [Inventory.v], a channel says when its events are no longer
    read, which is once relaying one has failed. *)

From S2P Require Import Prelude Text Checksum KeyHash VersionId Erasure Layout Stripe FileSystem ShardFile Record Device Cluster Scrub Frame Handshake Message Node LocalOps Lookup Connection Coordinator Get Put Repair Move Inventory.

Module ClusterScrub.
Import Message LocalOps Lookup Connection Coordinator Get Put Repair Move Inventory.

(** ** What the checks count *)

(** [(shards total, shards available, k)] *)
Definition Bucket : Type := Z * Z * Z.

Record ShardCount := mkShardCount { sc_total : Z; sc_available : Z; sc_k : Z }.

(** What the devices that could not be read cost. *)
Record Exposure := mkExposed {
  ex_by_device : gmap Z Z; ex_with_shards_out : Z; ex_at_the_limit : Z; ex_unreadable : Z;
}.
Definition no_exposure : Exposure := mkExposed ∅ 0 0 0.

Definition note_exposure (x : Exposure) (record : MetadataRecord) (unread : gset Z) : Exposure :=
  let listed := filter (λ d, d ∈ unread) (sl_device <$> r_shards record) in
  let by_device := fold_left (λ m d, <[d := wrap64 (default 0 (m !! d) + 1)]> m) listed (ex_by_device x) in
  let out := Z.of_nat (length listed) in
  if out =? 0 then x
  else
    mkExposed by_device (wrap64 (ex_with_shards_out x + 1))
      (if out =? r_m record then wrap64 (ex_at_the_limit x + 1) else ex_at_the_limit x)
      (if r_m record <? out then wrap64 (ex_unreadable x + 1) else ex_unreadable x).

Definition sorted_devices (unread : gset Z) : list DeviceId := merge_sort Z.le (elements unread).

Definition exposure_event (x : Exposure) (unread : gset Z) (versions_checked : Z) : option ScrubEvent :=
  if bool_decide (unread = ∅) then None
  else Some (CrossCheckExposure
    ((λ device, mkExposure device (default 0 (ex_by_device x !! device))) <$> sorted_devices unread)
    versions_checked (ex_with_shards_out x) (ex_at_the_limit x) (ex_unreadable x)).

(** What the cross-node phase found and where it got to. *)
Record CrossCheckOutcome := mkOutcome {
  oc_findings : nat; oc_damaged_keys : list (str * unit); oc_versions_checked : Z; oc_stopped_after : option Z;
  oc_exposure : Exposure; oc_availability : gmap (Z * Z * Z) Z; oc_damaged_availability : list (str * Bucket);
}.
Definition no_outcome : CrossCheckOutcome := mkOutcome 0 [] 0 None no_exposure ∅ [].

(** [*entry(bucket).or_default() += 1] *)
Definition count_in (m : gmap (Z * Z * Z) Z) (bucket : Bucket) : gmap (Z * Z * Z) Z :=
  <[bucket := wrap64 (default 0 (m !! bucket) + 1)]> m.

(** [*count -= 1], the bucket gone when it is empty. *)
Definition count_out (m : gmap (Z * Z * Z) Z) (bucket : Bucket) : gmap (Z * Z * Z) Z :=
  match m !! bucket with
  | None => m
  | Some count =>
      let count := wrap64 (count - 1) in
      if count =? 0 then delete bucket m else <[bucket := count]> m
  end.

Definition note_repaired (o : CrossCheckOutcome) (key : str) : CrossCheckOutcome :=
  match obj_get key (oc_damaged_availability o) with
  | None => o
  | Some bucket =>
      let '(total, _, k) := bucket in
      mkOutcome (oc_findings o) (oc_damaged_keys o) (oc_versions_checked o) (oc_stopped_after o) (oc_exposure o)
        (count_in (count_out (oc_availability o) bucket) (total, total, k))
        (obj_remove key (oc_damaged_availability o))
  end.

(** The order of a bucket in the report: fewest shards in all first, then most
    available, then, as the map is walked in order, fewest needed. *)
Definition bucket_le (a b : Bucket * Z) : Prop :=
  let '(ta, aa, ka, _) := a in
  let '(tb, ab, kb, _) := b in
  ta < tb ∨ (ta = tb ∧ (ab < aa ∨ (aa = ab ∧ ka ≤ kb))).
#[global] Instance bucket_le_dec : RelDecision bucket_le.
Proof. intros [[[]]] [[[]]]. unfold bucket_le. apply _. Defined.

Definition availability_event (o : CrossCheckOutcome) (after_repair : bool) : ScrubEvent :=
  CrossCheckAvailability (oc_versions_checked o)
    ((λ x : Bucket * Z, let '(total, available, k, count) := x in mkAvailability total available k count)
       <$> merge_sort bucket_le (map_to_list (oc_availability o))) after_repair.

(** ** The checks of one version *)

Definition lost_shards (group : list LocatedRecord) (unread known : list DeviceId) : list DeviceId :=
  filter (λ device, device ∉ known ∧ device ∉ unread ∧ device ∉ lr_device <$> group)
    (group ≫= λ copy, sl_device <$> r_shards (lr_record copy)).

Definition unavailable_shards (record : MetadataRecord) (lost unread : list DeviceId) (present : gmap Z bool)
    (damaged : gset (VersionId * Z)) : list ShardLocation :=
  filter (λ shard, sl_device shard ∈ lost ∨ sl_device shard ∈ unread ∨ present !! sl_device shard = Some false
                   ∨ (r_version record, sl_index shard) ∈ damaged) (r_shards record).

Definition count_shards (record : MetadataRecord) (lost unread : list DeviceId) (present : gmap Z bool)
    (damaged : gset (VersionId * Z)) : ShardCount :=
  let unavailable := wrap 8 (Z.of_nat (length (unavailable_shards record lost unread present damaged))) in
  mkShardCount (total_of record) (saturating_sub (total_of record) unavailable) (r_k record).

Definition shard_finding (key : str) (record : MetadataRecord) (lost : list DeviceId) (present : gmap Z bool)
    (shard : ShardLocation) : option ClusterFinding :=
  let '(mkLocation index device) := shard in
  if bool_decide (device ∈ lost) then Some (ShardLost key (r_version record) device index)
  else if (0 <? r_size record) && bool_decide (present !! device = Some false)
  then Some (ShardMissingOnDevice key (r_version record) device index)
  else None.

Definition finding_key (f : ClusterFinding) : str :=
  match f with
  | FindRecordsInconsistent key _ _ | ShardMissingOnDevice key _ _ _ | ShardLost key _ _ _ | StaleCopy key _ _ _ _ => key
  end.

Definition set_insert (key : str) (keys : list (str * unit)) : list (str * unit) := btree_insert key tt keys.

(** The state of the merge. *)
Record Checking := mkChecking {
  ck_sources : list RecordSource; ck_heads : list (option StreamedRecord); ck_unread : gset Z;
  ck_outcome : CrossCheckOutcome; ck_events : Channel ScrubEvent;
}.

(** What a scrub's first phase gathers from the nodes' events. *)
Record Tally := mkTally {
  ta_damaged_keys : list (str * unit); ta_damaged_shards : gset (VersionId * Z); ta_failed_nodes : nat; ta_findings : nat;
}.

Definition damaged_shard (f : Finding) : option (VersionId * Z) :=
  match f with
  | ShardUnreadable _ _ version index _ | ShardBlocksCorrupt _ _ version index _ => Some (version, index)
  | _ => None
  end.

Definition note_event (t : Tally) (event : ScrubEvent) : Tally :=
  match event with
  | NodeFinding _ _ finding =>
      mkTally (match repair_key finding with Some key => set_insert key (ta_damaged_keys t) | None => ta_damaged_keys t end)
        (match damaged_shard finding with Some x => {[x]} ∪ ta_damaged_shards t | None => ta_damaged_shards t end)
        (ta_failed_nodes t) (S (ta_findings t))
  | NodeFailed _ _ => mkTally (ta_damaged_keys t) (ta_damaged_shards t) (S (ta_failed_nodes t)) (ta_findings t)
  | _ => t
  end.

Section scrub.
Context {N : Type} `{Network N} `{CoordTexts} `{Sha256} `{Uuid} `{Xxh3} `{ReedSolomonLib}.
Context {TlsMaterial : Type} (fuel : nat).
Implicit Types n : Node TlsMaterial.
Abbreviation call A := (net (Peers N) Failure A).

Definition stale_findings (key : str) (group : list LocatedRecord) (record : MetadataRecord) : list ClusterFinding :=
  (λ x : DeviceId * Z, StaleCopy key (r_version record) x.1 x.2 (r_revision record)) <$> stale_copies record group.

Definition check_group (group : list LocatedRecord) (present : gmap Z bool) (unread known : list DeviceId)
    (damaged : gset (VersionId * Z)) : res Failure (list ClusterFinding * option ShardCount) :=
  match group with
  | [] => Ok ([], None)
  | first :: _ =>
      let key := r_key (lr_record first) in
      let lost := lost_shards group unread known in
      match versions_of_excluding key group (unread ++ lost) with
      | Err e =>
          let detail := lookup_detail key e in
          Ok ([FindRecordsInconsistent key (e_version detail) (e_message detail)], None)
      | Panic => Panic
      | Ok versions =>
          Ok ((versions ≫= stale_findings key group)
                ++ (versions ≫= λ record, omap (shard_finding key record lost present) (r_shards record)),
              (λ record, count_shards record lost unread present damaged) <$> head versions)
      end
  end.

(** ** The merge *)

(** [stop] *)
Definition stop (o : CrossCheckOutcome) (events : Channel ScrubEvent) (unreachable : NodeId * ErrorDetail)
    : CrossCheckOutcome * Channel ScrubEvent :=
  (mkOutcome (oc_findings o) (oc_damaged_keys o) (oc_versions_checked o) (Some (oc_versions_checked o)) (oc_exposure o)
     (oc_availability o) (oc_damaged_availability o),
   (channel_send events (CrossCheckStopped unreachable.1 unreachable.2 (oc_versions_checked o) None)).2).

Definition Unreachable_from_failure (node : NodeId) (failure : Failure) : NodeId * ErrorDetail :=
  let detail := match failure with FError detail => detail | FClose e => cdetail NodeUnreachable (CConnectionEnded e) end in
  (default node (e_node detail), detail).

(** A source's next record; a device that is unavailable is passed over, any
    other failure stops the merge. *)
Definition check_pull (st : Checking) (index : nat) : net (Peers N) (Checking * (NodeId * ErrorDetail)) Checking :=
  source ← nlift (expect (ck_sources st !! index));
  r ← nattempt (source_next source);
  match r with
  | Ok (head, source) =>
      mret (mkChecking (<[index := source]> (ck_sources st)) (<[index := head]> (ck_heads st)) (ck_unread st)
              (ck_outcome st) (ck_events st))
  | Err failure =>
      match failure with
      | FError detail =>
          if bool_decide (e_code detail = DeviceUnavailable)
          then mret (mkChecking (ck_sources st) (<[index := None]> (ck_heads st)) ({[source_device source]} ∪ ck_unread st)
                       (ck_outcome st) (ck_events st))
          else nthrow (st, Unreachable_from_failure (source_owner source) failure)
      | FClose _ => nthrow (st, Unreachable_from_failure (source_owner source) failure)
      end
  | Panic => nlift Panic
  end.

(** The findings sent as long as they are read. *)
Fixpoint send_findings (o : CrossCheckOutcome) (events : Channel ScrubEvent) (findings : list ClusterFinding)
    : bool * CrossCheckOutcome * Channel ScrubEvent :=
  match findings with
  | [] => (true, o, events)
  | f :: findings =>
      let o := mkOutcome (S (oc_findings o)) (set_insert (finding_key f) (oc_damaged_keys o)) (oc_versions_checked o)
                 (oc_stopped_after o) (oc_exposure o) (oc_availability o) (oc_damaged_availability o) in
      match channel_send events (EvClusterFinding f) with
      | (true, events) => send_findings o events findings
      | (false, events) => (false, o, events)
      end
  end.

Definition note_shards (o : CrossCheckOutcome) (key : option str) (shards : option ShardCount) : CrossCheckOutcome :=
  match shards with
  | None => o
  | Some s =>
      let bucket := (sc_total s, sc_available s, sc_k s) in
      mkOutcome (oc_findings o) (oc_damaged_keys o) (oc_versions_checked o) (oc_stopped_after o) (oc_exposure o)
        (count_in (oc_availability o) bucket)
        (if sc_available s <? sc_total s
         then match key with Some key => btree_insert key bucket (oc_damaged_availability o) | None => oc_damaged_availability o end
         else oc_damaged_availability o)
  end.

Definition expose (o : CrossCheckOutcome) (group : list LocatedRecord) (unread : gset Z) : CrossCheckOutcome :=
  match max_by_revision group with
  | None => o
  | Some current =>
      mkOutcome (oc_findings o) (oc_damaged_keys o) (oc_versions_checked o) (oc_stopped_after o)
        (note_exposure (oc_exposure o) (lr_record current) unread) (oc_availability o) (oc_damaged_availability o)
  end.

Definition one_checked (o : CrossCheckOutcome) : CrossCheckOutcome :=
  mkOutcome (oc_findings o) (oc_damaged_keys o) (wrap64 (oc_versions_checked o + 1)) (oc_stopped_after o) (oc_exposure o)
    (oc_availability o) (oc_damaged_availability o).

(** One version: what it exposes, its findings, its shards, the progress. *)
Definition check_version (known : list DeviceId) (damaged : gset (VersionId * Z)) (st : Checking) (p : Position)
    (matched : list (nat * StreamedRecord)) : res Failure (bool * CrossCheckOutcome * Channel ScrubEvent) :=
  let group := group_of matched in
  let o := expose (ck_outcome st) group (ck_unread st) in
  '(findings, shards) ← check_group group (present_of matched) (elements (ck_unread st)) known damaged;
  let o := note_shards o (r_key ∘ lr_record <$> head group) shards in
  let '(taken, o, events) := send_findings o (ck_events st) findings in
  if negb taken then Ok (false, o, events)
  else
    let o := one_checked o in
    let '(taken, events) :=
      if oc_versions_checked o mod PROGRESS_EVERY_VERSIONS =? 0
      then channel_send events (CrossCheckProgress (oc_versions_checked o) p.1) else (true, events) in
    Ok (taken, o, events).

Definition send_exposure (o : CrossCheckOutcome) (unread : gset Z) (events : Channel ScrubEvent) : Channel ScrubEvent :=
  match exposure_event (oc_exposure o) unread (oc_versions_checked o) with
  | Some event => (channel_send events event).2
  | None => events
  end.

Abbreviation checked := (CrossCheckOutcome * Channel ScrubEvent)%type.

Fixpoint check_groups (fuel : nat) (known : list DeviceId) (damaged : gset (VersionId * Z)) (st : Checking) : call checked :=
  match fuel with
  | O => still_running
  | S fuel =>
      match smallest (ck_heads st) with
      | None => mret (ck_outcome st, send_exposure (ck_outcome st) (ck_unread st) (ck_events st))
      | Some p =>
          let matched := matching 0 p (ck_heads st) in
          '(taken, o, events) ← nlift (check_version known damaged st p matched);
          if negb taken then mret (o, events)
          else
            pulled ← nattempt (nfold check_pull matched.*1
                       (mkChecking (ck_sources st) (without p (ck_heads st)) (ck_unread st) o events));
            match pulled with
            | Ok st => check_groups fuel known damaged st
            | Err (st, unreachable) =>
                let '(o, events) := stop (ck_outcome st) (ck_events st) unreachable in
                mret (o, send_exposure o (ck_unread st) events)
            | Panic => nlift Panic
            end
      end
  end.

Definition merge_sources (sources : list RecordSource) (events : Channel ScrubEvent) (damaged : gset (VersionId * Z))
    : call checked :=
  let known := source_device <$> sources in
  first ← nattempt (nfold check_pull (seq 0 (length sources))
            (mkChecking sources (replicate (length sources) None) ∅ no_outcome events));
  match first with
  | Ok st => check_groups fuel known damaged st
  | Err (st, unreachable) => mret (stop (ck_outcome st) (ck_events st) unreachable)
  | Panic => nlift Panic
  end.

(** One stream per device that is not removed; the first that cannot be
    opened ends the checks. *)
Definition check_open n (sources : list RecordSource) (entry : DeviceEntry)
    : net (Peers N) (NodeId * ErrorDetail) (list RecordSource) :=
  stream ← nmap_err (Unreachable_from_failure (de_node entry)) (DeviceStream_open n (de_node entry) (de_id entry));
  mret (sources ++ [SourceDevice stream]).

Definition cross_check n (events : Channel ScrubEvent) (damaged : gset (VersionId * Z)) : call checked :=
  opened ← nattempt (nfold (check_open n) (filter (λ d, de_state d ≠ Removed) (c_devices (nd_document n))) []);
  match opened with
  | Ok sources => merge_sources sources events damaged
  | Err unreachable => mret (stop no_outcome events unreachable)
  | Panic => nlift Panic
  end.

(** ** The nodes' own scrubs *)

Definition item_event (target : NodeId) (item : ScrubItem) : ScrubEvent :=
  match item with
  | ItemFinding device finding => NodeFinding target device finding
  | ItemSummary device summary => NodeSummary target device summary
  end.

(** The items of a node's scrub, and how the stream ended. *)
Fixpoint scrub_items `{Cbor ScrubItem} (fuel : nat) (ch : nat) (id : Z) (target : NodeId) (events : list ScrubEvent)
    : call (list ScrubEvent * option Failure) :=
  match fuel with
  | O => still_running
  | S fuel =>
      item ← nattempt (read_stream_item ch id);
      match item with
      | Ok (ItemData data) =>
          if negb (checksum_block (df_bytes data) =? df_checksum data)
          then mret (events, Some (error ProtocolViolation CItemCorrupt))
          else match decode_cbor (df_bytes data) with
               | None => mret (events, Some (error ProtocolViolation CItemDecode))
               | Some item => scrub_items fuel ch id target (events ++ [item_event target item])
               end
      | Ok (ItemEnd e) => mret (events, (λ detail, FError (set_node detail (Some target))) <$> se_error e)
      | Err e => mret (events, Some (remote_failure target e))
      | Panic => nlift Panic
      end
  end.

Definition relay_local_scrub `{Cbor ScrubItem} n (target : NodeId) (max_bytes_per_second : option Z)
    : call (list ScrubEvent * option Failure) :=
  started ← nattempt (
    ch ← connect_to n target;
    id ← nmap_err (remote_failure target) (send_request ch (LocalScrub max_bytes_per_second));
    answer ← nmap_err (remote_failure target) (read_response ch id);
    match answer with
    | LocalScrubStarted => mret (ch, id)
    | other => nthrow (error ProtocolViolation (CAnswered target (lit "LocalScrub") other))
    end);
  match started with
  | Ok (ch, id) => scrub_items fuel ch id target []
  | Err f => mret ([], Some f)
  | Panic => nlift Panic
  end.

(** A node's task: its events, and one more if it failed. *)
Definition scrub_node `{Cbor ScrubItem} n (max_bytes_per_second : option Z) (target : NodeId) : call (list ScrubEvent) :=
  '(events, failure) ← relay_local_scrub n target max_bytes_per_second;
  mret (events ++ match failure with
                  | None => []
                  | Some (FError detail) => [NodeFailed target detail]
                  | Some (FClose e) => [NodeFailed target (cdetail NodeUnreachable (CEnd e))]
                  end).

(** ** The scrub *)

Abbreviation stage A := (net (Peers N) Ended A).

Definition repair_damaged `{Cbor ScrubEvent} n (id : Z) (acc : Z * Conn * CrossCheckOutcome * nat) (key : str)
    : stage (Z * Conn * CrossCheckOutcome * nat) :=
  let '(sequence, c, outcome, failures) := acc in
  repaired ← nattempt (repair_object fuel n key);
  '(event, outcome, failures) ←
    (match repaired with
     | Ok (RespRepairObject report) => mret (Repaired key report, note_repaired outcome key, failures)
     | Ok other => mret (RepairFailed key (cdetail Internal (CUnexpected other)), outcome, failures)
     | Err (FError detail) => mret (RepairFailed key detail, outcome, S failures)
     | Err other => end_with other c
     | Panic => nlift Panic
     end : stage (ScrubEvent * CrossCheckOutcome * nat));
  '(sequence, c) ← emit c id sequence event;
  mret (sequence, c, outcome, failures).

Definition scrub_end (failed_nodes : nat) (stopped : option Z) (repair_failures findings : nat) : StreamEnd :=
  if (0 <? failed_nodes)%nat || bool_decide (is_Some stopped)
  then StreamEnd_failed (cdetail NodeUnreachable (CScrubIncomplete failed_nodes stopped findings))
  else if (0 <? repair_failures)%nat then StreamEnd_failed (cdetail WriteFailed (CRepairsFailed repair_failures))
  else StreamEnd_ok.

Context (weave : list (list ScrubEvent) → list ScrubEvent).

Definition scrub `{Cbor ScrubItem} `{Cbor ScrubEvent} n (id : Z) (c : Conn) (max_bytes_per_second : option Z) (repair : bool)
    (gone : option nat) : call Ended :=
  match respond c id (Ok ScrubStarted) with
  | (Ok _, c) =>
      streams ← each_node n (scrub_node n max_bytes_per_second);
      let node_events := weave ((λ x : NodeId * res Failure (list ScrubEvent), match x.2 with Ok l => l | _ => [] end) <$> streams) in
      let tally := fold_left note_event node_events (mkTally [] ∅ 0 0) in
      relayed ← nattempt (relay c id 0 node_events);
      match relayed with
      | Ok (sequence, c) =>
          checked ← joined (cross_check n (mkChannel [] gone) (ta_damaged_shards tally));
          returning (
            match checked with
            | Ok (outcome, events) =>
                '(sequence, c) ← relay c id sequence (ch_sent events);
                let findings := (ta_findings tally + oc_findings outcome)%nat in
                let damaged_keys := fold_left (λ l k, set_insert k l) (oc_damaged_keys outcome).*1 (ta_damaged_keys tally) in
                '(sequence, c, outcome, failures) ←
                  (if repair then
                     '(sequence, c) ← emit c id sequence (availability_event outcome false);
                     nfold (repair_damaged n id) damaged_keys.*1 (sequence, c, outcome, 0%nat)
                   else mret (sequence, c, outcome, 0%nat) : stage (Z * Conn * CrossCheckOutcome * nat));
                '(_, c) ← emit c id sequence (availability_event outcome repair);
                mret (send c (MEndOfStream id (scrub_end (ta_failed_nodes tally) (oc_stopped_after outcome) failures findings)))
            | _ => end_with (error Internal CCrossCheckTask) c
            end)
      | Err ended => mret ended
      | Panic => nlift Panic
      end
  | ended => mret ended
  end.
End scrub.
End ClusterScrub.
