(* ===== verification/MergeSpec.v ===== *)
(** The merge of record streams that the inventory and the cluster's scrub
    share, as it runs on sources that are fixed sequences: the state of a merge
    is a list of lanes, each with the records it has still to give. *)

From S2P Require Import Prelude Text Checksum KeyHash VersionId Erasure Layout Stripe FileSystem ShardFile Record Device Cluster Scrub Frame Handshake Message Node LocalOps Lookup Connection Coordinator Log Get Put Repair Move Inventory ClusterScrub.

Module MergeSpec.
Import Message LocalOps Lookup Connection Coordinator Log Get Put Repair Move Inventory ClusterScrub.

(** ** The order of positions *)

Definition pos_lt (p q : Position) : Prop := pos_compare p q = Lt.

#[global] Instance pos_lt_dec : RelDecision pos_lt.
Proof. intros p q. unfold pos_lt. apply _. Defined.

Lemma pos_compare_eq p q : pos_compare p q = Eq ↔ p = q.
Proof.
  destruct p as [a b], q as [c d]. unfold pos_compare; cbn. destruct (lex_compare a c) eqn:Hc.
  - apply lex_compare_eq in Hc as ->. rewrite lex_compare_eq. naive_solver.
  - split; [done|]. intros [= -> ->]. by rewrite lex_compare_refl in Hc.
  - split; [done|]. intros [= -> ->]. by rewrite lex_compare_refl in Hc.
Qed.

Lemma pos_compare_antisym p q : pos_compare q p = CompOpp (pos_compare p q).
Proof.
  unfold pos_compare. rewrite (lex_compare_antisym p.1 q.1), (lex_compare_antisym p.2 q.2).
  by destruct (lex_compare p.1 q.1).
Qed.

#[global] Instance pos_lt_trans : Transitive pos_lt.
Proof.
  intros [a b] [c d] [e f]. unfold pos_lt, pos_compare; cbn. intros H1 H2.
  destruct (lex_compare a c) eqn:E1; [apply lex_compare_eq in E1 as ->| |done].
  - destruct (lex_compare c e) eqn:E2; [|done|done]. by eapply lex_compare_lt_trans.
  - destruct (lex_compare c e) eqn:E2; [apply lex_compare_eq in E2 as <-; by rewrite E1| |done].
    by rewrite (lex_compare_lt_trans _ _ _ E1 E2).
Qed.

#[global] Instance pos_lt_irrefl : Irreflexive pos_lt.
Proof. intros p Hp. unfold pos_lt in Hp. by rewrite (proj2 (pos_compare_eq p p)) in Hp. Qed.

Lemma pos_total p q : pos_lt p q ∨ p = q ∨ pos_lt q p.
Proof.
  unfold pos_lt. rewrite (pos_compare_antisym p q). destruct (pos_compare p q) eqn:Hc; [|by left|by right; right].
  right; left. by apply pos_compare_eq.
Qed.

(** The smallest head is the head that no head is before. *)
Lemma pos_min_fold ps p q :
  (p = q ∨ pos_lt q p) → (∀ x, x ∈ ps → x = q ∨ pos_lt q x) → q ∈ p :: ps → fold_left pos_min ps p = q.
Proof.
  revert p. induction ps as [|x ps IH]; intros p Hp Hps Hin; cbn [fold_left].
  { by apply list_elem_of_singleton in Hin. }
  apply IH.
  - unfold pos_min. destruct (pos_compare x p) eqn:Hc; [done| |done]. apply Hps, list_elem_of_here.
  - intros y Hy. by apply Hps, list_elem_of_further.
  - assert (pos_min p x = q ∨ q ∈ ps) as [Hm|?]; [|rewrite <- Hm; apply list_elem_of_here|by apply list_elem_of_further].
    destruct (decide (q ∈ ps)) as [?|Hni]; [by right|]. left. unfold pos_min.
    destruct Hp as [->|Hp]; [destruct (Hps x ltac:(apply list_elem_of_here)) as [->|Hx]|].
    + by rewrite (proj2 (pos_compare_eq q q)).
    + unfold pos_lt in Hx. by rewrite (pos_compare_antisym q x), Hx.
    + apply elem_of_cons in Hin as [->|[->|?]%elem_of_cons]; [by destruct (irreflexivity pos_lt p)| |done].
      by unfold pos_lt in Hp; rewrite Hp.
Qed.

Lemma smallest_spec (heads : list (option StreamedRecord)) q :
  (∃ h, Some h ∈ heads ∧ position_of h = q) → (∀ h, Some h ∈ heads → position_of h = q ∨ pos_lt q (position_of h)) →
  smallest heads = Some q.
Proof.
  intros Hin Hall. unfold smallest.
  assert (∀ x, x ∈ omap (fmap position_of) heads ↔ ∃ h, Some h ∈ heads ∧ position_of h = x) as Hx.
  { intros x. rewrite list_elem_of_omap. split.
    - intros ([h|] & Hh & [= <-]). by exists h.
    - intros (h & Hh & <-). by exists (Some h). }
  assert (q ∈ omap (fmap position_of) heads) as Hq.
  { by apply Hx. }
  destruct (omap (fmap position_of) heads) as [|p ps]; [by apply not_elem_of_nil in Hq|]. f_equal.
  apply pos_min_fold; [| |done].
  - destruct (proj1 (Hx p) ltac:(apply list_elem_of_here)) as (h & Hh & <-). by apply Hall.
  - intros x Hin'. destruct (proj1 (Hx x) ltac:(by apply list_elem_of_further)) as (h & Hh & <-). by apply Hall.
Qed.

Lemma smallest_none heads : Forall (λ h, h = None) heads → smallest heads = None.
Proof. unfold smallest. induction 1 as [|h l -> _ IH]; [done|exact IH]. Qed.

(** ** Lanes *)

(** A fixed source: its records in order, and whether it ends in a failure. *)
Record Sequence := mkSequence {
  sq_owner : NodeId; sq_device : DeviceId; sq_records : list StreamedRecord; sq_failure : option ErrorDetail;
}.

Definition fails (q : Sequence) : list (ErrorDetail + StreamedRecord) :=
  match sq_failure q with Some d => [inl d] | None => [] end.
Definition fixed (q : Sequence) : RecordSource :=
  SourceFixed (sq_owner q) (sq_device q) ((inr <$> sq_records q) ++ fails q).

(** A source with the records it has still to give, the first of which is at
    hand unless the lane is pending. *)
Record Lane := mkLane { ln_sequence : Sequence; ln_rest : list StreamedRecord; ln_pending : bool }.

Definition lane_source (l : Lane) : RecordSource :=
  SourceFixed (sq_owner (ln_sequence l)) (sq_device (ln_sequence l))
    ((inr <$> (if ln_pending l then ln_rest l else tail (ln_rest l))) ++ fails (ln_sequence l)).
Definition lane_head (l : Lane) : option StreamedRecord := if ln_pending l then None else head (ln_rest l).

Definition first_lane (q : Sequence) : Lane := mkLane q (sq_records q) true.
Definition settled (l : Lane) : Lane := mkLane (ln_sequence l) (ln_rest l) false.

(** The record of a lane at a position taken from it. *)
Definition at_head (p : Position) (l : Lane) : bool :=
  match lane_head l with Some h => bool_decide (position_of h = p) | None => false end.
Definition taken (p : Position) (l : Lane) : Lane :=
  if at_head p l then mkLane (ln_sequence l) (tail (ln_rest l)) true else l.
Definition advanced (p : Position) (l : Lane) : Lane :=
  if at_head p l then mkLane (ln_sequence l) (tail (ln_rest l)) false else l.

(** A lane that has given all it has and then failed. *)
Definition lane_out (l : Lane) : bool :=
  negb (ln_pending l) && bool_decide (ln_rest l = []) && bool_decide (is_Some (sq_failure (ln_sequence l))).

Lemma taken_source p l : lane_source (taken p l) = lane_source l.
Proof. unfold taken, at_head, lane_head, lane_source. destruct (ln_pending l) eqn:Hp; [by rewrite Hp|]. by destruct (head _); [case_bool_decide|]; cbn; rewrite ?Hp. Qed.

Lemma taken_out p l : lane_out (taken p l) = lane_out l.
Proof.
  destruct l as [q rest pending]. unfold taken, at_head, lane_head, lane_out. cbn. destruct pending; [done|].
  destruct rest as [|h rest]; [done|]. cbn. by case_bool_decide.
Qed.

Lemma taken_sequence p l : ln_sequence (taken p l) = ln_sequence l.
Proof. unfold taken. by destruct (at_head p l). Qed.

Lemma advanced_sequence p l : ln_sequence (advanced p l) = ln_sequence l.
Proof. unfold advanced. by destruct (at_head p l). Qed.

Lemma without_heads p lanes : without p (lane_head <$> lanes) = lane_head <$> (taken p <$> lanes).
Proof.
  unfold without. rewrite <- !list_fmap_compose. apply list_fmap_ext. intros i l _. unfold compose, taken, at_head.
  destruct (lane_head l) as [h|] eqn:Hh; cbn; [|done]. by case_bool_decide; rewrite ?Hh.
Qed.

(** What a pending lane gives next. *)
Definition lane_failure (l : Lane) : option ErrorDetail :=
  match ln_rest l with [] => sq_failure (ln_sequence l) | _ => None end.

Lemma lane_out_settled l : lane_out (settled l) = bool_decide (is_Some (lane_failure l)).
Proof. unfold lane_out, lane_failure, settled. cbn. by destruct (ln_rest l). Qed.

Lemma lane_next {N : Type} `{Network N} `{CoordTexts} {F : Type} l (s : Peers N) : ln_pending l = true →
  nattempt (F := F) (source_next (lane_source l)) s
  = Some (Ok match lane_failure l with
             | Some d => Err (FError d)
             | None => Ok (lane_head (settled l), lane_source (settled l))
             end, s).
Proof.
  destruct l as [q rest pending]. cbn. intros ->. unfold lane_failure, lane_source, lane_head, settled, fails. cbn.
  destruct rest as [|h rest]; [|done]. cbn. by destruct (sq_failure q).
Qed.

Lemma lane_failed l d : ln_pending l = true → lane_failure l = Some d →
  lane_head (settled l) = None ∧ lane_source (settled l) = lane_source l ∧ sq_failure (ln_sequence l) = Some d.
Proof. destruct l as [q [|h rest] pending]; unfold lane_failure, lane_head, lane_source; cbn; [|done]. by intros ->. Qed.

(** The places and records taken. *)
Definition taken_from (index : nat) (p : Position) (lanes : list Lane) : list (nat * StreamedRecord) :=
  matching index p (lane_head <$> lanes).

Lemma taken_from_cons k p l lanes :
  taken_from k p (l :: lanes)
  = match lane_head l with Some h => if at_head p l then [(k, h)] else [] | None => [] end ++ taken_from (S k) p lanes.
Proof. unfold taken_from, at_head. cbn. by destruct (lane_head l). Qed.

Lemma taken_from_records k p lanes :
  snd <$> taken_from k p lanes = omap (λ l, if at_head p l then lane_head l else None) lanes.
Proof.
  revert k. induction lanes as [|l lanes IH]; intros k; [done|]. rewrite taken_from_cons, fmap_app, IH. cbn.
  unfold at_head. destruct (lane_head l); [|done]. by case_bool_decide.
Qed.

Lemma filter_fmap {A B : Type} (f : A → B) (P : B → Prop) `{∀ x, Decision (P x)} (l : list A) :
  filter P (f <$> l) = f <$> filter (λ x, P (f x)) l.
Proof. induction l as [|x l IH]; [done|]. cbn [fmap list_fmap]. rewrite !filter_cons, IH. by case_decide. Qed.

Lemma taken_outs p (lanes : list Lane) :
  ln_sequence <$> filter (λ l, lane_out l = true) (taken p <$> lanes) = ln_sequence <$> filter (λ l, lane_out l = true) lanes.
Proof.
  rewrite filter_fmap, <- list_fmap_compose.
  rewrite (filter_ext_in (λ l, lane_out (taken p l) = true) (λ l, lane_out l = true)) by (intros l _; by rewrite taken_out).
  apply list_fmap_ext. intros _ l _. apply taken_sequence.
Qed.

Lemma group_of_records m : group_of m = (λ h, mkLocated (st_device h) (st_record h)) <$> (snd <$> m).
Proof. unfold group_of. by rewrite <- list_fmap_compose. Qed.

Lemma present_of_records m : present_of m = fold_left (λ m h, <[st_device h := st_shard_present h]> m) (snd <$> m) ∅.
Proof. unfold present_of. generalize (∅ : gmap Z bool) as acc. induction m as [|x m IH]; intros acc; [done|]. cbn. apply IH. Qed.

(** The steps that pull a lane, for a state that is a function of the lanes. *)
Section pulling.
Context {X E St : Type} (rep : list Lane → X) (pull : X → nat → net St E X) (qs : list Sequence).
Hypothesis pull_lane : ∀ lanes i l s,
  ln_sequence <$> lanes = qs → lanes !! i = Some l → ln_pending l = true →
  pull (rep lanes) i s = Some (Ok (rep (<[i := settled l]> lanes)), s).

Lemma pull_taken p lanes : ∀ before s, ln_sequence <$> before ++ lanes = qs →
  nfold pull (taken_from (length before) p lanes).*1 (rep (before ++ (taken p <$> lanes))) s
  = Some (Ok (rep (before ++ (advanced p <$> lanes))), s).
Proof.
  induction lanes as [|l lanes IH]; intros before s Hqs; [done|].
  assert (ln_sequence <$> (before ++ [advanced p l]) ++ lanes = qs) as Hqs'.
  { rewrite <- Hqs, <- app_assoc, !fmap_app. cbn. unfold advanced. by destruct (at_head p l). }
  specialize (IH _ s Hqs'). rewrite length_app in IH. cbn [length] in IH. rewrite Nat.add_1_r, <- !app_assoc in IH. cbn [app] in IH.
  rewrite taken_from_cons, fmap_app. cbn [fmap list_fmap].
  assert (at_head p l = false → taken p l = l ∧ advanced p l = l) as Hno by (unfold taken, advanced; by intros ->).
  destruct (lane_head l) as [h|] eqn:Hh; [destruct (at_head p l) eqn:Hp|].
  - cbn [app fmap list_fmap fst nfold]. unfold mbind at 1, net_bind at 1.
    rewrite (pull_lane _ _ (taken p l)).
    + rewrite insert_app_r_alt, Nat.sub_diag by done. cbn [insert list_insert].
      replace (settled (taken p l)) with (advanced p l) by (unfold taken, advanced; by rewrite Hp). exact IH.
    + rewrite <- Hqs, !fmap_app. f_equal. cbn [fmap list_fmap]. f_equal; [unfold taken; by rewrite Hp|].
      rewrite <- list_fmap_compose. apply list_fmap_ext. intros _ x _. unfold compose, taken. by destruct (at_head p x).
    + by rewrite lookup_app_r, Nat.sub_diag by done.
    + unfold taken. by rewrite Hp.
  - destruct (Hno eq_refl) as [-> Ha]. rewrite Ha in *. exact IH.
  - assert (at_head p l = false) as Hp by (unfold at_head; by rewrite Hh). destruct (Hno Hp) as [-> Ha]. rewrite Ha in *. exact IH.
Qed.

(** The first record of every lane. *)
Lemma pull_first lanes : ∀ before s, ln_sequence <$> before ++ lanes = qs → Forall (λ l, ln_pending l = true) lanes →
  nfold pull (seq (length before) (length lanes)) (rep (before ++ lanes)) s
  = Some (Ok (rep (before ++ (settled <$> lanes))), s).
Proof.
  induction lanes as [|l lanes IH]; intros before s Hqs Hp; [done|]. apply Forall_cons in Hp as [Hl Hp].
  cbn [length seq nfold fmap list_fmap]. unfold mbind at 1, net_bind at 1.
  rewrite (pull_lane _ _ l); [|done|by rewrite lookup_app_r, Nat.sub_diag by done|done].
  rewrite insert_app_r_alt, Nat.sub_diag by done. cbn [insert list_insert].
  specialize (IH (before ++ [settled l]) s). rewrite length_app in IH. cbn [length] in IH.
  rewrite Nat.add_1_r, <- !app_assoc in IH. apply IH; [|done]. rewrite <- Hqs, !fmap_app. done.
Qed.
End pulling.

(** ** The positions still to come *)

Definition sorted_records (l : list StreamedRecord) : Prop := StronglySorted pos_lt (position_of <$> l).

(** The lanes before the first of [ps] is taken: what each has given is
    before them, what it has still to give is at them, in order. *)
Record at_frontier (lanes : list Lane) (ps : list Position) : Prop := {
  af_settled : Forall (λ l, ln_pending l = false) lanes;
  af_sorted : Forall (λ l, sorted_records (ln_rest l)) lanes;
  af_todo : ∀ p, p ∈ ps ↔ ∃ l, l ∈ lanes ∧ p ∈ position_of <$> ln_rest l;
  af_given : Forall (λ l, ∃ given, sq_records (ln_sequence l) = given ++ ln_rest l
    ∧ ∀ h p, h ∈ given → p ∈ ps → pos_lt (position_of h) p) lanes;
}.

Lemma sorted_head l h p : sorted_records l → head l = Some h → p ∈ position_of <$> l → p = position_of h ∨ pos_lt (position_of h) p.
Proof.
  destruct l as [|x l]; [done|]. intros Hs [= ->] Hp. apply StronglySorted_inv in Hs as [_ Hf]. cbn in Hp.
  apply elem_of_cons in Hp as [->|Hp]; [by left|]. right. rewrite Forall_forall in Hf. by apply Hf.
Qed.

Lemma settled_head lanes l : Forall (λ l, ln_pending l = false) lanes → l ∈ lanes → lane_head l = head (ln_rest l).
Proof. intros Hf Hl. rewrite Forall_forall in Hf. unfold lane_head. by rewrite (Hf l Hl). Qed.

(** The next position is the smallest of the heads. *)
Lemma frontier_smallest lanes p ps :
  at_frontier lanes (p :: ps) → Forall (pos_lt p) ps → smallest (lane_head <$> lanes) = Some p.
Proof.
  intros [Hse Hso Htodo _] Hps. rewrite Forall_forall in Hps. rewrite Forall_forall in Hso.
  assert (∀ h, Some h ∈ lane_head <$> lanes → position_of h = p ∨ pos_lt p (position_of h)) as Hall.
  { intros h (l & Hl & Hin)%list_elem_of_fmap. rewrite (settled_head _ _ Hse Hin) in Hl.
    assert (position_of h ∈ p :: ps) as [?|?]%elem_of_cons; [|by left|right; by apply Hps].
    apply Htodo. exists l. split; [done|]. destruct (ln_rest l); [done|]. injection Hl as ->. apply list_elem_of_here. }
  apply smallest_spec; [|done].
  destruct (proj1 (Htodo p)) as (l & Hl & Hp); [apply list_elem_of_here|].
  destruct (ln_rest l) as [|h rest] eqn:Hr; [by apply not_elem_of_nil in Hp|].
  assert (Some h ∈ lane_head <$> lanes) as Hh.
  { apply list_elem_of_fmap. exists l. split; [|done]. by rewrite (settled_head _ _ Hse Hl), Hr. }
  exists h. split; [done|]. specialize (Hso l Hl). rewrite Hr in Hso.
  destruct (sorted_head _ h p Hso eq_refl Hp) as [->|Hlt]; [done|]. destruct (Hall h Hh) as [?|Hlt']; [done|].
  destruct (irreflexivity pos_lt p). by transitivity (position_of h).
Qed.

Lemma frontier_done lanes : at_frontier lanes [] → smallest (lane_head <$> lanes) = None.
Proof.
  intros [Hse _ Htodo _]. apply smallest_none, Forall_forall. intros o (l & -> & Hl)%list_elem_of_fmap.
  rewrite (settled_head _ _ Hse Hl). destruct (ln_rest l) as [|h rest] eqn:Hr; [done|].
  destruct (not_elem_of_nil (position_of h)). apply Htodo. exists l. split; [done|]. rewrite Hr. apply list_elem_of_here.
Qed.

Lemma at_head_rest p l : ln_pending l = false → at_head p l = true ↔ ∃ h, head (ln_rest l) = Some h ∧ position_of h = p.
Proof.
  intros Hp. unfold at_head, lane_head. rewrite Hp. destruct (head (ln_rest l)) as [h|]; [|by split; [|intros (? & ? & ?)]].
  rewrite bool_decide_eq_true. naive_solver.
Qed.

(** A lane that is at the frontier, with what it has still to give after [p]. *)
Lemma frontier_rest lanes p ps l :
  at_frontier lanes (p :: ps) → Forall (pos_lt p) ps → l ∈ lanes →
  ∃ later, ln_rest l = (if at_head p l then option_list (head (ln_rest l)) else []) ++ later
    ∧ ln_rest (advanced p l) = later ∧ (∀ h, h ∈ later → pos_lt p (position_of h) ∧ position_of h ∈ ps) ∧ sorted_records later.
Proof.
  intros [Hse Hso Htodo _] Hps Hl. rewrite Forall_forall in Hps. rewrite Forall_forall in Hso. specialize (Hso l Hl).
  assert (ln_pending l = false) as Hpe by (rewrite Forall_forall in Hse; by apply Hse).
  assert (∀ h, h ∈ ln_rest l → position_of h ∈ p :: ps) as Hin.
  { intros h Hh. apply Htodo. exists l. split; [done|]. by apply list_elem_of_fmap_2. }
  unfold advanced. destruct (at_head p l) eqn:Hat.
  - apply at_head_rest in Hat as (h & Hh & <-); [|done]. destruct (ln_rest l) as [|x rest]; [done|]. injection Hh as ->.
    apply StronglySorted_inv in Hso as [Hso Hf]. exists rest. split_and!; [done|done| |done].
    rewrite Forall_forall in Hf. intros y Hy. assert (pos_lt (position_of h) (position_of y)) as Hlt by (by apply Hf, list_elem_of_fmap_2).
    split; [done|]. specialize (Hin y ltac:(by apply list_elem_of_further)). apply elem_of_cons in Hin as [Heq|?]; [|done].
    rewrite Heq in Hlt. by destruct (irreflexivity pos_lt (position_of h)).
  - exists (ln_rest l). split_and!; [done|done| |done]. intros h Hh. specialize (Hin h Hh). apply elem_of_cons in Hin as [Heq|?]; [|by split; [apply Hps|]].
    exfalso. apply (list_elem_of_fmap_2 position_of) in Hh. destruct (ln_rest l) as [|x rest] eqn:Hr; [by apply not_elem_of_nil in Hh|].
    assert (at_head p l = true) as Ht; [|congruence]. apply at_head_rest; [done|]. exists x. rewrite Hr. split; [done|].
    destruct (sorted_head _ x (position_of h) Hso eq_refl Hh) as [<-|Hlt]; [done|]. rewrite Heq in Hlt.
    assert (position_of x ∈ p :: ps) as [?|Hx]%elem_of_cons; [|done|].
    + apply Htodo. exists l. split; [done|]. rewrite Hr. apply list_elem_of_here.
    + specialize (Hps _ Hx). destruct (irreflexivity pos_lt p). by transitivity (position_of x).
Qed.

Lemma frontier_advance lanes p ps :
  at_frontier lanes (p :: ps) → Forall (pos_lt p) ps → at_frontier (advanced p <$> lanes) ps.
Proof.
  intros Hf Hps. pose proof (λ l Hl, frontier_rest lanes p ps l Hf Hps Hl) as Hrest. destruct Hf as [Hse Hso Htodo Hg]. split.
  - apply Forall_fmap. eapply Forall_impl; [exact Hse|]. intros l Hl. unfold compose, advanced. by destruct (at_head p l).
  - apply Forall_fmap, Forall_forall. intros l Hl. destruct (Hrest l Hl) as (later & _ & <- & _ & Hs). exact Hs.
  - intros q. split.
    + intros Hq. destruct (proj1 (Htodo q)) as (l & Hl & Hin); [by apply list_elem_of_further|].
      exists (advanced p l). split; [by apply list_elem_of_fmap_2|]. destruct (Hrest l Hl) as (later & Hr & -> & Hlt & _).
      rewrite Hr, fmap_app in Hin. apply elem_of_app in Hin as [Hin|?]; [|done]. exfalso.
      assert (pos_lt p q) as Hpq by (rewrite Forall_forall in Hps; by apply Hps).
      destruct (at_head p l) eqn:Hat; [|by apply not_elem_of_nil in Hin].
      apply at_head_rest in Hat as (h & Hh & Hp); [|rewrite Forall_forall in Hse; by apply Hse]. rewrite Hh in Hin. cbn in Hin.
      apply list_elem_of_singleton in Hin as ->. rewrite Hp in Hpq. by destruct (irreflexivity pos_lt p).
    + intros (l' & (l & -> & Hl)%list_elem_of_fmap & Hin). destruct (Hrest l Hl) as (later & _ & Hr & Hlt & _).
      rewrite Hr in Hin. apply list_elem_of_fmap in Hin as (h & -> & Hh). by apply Hlt.
  - apply Forall_fmap, Forall_forall. intros l Hl. unfold compose. destruct (Hrest l Hl) as (later & Hr & Hadv & _).
    rewrite Forall_forall in Hg. destruct (Hg l Hl) as (given & Hrec & Hgv). rewrite Hadv.
    assert (ln_sequence (advanced p l) = ln_sequence l) as -> by (unfold advanced; by destruct (at_head p l)).
    eexists. rewrite Hrec, Hr, app_assoc. split; [done|]. intros h q [Hh|Hh]%elem_of_app Hq; [apply Hgv; [done|by apply list_elem_of_further]|].
    destruct (at_head p l) eqn:Hat; [|by apply not_elem_of_nil in Hh].
    apply at_head_rest in Hat as (x & Hx & Hp); [|rewrite Forall_forall in Hse; by apply Hse]. rewrite Hx in Hh. cbn in Hh.
    apply list_elem_of_singleton in Hh as ->. rewrite Hp. rewrite Forall_forall in Hps. by apply Hps.
Qed.

(** ** What the sequences say of a position *)

Definition copy_at (p : Position) (q : Sequence) : option StreamedRecord :=
  head (filter (λ h, position_of h = p) (sq_records q)).
Definition copies_at (qs : list Sequence) (p : Position) : list StreamedRecord := omap (copy_at p) qs.

(** A source that has given all it has before [p], and then failed. *)
Definition failed_before (p : Position) (q : Sequence) : Prop :=
  is_Some (sq_failure q) ∧ Forall (λ h, pos_lt (position_of h) p) (sq_records q).
#[global] Instance failed_before_dec p q : Decision (failed_before p q).
Proof. apply _. Defined.

Lemma frontier_copy lanes p ps l :
  at_frontier lanes (p :: ps) → Forall (pos_lt p) ps → l ∈ lanes →
  (if at_head p l then lane_head l else None) = copy_at p (ln_sequence l).
Proof.
  intros Hf Hps Hl. destruct (frontier_rest lanes p ps l Hf Hps Hl) as (later & Hr & _ & Hlt & _).
  destruct Hf as [Hse _ _ Hg]. rewrite Forall_forall in Hg. destruct (Hg l Hl) as (given & Hrec & Hgv).
  unfold copy_at. rewrite Hrec, filter_app.
  assert (filter (λ h, position_of h = p) given = []) as ->.
  { apply elem_of_nil_inv. intros h [Hp Hh]%list_elem_of_filter. specialize (Hgv h p Hh ltac:(apply list_elem_of_here)).
    rewrite Hp in Hgv. by destruct (irreflexivity pos_lt p). }
  assert (filter (λ h, position_of h = p) later = []) as Hlater.
  { apply elem_of_nil_inv. intros h [Hp Hh]%list_elem_of_filter. destruct (Hlt h Hh) as [Hlt' _].
    rewrite Hp in Hlt'. by destruct (irreflexivity pos_lt p). }
  rewrite Hr, filter_app, Hlater, app_nil_r. rewrite (settled_head _ _ Hse Hl). destruct (at_head p l) eqn:Hat; [|done].
  apply at_head_rest in Hat as (h & -> & Hp); [|rewrite Forall_forall in Hse; by apply Hse]. cbn [option_list app].
  change (option_list (Some h)) with [h]. by rewrite filter_cons, decide_True by done.
Qed.

Lemma frontier_copies lanes p ps :
  at_frontier lanes (p :: ps) → Forall (pos_lt p) ps →
  snd <$> taken_from 0 p lanes = copies_at (ln_sequence <$> lanes) p.
Proof.
  intros Hf Hps. rewrite taken_from_records. unfold copies_at.
  apply list_omap_ext, Forall2_fmap_r, Forall_Forall2_diag, Forall_forall. intros l Hl. by apply (frontier_copy lanes p ps).
Qed.

Lemma frontier_out lanes p ps l :
  at_frontier lanes (p :: ps) → Forall (pos_lt p) ps → l ∈ lanes → lane_out l = true ↔ failed_before p (ln_sequence l).
Proof.
  intros [Hse Hso Htodo Hg] Hps Hl. rewrite Forall_forall in Hg. destruct (Hg l Hl) as (given & Hrec & Hgv).
  unfold lane_out, failed_before. assert (ln_pending l = false) as -> by (rewrite Forall_forall in Hse; by apply Hse).
  rewrite !andb_true_iff, !bool_decide_eq_true, Hrec. split.
  - intros [[_ Hr] Hs]. split; [done|]. rewrite Hr, app_nil_r. apply Forall_forall. intros h Hh. apply Hgv; [done|apply list_elem_of_here].
  - intros [Hs Hall]. split_and!; [done| |done]. destruct (ln_rest l) as [|h rest] eqn:Hr; [done|]. exfalso.
    apply Forall_app in Hall as [_ Hall]. apply Forall_cons in Hall as [Hlt _].
    assert (position_of h ∈ p :: ps) as [Heq|Hin]%elem_of_cons.
    { apply Htodo. exists l. split; [done|]. rewrite Hr. apply list_elem_of_here. }
    + rewrite Heq in Hlt. by destruct (irreflexivity pos_lt p).
    + rewrite Forall_forall in Hps. specialize (Hps _ Hin). destruct (irreflexivity pos_lt p). by transitivity (position_of h).
Qed.

Lemma frontier_outs lanes p ps : at_frontier lanes (p :: ps) → Forall (pos_lt p) ps →
  ln_sequence <$> filter (λ l, lane_out l = true) lanes = filter (failed_before p) (ln_sequence <$> lanes).
Proof.
  intros Hf Hps. rewrite filter_fmap. f_equal. apply filter_ext_in. intros l Hl. by apply (frontier_out lanes p ps).
Qed.

Lemma frontier_end_out lanes l : at_frontier lanes [] → l ∈ lanes → lane_out l = bool_decide (is_Some (sq_failure (ln_sequence l))).
Proof.
  intros [Hse _ Htodo _] Hl. unfold lane_out. assert (ln_pending l = false) as -> by (rewrite Forall_forall in Hse; by apply Hse).
  rewrite (bool_decide_eq_true_2 (ln_rest l = [])); [done|]. destruct (ln_rest l) as [|h rest] eqn:Hr; [done|].
  destruct (not_elem_of_nil (position_of h)). apply Htodo. exists l. split; [done|]. rewrite Hr. apply list_elem_of_here.
Qed.

Lemma copies_at_some qs p : (∃ q, q ∈ qs ∧ p ∈ position_of <$> sq_records q) → copies_at qs p ≠ [].
Proof.
  intros (q & Hq & (h & -> & Hh)%list_elem_of_fmap) Hn.
  assert (h ∈ filter (λ h', position_of h' = position_of h) (sq_records q)) as Hin by (by apply list_elem_of_filter).
  destruct (filter (λ h', position_of h' = position_of h) (sq_records q)) as [|x l] eqn:Hx; [by apply not_elem_of_nil in Hin|].
  apply (not_elem_of_nil x). rewrite <- Hn. unfold copies_at. apply list_elem_of_omap. exists q. split; [done|].
  unfold copy_at. by rewrite Hx.
Qed.

Lemma frontier_some lanes p ps : at_frontier lanes (p :: ps) → copies_at (ln_sequence <$> lanes) p ≠ [].
Proof.
  intros [_ _ Htodo Hg]. destruct (proj1 (Htodo p)) as (l & Hl & Hp); [apply list_elem_of_here|].
  apply copies_at_some. exists (ln_sequence l). split; [by apply list_elem_of_fmap_2|].
  rewrite Forall_forall in Hg. destruct (Hg l Hl) as (given & -> & _). rewrite fmap_app. apply elem_of_app. by right.
Qed.

Lemma frontier_end_outs lanes : at_frontier lanes [] →
  ln_sequence <$> filter (λ l, lane_out l = true) lanes = filter (λ q, is_Some (sq_failure q)) (ln_sequence <$> lanes).
Proof.
  intros Hf. rewrite filter_fmap. f_equal. apply filter_ext_in. intros l Hl. rewrite (frontier_end_out lanes) by done.
  by rewrite bool_decide_eq_true.
Qed.

(** Every position of the sequences, in order, each once. *)
Definition positions_of (qs : list Sequence) (ps : list Position) : Prop :=
  StronglySorted pos_lt ps ∧ ∀ p, p ∈ ps ↔ ∃ q, q ∈ qs ∧ p ∈ position_of <$> sq_records q.

Lemma frontier_first qs ps :
  Forall (λ q, sorted_records (sq_records q)) qs → positions_of qs ps → at_frontier (settled <$> (first_lane <$> qs)) ps.
Proof.
  intros Hs [_ Hps]. split.
  - by apply Forall_fmap, Forall_fmap, Forall_forall.
  - by apply Forall_fmap, Forall_fmap.
  - intros p. rewrite Hps. split.
    + intros (q & Hq & Hp). exists (settled (first_lane q)). split; [|done]. by apply list_elem_of_fmap_2, list_elem_of_fmap_2.
    + intros (l & (l' & -> & (q & -> & Hq)%list_elem_of_fmap)%list_elem_of_fmap & Hp). by exists q.
  - apply Forall_fmap, Forall_fmap, Forall_forall. intros q _. exists []. split; [done|]. by intros ? ? ?%not_elem_of_nil.
Qed.
End MergeSpec.
