(* ===== verification/InventorySpec.v ===== *)
(** What the inventory reports: every version its sources name, once, in
    order, with the state its copies say it is in; and what that state means. *)

From S2P Require Import Prelude Text Checksum KeyHash VersionId Erasure XorCode Layout Stripe FileSystem ShardFile Record Device Cluster Scrub Frame Handshake Message Node LocalOps Lookup Connection Coordinator Log Get Put Repair Move Inventory ClusterScrub MergeSpec.

Module InventorySpec.
Import Message LocalOps Lookup Connection Coordinator Log Get Put Repair Move Inventory ClusterScrub MergeSpec.

(** ** Trust never panics *)

Lemma for_each_no_panic {A E : Type} (f : A → res E unit) l : (∀ x, f x ≠ Panic) → for_each f l ≠ Panic.
Proof. intros Hf. unfold for_each. induction l as [|x l IH]; cbn; [done|]. destruct (f x) as [[]| |] eqn:Hx; [exact IH|done|by destruct (Hf x)]. Qed.

Lemma ensure_no_panic {E : Type} b (e : E) : ensure b e ≠ Panic.
Proof. by destruct b. Qed.

Lemma trust_no_panic key v copies : copies ≠ [] → trust key v copies ≠ Panic.
Proof.
  intros Hne. unfold trust. destruct (for_each (check_copy_key key v) copies) as [[]| |] eqn:H1; cbn; [|done|].
  2: { exfalso. eapply (for_each_no_panic (check_copy_key key v)); [|exact H1]. intros x. apply ensure_no_panic. }
  destruct (max_revision copies) as [rev|] eqn:Hm; [cbn|by destruct copies].
  destruct (max_revision_spec _ _ Hm) as [_ (c & Hc & Hr)].
  assert (c ∈ filter (λ c, r_revision (lr_record c) = rev) copies) as Hin by (by apply list_elem_of_filter).
  destruct (filter (λ c, r_revision (lr_record c) = rev) copies) as [|c0 current]; [by apply not_elem_of_nil in Hin|].
  cbn [head fmap option_fmap option_map expect mbind res_bind].
  destruct (for_each (check_current (lr_record c0) v rev) (c0 :: current)) as [[]| |] eqn:H2; [done|done|]. exfalso.
  eapply for_each_no_panic; [|exact H2]. intros x. unfold check_current. repeat case_bool_decide; done.
Qed.

Lemma map_res_no_panic {A B E : Type} (f : A → res E B) l : (∀ x, x ∈ l → f x ≠ Panic) → map_res f l ≠ Panic.
Proof.
  induction l as [|x l IH]; intros Hf; cbn [map_res]; [done|].
  destruct (f x) eqn:Hx; cbn; [|done|by destruct (Hf x ltac:(apply list_elem_of_here))].
  destruct (map_res f l) eqn:Hl; cbn; [done|done|]. exfalso. apply IH; [|done]. intros y Hy. by apply Hf, list_elem_of_further.
Qed.

Lemma versions_no_panic key located unread : versions_of_excluding key located unread ≠ Panic.
Proof.
  unfold versions_of_excluding. destruct (trusted_versions key located) as [ts| |] eqn:Ht; cbn; [|done|].
  - apply map_res_no_panic. intros t _. unfold complete_version. by destruct (negb _).
  - exfalso. revert Ht. apply map_res_no_panic. intros [v copies] Hg. rewrite list_elem_of_In, <- in_rev, <- list_elem_of_In in Hg.
    apply trust_no_panic. destruct (group_by_version_ok located) as [_ Hc _]. by destruct (Hc v copies Hg).
Qed.

Lemma classify_total group present unread known : group ≠ [] → ∃ c, classify_group group present unread known = Ok c.
Proof.
  intros Hne. unfold classify_group. destruct group as [|g group]; [done|]. cbn [max_by_revision expect mbind res_bind].
  set (current := fold_left _ _ _). destruct (versions_of_excluding _ _ _) as [[|r [|? ?]]| |] eqn:Hv; eauto.
  exfalso. by eapply versions_no_panic.
Qed.

(** ** The reference *)

Definition pairs (qs : list Sequence) : gmap Z NodeId := list_to_map ((λ q, (sq_device q, sq_owner q)) <$> qs).

Section reference.
Context (qs : list Sequence) (init : gmap Z NodeId).

Definition unread_at (p : Position) : gmap Z NodeId := pairs (filter (failed_before p) qs) ∪ init.
Definition unread_end : gmap Z NodeId := pairs (filter (λ q, is_Some (sq_failure q)) qs) ∪ init.

Definition located (l : list StreamedRecord) : list LocatedRecord := (λ h, mkLocated (st_device h) (st_record h)) <$> l.
Definition has_shard (l : list StreamedRecord) : gmap Z bool := fold_left (λ m h, <[st_device h := st_shard_present h]> m) l ∅.

(** The state of the version at a position, from the copies the sources have
    of it and the devices that were unread when it was reached. *)
Definition classified (p : Position) : res Failure (ObjectState * MetadataRecord * Z) :=
  classify_group (located (copies_at qs p)) (has_shard (copies_at qs p)) (unread_list (unread_at p)).*1 (sq_device <$> qs).
End reference.

Definition object_event (query : InventoryQuery) (c : ObjectState * MetadataRecord * Z) : list InventoryEvent :=
  let '(state, record, out) := c in
  if bool_decide (iq_keys query = Some state)
  then [EvObject (r_key record) (r_version record) state (saturating_sub (total_of record) out) (total_of record)] else [].
Definition progress (checked : Z) : list InventoryEvent :=
  if checked mod PROGRESS_EVERY_VERSIONS =? 0 then [EvProgress checked] else [].

Fixpoint reported (query : InventoryQuery) (checked : Z) (cs : list (ObjectState * MetadataRecord * Z)) : list InventoryEvent :=
  match cs with
  | [] => []
  | c :: cs => let checked := wrap64 (checked + 1) in object_event query c ++ progress checked ++ reported query checked cs
  end.

Definition tally (cs : list (ObjectState * MetadataRecord * Z)) (state : ObjectState) : Z :=
  wrap64 (Z.of_nat (length (filter (λ c : ObjectState * MetadataRecord * Z, c.1.1 = state) cs))).

Definition reference_summary (cs : list (ObjectState * MetadataRecord * Z)) (unread : gmap Z NodeId) (limit : Z) : InventoryEvent :=
  EvSummary (wrap64 (Z.of_nat (length cs))) (tally cs Whole) (tally cs DegradedParity) (tally cs DegradedData) (tally cs Unreadable)
    (tally cs Inconsistent) ((λ x : DeviceId * NodeId, mkUnavailable x.1 x.2) <$> unread_list unread)
    (Z.of_nat (size unread) <? limit).

(** ** The merge is the reference *)

Lemma filter_all {A : Type} (P : A → Prop) `{∀ x, Decision (P x)} (l : list A) : (∀ x, x ∈ l → P x) → filter P l = l.
Proof.
  induction l as [|x l IH]; intros Hp; [done|]. rewrite filter_cons, decide_True by (apply Hp, list_elem_of_here).
  f_equal. apply IH. intros y Hy. by apply Hp, list_elem_of_further.
Qed.

Section merge.
Context {N : Type} `{Network N} `{CoordTexts} `{Xxh3}.
Context (qs : list Sequence) (init : gmap Z NodeId).
Hypothesis distinct : NoDup (sq_device <$> qs).
Implicit Types (s : Peers N).

Definition lanes_unread (lanes : list Lane) : gmap Z NodeId :=
  pairs (ln_sequence <$> filter (λ l, lane_out l = true) lanes) ∪ init.

Definition rep (counts : InventoryCounts) (events : Channel InventoryEvent) (lanes : list Lane) : Merging :=
  mkMerging (lane_source <$> lanes) (lane_head <$> lanes) (lanes_unread lanes) counts events.

Lemma pairs_lookup (l : list Sequence) d o : NoDup (sq_device <$> l) →
  pairs l !! d = Some o ↔ ∃ q, q ∈ l ∧ sq_device q = d ∧ sq_owner q = o.
Proof.
  intros Hnd. unfold pairs. rewrite <- elem_of_list_to_map by (by rewrite <- list_fmap_compose).
  rewrite list_elem_of_fmap. split; [intros (q & [= -> ->] & Hq); eauto|intros (q & Hq & <- & <-); eauto].
Qed.

Lemma distinct_filter lanes : ln_sequence <$> lanes = qs →
  NoDup (sq_device <$> (ln_sequence <$> filter (λ l, lane_out l = true) lanes)).
Proof.
  intros Hq. eapply sublist_NoDup; [|apply fmap_sublist, fmap_sublist, (sublist_filter (λ l, lane_out l = true))]. by rewrite Hq.
Qed.

Lemma pairs_middle l q r : NoDup (sq_device <$> l ++ q :: r) →
  pairs (l ++ q :: r) = <[sq_device q := sq_owner q]> (pairs (l ++ r)).
Proof.
  intros Hnd. unfold pairs.
  rewrite (list_to_map_proper _ ((λ q, (sq_device q, sq_owner q)) <$> q :: l ++ r)); [done| |].
  - by rewrite <- list_fmap_compose.
  - apply fmap_Permutation. by rewrite Permutation_middle.
Qed.

(** Settling a lane that failed adds it to the unread ones. *)
Lemma lanes_unread_settled lanes i l : ln_sequence <$> lanes = qs → lanes !! i = Some l → ln_pending l = true →
  lanes_unread (<[i := settled l]> lanes)
  = if lane_out (settled l) then <[sq_device (ln_sequence l) := sq_owner (ln_sequence l)]> (lanes_unread lanes) else lanes_unread lanes.
Proof.
  intros Hq Hi Hp. assert (lane_out l = false) as Hl by (unfold lane_out; by rewrite Hp).
  assert (ln_sequence <$> <[i := settled l]> lanes = qs) as Hq'.
  { rewrite list_fmap_insert, <- Hq. apply list_insert_id. by rewrite list_lookup_fmap, Hi. }
  pose proof (distinct_filter _ Hq') as Hnd. unfold lanes_unread. clear Hq Hq'.
  apply list_elem_of_split_length in Hi as (before & after & -> & ->).
  revert Hnd. rewrite insert_app_r_alt, Nat.sub_diag by done. cbn [insert list_insert].
  rewrite !filter_app, !filter_cons, Hl, (decide_False (P := false = true)) by done.
  destruct (lane_out (settled l)); [|by rewrite decide_False by done].
  rewrite decide_True, !fmap_app by done. cbn [fmap list_fmap]. intros Hnd. rewrite insert_union_l. f_equal.
  apply pairs_middle. by rewrite fmap_app.
Qed.

Lemma pull_rep counts events lanes i l s : ln_sequence <$> lanes = qs → lanes !! i = Some l → ln_pending l = true →
  pull (rep counts events lanes) i s = Some (Ok (rep counts events (<[i := settled l]> lanes)), s).
Proof.
  intros Hq Hi Hp. unfold pull, rep. rewrite (lanes_unread_settled _ _ _ Hq Hi Hp), lane_out_settled, !list_fmap_insert.
  cbn [mi_sources mi_heads mi_unread mi_counts mi_events]. rewrite list_lookup_fmap, Hi. cbn [fmap option_fmap option_map expect].
  unfold mbind at 1, net_bind at 1, nlift. unfold mbind, net_bind. rewrite lane_next by done.
  destruct (lane_failure l) as [d|] eqn:Hd; [|done]. rewrite bool_decide_eq_true_2 by done.
  destruct (lane_failed _ _ Hp Hd) as (-> & -> & _). rewrite (list_insert_id (lane_source <$> lanes)); [done|].
  by rewrite list_lookup_fmap, Hi.
Qed.

Lemma lanes_unread_at lanes p ps : at_frontier lanes (p :: ps) → Forall (pos_lt p) ps → ln_sequence <$> lanes = qs →
  lanes_unread lanes = unread_at qs init p.
Proof.
  intros Hf Hps Hq. unfold lanes_unread, unread_at. by rewrite (frontier_outs lanes p ps), Hq.
Qed.

Lemma lanes_unread_end lanes : at_frontier lanes [] → ln_sequence <$> lanes = qs → lanes_unread lanes = unread_end qs init.
Proof. intros Hf Hq. unfold lanes_unread, unread_end. by rewrite frontier_end_outs, Hq. Qed.

Lemma taken_rep counts events p lanes :
  mkMerging (lane_source <$> lanes) (without p (lane_head <$> lanes)) (lanes_unread lanes) counts events
  = rep counts events (taken p <$> lanes).
Proof.
  unfold rep. rewrite without_heads. f_equal.
  - rewrite <- list_fmap_compose. apply list_fmap_ext. intros _ l _. symmetry. apply taken_source.
  - unfold lanes_unread. by rewrite taken_outs.
Qed.

Definition summary_of (counts : InventoryCounts) (unread : gmap Z NodeId) (limit : Z) : InventoryEvent :=
  summary_event limit (mkMerging [] [] unread counts (mkChannel [] None)).

(** One version of the merge. *)
Lemma note_version_run query counts sent lanes p ps c :
  at_frontier lanes (p :: ps) → Forall (pos_lt p) ps → ln_sequence <$> lanes = qs → classified qs init p = Ok c →
  note_version query (sq_device <$> qs) (rep counts (mkChannel sent None) lanes) (taken_from 0 p lanes)
  = Ok (true, note_state counts c.1.1,
        mkChannel (sent ++ object_event query c ++ progress (ic_versions_checked (note_state counts c.1.1))) None).
Proof.
  intros Hf Hps Hq Hc. unfold note_version. rewrite group_of_records, present_of_records.
  rewrite (frontier_copies lanes p ps), Hq by done. cbn [mi_unread rep]. rewrite (lanes_unread_at lanes p ps) by done.
  unfold classified, located, has_shard in Hc. rewrite Hc. destruct c as [[state record] out]. cbn [mbind res_bind fst mi_counts mi_events rep].
  unfold object_event, progress, channel_send. cbn [ch_room ch_sent].
  case_bool_decide; destruct (_ =? 0); cbn [andb ch_room ch_sent app]; rewrite ?app_nil_r, <- ?app_assoc; reflexivity.
Qed.

Lemma merge_groups_run query limit ps : ∀ fuel counts sent lanes s,
  (length ps < fuel)%nat → StronglySorted pos_lt ps → at_frontier lanes ps → ln_sequence <$> lanes = qs →
  ∃ cs, Forall2 (λ p c, classified qs init p = Ok c) ps cs
    ∧ merge_groups fuel query (sq_device <$> qs) limit (rep counts (mkChannel sent None) lanes) s
      = Some (Ok (mkChannel (sent ++ reported query (ic_versions_checked counts) cs
          ++ [summary_of (fold_left note_state (cs.*1).*1 counts) (unread_end qs init) limit]) None), s).
Proof.
  induction ps as [|p ps IH]; intros [|fuel] counts sent lanes s Hfuel Hs Hf Hq; cbn [length] in Hfuel; try lia; cbn [merge_groups].
  - exists []. split; [constructor|]. cbn [mi_heads rep]. rewrite frontier_done by done. unfold channel_send. cbn [mi_events ch_room ch_sent rep snd].
    do 4 f_equal. unfold summary_of, summary_event. cbn [mi_counts mi_unread rep]. by rewrite lanes_unread_end.
  - apply StronglySorted_inv in Hs as [Hs Hps]. cbn [mi_heads rep]. rewrite (frontier_smallest lanes p ps) by done.
    destruct (classify_total (located (copies_at qs p)) (has_shard (copies_at qs p)) (unread_list (unread_at qs init p)).*1 (sq_device <$> qs)) as [c Hc].
    { unfold located. intros Hn. apply fmap_nil_inv in Hn. rewrite <- Hq in Hn. by eapply frontier_some. }
    change (classified qs init p = Ok c) in Hc.
    change (matching 0 p (lane_head <$> lanes)) with (taken_from 0 p lanes).
    rewrite (note_version_run query counts sent lanes p ps c) by done. unfold nlift, mbind at 1, net_bind at 1. cbn [negb].
    set (counts' := note_state counts c.1.1). set (sent' := sent ++ _). cbn [mi_sources mi_unread rep].
    rewrite taken_rep. pose proof (pull_taken (rep counts' (mkChannel sent' None)) pull qs (pull_rep counts' (mkChannel sent' None)) p lanes [] s Hq) as Hpull.
    cbn [app length] in Hpull. unfold mbind at 1, net_bind at 1. rewrite Hpull. clear Hpull.
    destruct (IH fuel counts' sent' (advanced p <$> lanes) s) as (cs & Hcs & Hrun); [lia|done|by apply frontier_advance| |].
    { rewrite <- Hq, <- list_fmap_compose. apply list_fmap_ext. intros _ l _. apply advanced_sequence. }
    exists (c :: cs). split; [by constructor|]. rewrite Hrun. unfold sent'. cbn [reported fmap list_fmap fold_left]. fold counts'.
    assert (ic_versions_checked counts' = wrap64 (ic_versions_checked counts + 1)) as -> by (unfold counts'; by destruct counts, c as [[[] ?] ?]).
    by rewrite <- !app_assoc.
Qed.
End merge.

(** ** The counts *)

Definition how_many (states : list ObjectState) (state : ObjectState) : Z := wrap64 (Z.of_nat (length (filter (λ x, x = state) states))).

Lemma wrap64_succ n : wrap64 (wrap64 (Z.of_nat n) + 1) = wrap64 (Z.of_nat (S n)).
Proof. rewrite Nat2Z.inj_succ. unfold wrap64, wrap. by rewrite Zplus_mod_idemp_l. Qed.

Lemma counts_of_states states :
  fold_left note_state states no_counts
  = mkInventoryCounts (wrap64 (Z.of_nat (length states))) (how_many states Whole) (how_many states DegradedParity)
      (how_many states DegradedData) (how_many states Unreadable) (how_many states Inconsistent).
Proof.
  induction states as [|x states IH] using rev_ind; [done|]. rewrite fold_left_app, IH. cbn [fold_left]. unfold how_many.
  rewrite length_app, Nat.add_1_r, !filter_app, !filter_cons, !filter_nil.
  destruct x; cbn [note_state]; rewrite wrap64_succ; repeat (rewrite decide_True by done || rewrite decide_False by done);
    rewrite ?app_nil_r, length_app, Nat.add_1_r, wrap64_succ; done.
Qed.

Lemma tally_how_many cs state : tally cs state = how_many (cs.*1).*1 state.
Proof. unfold tally, how_many. rewrite !filter_fmap, !length_fmap. done. Qed.

(** ** One version *)

Lemma fold_max_revision rest : ∀ c,
  let best := fold_left (λ best c, if r_revision (lr_record c) <? r_revision (lr_record best) then best else c) rest c in
  best ∈ c :: rest ∧ ∀ x, x ∈ c :: rest → r_revision (lr_record x) ≤ r_revision (lr_record best).
Proof.
  induction rest as [|y rest IH]; intros c; cbn [fold_left].
  { split; [apply list_elem_of_here|]. intros x ->%list_elem_of_singleton. lia. }
  destruct (Z.ltb_spec (r_revision (lr_record y)) (r_revision (lr_record c))) as [Hlt|Hge].
  - destruct (IH c) as [Hin Hle]. split; [set_solver|]. intros x Hx. apply elem_of_cons in Hx as [->|[->|Hx]%elem_of_cons].
    + apply Hle, list_elem_of_here.
    + specialize (Hle c ltac:(apply list_elem_of_here)). lia.
    + by apply Hle, list_elem_of_further.
  - destruct (IH y) as [Hin Hle]. split; [set_solver|]. intros x Hx. apply elem_of_cons in Hx as [->|Hx]; [|by apply Hle].
    specialize (Hle y ltac:(apply list_elem_of_here)). lia.
Qed.

Lemma max_by_revision_spec group c :
  max_by_revision group = Some c → c ∈ group ∧ ∀ x, x ∈ group → r_revision (lr_record x) ≤ r_revision (lr_record c).
Proof. destruct group as [|g group]; [done|]. intros [= <-]. apply fold_max_revision. Qed.

(** The one version a group stands for. *)
Lemma one_version key group excluded r : versions_of_excluding key group excluded = Ok [r] →
  (∀ c, c ∈ group → r_version (lr_record c) = r_version r ∧ r_revision (lr_record c) ≤ r_revision r
    ∧ (r_revision (lr_record c) = r_revision r → lr_record c = r))
  ∧ (∃ c, c ∈ group ∧ lr_record c = r)
  ∧ ∀ d, d ∈ sl_device <$> r_shards r → d ∉ excluded → ∃ c, c ∈ group ∧ lr_device c = d ∧ lr_record c = r.
Proof.
  unfold versions_of_excluding. intros Hv. inv_ok Hv. apply map_res_Ok in Hv.
  match goal with H : trusted_versions _ _ = Ok _ |- _ => apply trusted_versions_Ok in H as [_ Hea Hev] end.
  apply Forall2_cons_inv_r in Hv as (t & ? & Ht & Hn & ->). apply Forall2_nil_inv_r in Hn as ->.
  apply complete_version_Ok in Ht as [-> Hmiss]. apply Forall_cons in Hea as [Hea _].
  assert (∀ c, c ∈ group → r_version (lr_record c) = tv_version t) as Hver by (intros c Hc; by apply Hev, list_elem_of_singleton in Hc).
  assert (copies_of (tv_version t) group = group) as Hcop.
  { unfold copies_of. by apply filter_all. }
  rewrite Hcop in Hea. destruct Hea as [_ Hpr Hhi Hag Hmi _]. split_and!; [|done|].
  - intros c Hc. rewrite Forall_forall in Hhi. split_and!; [by apply Hver|by apply Hhi|]. intros Hr. by apply Hag.
  - intros d Hd Hex. destruct (decide (d ∈ mc_device <$> tv_missing t)) as [Hin|Hni]; [by apply Hmiss in Hin|].
    destruct (decide (Exists (λ c, lr_device c = d ∧ lr_record c = tv_record t) group)) as [He|Hne].
    + apply Exists_exists in He. naive_solver.
    + destruct Hni. apply Hmi. split; [done|]. intros (c & Hc & Hdev). apply Hne, Exists_exists. eauto.
Qed.

(** A version every listed device has the record of is found. *)

Lemma push_same v l : ∀ copies, Forall (λ c, r_version (lr_record c) = v) l →
  fold_left (λ m item, push_copy (r_version (lr_record item)) item m) l [(v, copies)] = [(v, copies ++ l)].
Proof.
  induction l as [|c l IH]; intros copies Hl; cbn [fold_left]; [by rewrite app_nil_r|]. apply Forall_cons in Hl as [-> Hl].
  cbn [push_copy]. rewrite lex_compare_refl, IH by done. by rewrite <- app_assoc.
Qed.

Lemma group_same v l : l ≠ [] → Forall (λ c, r_version (lr_record c) = v) l → group_by_version l = [(v, l)].
Proof.
  intros Hne Hl. unfold group_by_version. destruct l as [|c l]; [done|]. apply Forall_cons in Hl as [Hc Hl]. cbn [fold_left push_copy].
  rewrite Hc. by apply (push_same v l [c]).
Qed.

Lemma trust_same record l : l ≠ [] → Forall (λ c, lr_record c = record ∧ is_Some (shard_on record (lr_device c))) l →
  trust (r_key record) (r_version record) l = Ok (mkTrusted record (missing_copies record l l) (length l)).
Proof.
  intros Hne Hl. unfold trust. assert (∀ c, c ∈ l → lr_record c = record) as Hrec by (rewrite Forall_forall in Hl; intros c Hc; by apply Hl).
  rewrite (proj2 (for_each_Ok _ _)).
  2: { apply Forall_forall. intros c Hc. unfold check_copy_key. by rewrite (Hrec c Hc), bool_decide_eq_true_2. }
  destruct (max_revision l) as [rev|] eqn:Hm; [|by destruct l]. destruct (max_revision_spec _ _ Hm) as [_ (c & Hc & Hr)].
  rewrite (Hrec c Hc) in Hr. subst rev. cbn [expect mbind res_bind].
  rewrite (filter_all _ l) by (intros x Hx; by rewrite (Hrec x Hx)).
  destruct l as [|c0 l]; [done|]. cbn [head fmap option_fmap option_map expect mbind res_bind].
  rewrite (Hrec c0) by apply list_elem_of_here. rewrite (proj2 (for_each_Ok _ _)).
  - cbn [mbind res_bind]. do 2 f_equal. rewrite filter_all; [done|]. intros x Hx. left. by rewrite (Hrec x Hx).
  - eapply Forall_impl; [exact Hl|]. intros x [Hx Hs]. unfold check_current. rewrite Hx, !bool_decide_eq_true_2 by done. done.
Qed.

Lemma versions_of_listed `{Sha256} record excluded : record_ok record →
  versions_of_excluding (r_key record) ((λ sh, mkLocated (sl_device sh) record) <$> r_shards record) excluded = Ok [record].
Proof.
  intros Hok. set (l := (λ sh, mkLocated (sl_device sh) record) <$> r_shards record).
  assert (l ≠ []) as Hne.
  { intros Hn. apply fmap_nil_inv in Hn. pose proof (ro_indices _ Hok) as Hix. rewrite Hn in Hix. cbn in Hix.
    apply Permutation_nil_l in Hix. pose proof (ro_scheme _ Hok) as Hsc. unfold scheme_ok in Hsc. cbn in Hsc.
    apply (f_equal length) in Hix. unfold shard_indices in Hix. rewrite length_indices_upto in Hix. unfold total_shards in Hix. cbn in Hix. lia. }
  unfold versions_of_excluding, trusted_versions. rewrite (group_same (r_version record)); [|done|].
  2: { unfold l. by apply Forall_fmap, Forall_forall. }
  cbn [rev app map_res fst snd]. rewrite trust_same; [|done|].
  2: { unfold l. apply Forall_fmap, Forall_forall. intros [i d] Hsh. split; [done|]. cbn. unfold shard_on. exists i.
       apply find_shard_Some; [apply (ro_devices _ Hok)|done]. }
  cbn [mbind res_bind map_res]. assert (missing_copies record l l = []) as ->; [|by unfold complete_version].
  unfold missing_copies. replace (filter _ (r_shards record)) with (@nil ShardLocation); [done|]. symmetry. apply elem_of_nil_inv.
  intros sh [Hni Hsh]%list_elem_of_filter. apply Hni. unfold l. rewrite <- list_fmap_compose. by apply (list_elem_of_fmap_2 sl_device).
Qed.

Lemma has_shard_absent record (l : list ShardLocation) d : d ∈ sl_device <$> l →
  has_shard ((λ sh, mkStreamed (sl_device sh) record false) <$> l) !! d = Some false.
Proof.
  unfold has_shard. intros Hd. enough (∀ m : gmap Z bool, (d ∈ sl_device <$> l ∨ m !! d = Some false) →
    fold_left (λ m h, <[st_device h := st_shard_present h]> m) ((λ sh, mkStreamed (sl_device sh) record false) <$> l) m !! d = Some false) as Hgo.
  { apply Hgo. by left. }
  clear Hd. induction l as [|sh l IH]; intros m Hd; cbn; [destruct Hd as [?%not_elem_of_nil|?]; done|]. apply IH.
  destruct (decide (sl_device sh = d)) as [->|Hne]; [right; apply lookup_insert_eq|]. rewrite lookup_insert_ne by done.
  destruct Hd as [Hd|?]; [|by right]. left. cbn in Hd. by apply elem_of_cons in Hd as [?|?].
Qed.

(** ** Properties *)

Section properties.
Context {N : Type} `{Network N} `{CoordTexts} `{Xxh3} `{Sha256}.
Implicit Types (s : Peers N).


(** A shard that can be read: its device is read, known, and has the file. *)
Definition shard_there (present : gmap Z bool) (unread known : list DeviceId) (sh : ShardLocation) : Prop :=
  sl_device sh ∉ unread ∧ sl_device sh ∈ known ∧ present !! sl_device sh ≠ Some false.
#[local] Instance shard_there_dec present unread known sh : Decision (shard_there present unread known sh).
Proof. apply _. Defined.

(** What a state means: unless the copies are inconsistent, the version
    is judged by a record that no copy is newer than and that every device of
    a shard counted as there has; it is unreadable exactly when fewer than k
    shards are there, whole exactly when all are, and missing data, not only
    parity, exactly when a data shard is out and k are there. *)
Theorem classify_group_meaning group present unread known state record out :
  classify_group group present unread known = Ok (state, record, out) → state ≠ Inconsistent → record_ok record →
  let there := filter (shard_there present unread known) (r_shards record) in
  let n := Z.of_nat (length there) in
  (∀ c, c ∈ group → r_version (lr_record c) = r_version record ∧ r_revision (lr_record c) ≤ r_revision record)
  ∧ (∀ sh, sh ∈ there → ∃ c, c ∈ group ∧ lr_device c = sl_device sh ∧ lr_record c = record)
  ∧ out = r_k record + r_m record - n
  ∧ (state = Unreadable ↔ n < r_k record)
  ∧ (state = Whole ↔ n = r_k record + r_m record)
  ∧ (state = DegradedData ↔ r_k record ≤ n ∧ ∃ sh, sh ∈ r_shards record ∧ sh ∉ there ∧ sl_index sh < r_k record).
Proof.
  intros Hc Hst Hok there n. unfold classify_group in Hc. destruct (max_by_revision group) as [current|] eqn:Hm; [|done].
  cbn [expect mbind res_bind] in Hc. apply max_by_revision_spec in Hm as [Hcin Hmax].
  set (excluded := unread ++ _) in Hc. destruct (versions_of_excluding _ _ _) as [[|r [|? ?]]| |] eqn:Hv; try by simplify_eq.
  injection Hc as <- -> <-. apply one_version in Hv as (Hall & (c & Hc & Hr) & Hlist).
  assert (lr_record current = record) as Hcur.
  { destruct (Hall current Hcin) as (_ & Hle & Heq). apply Heq. specialize (Hmax c Hc). rewrite Hr in Hmax. lia. }
  assert (∀ sh, sh ∈ r_shards record → (sl_device sh ∈ excluded ∨ present !! sl_device sh = Some false) ↔ ¬ shard_there present unread known sh) as Hout.
  { intros sh Hsh. unfold excluded, lost_devices, shard_there. rewrite Hcur, elem_of_app, list_elem_of_filter.
    assert (sl_device sh ∈ sl_device <$> r_shards record) by (by apply list_elem_of_fmap_2).
    destruct (decide (sl_device sh ∈ unread)), (decide (sl_device sh ∈ known)), (decide (present !! sl_device sh = Some false)); tauto. }
  assert (shards_out record excluded present = sl_index <$> filter (λ sh, ¬ shard_there present unread known sh) (r_shards record)) as Hso.
  { unfold shards_out. f_equal. by apply filter_ext_in. }
  assert (Z.of_nat (length (shards_out record excluded present)) = r_k record + r_m record - n) as Hlen.
  { rewrite Hso, length_fmap. destruct Hok as [_ _ _ _ Hsc _ Hix _].
    assert (Z.of_nat (length (r_shards record)) = r_k record + r_m record) as <-.
    { rewrite <- (length_fmap sl_index), Hix. unfold shard_indices. rewrite length_indices_upto. unfold total_shards. cbn. unfold scheme_ok in Hsc. cbn in Hsc. lia. }
    unfold n, there. clear. induction (r_shards record) as [|x l IH]; [done|]. rewrite !filter_cons.
    destruct (decide (shard_there present unread known x)); [rewrite decide_False by tauto|rewrite decide_True by done]; cbn [length]; lia. }
  pose proof (ro_scheme _ Hok) as Hsc. unfold scheme_ok, MAX_DATA_SHARDS, MAX_PARITY_SHARDS in Hsc. cbn in Hsc.
  assert (0 ≤ n) by lia. split_and!.
  - intros x Hx. by destruct (Hall x Hx) as (? & ? & _).
  - intros sh [Hth Hsh]%list_elem_of_filter. apply Hlist; [by apply list_elem_of_fmap_2|]. intros Hex.
    apply (proj1 (Hout sh Hsh)); [by left|done].
  - rewrite Hlen. unfold wrap. apply Z.mod_small. lia.
  - unfold object_state. rewrite Hlen. case_bool_decide as Hn; [rewrite Hn in Hlen; cbn in Hlen|].
    + split; [done|lia].
    + destruct (Z.ltb_spec (r_m record) (r_k record + r_m record - n)); [split; [lia|done]|].
      destruct (existsb _ _); split; try done; lia.
  - unfold object_state. rewrite Hlen. case_bool_decide as Hn; [rewrite Hn in Hlen; cbn in Hlen; split; [lia|done]|].
    assert (n ≠ r_k record + r_m record) by (intros Hn'; apply Hn; destruct (shards_out _ _ _); [done|cbn in Hlen; lia]).
    destruct (_ <? _); [done|]. destruct (existsb _ _); done.
  - unfold object_state. rewrite Hlen.
    assert ((∃ sh, sh ∈ r_shards record ∧ sh ∉ there ∧ sl_index sh < r_k record) ↔ existsb (λ i, i <? r_k record) (shards_out record excluded present) = true) as ->.
    { rewrite Hso, existsb_exists. split.
      - intros (sh & Hsh & Hni & Hlt). exists (sl_index sh). rewrite <- list_elem_of_In, Z.ltb_lt. split; [|done].
        apply list_elem_of_fmap_2, list_elem_of_filter. split; [|done]. intros Hth. apply Hni. by apply list_elem_of_filter.
      - intros (i & Hi & Hlt%Z.ltb_lt). rewrite <- list_elem_of_In in Hi. apply list_elem_of_fmap in Hi as (sh & -> & [Hth Hsh]%list_elem_of_filter).
        exists sh. split_and!; [done| |done]. by intros [? _]%list_elem_of_filter. }
    case_bool_decide as Hn; [rewrite Hn; cbn; split; [done|by intros [_ ?]]|].
    destruct (Z.ltb_spec (r_m record) (r_k record + r_m record - n)); [split; [done|lia]|].
    destruct (existsb _ _); split; try done; [split; [lia|done]|by intros [_ ?]].
Qed.

(** An empty object, whose shards have no files, is counted unreadable,
    with every shard out, though every device it is on was read and has its
    record; and the cross-check counts none of its shards as available, while
    it finds nothing wrong. *)
Theorem empty_object_unreadable (record : MetadataRecord) unread known :
  record_ok record → r_size record = 0 →
  (∀ d, d ∈ sl_device <$> r_shards record → d ∈ known ∧ d ∉ unread) →
  let group := (λ sh, mkLocated (sl_device sh) record) <$> r_shards record in
  let present := has_shard ((λ sh, mkStreamed (sl_device sh) record false) <$> r_shards record) in
  classify_group group present unread known = Ok (Unreadable, record, r_k record + r_m record)
  ∧ check_group group present unread known ∅ = Ok ([], Some (mkShardCount (r_k record + r_m record) 0 (r_k record))).
Proof.
  intros Hok Hz Hdev group present.
  assert (∀ lost, versions_of_excluding (r_key record) group lost = Ok [record]) as Hv by (intros; by apply versions_of_listed).
  assert (∀ sh, sh ∈ r_shards record → present !! sl_device sh = Some false) as Hpr.
  { intros sh Hsh. by apply has_shard_absent, list_elem_of_fmap_2. }
  destruct Hok as [_ _ _ _ Hsc _ Hix _]. unfold scheme_ok, MAX_DATA_SHARDS, MAX_PARITY_SHARDS in Hsc. cbn in Hsc.
  assert (Z.of_nat (length (r_shards record)) = r_k record + r_m record) as Hlen.
  { rewrite <- (length_fmap sl_index), Hix. unfold shard_indices. rewrite length_indices_upto. unfold total_shards. cbn. lia. }
  assert (max_by_revision group = None ∨ ∃ c, max_by_revision group = Some c ∧ lr_record c = record) as [Hm|(c & Hm & Hc)].
  { destruct (max_by_revision group) as [c|] eqn:Hm; [|by left]. right. exists c. split; [done|].
    apply max_by_revision_spec in Hm as [Hin _]. by apply list_elem_of_fmap in Hin as (? & -> & _). }
  { unfold group in Hm. destruct (r_shards record); [cbn in Hlen; lia|done]. }
  split.
  - unfold classify_group. rewrite Hm. cbn [expect mbind res_bind]. rewrite Hc, Hv. unfold shards_out.
    rewrite filter_all by (intros sh Hsh; right; by apply Hpr). rewrite length_fmap, Hlen. unfold wrap. rewrite Z.mod_small by lia.
    unfold object_state. rewrite length_fmap, Hlen, bool_decide_eq_false_2 by (intros Hn; apply fmap_nil_inv in Hn; rewrite Hn in Hlen; cbn in Hlen; lia).
    by rewrite (proj2 (Z.ltb_lt _ _)) by lia.
  - unfold check_group. destruct group as [|g group'] eqn:Hg; [done|].
    assert (lr_record g = record) as Hgr.
    { assert (g ∈ group) as Hin by (rewrite Hg; apply list_elem_of_here). by apply list_elem_of_fmap in Hin as (? & -> & _). }
    rewrite Hgr, Hv, <- Hg. cbn [mbind list_bind].
    assert (lost_shards group unread known = []) as ->.
    { apply elem_of_nil_inv. intros d [(Hk & Hu & _) Hd]%list_elem_of_filter. apply list_elem_of_bind in Hd as (x & Hd & Hx).
      apply list_elem_of_fmap in Hx as (sh & -> & Hsh). by destruct (Hdev d Hd). }
    assert (stale_findings (r_key record) group record = []) as ->.
    { unfold stale_findings, stale_copies. replace (filter _ group) with (@nil LocatedRecord); [done|]. symmetry. apply elem_of_nil_inv.
      intros x [Hlt Hx]%list_elem_of_filter. apply list_elem_of_fmap in Hx as (? & -> & _). cbn in Hlt. lia. }
    assert (omap (shard_finding (r_key record) record [] present) (r_shards record) = []) as ->.
    { apply elem_of_nil_inv. intros f ([i d] & Hsh & Hf)%list_elem_of_omap. unfold shard_finding in Hf. rewrite Hz in Hf.
      rewrite bool_decide_eq_false_2 in Hf by apply not_elem_of_nil. done. }
    cbn [app head fmap option_fmap option_map]. unfold count_shards, unavailable_shards, total_of, saturating_sub.
    rewrite filter_all by (intros sh Hsh; right; right; left; by apply Hpr). rewrite Hlen. unfold wrap. rewrite Z.mod_small by lia.
    by rewrite Z.sub_diag.
Qed.
End properties.

(** ** Witnesses: two versions of a key on three devices, the third of which
    fails after the first *)

Section witnesses.
#[local] Existing Instance poly_xxh3.
#[local] Existing Instance poly_sha256.
#[local] Existing Instance decimal_uuid.
#[local] Instance bare_texts : CoordTexts := {| BUILD := []; ctext := λ _, [] |}.

(** A network nothing can be reached on. *)
#[global, refine] Instance dead : Network unit := {|
  dial n _ _ _ := (false, n); transmit n _ _ := (Some WireIo, n); deliver n _ := (inl WireIo, n); completion _ l := l |}.
Proof. done. Defined.
Definition peers9 : Peers unit := mkPeers tt [] [].

Definition earlier9 : MetadataRecord := {|
  r_format_version := 1; r_system := SYSTEM_NAME; r_bucket := lit "default";
  r_key := lit "a"; r_key_hash := hash_key (as_bytes (lit "a")); r_version := replicate 16 6;
  r_created := 0; r_size := 0; r_object_checksum := 77; r_k := 2; r_m := 1; r_block_size := 4096;
  r_shards := [mkLocation 0 101; mkLocation 1 102; mkLocation 2 103];
  r_revision := 0; r_content_type := None; r_user_metadata := [] |}.

Definition sequence9 (device : Z) (present : bool) (later : bool) : Sequence :=
  mkSequence (device - 100) device
    (mkStreamed device earlier9 present :: if later then [mkStreamed device (record5 3) true] else [])
    (if later then None else Some (ErrorDetail_new DeviceUnavailable [])).
Definition sequences9 : list Sequence := [sequence9 101 true true; sequence9 102 true true; sequence9 103 true false].

Definition at9 (r : MetadataRecord) : Position := (r_key_hash r, r_version r).
Definition positions9 : list Position := [at9 earlier9; at9 (record5 3)].

Lemma position_of_streamed d r b : position_of (mkStreamed d r b) = at9 r.
Proof. done. Qed.

Lemma positions9_ok : positions_of sequences9 positions9.
Proof.
  split; [by repeat constructor|]. intros p. unfold positions9, sequences9. split.
  - intros [->|[->|?%not_elem_of_nil]%elem_of_cons]%elem_of_cons; [| |done];
      exists (sequence9 101 true true); (split; [apply list_elem_of_here|]); [apply list_elem_of_here|apply list_elem_of_further, list_elem_of_here].
  - intros (q & Hq & Hp). rewrite !elem_of_cons in Hq.
    destruct Hq as [->|[->|[->|Hq]]]; [..|by apply not_elem_of_nil in Hq]; cbn [sequence9 sq_records fmap list_fmap] in Hp;
      rewrite !position_of_streamed in Hp; rewrite ?elem_of_cons in Hp; rewrite !elem_of_cons; tauto.
Defined.

Lemma sequences9_sorted : Forall (λ q, sorted_records (sq_records q)) sequences9.
Proof. by repeat constructor. Defined.


Lemma record5_ok rev : is_u64 rev → record_ok (record5 rev).
Proof. intros Hr. apply validate_sound; [by apply record5_typed|]. by vm_compute. Defined.

Definition group9 : list LocatedRecord := [mkLocated 101 (record5 3); mkLocated 102 (record5 3)].

Lemma classify_group_meaning_witness :
  classify_group group9 ∅ [103] [101; 102; 103] = Ok (DegradedParity, record5 3, 1)
  ∧ (DegradedParity = Unreadable ↔ Z.of_nat (length (filter (shard_there ∅ [103] [101; 102; 103]) (r_shards (record5 3)))) < 2).
Proof.
  assert (classify_group group9 ∅ [103] [101; 102; 103] = Ok (DegradedParity, record5 3, 1)) as Hc by by vm_compute.
  split; [exact Hc|]. apply (classify_group_meaning group9 ∅ [103] [101; 102; 103] DegradedParity (record5 3) 1 Hc); [done|].
  apply record5_ok. split; lia.
Defined.

Lemma earlier9_ok : record_ok earlier9.
Proof.
  apply validate_sound; [|by vm_compute]. split_and!; try done; try (split; vm_compute; congruence).
  - split; [reflexivity|apply Forall_replicate; split; lia].
  - apply poly_sha_ok.
  - repeat (apply List.Forall_cons; [split; split; cbn; lia|]). apply List.Forall_nil.
Defined.

Lemma empty_object_unreadable_witness :
  (classify_group [mkLocated 101 earlier9; mkLocated 102 earlier9; mkLocated 103 earlier9]
     (has_shard [mkStreamed 101 earlier9 false; mkStreamed 102 earlier9 false; mkStreamed 103 earlier9 false]) [] [101; 102; 103])
  = Ok (Unreadable, earlier9, 3).
Proof.
  apply (empty_object_unreadable earlier9 [] [101; 102; 103] earlier9_ok eq_refl).
  intros d Hd. split; [exact Hd|apply not_elem_of_nil].
Defined.
End witnesses.
End InventorySpec.
