(* ===== verification/ClusterScrubSpec.v ===== *)
(** What the cross-node checks of a scrub find: every version any device has,
    checked once, and nothing else. *)

From S2P Require Import Prelude Text Checksum KeyHash VersionId Erasure XorCode Layout Stripe FileSystem ShardFile Record Device Cluster Scrub Frame Handshake Message Node LocalOps Lookup Connection Coordinator Log Get Put Repair Move Inventory ClusterScrub MergeSpec InventorySpec.

Module ClusterScrubSpec.
Import Message LocalOps Lookup Connection Coordinator Log Get Put Repair Move Inventory ClusterScrub MergeSpec InventorySpec.

(** ** The reference *)

Section reference.
Context `{CoordTexts} (qs : list Sequence) (damaged : gset (VersionId * Z)).

Definition unread_set (p : Position) : gset Z := list_to_set (sq_device <$> filter (failed_before p) qs).

(** The findings about the version at a position, and its shards. *)
Definition checked_at (p : Position) : res Failure (list ClusterFinding * option ShardCount) :=
  check_group (located (copies_at qs p)) (has_shard (copies_at qs p)) (elements (unread_set p)) (sq_device <$> qs) damaged.
End reference.

Definition add_finding (o : CrossCheckOutcome) (f : ClusterFinding) : CrossCheckOutcome :=
  mkOutcome (S (oc_findings o)) (set_insert (finding_key f) (oc_damaged_keys o)) (oc_versions_checked o) (oc_stopped_after o)
    (oc_exposure o) (oc_availability o) (oc_damaged_availability o).

Definition after_version (group : list LocatedRecord) (unread : gset Z) (found : list ClusterFinding * option ShardCount)
    (o : CrossCheckOutcome) : CrossCheckOutcome :=
  one_checked (fold_left add_finding found.1 (note_shards (expose o group unread) (r_key ∘ lr_record <$> head group) found.2)).

Lemma send_findings_all findings : ∀ o sent,
  send_findings o (mkChannel sent None) findings
  = (true, fold_left add_finding findings o, mkChannel (sent ++ (EvClusterFinding <$> findings)) None).
Proof.
  induction findings as [|f findings IH]; intros o sent; cbn [send_findings fold_left fmap list_fmap]; [by rewrite app_nil_r|].
  unfold channel_send. cbn [ch_room ch_sent]. rewrite IH. by rewrite <- app_assoc.
Qed.

Definition cross_progress (checked : Z) (p : Position) : list ScrubEvent :=
  if checked mod PROGRESS_EVERY_VERSIONS =? 0 then [CrossCheckProgress checked p.1] else [].

(** The events of a merge, and what it comes to. *)
Fixpoint checked_events (checked : Z) (l : list (Position * (list ClusterFinding * option ShardCount))) : list ScrubEvent :=
  match l with
  | [] => []
  | (p, found) :: l =>
      let checked := wrap64 (checked + 1) in
      (EvClusterFinding <$> found.1) ++ cross_progress checked p ++ checked_events checked l
  end.

Definition checked_outcome (qs : list Sequence) (l : list (Position * (list ClusterFinding * option ShardCount))) (o : CrossCheckOutcome)
    : CrossCheckOutcome :=
  fold_left (λ o x, after_version (located (copies_at qs x.1)) (unread_set qs x.1) x.2 o) l o.

(** What one version changes. *)

Definition bucket_of (f : list ClusterFinding * option ShardCount) : option Bucket :=
  (λ s, (sc_total s, sc_available s, sc_k s)) <$> f.2.

Lemma set_insert_keys k l key : key ∈ (set_insert k l).*1 ↔ key = k ∨ key ∈ l.*1.
Proof.
  unfold set_insert. induction l as [|[k' []] l IH]; cbn [btree_insert]; [set_solver|].
  destruct (lex_compare k k') eqn:Hc; cbn [fmap list_fmap fst]; rewrite ?elem_of_cons.
  - apply lex_compare_eq in Hc as ->. naive_solver.
  - naive_solver.
  - rewrite IH. naive_solver.
Qed.

Lemma add_findings_spec fs : ∀ o, let o' := fold_left add_finding fs o in
  oc_versions_checked o' = oc_versions_checked o ∧ oc_stopped_after o' = oc_stopped_after o
  ∧ oc_availability o' = oc_availability o ∧ oc_findings o' = (oc_findings o + length fs)%nat
  ∧ ∀ key, key ∈ (oc_damaged_keys o').*1 ↔ key ∈ (oc_damaged_keys o).*1 ∨ ∃ f, f ∈ fs ∧ finding_key f = key.
Proof.
  induction fs as [|f fs IH]; intros o; cbn [fold_left length].
  { split_and!; [done|done|done|lia|]. intros key. split; [by left|]. intros [?|(? & ?%not_elem_of_nil & _)]; done. }
  destruct (IH (add_finding o f)) as (Hv & Hst & Ha & Hn & Hk). cbn zeta in *. split_and!; [done..|rewrite Hn; cbn; lia|].
  intros key. rewrite Hk. cbn [add_finding oc_damaged_keys]. rewrite set_insert_keys. setoid_rewrite elem_of_cons. naive_solver.
Qed.

Lemma after_version_spec group unread found o : let o' := after_version group unread found o in
  oc_versions_checked o' = wrap64 (oc_versions_checked o + 1) ∧ oc_stopped_after o' = oc_stopped_after o
  ∧ oc_availability o' = match bucket_of found with Some b => count_in (oc_availability o) b | None => oc_availability o end
  ∧ oc_findings o' = (oc_findings o + length found.1)%nat
  ∧ ∀ key, key ∈ (oc_damaged_keys o').*1 ↔ key ∈ (oc_damaged_keys o).*1 ∨ ∃ f, f ∈ found.1 ∧ finding_key f = key.
Proof.
  cbn zeta. unfold after_version, bucket_of. destruct (add_findings_spec found.1 (note_shards (expose o group unread) (r_key ∘ lr_record <$> head group) found.2)) as (Hv & Hst & Ha & Hn & Hk).
  unfold one_checked. cbn [oc_versions_checked oc_stopped_after oc_availability oc_findings oc_damaged_keys].
  setoid_rewrite Hk. rewrite Hv, Hst, Ha, Hn. clear.
  unfold note_shards, expose. destruct (max_by_revision group), found.2; done.
Qed.

Lemma checked_outcome_spec qs l : let o := checked_outcome qs l no_outcome in
  oc_versions_checked o = wrap64 (Z.of_nat (length l)) ∧ oc_stopped_after o = None
  ∧ oc_findings o = length (concat (l.*2).*1)
  ∧ (∀ key, key ∈ (oc_damaged_keys o).*1 ↔ ∃ f, f ∈ concat (l.*2).*1 ∧ finding_key f = key)
  ∧ ∀ b, default 0 (oc_availability o !! b) = wrap64 (Z.of_nat (length (filter (λ f, bucket_of f = Some b) l.*2))).
Proof.
  cbn zeta. unfold checked_outcome. induction l as [|[p f] l IH] using rev_ind.
  { split_and!; try done. intros key. split; [by intros ?%not_elem_of_nil|by intros (? & ?%not_elem_of_nil & _)]. }
  rewrite fold_left_app. cbn [fold_left fst snd]. set (o := fold_left _ l no_outcome) in *.
  destruct (after_version_spec (located (copies_at qs p)) (unread_set qs p) f o) as (Hv & Hst & Ha & Hn & Hk).
  destruct IH as (IHv & IHst & IHn & IHk & IHa). rewrite !fmap_app, concat_app, !length_app. cbn [fmap list_fmap concat snd length fst].
  rewrite app_nil_r, Hv, Hst, Ha, Hn, IHv, IHn, Nat.add_1_r, wrap64_succ. split_and!; try done.
  - intros key. rewrite Hk, IHk. setoid_rewrite elem_of_app. naive_solver.
  - intros b. rewrite filter_app, filter_cons, filter_nil, length_app. destruct (bucket_of f) as [b'|] eqn:Hb.
    + unfold count_in. destruct (decide (b' = b)) as [->|Hne].
      * rewrite lookup_insert_eq, decide_True by done. cbn [default length]. rewrite IHa, Nat.add_1_r. apply wrap64_succ.
      * rewrite lookup_insert_ne, decide_False by congruence. cbn [length]. by rewrite Nat.add_0_r.
    + rewrite decide_False by done. cbn [length]. by rewrite Nat.add_0_r.
Qed.

Lemma check_total `{CoordTexts} group present unread known damaged : ∃ c, check_group group present unread known damaged = Ok c.
Proof.
  unfold check_group. destruct group as [|g group]; [eauto|]. cbn zeta. destruct (versions_of_excluding _ _ _) eqn:Hv; eauto.
  exfalso. by eapply versions_no_panic.
Qed.

(** ** The merge is the reference *)

Section merge.
Context {N : Type} `{Network N} `{CoordTexts} `{Xxh3}.
Context (qs : list Sequence) (damaged : gset (VersionId * Z)).
Hypothesis unavailable : ∀ q d, q ∈ qs → sq_failure q = Some d → e_code d = DeviceUnavailable.
Implicit Types (s : Peers N).

Definition out_set (lanes : list Lane) : gset Z := list_to_set (sq_device <$> (ln_sequence <$> filter (λ l, lane_out l = true) lanes)).

Definition crep (o : CrossCheckOutcome) (events : Channel ScrubEvent) (lanes : list Lane) : Checking :=
  mkChecking (lane_source <$> lanes) (lane_head <$> lanes) (out_set lanes) o events.

Lemma out_set_settled lanes i l : lanes !! i = Some l → ln_pending l = true →
  out_set (<[i := settled l]> lanes) = if lane_out (settled l) then {[sq_device (ln_sequence l)]} ∪ out_set lanes else out_set lanes.
Proof.
  intros Hi Hp. assert (lane_out l = false) as Hl by (unfold lane_out; by rewrite Hp). unfold out_set.
  apply list_elem_of_split_length in Hi as (before & after & -> & ->).
  rewrite insert_app_r_alt, Nat.sub_diag by done. cbn [insert list_insert].
  rewrite !filter_app, !filter_cons, Hl, (decide_False (P := false = true)) by done.
  destruct (lane_out (settled l)); [|by rewrite decide_False by done].
  rewrite decide_True, !fmap_app by done. cbn [fmap list_fmap]. rewrite !list_to_set_app_L. cbn [list_to_set]. set_solver.
Qed.

Lemma check_pull_rep o events lanes i l s : ln_sequence <$> lanes = qs → lanes !! i = Some l → ln_pending l = true →
  check_pull (crep o events lanes) i s = Some (Ok (crep o events (<[i := settled l]> lanes)), s).
Proof.
  intros Hq Hi Hp. unfold check_pull, crep. rewrite (out_set_settled _ _ _ Hi Hp), lane_out_settled, !list_fmap_insert.
  cbn [ck_sources ck_heads ck_unread ck_outcome ck_events]. rewrite list_lookup_fmap, Hi. cbn [fmap option_fmap option_map expect].
  unfold mbind at 1, net_bind at 1, nlift. unfold mbind, net_bind. rewrite lane_next by done.
  destruct (lane_failure l) as [d|] eqn:Hd; [|done].
  destruct (lane_failed _ _ Hp Hd) as (-> & -> & Hf). rewrite (bool_decide_eq_true_2 (is_Some (Some d))), (bool_decide_eq_true_2 (e_code d = _)); [|..|done].
  - rewrite (list_insert_id (lane_source <$> lanes)); [done|]. by rewrite list_lookup_fmap, Hi.
  - eapply unavailable; [|exact Hf]. rewrite <- Hq. by eapply list_elem_of_fmap_2, list_elem_of_lookup_2.
Qed.

Lemma taken_crep o events p lanes :
  mkChecking (lane_source <$> lanes) (without p (lane_head <$> lanes)) (out_set lanes) o events = crep o events (taken p <$> lanes).
Proof.
  unfold crep. rewrite without_heads. f_equal.
  - rewrite <- list_fmap_compose. apply list_fmap_ext. intros _ l _. symmetry. apply taken_source.
  - unfold out_set. by rewrite taken_outs.
Qed.

Lemma out_set_at lanes p ps : at_frontier lanes (p :: ps) → Forall (pos_lt p) ps → ln_sequence <$> lanes = qs →
  out_set lanes = unread_set qs p.
Proof.
  intros Hf Hps Hq. unfold out_set, unread_set. by rewrite (frontier_outs lanes p ps), Hq.
Qed.

Lemma check_version_run o sent lanes p ps found :
  at_frontier lanes (p :: ps) → Forall (pos_lt p) ps → ln_sequence <$> lanes = qs → checked_at qs damaged p = Ok found →
  let o' := after_version (located (copies_at qs p)) (unread_set qs p) found o in
  check_version (sq_device <$> qs) damaged (crep o (mkChannel sent None) lanes) p (taken_from 0 p lanes)
  = Ok (true, o', mkChannel (sent ++ (EvClusterFinding <$> found.1) ++ cross_progress (oc_versions_checked o') p) None).
Proof.
  intros Hf Hps Hq Hc o'. unfold check_version. rewrite group_of_records, present_of_records.
  rewrite (frontier_copies lanes p ps), Hq by done. cbn [ck_unread ck_outcome ck_events crep]. rewrite (out_set_at lanes p ps) by done.
  change ((λ h, mkLocated (st_device h) (st_record h)) <$> copies_at qs p) with (located (copies_at qs p)).
  change (fold_left (λ m h, <[st_device h := st_shard_present h]> m) (copies_at qs p) ∅) with (has_shard (copies_at qs p)).
  unfold checked_at in Hc. rewrite Hc. destruct found as [findings shards]. cbn [mbind res_bind]. rewrite send_findings_all. cbn [negb].
  unfold cross_progress, channel_send. cbn [ch_room ch_sent].
  change (one_checked _) with o' at 1. fold o'. destruct (_ =? 0); by rewrite ?app_nil_r, <- ?app_assoc.
Qed.

Lemma check_groups_run ps : ∀ fuel o sent lanes s,
  (length ps < fuel)%nat → StronglySorted pos_lt ps → at_frontier lanes ps → ln_sequence <$> lanes = qs →
  ∃ found, Forall2 (λ p f, checked_at qs damaged p = Ok f) ps found
    ∧ let o' := checked_outcome qs (zip ps found) o in
      check_groups fuel (sq_device <$> qs) damaged (crep o (mkChannel sent None) lanes) s
      = Some (Ok (o', send_exposure o' (list_to_set (sq_device <$> filter (λ q, is_Some (sq_failure q)) qs))
          (mkChannel (sent ++ checked_events (oc_versions_checked o) (zip ps found)) None)), s).
Proof.
  induction ps as [|p ps IH]; intros [|fuel] o sent lanes s Hfuel Hs Hf Hq; cbn [length] in Hfuel; try lia; cbn [check_groups].
  - exists []. split; [constructor|]. cbn [ck_heads crep]. rewrite frontier_done by done. cbn [ck_outcome ck_unread ck_events crep].
    unfold out_set. by rewrite frontier_end_outs, Hq, app_nil_r.
  - apply StronglySorted_inv in Hs as [Hs Hps]. cbn [ck_heads crep]. rewrite (frontier_smallest lanes p ps) by done.
    destruct (check_total (located (copies_at qs p)) (has_shard (copies_at qs p)) (elements (unread_set qs p)) (sq_device <$> qs) damaged) as [c Hc].
    change (checked_at qs damaged p = Ok c) in Hc.
    change (matching 0 p (lane_head <$> lanes)) with (taken_from 0 p lanes).
    rewrite (check_version_run o sent lanes p ps c) by done. unfold nlift, mbind at 1, net_bind at 1. cbn [negb].
    set (o1 := after_version _ _ _ _). set (sent1 := sent ++ _). cbn [ck_sources ck_unread crep].
    rewrite taken_crep. pose proof (pull_taken (crep o1 (mkChannel sent1 None)) check_pull qs (check_pull_rep o1 (mkChannel sent1 None)) p lanes [] s Hq) as Hpull.
    cbn [app length] in Hpull. unfold mbind at 1, net_bind at 1, nattempt. rewrite Hpull. clear Hpull.
    destruct (IH fuel o1 sent1 (advanced p <$> lanes) s) as (found & Hfound & Hrun); [lia|done|by apply frontier_advance| |].
    { rewrite <- Hq, <- list_fmap_compose. apply list_fmap_ext. intros _ l _. apply advanced_sequence. }
    exists (c :: found). split; [by constructor|]. cbn zeta in Hrun |- *. rewrite Hrun. cbn [zip zip_with checked_outcome fold_left checked_events].
    unfold checked_outcome. cbn [fold_left fst snd]. fold o1. unfold sent1.
    assert (oc_versions_checked o1 = wrap64 (oc_versions_checked o + 1)) as ->; [|by rewrite <- !app_assoc].
    apply after_version_spec.
Qed.
End merge.

(** ** Properties *)

Section properties.
Context {N : Type} `{Network N} `{CoordTexts} `{Xxh3}.
Implicit Types (s : Peers N).

End properties.

(** ** Witness: the sources of the inventory's *)

Section witnesses.
#[local] Existing Instance poly_xxh3.
#[local] Existing Instance poly_sha256.
#[local] Existing Instance decimal_uuid.
#[local] Instance bare_texts : CoordTexts := {| BUILD := []; ctext := λ _, [] |}.

End witnesses.
End ClusterScrubSpec.
