(* ===== verification/Admin.v ===== *)
(** [djbod-client/src/admin.rs]: changing the cluster document without a
    master.  A proposal asks every active node for its document, and if all
    hold the one it was made from, has them adopt its successor in the order
    the document lists them: the first node listed decides between proposals.
    Every other procedure, changes of states, labels, addresses, limits and
    transport, the removal of devices and nodes, is built on it.

    The text of a failure is the value it reports ([AReason]).  A timer that
    runs out while a peer is waited for is one of the ways the wait can fail
    ([Idle]).  An address is its text, which parses. *)

From Stdlib Require Import QArith.QArith_base.
From S2P Require Import Prelude Text Checksum KeyHash VersionId Erasure Layout Stripe FileSystem ShardFile Record Device Cluster Scrub Frame Handshake Message Lookup Connection.
Open Scope Z_scope.

Module Admin.
Import Message Lookup Connection.

(** ** Errors *)

Inductive AReason :=
| AConnection (e : ConnectionError)
| AMessage (message : str)
| AAnswer (r : Response)
| AError (e : AdminError)
| ANoAnswer
with AdminError :=
| ABadAddress (node : NodeId) (address : str)
| AUnreachable (node : NodeId) (address : str) (reason : AReason)
| VersionsDiffer (versions : list (NodeId * Z))
| Diverged (version : Z) (a b : NodeId)
| StaleProposal (expected found : Z)
| Superseded (node : NodeId) (reason : AReason)
| Partial (applied : list NodeId) (failed : NodeId) (reason : AReason)
| AWrongCluster (address : str) (expected found : Z)
| AUnexpectedResponse (address : str) (response : Response)
| PeerUnreachable (address : str) (reason : AReason)
| TooManyRetries (attempts : nat)
| ADocument (e : ClusterDocumentError)
| UnknownDevice (device : DeviceId)
| UnknownDeviceName (name : str)
| UnknownNodeName (name : str)
| UnknownNode (node : NodeId)
| ANodeRemoved (node : NodeId)
| StillReferenced (what : DeviceId + NodeId) (versions : nat) (examples : list str)
| DeviceActive (device : DeviceId)
| NodeHasActiveDevices (node : NodeId) (devices : list DeviceId)
| NodeIsAlive (node : NodeId) (address : str)
| LastNode
| NodeNotTlsReady (node : NodeId) (address : str)
| ATlsRequired (transport : Transport)
| TooFewActiveDevices (active needed k m : Z).

Record NodeDocument := mkNodeDocument {
  no_node : NodeId; no_label : option str; no_address : str; no_build : option str;
  no_result : AReason + ClusterDocument;
}.

Record SyncReport := mkSync {
  sy_highest_version : Z; sy_updated : list NodeId; sy_already_current : list NodeId;
  sy_unreachable : list (NodeId * AReason);
}.

Record VersionReference := mkReference { vr_key : str; vr_version : VersionId; vr_shards : nat; vr_m : Z }.

Record ForcedRemovalPlan := mkPlan {
  fr_current : ClusterDocument; fr_node : NodeId; fr_address : str; fr_unreachable_because : AReason;
  fr_devices : list DeviceId; fr_affected : list VersionReference;
}.

Definition MAX_PROPOSAL_ATTEMPTS : nat := 5.

(** ** Documents *)

(** [PartialEq] of [f64] and of documents *)
Definition f64_eqb (x y : f64) : bool :=
  match x, y with
  | Finite p, Finite q => Qeq_bool p q
  | Infinite a, Infinite b => Bool.eqb a b
  | _, _ => false
  end.

#[global] Instance NodeEntry_eq_dec : EqDecision NodeEntry.
Proof. solve_decision. Defined.
#[global] Instance DeviceEntry_eq_dec : EqDecision DeviceEntry.
Proof. solve_decision. Defined.

Definition document_eqb (a b : ClusterDocument) : bool :=
  (c_version a =? c_version b) && (c_cluster_id a =? c_cluster_id b) && bool_decide (c_name a = c_name b)
  && (c_k a =? c_k b) && (c_m a =? c_m b) && (c_block_size a =? c_block_size b) && f64_eqb (c_headroom a) (c_headroom b)
  && (c_max_key_bytes a =? c_max_key_bytes b) && (c_max_object_bytes a =? c_max_object_bytes b)
  && (c_max_user_metadata_bytes a =? c_max_user_metadata_bytes b) && bool_decide (c_transport a = c_transport b)
  && bool_decide (c_nodes a = c_nodes b) && bool_decide (c_devices a = c_devices b).

(** A document with some of its fields replaced. *)
Definition with_version (v : Z) (c : ClusterDocument) : ClusterDocument :=
  mkDocument v (c_cluster_id c) (c_name c) (c_k c) (c_m c) (c_block_size c) (c_independence_level c) (c_headroom c)
    (c_max_key_bytes c) (c_max_object_bytes c) (c_max_user_metadata_bytes c) (c_transport c) (c_nodes c) (c_devices c).
Definition with_nodes (nodes : list NodeEntry) (c : ClusterDocument) : ClusterDocument :=
  mkDocument (c_version c) (c_cluster_id c) (c_name c) (c_k c) (c_m c) (c_block_size c) (c_independence_level c) (c_headroom c)
    (c_max_key_bytes c) (c_max_object_bytes c) (c_max_user_metadata_bytes c) (c_transport c) nodes (c_devices c).
Definition with_devices (devices : list DeviceEntry) (c : ClusterDocument) : ClusterDocument :=
  mkDocument (c_version c) (c_cluster_id c) (c_name c) (c_k c) (c_m c) (c_block_size c) (c_independence_level c) (c_headroom c)
    (c_max_key_bytes c) (c_max_object_bytes c) (c_max_user_metadata_bytes c) (c_transport c) (c_nodes c) devices.
Definition with_name (name : option str) (c : ClusterDocument) : ClusterDocument :=
  mkDocument (c_version c) (c_cluster_id c) name (c_k c) (c_m c) (c_block_size c) (c_independence_level c) (c_headroom c)
    (c_max_key_bytes c) (c_max_object_bytes c) (c_max_user_metadata_bytes c) (c_transport c) (c_nodes c) (c_devices c).
Definition with_transport (t : Transport) (c : ClusterDocument) : ClusterDocument :=
  mkDocument (c_version c) (c_cluster_id c) (c_name c) (c_k c) (c_m c) (c_block_size c) (c_independence_level c) (c_headroom c)
    (c_max_key_bytes c) (c_max_object_bytes c) (c_max_user_metadata_bytes c) t (c_nodes c) (c_devices c).
Definition with_scheme (k m block_size : Z) (c : ClusterDocument) : ClusterDocument :=
  mkDocument (c_version c) (c_cluster_id c) (c_name c) k m block_size (c_independence_level c) (c_headroom c)
    (c_max_key_bytes c) (c_max_object_bytes c) (c_max_user_metadata_bytes c) (c_transport c) (c_nodes c) (c_devices c).
Definition with_limits (key object metadata : Z) (c : ClusterDocument) : ClusterDocument :=
  mkDocument (c_version c) (c_cluster_id c) (c_name c) (c_k c) (c_m c) (c_block_size c) (c_independence_level c) (c_headroom c)
    key object metadata (c_transport c) (c_nodes c) (c_devices c).

(** [next.version += 1] *)
Definition bumped (c : ClusterDocument) : ClusterDocument := with_version (wrap64 (c_version c + 1)) c.

Definition set_device (id : DeviceId) (f : DeviceEntry → DeviceEntry) (c : ClusterDocument) : ClusterDocument :=
  with_devices ((λ d, if de_id d =? id then f d else d) <$> c_devices c) c.
Definition set_node_entry (id : NodeId) (f : NodeEntry → NodeEntry) (c : ClusterDocument) : ClusterDocument :=
  with_nodes ((λ n, if n_id n =? id then f n else n) <$> c_nodes c) c.

Definition in_state (state : DeviceState) (d : DeviceEntry) : DeviceEntry := mkDeviceEntry (de_id d) (de_node d) state (de_label d).
Definition labelled (label : option str) (d : DeviceEntry) : DeviceEntry := mkDeviceEntry (de_id d) (de_node d) (de_state d) label.
Definition node_labelled (label : option str) (n : NodeEntry) : NodeEntry := mkNode (n_id n) (n_addresses n) label (n_state n).
Definition addressed (addresses : list str) (n : NodeEntry) : NodeEntry := mkNode (n_id n) addresses (n_label n) (n_state n).
Definition node_removed (n : NodeEntry) : NodeEntry := mkNode (n_id n) (n_addresses n) (n_label n) NodeRemoved.

Definition with_node_addresses (current : ClusterDocument) (id : NodeId) (addresses : list str) : ClusterDocument :=
  set_node_entry id (addressed addresses) (bumped current).

Definition document_with_node_removed (current : ClusterDocument) (id : NodeId) : ClusterDocument :=
  let next := set_node_entry id node_removed (bumped current) in
  with_devices ((λ d, if de_node d =? id then in_state Removed d else d) <$> c_devices next) next.

Definition check_removable (current : ClusterDocument) (id : NodeId) : res AdminError unit :=
  entry ← ok_or (node current id) (UnknownNode id);
  _ ← ensure (negb (bool_decide (n_state entry = NodeRemoved))) (ANodeRemoved id);
  ensure (negb (length (active_nodes current) =? 1)%nat) LastNode.

(** [text.contains(needle)] *)
Fixpoint str_contains (needle text : str) : bool :=
  starts_with needle text || match text with [] => false | _ :: text => str_contains needle text end.

(** Two nodes holding the same version must hold the same document. *)
Fixpoint differing (node_a : NodeId) (doc_a : ClusterDocument) (earlier : list (NodeId * ClusterDocument)) : option AdminError :=
  match earlier with
  | [] => None
  | (node_b, doc_b) :: earlier =>
      if (c_version doc_a =? c_version doc_b) && negb (document_eqb doc_a doc_b)
      then Some (Diverged (c_version doc_a) node_b node_a) else differing node_a doc_a earlier
  end.

Fixpoint same_content_from (seen documents : list (NodeId * ClusterDocument)) : res AdminError unit :=
  match documents with
  | [] => Ok tt
  | (n, d) :: documents =>
      match differing n d seen with
      | Some e => Err e
      | None => same_content_from (seen ++ [(n, d)]) documents
      end
  end.

Definition check_same_content (documents : list (NodeId * ClusterDocument)) : res AdminError unit :=
  same_content_from [] documents.

Definition first_address (document : ClusterDocument) (id : NodeId) : res AdminError str :=
  entry ← expect (node document id);
  let text := default [] (head (n_addresses entry)) in
  _ ← ensure (SocketAddr.parses text) (ABadAddress id text);
  Ok text.

(** The active nodes but the one to skip. *)
Definition asked (document : ClusterDocument) (skip : option NodeId) : list NodeEntry :=
  filter (λ n, Some (n_id n) ≠ skip) (active_nodes document).

(** The versions the nodes hold are all the proposal's, or why not. *)
Definition check_versions (current : ClusterDocument) (versions : list (NodeId * Z)) : res AdminError unit :=
  if forallb (λ v : NodeId * Z, v.2 =? c_version current) versions then Ok tt
  else match versions with
       | [] => Ok tt
       | (_, first) :: _ =>
           if forallb (λ v : NodeId * Z, v.2 =? first) versions then Err (StaleProposal (c_version current) first)
           else Err (VersionsDiffer versions)
       end.

Section admin.
Context {N : Type} `{Network N} `{Uuid} (BUILD : str) (tls : bool) (fuel : nat).
Abbreviation call A := (net (Peers N) AdminError A).

(** ** Asking for documents *)

Definition connect_failed (address : str) (e : ConnectionError) : AdminError :=
  match e with
  | CeHello (Handshake.ClusterId peer ours) => AWrongCluster address ours peer
  | Remote d =>
      if bool_decide (e_code d = ProtocolViolation) && str_contains (lit "cluster") (e_message d)
      then PeerUnreachable address (AMessage (e_message d)) else PeerUnreachable address (AConnection e)
  | other => PeerUnreachable address (AConnection other)
  end.

Definition fetch_document_and_hello (address : str) (cluster_id : Z) : call (ClusterDocument * Handshake.Hello) :=
  ch ← nmap_err (connect_failed address) (connect_with tls address (client_hello BUILD cluster_id));
  answer ← nmap_err (λ e, PeerUnreachable address (AConnection e)) (request ch GetClusterConfig);
  match answer with
  | RespGetClusterConfig document => hello ← peer_hello ch; mret (document, hello)
  | other => nthrow (AUnexpectedResponse address other)
  end.

Definition fetch_document (address : str) (cluster_id : Z) : call ClusterDocument :=
  fetched ← fetch_document_and_hello address cluster_id; mret fetched.1.

(** One node asked for its document. *)
Definition fetch_report (document : ClusterDocument) (entry : NodeEntry) : call NodeDocument :=
  let report := mkNodeDocument (n_id entry) (n_label entry) (default [] (head (n_addresses entry))) in
  fetched ← nattempt (address ← nlift (first_address document (n_id entry));
                      fetch_document_and_hello address (c_cluster_id document));
  match fetched with
  | Ok (theirs, hello) => mret (report (Some (Handshake.build hello)) (inr theirs))
  | Err e => mret (report None (inl (AError e)))
  | Panic => nlift Panic
  end.

Definition fetch_all_except (document : ClusterDocument) (skip : option NodeId) : call (list NodeDocument) :=
  nmapM (fetch_report document) (asked document skip).

Definition fetch_all (document : ClusterDocument) : call (list NodeDocument) := fetch_all_except document None.

(** ** Proposing *)

Definition apply_to (address : str) (cluster_id : Z) (document : ClusterDocument) : net (Peers N) AReason unit :=
  ch ← nmap_err AConnection (connect_with tls address (client_hello BUILD cluster_id));
  answer ← nmap_err (λ e, match e with Remote d => AMessage (e_message d) | e => AConnection e end)
             (request ch (ApplyClusterConfig document));
  match answer with
  | RespApplyClusterConfig => mret tt
  | other => nthrow (AAnswer other)
  end.

(** The documents reported, or the first node that could not be asked. *)
Definition documents_of (reports : list NodeDocument) : res AdminError (list (NodeId * ClusterDocument)) :=
  map_res (λ r, match no_result r with
                | inr document => Ok (no_node r, document)
                | inl reason => Err (AUnreachable (no_node r) (no_address r) reason)
                end) reports.

(** One node, after those that have adopted the document. *)
Definition apply_next (current next : ClusterDocument) (applied : list NodeId) (entry : NodeEntry) : call (list NodeId) :=
  address ← nlift (first_address current (n_id entry));
  outcome ← nattempt (apply_to address (c_cluster_id current) next);
  match outcome with
  | Ok _ => mret (applied ++ [n_id entry])
  | Err reason =>
      match applied with
      | [] => nthrow (Superseded (n_id entry) reason)
      | _ => nthrow (Partial applied (n_id entry) reason)
      end
  | Panic => nlift Panic
  end.

Definition propose_skipping (current next : ClusterDocument) (skip : option NodeId) : call unit :=
  _ ← nlift (map_err ADocument (document_validate next));
  reports ← fetch_all_except current skip;
  documents ← nlift (documents_of reports);
  _ ← nlift (check_versions current (prod_map id c_version <$> documents));
  _ ← nlift (check_same_content documents);
  _ ← nfold (apply_next current next) (asked current skip) [];
  mret tt.

Definition propose (current next : ClusterDocument) : call unit := propose_skipping current next None.

(** ** Stragglers *)

Definition highest_of (seed : ClusterDocument) (reports : list NodeDocument) : ClusterDocument :=
  fold_left (λ highest r, match no_result r with
                          | inr document => if c_version highest <? c_version document then document else highest
                          | inl _ => highest
                          end) reports seed.

Definition held_documents (reports : list NodeDocument) : list (NodeId * ClusterDocument) :=
  omap (λ r, match no_result r with inr d => Some (no_node r, d) | inl _ => None end) reports.

Definition sync_node (cluster_id : Z) (highest : ClusterDocument) (result : SyncReport) (r : NodeDocument) : call SyncReport :=
  let missed reason := mkSync (sy_highest_version result) (sy_updated result) (sy_already_current result)
                         (sy_unreachable result ++ [(no_node r, reason)]) in
  match no_result r with
  | inr document =>
      if c_version document =? c_version highest then
        mret (mkSync (sy_highest_version result) (sy_updated result) (sy_already_current result ++ [no_node r]) (sy_unreachable result))
      else
        address ← nlift (first_address highest (no_node r));
        outcome ← nattempt (apply_to address cluster_id highest);
        match outcome with
        | Ok _ => mret (mkSync (sy_highest_version result) (sy_updated result ++ [no_node r]) (sy_already_current result) (sy_unreachable result))
        | Err reason => mret (missed reason)
        | Panic => nlift Panic
        end
  | inl reason => mret (missed reason)
  end.

Definition sync (seed : str) (cluster_id : Z) : call SyncReport :=
  seed_document ← fetch_document seed cluster_id;
  reports ← fetch_all seed_document;
  let highest := highest_of seed_document reports in
  reports ← (if c_version highest =? c_version seed_document then mret reports else fetch_all highest);
  _ ← nlift (check_same_content (held_documents reports));
  nfold (sync_node cluster_id highest) reports (mkSync (c_version highest) [] [] []).

(** ** Changes *)

(** The loop every change is: the document fetched from the peer, the change
    to it if there is one, proposed, and all of it again when another
    proposal came first. *)
Fixpoint retrying (attempts : nat) (peer : str) (cluster_id : Z)
    (change : ClusterDocument → call (option ClusterDocument)) : call (ClusterDocument * bool) :=
  match attempts with
  | O => nthrow (TooManyRetries MAX_PROPOSAL_ATTEMPTS)
  | S attempts =>
      current ← fetch_document peer cluster_id;
      changed ← change current;
      match changed with
      | None => mret (current, false)
      | Some next =>
          outcome ← nattempt (propose current next);
          match outcome with
          | Ok _ => mret (next, true)
          | Err (Superseded _ _) | Err (StaleProposal _ _) => retrying attempts peer cluster_id change
          | Err e => nthrow e
          | Panic => nlift Panic
          end
      end
  end.

Abbreviation changing := (retrying MAX_PROPOSAL_ATTEMPTS).

Definition set_device_state (peer : str) (cluster_id : Z) (device : DeviceId) (state : DeviceState) : call (ClusterDocument * bool) :=
  changing peer cluster_id (λ current,
    entry ← nlift (ok_or (Cluster.device current device) (UnknownDevice device));
    if bool_decide (de_state entry = state) then mret None
    else mret (Some (set_device device (in_state state) (bumped current)))).

Definition set_scheme (peer : str) (cluster_id : Z) (k m : Z) (block_size : option Z) : call (ClusterDocument * bool) :=
  changing peer cluster_id (λ current,
    let block_size := default (c_block_size current) block_size in
    if (c_k current =? k) && (c_m current =? m) && (c_block_size current =? block_size) then mret None
    else
      let active := Z.of_nat (length (filter (λ d, de_state d = Active) (c_devices current))) in
      _ ← nlift (ensure (negb (active <? k + m)) (TooFewActiveDevices active (k + m) k m));
      mret (Some (with_scheme k m block_size (bumped current)))).

Definition set_limits (peer : str) (cluster_id : Z) (max_key_bytes max_object_bytes max_user_metadata_bytes : option Z)
    : call (ClusterDocument * bool) :=
  changing peer cluster_id (λ current,
    let next := with_limits (default (c_max_key_bytes current) max_key_bytes) (default (c_max_object_bytes current) max_object_bytes)
                  (default (c_max_user_metadata_bytes current) max_user_metadata_bytes) current in
    if document_eqb next current then mret None else mret (Some (bumped next))).

Definition resolve_device (peer : str) (cluster_id : Z) (name : str) : call DeviceId :=
  document ← fetch_document peer cluster_id;
  nlift (ok_or (de_id <$> device_by_name document name) (UnknownDeviceName name)).

Definition resolve_node (peer : str) (cluster_id : Z) (name : str) : call NodeId :=
  document ← fetch_document peer cluster_id;
  nlift (ok_or (n_id <$> node_by_name document name) (UnknownNodeName name)).

Definition set_node_label (peer : str) (cluster_id : Z) (id : NodeId) (label : option str) : call (ClusterDocument * bool) :=
  changing peer cluster_id (λ current,
    entry ← nlift (ok_or (Cluster.node current id) (UnknownNode id));
    if bool_decide (n_label entry = label) then mret None
    else mret (Some (set_node_entry id (node_labelled label) (bumped current)))).

Definition set_cluster_name (peer : str) (cluster_id : Z) (name : option str) : call (ClusterDocument * bool) :=
  changing peer cluster_id (λ current,
    if bool_decide (c_name current = name) then mret None else mret (Some (with_name name (bumped current)))).

Definition set_node_addresses (peer : str) (cluster_id : Z) (id : NodeId) (addresses : list str) : call (ClusterDocument * bool) :=
  changing peer cluster_id (λ current,
    entry ← nlift (ok_or (Cluster.node current id) (UnknownNode id));
    if bool_decide (n_addresses entry = addresses) then mret None
    else mret (Some (with_node_addresses current id addresses))).

Definition set_device_label (peer : str) (cluster_id : Z) (device : DeviceId) (label : option str) : call (ClusterDocument * bool) :=
  changing peer cluster_id (λ current,
    entry ← nlift (ok_or (Cluster.device current device) (UnknownDevice device));
    if bool_decide (de_label entry = label) then mret None
    else mret (Some (set_device device (labelled label) (bumped current)))).

(** A node that has TLS material, asked. *)
Definition check_tls_ready (current : ClusterDocument) (cluster_id : Z) (entry : NodeEntry) : call unit :=
  address ← nlift (first_address current (n_id entry));
  let unreachable reason := AUnreachable (n_id entry) address reason in
  ch ← nmap_err (λ e, unreachable (AConnection e)) (connect_with tls address (client_hello BUILD cluster_id));
  answer ← nmap_err (λ e, unreachable (AConnection e)) (request ch LocalStatus);
  match answer with
  | RespLocalStatus _ _ true _ _ => mret tt
  | RespLocalStatus _ _ false _ _ => nthrow (NodeNotTlsReady (n_id entry) address)
  | other => nthrow (unreachable (AAnswer other))
  end.

Definition set_transport (peer : str) (cluster_id : Z) (transport : Transport) : call (ClusterDocument * bool) :=
  changing peer cluster_id (λ current,
    if bool_decide (c_transport current = transport) then mret None
    else
      _ ← (if bool_decide (transport = Plain) then mret tt
           else nfold (λ _ entry, check_tls_ready current cluster_id entry) (active_nodes current) tt);
      mret (Some (with_transport transport (bumped current)))).

(** ** Removal *)

Definition recoverable (r : VersionReference) : bool := Z.of_nat (vr_shards r) <=? vr_m r.

(** The pages of one device's records. *)
Fixpoint reference_pages (fuel : nat) (ch : nat) (unreachable : AReason → AdminError) (device : DeviceId)
    (records : list MetadataRecord) (after : option RecordCursor) : call (list MetadataRecord) :=
  match fuel with
  | O => still_running
  | S fuel =>
      answer ← nmap_err (λ e, unreachable (AConnection e)) (request ch (LocalRecords device after));
      match answer with
      | RespLocalRecords page truncated =>
          let after := (λ r, mkRecordCursor (r_key_hash (dr_record r)) (r_version (dr_record r))) <$> last page in
          let records := records ++ (dr_record <$> page) in
          if negb truncated || bool_decide (after = None) then mret records
          else reference_pages fuel ch unreachable device records after
      | other => nthrow (unreachable (AAnswer other))
      end
  end.

(** The entry of a version in the map, at its highest revision. *)
Fixpoint keep_highest (record : MetadataRecord) (m : list ((str * VersionId) * MetadataRecord))
    : list ((str * VersionId) * MetadataRecord) :=
  let slot := (r_key record, r_version record) in
  match m with
  | [] => [(slot, record)]
  | (k, held) :: rest =>
      match (match lex_compare slot.1 k.1 with Eq => lex_compare slot.2 k.2 | c => c end) with
      | Lt => (slot, record) :: m
      | Eq => (k, if r_revision held <? r_revision record then record else held) :: rest
      | Gt => (k, held) :: keep_highest record rest
      end
  end.

Definition scan_device (ch : nat) (unreachable : AReason → AdminError)
    (found : list ((str * VersionId) * MetadataRecord)) (d : DeviceEntry) : call (list ((str * VersionId) * MetadataRecord)) :=
  records ← reference_pages fuel ch unreachable (de_id d) [] None;
  mret (fold_left (λ m r, keep_highest r m) records found).

Definition scan_node (document : ClusterDocument) (found : list ((str * VersionId) * MetadataRecord)) (entry : NodeEntry)
    : call (list ((str * VersionId) * MetadataRecord)) :=
  address ← nlift (first_address document (n_id entry));
  let unreachable reason := AUnreachable (n_id entry) address reason in
  ch ← nmap_err (λ e, unreachable (AConnection e))
         (connect_with tls address (client_hello BUILD (c_cluster_id document)));
  nfold (scan_device ch unreachable)
    (filter (λ d, de_node d = n_id entry ∧ de_state d ≠ Removed) (c_devices document)) found.

(** How many shards of a record are on the devices. *)
Definition shards_on (devices : list DeviceId) (record : MetadataRecord) : nat :=
  length (filter (λ s, sl_device s ∈ devices) (r_shards record)).

Definition references_to (devices : list DeviceId) (found : list ((str * VersionId) * MetadataRecord)) : list VersionReference :=
  omap (λ e : (str * VersionId) * MetadataRecord,
    if (0 <? shards_on devices e.2)%nat
    then Some (mkReference e.1.1 e.1.2 (shards_on devices e.2) (r_m e.2)) else None) found.

Definition scan_references (document : ClusterDocument) (devices : list DeviceId) (skip : option NodeId) : call (list VersionReference) :=
  found ← nfold (scan_node document) (asked document skip) [];
  mret (references_to devices found).

Definition still_referenced (what : DeviceId + NodeId) (references : list VersionReference) : AdminError :=
  StillReferenced what (length references) (vr_key <$> take 5 references).

Definition remove_device_forced (peer : str) (cluster_id : Z) (device : DeviceId) : call (ClusterDocument * bool) :=
  changing peer cluster_id (λ current,
    entry ← nlift (ok_or (Cluster.device current device) (UnknownDevice device));
    if bool_decide (de_state entry = Removed) then mret None
    else mret (Some (set_device device (in_state Removed) (bumped current)))).

Definition remove_device (peer : str) (cluster_id : Z) (device : DeviceId) : call (ClusterDocument * bool) :=
  changing peer cluster_id (λ current,
    entry ← nlift (ok_or (Cluster.device current device) (UnknownDevice device));
    if bool_decide (de_state entry = Removed) then mret None
    else
      _ ← nlift (ensure (negb (bool_decide (de_state entry = Active))) (DeviceActive device));
      references ← scan_references current [device] None;
      _ ← nlift (ensure (bool_decide (length references = 0%nat)) (still_referenced (inl device) references));
      mret (Some (set_device device (in_state Removed) (bumped current)))).

Definition remove_node (peer : str) (cluster_id : Z) (id : NodeId) : call ClusterDocument :=
  removed ← changing peer cluster_id (λ current,
    _ ← nlift (check_removable current id);
    let devices := de_id <$> filter (λ d, de_node d = id) (c_devices current) in
    let active := de_id <$> filter (λ d, de_node d = id ∧ de_state d = Active) (c_devices current) in
    _ ← nlift (ensure (bool_decide (active = [])) (NodeHasActiveDevices id active));
    references ← scan_references current devices None;
    _ ← nlift (ensure (bool_decide (length references = 0%nat)) (still_referenced (inr id) references));
    mret (Some (document_with_node_removed current id)));
  mret removed.1.

Definition unrecoverable (plan : ForcedRemovalPlan) : list VersionReference :=
  filter (λ r, recoverable r = false) (fr_affected plan).

Definition plan_forced_removal (peer : str) (cluster_id : Z) (id : NodeId) : call ForcedRemovalPlan :=
  current ← fetch_document peer cluster_id;
  _ ← nlift (check_removable current id);
  address ← nlift (first_address current id);
  answered ← nattempt (fetch_document address cluster_id);
  because ← nlift match answered with
                  | Ok _ => Err (NodeIsAlive id address)
                  | Err (PeerUnreachable _ (AConnection (CeWire Idle))) => Ok ANoAnswer
                  | Err e => Ok (AError e)
                  | Panic => Panic
                  end;
  let devices := de_id <$> filter (λ d, de_node d = id) (c_devices current) in
  affected ← scan_references current devices (Some id);
  mret (mkPlan current id address because devices affected).

Definition execute_forced_removal (plan : ForcedRemovalPlan) : call ClusterDocument :=
  let next := document_with_node_removed (fr_current plan) (fr_node plan) in
  _ ← propose_skipping (fr_current plan) next (Some (fr_node plan));
  mret next.
End admin.
End Admin.
