(* ===== verification/AdminSpec.v ===== *)
(** The cluster document changes without a master, and yet there is only one
    document of each version.

    [step] is the protocol: a node is offered a document some node already
    has, or a successor of such a document that lists the node first, and
    adopts it or not ([Node.apply_document]).  No sequence of steps lets two
    documents of one version exist ([reachable_unique]).  The procedures of
    [admin.rs], run against nodes that serve their requests while other
    administrators do the same, messages are lost and calls fail
    ([Cluster_network]), take the cluster through such steps only. *)

From Stdlib Require Import QArith.QArith_base.
From S2P Require Import Prelude Text Checksum KeyHash VersionId Erasure Layout Stripe FileSystem ShardFile Record Device Cluster Scrub Frame Handshake Message Lookup Node LocalOps Connection Coordinator Log Admin.
Open Scope Z_scope.

Module AdminSpec.
Import Message Lookup LocalOps Connection Coordinator Log Admin.

#[global] Instance Q_eq_dec' : EqDecision Q.
Proof. solve_decision. Defined.
#[global] Instance f64_eq_dec : EqDecision f64.
Proof. solve_decision. Defined.
#[global] Instance IndependenceLevel_eq_dec : EqDecision IndependenceLevel.
Proof. solve_decision. Defined.
#[global] Instance ClusterDocument_eq_dec : EqDecision ClusterDocument.
Proof. solve_decision. Defined.

(** The node that decides between the successors of a document. *)
Definition first_active (c : ClusterDocument) : option NodeId := n_id <$> head (active_nodes c).

Section protocol.
Context `{Uuid} `{DocumentText} {TlsMaterial : Type}.
Implicit Types (c d : ClusterDocument) (id : NodeId).

(** ** The protocol *)

(** The nodes, and every document a node ever held. *)
Definition View : Type := gmap Z (Node TlsMaterial * World) * list ClusterDocument.
Implicit Types x y : View.

(** A document offered to a node, which adopts it or does not. *)
Definition offer x id d : View :=
  match x.1 !! id with
  | None => x
  | Some s => (<[id := adopt s d]> x.1, nd_document (adopt s d).1 :: x.2)
  end.

(** A document that is known, or a successor of a known document offered to
    the node that decides. *)
Definition lawful x id d : Prop :=
  d ∈ x.2 ∨ Exists (λ c, c_version d = wrap64 (c_version c + 1) ∧ first_active c = Some id) x.2.

#[global] Instance lawful_dec x id d : Decision (lawful x id d).
Proof. unfold lawful. apply _. Defined.

Inductive step : View → View → Prop :=
| step_offer x id d : lawful x id d → step x (offer x id d).

Lemma adopt_document (s : Node TlsMaterial * World) d :
  nd_document (adopt s d).1 = nd_document s.1
  ∨ nd_document (adopt s d).1 = d ∧ c_version (nd_document s.1) < c_version d.
Proof.
  unfold adopt. destruct (apply_document_guards s.1 d s.2) as [[Hacc _]|[_ (r & -> & Hr)]].
  - pose proof (wp_apply_document s.1 d s.2 Hacc) as Hwp. unfold wp in Hwp.
    destruct (apply_document s.1 d s.2) as [[n'|e|] w'] eqn:Happ; [|by left|by left].
    destruct Hwp as [(_ & _ & Hok) _]. destruct (Hok n' eq_refl) as [-> _]. right. split; [done|]. apply Hacc.
  - destruct r as [n'|e|]; [by destruct (Hr n')|by left|by left].
Qed.

Lemma adopt_version (s : Node TlsMaterial * World) d : c_version (nd_document s.1) ≤ c_version (nd_document (adopt s d).1).
Proof. destruct (adopt_document s d) as [->|[-> ?]]; lia. Qed.

(** What holds of the nodes and the documents known: each document but the
    first follows one that is known, and the node that decides has it or a
    newer one. *)
Record consistent (root : Z) x : Prop := {
  co_held : ∀ id s, x.1 !! id = Some s → nd_document s.1 ∈ x.2;
  co_range : ∀ c, c ∈ x.2 → 0 ≤ root ≤ c_version c ∧ c_version c < 2 ^ 64;
  co_unique : ∀ c d, c ∈ x.2 → d ∈ x.2 → c_version c = c_version d → c = d;
  co_origin : ∀ d, d ∈ x.2 → c_version d = root ∨ ∃ c id s, c ∈ x.2 ∧ c_version d = c_version c + 1
    ∧ first_active c = Some id ∧ x.1 !! id = Some s ∧ c_version d ≤ c_version (nd_document s.1);
}.

(** Offering a document that is refused or known changes no document. *)
Lemma offer_spread root x id s d : consistent root x → x.1 !! id = Some s →
  nd_document (adopt s d).1 ∈ x.2 → consistent root (offer x id d).
Proof.
  intros [Hh Hr Hu Ho] Hs Hd. unfold offer. rewrite Hs. set (s' := adopt s d) in *.
  assert (∀ e, e ∈ nd_document s'.1 :: x.2 → e ∈ x.2) as Hin by (intros e [->|?]%elem_of_cons; done).
  split; cbn [fst snd].
  - intros i t [[-> <-]|[_ Ht]]%lookup_insert_Some; [apply list_elem_of_here|]. apply list_elem_of_further. by eapply Hh.
  - intros c Hc. by apply Hr, Hin.
  - intros c e Hc He. by apply Hu; apply Hin.
  - intros e He. destruct (Ho e (Hin e He)) as [?|(c & i & t & Hc & Hv & Hf & Ht & Hle)]; [by left|]. right.
    destruct (decide (i = id)) as [->|Hne].
    + exists c, id, s'. rewrite lookup_insert_eq. split_and!; [by apply list_elem_of_further|done|done|done|].
      rewrite Hs in Ht. injection Ht as ->. pose proof (adopt_version t d). subst s'. lia.
    + exists c, i, t. rewrite lookup_insert_ne by done. split_and!; [by apply list_elem_of_further|done..].
Qed.

Lemma step_consistent root x y : step x y → consistent root x → consistent root y.
Proof.
  intros [x0 id d Hl] Hx. destruct (x0.1 !! id) as [s|] eqn:Hs; [|by unfold offer; rewrite Hs].
  destruct (adopt_document s d) as [Heq|[Heq Hlt]].
  { eapply offer_spread; [done..|]. rewrite Heq. by eapply co_held. }
  destruct Hl as [Hd|(c & Hc & Hv & Hf)%Exists_exists].
  { eapply offer_spread; [done..|]. by rewrite Heq. }
  destruct Hx as [Hh Hr Hu Ho]. pose proof (Hr c Hc) as Hrc. pose proof (Hr _ (Hh _ _ Hs)) as Hrs.
  assert (c_version d = c_version c + 1) as Hv'.
  { unfold wrap in Hv. destruct (decide (c_version c + 1 < 2 ^ 64)) as [Hlt'|Hge].
    - by rewrite Z.mod_small in Hv by lia.
    - replace (c_version c + 1) with (1 * 2 ^ 64) in Hv by lia. rewrite Z.mod_mul in Hv by lia. lia. }
  assert (∀ e, e ∈ x0.2 → c_version e = c_version d → False) as Hnew.
  { intros e He Hve. destruct (Ho e He) as [?|(c' & id' & s' & Hc' & Hv'' & Hf' & Hs' & Hle)]; [lia|].
    assert (c' = c) as -> by (apply Hu; [done..|lia]). rewrite Hf in Hf'. injection Hf' as ->. rewrite Hs in Hs'. injection Hs' as <-. lia. }
  unfold offer. rewrite Hs. rewrite Heq. split; cbn [fst snd].
  - intros i t [[-> <-]|[_ Ht]]%lookup_insert_Some; [rewrite Heq; apply list_elem_of_here|]. apply list_elem_of_further. by eapply Hh.
  - intros e [->|He]%elem_of_cons; [|by apply Hr]. pose proof (Z.mod_pos_bound (c_version c + 1) (2 ^ 64)). unfold wrap in Hv. lia.
  - intros e e' [->|He]%elem_of_cons [->|He']%elem_of_cons Hve; [done|by destruct (Hnew e')|by destruct (Hnew e)|by apply Hu].
  - intros e [->|He]%elem_of_cons.
    + right. exists c, id, (adopt s d). rewrite lookup_insert_eq, Heq. split_and!; [by apply list_elem_of_further|done..|lia].
    + destruct (Ho e He) as [?|(c' & i & t & Hc' & Hve & Hf' & Ht & Hle)]; [by left|]. right.
      destruct (decide (i = id)) as [->|Hne].
      * exists c', id, (adopt s d). rewrite lookup_insert_eq, Heq. rewrite Hs in Ht. injection Ht as <-.
        split_and!; [by apply list_elem_of_further|done..|lia].
      * exists c', i, t. rewrite lookup_insert_ne by done. split_and!; [by apply list_elem_of_further|done..].
Qed.

Lemma steps_consistent root x y : rtc step x y → consistent root x → consistent root y.
Proof. induction 1; [done|]. intros ?. eauto using step_consistent. Qed.
End protocol.

(** ** Administrators at work

    The network between an administrator and the nodes.  Before each operation
    on a connection other administrators may have acted, any number of times,
    each within the protocol; the operation may fail, and a message may be
    lost.  A node serves the requests about its document with the code of
    [node.rs] and answers any other as [other] says. *)

Inductive Fault := Well | Fails | Loses.

Section network.
Context `{Uuid} `{DocumentText} `{CoordTexts} {TlsMaterial : Type} (text : Reason → str).
Context (listens : str → option NodeId) (other : Node TlsMaterial → Z → Request → list Message).
Implicit Types (c d : ClusterDocument) (id : NodeId).
Abbreviation View := (View (TlsMaterial := TlsMaterial)).

Record Sys := mkSys {
  sy_view : View;
  sy_lines : gmap nat (NodeId * list Message);
  sy_script : list (list (NodeId * ClusterDocument) * Fault);
}.

Definition others (moves : list (NodeId * ClusterDocument)) (x : View) : View :=
  fold_left (λ x (mv : NodeId * ClusterDocument), if decide (lawful x mv.1 mv.2) then offer x mv.1 mv.2 else x) moves x.

Definition tick (n : Sys) : Fault * Sys :=
  match sy_script n with
  | [] => (Well, n)
  | (moves, fault) :: script => (fault, mkSys (others moves (sy_view n)) (sy_lines n) script)
  end.

(** What a node does with a message, and what it answers. *)
Definition serve (x : View) id (m : Message) : View * list Message :=
  match x.1 !! id with
  | None => (x, [])
  | Some s =>
      let held := nd_document s.1 in
      match m with
      | MHello h =>
          (x, [match Handshake.check_against h (c_cluster_id held) (c_version held) with
               | Ok _ => MHello (our_hello s.1)
               | _ => MResponse 0 (RespError (ErrorDetail_new ProtocolViolation (title held)))
               end])
      | MRequest rid GetClusterConfig => (x, [MResponse rid (RespGetClusterConfig held)])
      | MRequest rid (ApplyClusterConfig d) =>
          (offer x id d,
           match apply_document s.1 d s.2 with
           | (Ok _, _) => [MResponse rid RespApplyClusterConfig]
           | (Err e, _) => [MResponse rid (RespError (detail text (node_error_code e) (RNode e)))]
           | (Panic, _) => []
           end)
      | MRequest rid r => (x, other s.1 rid r)
      | _ => (x, [])
      end
  end.

Definition sys_dial (n : Sys) (ch : nat) (addr : str) (tls : bool) : bool * Sys :=
  match tick n with
  | (Well, n) =>
      match listens addr with
      | Some id => (true, mkSys (sy_view n) (<[ch := (id, [])]> (sy_lines n)) (sy_script n))
      | None => (false, n)
      end
  | (_, n) => (false, n)
  end.

Definition sys_transmit (n : Sys) (ch : nat) (m : Message) : option WireError * Sys :=
  match tick n with
  | (Fails, n) => (Some WireIo, n)
  | (Loses, n) => (None, n)
  | (Well, n) =>
      match sy_lines n !! ch with
      | None => (Some Closed, n)
      | Some (id, queue) =>
          let served := serve (sy_view n) id m in
          (None, mkSys served.1 (<[ch := (id, queue ++ served.2)]> (sy_lines n)) (sy_script n))
      end
  end.

Definition sys_deliver (n : Sys) (ch : nat) : (WireError + Message) * Sys :=
  match tick n with
  | (Well, n) =>
      match sy_lines n !! ch with
      | Some (id, m :: queue) => (inr m, mkSys (sy_view n) (<[ch := (id, queue)]> (sy_lines n)) (sy_script n))
      | _ => (inl Closed, n)
      end
  | (_, n) => (inl Closed, n)
  end.

#[local] Instance Cluster_network : Network Sys :=
  {| dial := sys_dial; transmit := sys_transmit; deliver := sys_deliver; completion _ l := l; completion_perm _ l := Permutation_refl l |}.

(** ** What the cluster goes through *)

Implicit Types (x y : View) (s : Peers Sys).
Abbreviation steps := (rtc (step (TlsMaterial := TlsMaterial))).
Definition view s : View := sy_view (pe_net s).

Definition holds x : Prop := ∀ id (t : Node TlsMaterial * World), x.1 !! id = Some t → nd_document t.1 ∈ x.2.

Lemma offer_known x id d : x.2 ⊆ (offer x id d).2.
Proof. unfold offer. destruct (x.1 !! id); [|done]. intros c ?. by apply list_elem_of_further. Qed.

Lemma offer_holds x id d : holds x → holds (offer x id d).
Proof.
  intros Hx. unfold offer. destruct (x.1 !! id) as [t|]; [|done]. intros i u; cbn [fst snd]; intros [[-> <-]|[_ Hs]]%lookup_insert_Some; [apply list_elem_of_here|].
  apply list_elem_of_further. by eapply Hx.
Qed.

Lemma steps_known x y : steps x y → x.2 ⊆ y.2.
Proof. induction 1 as [|x y z [x' id d _] _ IH]; [done|]. etrans; [apply (offer_known x' id d)|exact IH]. Qed.

Lemma steps_holds x y : steps x y → holds x → holds y.
Proof. induction 1 as [|x y z [x' id d _] _ IH]; [done|]. intros Hx. by apply IH, offer_holds. Qed.

Lemma others_steps moves x : steps x (others moves x).
Proof.
  revert x. induction moves as [|mv moves IH]; intros x; [done|]. unfold others. cbn [fold_left]. etrans; [|apply IH].
  destruct (decide _) as [Hl|]; [|done]. by apply rtc_once, step_offer.
Qed.

Lemma tick_steps n f n' : tick n = (f, n') → steps (sy_view n) (sy_view n') ∧ sy_lines n' = sy_lines n.
Proof. unfold tick. destruct (sy_script n) as [|[moves f'] script]; intros [= <- <-]; [done|]. split; [apply others_steps|done]. Qed.

Lemma serve_view x id m : (∀ rid d, m ≠ MRequest rid (ApplyClusterConfig d)) → (serve x id m).1 = x.
Proof. intros Hm. unfold serve. destruct (x.1 !! id); [|done]. destruct m as [| rid []| | |]; try done. by destruct (Hm rid document). Qed.

(** Sending a message: it fails, is lost, or is served. *)
Lemma write_moves ch m s r s' : write_message ch m s = Some (r, s') → ∃ x, steps (view s) x ∧
  (view s' = x ∧ sy_lines (pe_net s') = sy_lines (pe_net s)
   ∨ ∃ id queue, sy_lines (pe_net s) !! ch = Some (id, queue) ∧ view s' = (serve x id m).1
       ∧ sy_lines (pe_net s') = <[ch := (id, queue ++ (serve x id m).2)]> (sy_lines (pe_net s))).
Proof.
  unfold write_message. cbn [transmit Cluster_network]. unfold sys_transmit. destruct (tick _) as [f n] eqn:Ht.
  apply tick_steps in Ht as [Hs Hl]. destruct f.
  - destruct (sy_lines n !! ch) as [[id queue]|] eqn:Hc; intros [= <- <-]; exists (sy_view n); (split; [done|]).
    + right. exists id, queue. rewrite <- Hl. by split_and!.
    + by left.
  - intros [= <- <-]. exists (sy_view n). split; [done|]. by left.
  - intros [= <- <-]. exists (sy_view n). split; [done|]. by left.
Qed.

Lemma read_moves ch s r s' : read_message ch s = Some (r, s') → steps (view s) (view s')
  ∧ ∀ m, r = Ok m → ∃ id queue, sy_lines (pe_net s) !! ch = Some (id, m :: queue) ∧ sy_lines (pe_net s') !! ch = Some (id, queue).
Proof.
  unfold read_message. cbn [deliver Cluster_network]. unfold sys_deliver. destruct (tick _) as [f n] eqn:Ht.
  apply tick_steps in Ht as [Hs Hl]. rewrite <- Hl. destruct f; [|by intros [= <- <-]..].
  destruct (sy_lines n !! ch) as [[id [|m queue]]|] eqn:Hc; intros [= <- <-]; try done. split; [done|].
  intros m' [= ->]. exists id, queue. cbn. by rewrite lookup_insert_eq.
Qed.

Lemma open_moves addr tls hello s r s' : open_connection addr tls hello s = Some (r, s') → steps (view s) (view s')
  ∧ ∀ ch, r = Ok ch → ∃ id, listens addr = Some id ∧ sy_lines (pe_net s') !! ch = Some (id, []).
Proof.
  unfold open_connection. cbn [dial Cluster_network]. unfold sys_dial. destruct (tick _) as [f n] eqn:Ht.
  apply tick_steps in Ht as [Hs Hl]. destruct f; [|by intros [= <- <-]..].
  destruct (listens addr) as [id|]; intros [= <- <-]; [|done]. split; [done|]. intros ch [= <-]. exists id. cbn. by rewrite lookup_insert_eq.
Qed.

(** *** Computations that offer nothing *)

Definition quiet {E A : Type} (m : net (Peers Sys) E A) : Prop := ∀ s r s', m s = Some (r, s') → steps (view s) (view s').

Lemma quiet_lift {E A : Type} (r : res E A) : quiet (nlift r).
Proof. by intros s r' s' [= <- <-]. Qed.
Lemma quiet_throw {E A : Type} (e : E) : quiet (nthrow (A := A) e).
Proof. apply quiet_lift. Qed.
Lemma quiet_ret {E A : Type} (a : A) : quiet (E := E) (mret a).
Proof. by intros s r' s' [= <- <-]. Qed.
Lemma quiet_bind {E A B : Type} (m : net (Peers Sys) E A) (f : A → net (Peers Sys) E B) : quiet m → (∀ a, quiet (f a)) → quiet (m ≫= f).
Proof. intros Hm Hf s r s' [(a & s1 & R & Hr)|(r0 & R & _)]%bind_inv; [etrans; [by eapply Hm|by eapply Hf]|by eapply Hm]. Qed.
Lemma quiet_map_err {E F A : Type} (g : E → F) (m : net (Peers Sys) E A) : quiet m → quiet (nmap_err g m).
Proof. intros Hm s r s'. unfold nmap_err. destruct (m s) as [[r1 s1]|] eqn:Hs; [|done]. intros [= <- <-]. by eapply Hm. Qed.
Lemma quiet_attempt {E F A : Type} (m : net (Peers Sys) E A) : quiet m → quiet (nattempt (F := F) m).
Proof. intros Hm s r s'. unfold nattempt. destruct (m s) as [[r1 s1]|] eqn:Hs; [|done]. apply Hm in Hs. by destruct r1; intros [= <- <-]. Qed.
Lemma quiet_fold {E A B : Type} (f : B → A → net (Peers Sys) E B) l : (∀ b a, quiet (f b a)) → ∀ b, quiet (nfold f l b).
Proof. intros Hf. induction l as [|a l IH]; intros b; cbn [nfold]; [apply quiet_ret|]. by apply quiet_bind. Qed.
Lemma quiet_read ch : quiet (read_message ch).
Proof. intros s r s' Hr. by apply read_moves in Hr as [? _]. Qed.
Lemma quiet_open addr tls hello : quiet (open_connection addr tls hello).
Proof. intros s r s' Hr. by apply open_moves in Hr as [? _]. Qed.
Lemma quiet_write ch m : (∀ rid d, m ≠ MRequest rid (ApplyClusterConfig d)) → quiet (write_message ch m).
Proof.
  intros Hm s r s' (y & Hs & [[-> _]|(id & q & _ & -> & _)])%write_moves; [done|]. by rewrite serve_view.
Qed.
Lemma quiet_hello {E : Type} ch h : quiet (set_peer_hello (E := E) ch h).
Proof. by intros s r s' [= <- <-]. Qed.
Lemma quiet_allocate {E : Type} ch : quiet (allocate_request_id (E := E) ch).
Proof. by intros s r s' [= <- <-]. Qed.
Lemma quiet_peer {E : Type} ch : quiet (peer_hello (E := E) ch).
Proof. by intros s r s' [= <- <-]. Qed.
#[local] Hint Resolve quiet_lift quiet_throw quiet_ret quiet_read quiet_open quiet_hello quiet_allocate quiet_peer : core.

Ltac quiet :=
  repeat first [by auto | match goal with
    | |- quiet (mbind _ _) => apply quiet_bind; [|intros ?]
    | |- quiet (nmap_err _ _) => apply quiet_map_err
    | |- quiet (nattempt _) => apply quiet_attempt
    | |- quiet (nfold _ _ _) => apply quiet_fold; intros ? ?
    | |- quiet (write_message _ _) => apply quiet_write; by intros ? ? [=]
    | |- quiet (match ?e with _ => _ end) => destruct e
    end].

Lemma quiet_connect tls addr hello : quiet (connect_with tls addr hello).
Proof. unfold connect_with. quiet. Qed.

Lemma quiet_response ch id : quiet (read_response ch id).
Proof. unfold read_response. quiet. Qed.

Lemma quiet_request ch r : (∀ d, r ≠ ApplyClusterConfig d) → quiet (request ch r).
Proof.
  intros Hr. unfold request, send_request. pose proof (quiet_response ch). quiet.
  apply quiet_write. intros rid d [= _ ->]. by destruct (Hr d).
Qed.

(** *** A connection, and the node it leads to *)

Lemma connect_line tls addr hello s ch s' : connect_with tls addr hello s = Some (Ok ch, s') →
  ∃ id, listens addr = Some id ∧ sy_lines (pe_net s') !! ch = Some (id, []).
Proof.
  unfold connect_with. intros Hr. next Hr. apply map_err_ok_inv, open_moves in R as [_ R].
  destruct (R x eq_refl) as (id & Hid & Hline). exists id. split; [done|]. next Hr. apply map_err_ok_inv, write_moves in R0 as (y & _ & Hw).
  next Hr. apply map_err_ok_inv, read_moves in R0 as [_ R0]. destruct (R0 x1 eq_refl) as (id' & q & Hq & Hq'). clear R R0.
  assert (id' = id ∧ q = []) as [-> ->].
  { destruct Hw as [[_ Hl]|(id'' & q'' & Hl & _ & Hl')].
    - rewrite Hl, Hline in Hq. done.
    - rewrite Hline in Hl. injection Hl as <- <-. rewrite Hl', lookup_insert_eq in Hq. injection Hq as <- Hq. cbn in Hq.
      unfold serve in Hq. destruct (y.1 !! id); [|done]. by injection Hq. }
  destruct x1; try done; [|by destruct response]. destruct (negb _ && negb _); [done|]. next Hr. injection R as _ <-.
  apply ret_ok_inv in Hr as [-> ->]. done.
Qed.

Lemma request_parts ch r s : ∃ rid s1, pe_net s1 = pe_net s
  ∧ request ch r s = (_ ← nmap_err CeWire (write_message ch (MRequest rid r)); read_response ch rid) s1.
Proof.
  set (rid := match pe_conns s !! ch with Some c => cs_next_request_id c | None => 1 end).
  set (s1 := mkPeers (pe_net s) (alter (λ k, mkConnState (cs_peer_hello k) (next_id rid) (cs_tls k)) ch (pe_conns s)) (pe_log s)).
  exists rid, s1. split; [done|]. change (request ch r s) with
    ((id ← (_ ← nmap_err CeWire (write_message ch (MRequest rid r)); mret rid); read_response ch id) s1).
  unfold mbind, net_bind. by destruct (nmap_err _ _ s1) as [[[a|e|] s2]|].
Qed.

(** A request: served or not, and its answer is the node's. *)
Lemma request_moves ch r s rs s' id queue : request ch r s = Some (rs, s') → sy_lines (pe_net s) !! ch = Some (id, queue) →
  ∃ x y rid, steps (view s) x ∧ (y = x ∨ y = (serve x id (MRequest rid r)).1) ∧ steps y (view s')
    ∧ ∀ resp, rs = Ok resp → queue = [] →
        y = (serve x id (MRequest rid r)).1 ∧ ∃ q, (serve x id (MRequest rid r)).2 = MResponse rid resp :: q.
Proof.
  intros Hr Hline. destruct (request_parts ch r s) as (rid & s1 & Hnet & Heq). rewrite Heq in Hr. rename Hr into Hr'. clear Heq.
  unfold view. rewrite <- Hnet in Hline |- *. clear Hnet s.
  apply bind_inv in Hr' as [(u & s2 & R & Hr)|(r0 & R & Hno)].
  - apply map_err_ok_inv, write_moves in R as (x & S1 & Hw). pose proof (quiet_response ch rid _ _ _ Hr) as S2.
    destruct Hw as [[Hv Hl]|(id' & q' & Hq' & Hv & Hl)].
    + exists x, x, rid. rewrite <- Hv. split_and!; [by rewrite Hv|by left|done|]. intros resp -> ->. exfalso.
      unfold read_response in Hr. next Hr. apply map_err_ok_inv, read_moves in R as [_ R]. destruct (R x0 eq_refl) as (i & q & Hq & _).
      rewrite Hl, Hline in Hq. done.
    + rewrite Hline in Hq'. injection Hq' as <- <-. exists x, (serve x id (MRequest rid r)).1, rid. rewrite <- Hv.
      split_and!; [done|by right|done|]. intros resp -> ->. split; [done|].
      unfold read_response in Hr. next Hr. apply map_err_ok_inv, read_moves in R as [_ R]. destruct (R x0 eq_refl) as (i & q & Hq & _).
      rewrite Hl, lookup_insert_eq in Hq. injection Hq as <- Hq. exists q. cbn in Hq. rewrite Hq.
      destruct x0; try done. destruct (Z.eqb_spec id0 rid) as [->|]; [|done]. cbn in Hr. destruct response; try done; by apply ret_ok_inv in Hr as [-> _].
  - unfold nmap_err in R. destruct (write_message _ _ _) as [[r1 s2]|] eqn:Hw; [|done]. injection R as _ ->.
    apply write_moves in Hw as (x & S1 & [[Hv _]|(id' & q' & Hq' & Hv & _)]).
    + exists x, x, rid. rewrite <- Hv. split_and!; [by rewrite Hv|by left|done|]. intros resp ->. by destruct (Hno resp).
    + rewrite Hline in Hq'. injection Hq' as <- <-. exists x, (serve x id (MRequest rid r)).1, rid. rewrite <- Hv.
      split_and!; [done|by right|done|]. intros resp ->. by destruct (Hno resp).
Qed.

(** *** Computations that stay within the protocol *)

(** The address a document lists for a node is that node's, or nobody's. *)
Definition leads (known : list ClusterDocument) : Prop := ∀ c id a, c ∈ known →
  first_address c id = Ok a → listens a = None ∨ listens a = Some id.

(** [K] is known before, [Q a] after. *)
Definition safe {E A : Type} (K : list ClusterDocument) (m : net (Peers Sys) E A) (Q : A → list ClusterDocument) : Prop :=
  ∀ s r s', m s = Some (r, s') → (view s).2 ⊆ (view s').2
    ∧ (holds (view s) → K ⊆ (view s).2 → leads (view s').2 → steps (view s) (view s') ∧ ∀ a, r = Ok a → Q a ⊆ (view s').2).

Section safe_rules.
Context {E : Type} (K : list ClusterDocument).

Lemma safe_quiet {A : Type} (m : net (Peers Sys) E A) : quiet m → safe K m (λ _, []).
Proof. intros Hm s r s' Hr. apply Hm in Hr. split; [by apply steps_known|]. intros _ _ _. split; [done|]. intros a _. set_solver. Qed.

Lemma safe_known {A : Type} (m : net (Peers Sys) E A) (Q : A → list ClusterDocument) :
  quiet m → (∀ s a s', m s = Some (Ok a, s') → holds (view s) → Q a ⊆ (view s').2) → safe K m Q.
Proof.
  intros Hm HQ s r s' Hr. pose proof (Hm _ _ _ Hr) as Hs. split; [by apply steps_known|]. intros Hh _ _. split; [done|].
  intros a ->. by eapply HQ.
Qed.

Lemma safe_bind {A B : Type} (m : net (Peers Sys) E A) (f : A → net (Peers Sys) E B) Q R :
  safe K m Q → (∀ a, safe (Q a ++ K) (f a) R) → safe K (m ≫= f) R.
Proof.
  intros Hm Hf s r s' [(a & s1 & R1 & Hr)|(r0 & R1 & Hno)]%bind_inv; destruct (Hm _ _ _ R1) as [K1 S1].
  - destruct (Hf _ _ _ _ Hr) as [K2 S2]. split; [by etrans|]. intros Hh HK Hl.
    destruct (S1 Hh HK) as [T1 Q1]; [intros c id ad Hc; apply Hl; by apply K2|].
    destruct S2 as [T2 Q2]; [by eapply steps_holds|specialize (Q1 a eq_refl); set_solver|done|]. split; [by etrans|done].
  - split; [done|]. intros Hh HK Hl. destruct (S1 Hh HK Hl) as [T1 _]. split; [done|]. intros b ->. by destruct (Hno b).
Qed.

(** A first part that offers nothing, of whose value something is known. *)
Lemma safe_bind_pure {A B : Type} (m : net (Peers Sys) E A) (f : A → net (Peers Sys) E B) (P : A → Prop) R :
  quiet m → (∀ s a s', m s = Some (Ok a, s') → P a) → (∀ a, P a → safe K (f a) R) → safe K (m ≫= f) R.
Proof.
  intros Hm HP Hf s r s' [(a & s1 & R1 & Hr)|(r0 & R1 & Hno)]%bind_inv; pose proof (Hm _ _ _ R1) as S1.
  - destruct (Hf a (HP _ _ _ R1) _ _ _ Hr) as [K2 S2]. pose proof (steps_known _ _ S1) as K1. split; [by etrans|]. intros Hh HK Hl.
    destruct S2 as [T2 Q2]; [by eapply steps_holds|by etrans|done|]. split; [by etrans|done].
  - split; [by apply steps_known|]. intros _ _ _. split; [done|]. intros b ->. by destruct (Hno b).
Qed.

Lemma safe_ret {A : Type} (a : A) Q : Q a ⊆ K → safe (E := E) K (mret a) Q.
Proof. intros Ha s r s' [= <- <-]. split; [done|]. intros _ HK _. split; [done|]. intros a' [= ->]. by etrans. Qed.

Lemma safe_throw {A : Type} (e : E) Q : safe K (nthrow (A := A) e) Q.
Proof. intros s r s' [= <- <-]. split; [done|]. intros _ HK _. by split. Qed.

Lemma safe_panic {A : Type} Q : safe (E := E) K (nlift (A := A) Panic) Q.
Proof. intros s r s' [= <- <-]. split; [done|]. intros _ HK _. by split. Qed.

Lemma safe_attempt {F A : Type} (m : net (Peers Sys) E A) Q :
  safe K m Q → safe K (nattempt (F := F) m) (λ r, match r with Ok a => Q a | _ => [] end).
Proof.
  intros Hm s r s'. unfold nattempt. destruct (m s) as [[r1 s1]|] eqn:Hs; [|done]. destruct (Hm _ _ _ Hs) as [K1 S1].
  destruct r1 as [a|e|]; intros [= <- <-]; (split; [done|]); intros Hh HK Hl; destruct (S1 Hh HK Hl) as [T1 Q1]; (split; [done|]);
    intros r' [= <-]; [by apply Q1|set_solver].
Qed.

Lemma safe_mono {A : Type} K' (m : net (Peers Sys) E A) Q Q' : K' ⊆ K → (∀ a, Q a ⊆ Q' a) → safe K' m Q' → safe K m Q.
Proof.
  intros HK HQ Hm s r s' Hr. destruct (Hm _ _ _ Hr) as [K1 S1]. split; [done|]. intros Hh HK' Hl.
  destruct S1 as [T1 Q1]; [done|by etrans|done|]. split; [done|]. intros a Ha. etrans; [apply HQ|by apply Q1].
Qed.

Lemma safe_fold {A B : Type} (f : B → A → net (Peers Sys) E B) l : (∀ b a, safe K (f b a) (λ _, [])) → ∀ b, safe K (nfold f l b) (λ _, []).
Proof.
  intros Hf. induction l as [|a l IH]; intros b; cbn [nfold]; [apply safe_ret; set_solver|].
  eapply safe_bind; [apply Hf|]. intros b'. cbn. apply IH.
Qed.
End safe_rules.

(** *** Documents fetched and offered *)

Context (build : str) (tls : bool).

Lemma fetch_hello_quiet address cluster_id : quiet (fetch_document_and_hello build tls address cluster_id).
Proof.
  unfold fetch_document_and_hello. pose proof (quiet_connect tls address (client_hello build cluster_id)).
  assert (∀ ch, quiet (request ch GetClusterConfig)) by (intros; by apply quiet_request). quiet.
Qed.

(** A document fetched is one a node holds. *)
Lemma fetch_hello_known address cluster_id s dh s' :
  fetch_document_and_hello build tls address cluster_id s = Some (Ok dh, s') → holds (view s) → dh.1 ∈ (view s').2.
Proof.
  unfold fetch_document_and_hello. intros Hr Hh. next Hr. apply map_err_ok_inv in R. pose proof (quiet_connect _ _ _ _ _ _ R) as S0.
  apply connect_line in R as (id & _ & Hline). next Hr. apply map_err_ok_inv in R.
  eapply request_moves in R as (y & z & rid & S1 & _ & S2 & Ha); [|exact Hline]. destruct (Ha _ eq_refl eq_refl) as [-> (q & Hq)].
  rewrite serve_view in S2 by done. unfold serve in Hq.
  assert (holds y) as Hy by (eapply steps_holds; [|exact Hh]; by etrans).
  destruct (y.1 !! id) as [nd|] eqn:Ht; [|done]. injection Hq as <- _. next Hr. injection R as _ <-. apply ret_ok_inv in Hr as [-> ->]. cbn.
  apply (steps_known _ _ S2). by eapply Hy.
Qed.

Lemma fetch_safe K address cluster_id : safe K (fetch_document build tls address cluster_id) (λ d, [d]).
Proof.
  apply safe_known; unfold fetch_document; [pose proof (fetch_hello_quiet address cluster_id); quiet|].
  intros s d s' Hr Hh. next Hr. apply ret_ok_inv in Hr as [-> ->]. eapply fetch_hello_known in R; [|done]. set_solver.
Qed.

(** A document may be offered at an address: it is known, or a successor of
    a known document that lists that node first. *)
Definition offerable (K : list ClusterDocument) (a : str) d : Prop :=
  d ∈ K ∨ ∃ c id, c ∈ K ∧ first_address c id = Ok a ∧ first_active c = Some id ∧ c_version d = wrap64 (c_version c + 1).

Lemma serve_apply x id rid d : (serve x id (MRequest rid (ApplyClusterConfig d))).1 = offer x id d.
Proof. unfold serve, offer. by destruct (x.1 !! id). Qed.

Lemma serve_applied x id rid d q : (serve x id (MRequest rid (ApplyClusterConfig d))).2 = MResponse rid RespApplyClusterConfig :: q →
  d ∈ (offer x id d).2.
Proof.
  unfold serve, offer. destruct (x.1 !! id) as [t|]; [|done]. cbn [snd]. unfold adopt.
  destruct (apply_document_guards t.1 d t.2) as [[Hacc _]|[_ (r & -> & Hr)]].
  - pose proof (wp_apply_document t.1 d t.2 Hacc) as Hwp. unfold wp in Hwp.
    destruct (apply_document t.1 d t.2) as [[n'|e|] w']; try done. intros _. destruct Hwp as [(_ & _ & Hok) _].
    destruct (Hok n' eq_refl) as [-> _]. apply list_elem_of_here.
  - destruct r as [n'|e|]; [by destruct (Hr n')|done|done].
Qed.

(** The end of [apply_to]: the request, and an answer that is a success. *)
Lemma applied_parts (g : ConnectionError → AReason) ch d s1 r s' :
  (answer ← nmap_err g (request ch (ApplyClusterConfig d));
   match answer with RespApplyClusterConfig => mret tt | other => nthrow (AAnswer other) end) s1 = Some (r, s') →
  ∃ rs s2, request ch (ApplyClusterConfig d) s1 = Some (rs, s2) ∧ view s' = view s2
    ∧ (∀ u, r = Ok u → rs = Ok RespApplyClusterConfig).
Proof.
  intros [(answer & s2 & R & Hr)|(r0 & R & Hno)]%bind_inv.
  - apply map_err_ok_inv in R. exists (Ok answer), s2. destruct answer; injection Hr as <- <-; by split_and!.
  - unfold nmap_err in R. destruct (request _ _ s1) as [[r1 s2]|] eqn:Hq; [|done]. injection R as _ ->. exists r1, s'.
    split_and!; [done|done|]. intros u ->. by destruct (Hno u).
Qed.

Lemma apply_safe K a cluster_id d : offerable K a d → safe K (apply_to build tls a cluster_id d) (λ _, [d]).
Proof.
  intros Ho. unfold apply_to. intros s r s' Hr.
  apply bind_inv in Hr as [(ch & s1 & R & Hr)|(r0 & R & Hno)].
  2: { unfold nmap_err in R. destruct (connect_with _ _ _ s) as [[r1 s1]|] eqn:Hc; [|done]. injection R as _ ->.
       apply quiet_connect in Hc. split; [by apply steps_known|]. intros _ _ _. split; [done|]. intros u ->. by destruct (Hno u). }
  apply map_err_ok_inv in R. pose proof (quiet_connect _ _ _ _ _ _ R) as S0. apply connect_line in R as (id & Hid & Hline).
  destruct (applied_parts _ _ _ _ _ _ Hr) as (rs & s2 & R & Hv & Hok).
  eapply request_moves in R as (y & z & rid & S1 & Hz & S2 & Ha); [|exact Hline]. rewrite Hv. rewrite serve_apply in Hz, Ha.
  assert ((view s).2 ⊆ y.2) as Hky by (apply steps_known; by etrans).
  assert (y.2 ⊆ z.2) as Hyz by (destruct Hz as [->| ->]; [done|apply offer_known]).
  pose proof (steps_known _ _ S2) as Hzk. split; [set_solver|]. intros Hh HK Hl.
  assert (lawful y id d) as Hlaw.
  { destruct Ho as [Hd|(c & i & Hc & Hfa & Hf & Hver)]; [left; set_solver|right]. apply Exists_exists. exists c.
    destruct (Hl c i a) as [?|Hi]; [set_solver|done|congruence|]. rewrite Hid in Hi. injection Hi as ->. split; [set_solver|done]. }
  assert (steps y z) as Hstep by (destruct Hz as [->| ->]; [done|by apply rtc_once, step_offer]).
  split; [etrans; [exact S0|]; etrans; [exact S1|]; by etrans|]. intros u ->.
  destruct (Ha _ (Hok u eq_refl) eq_refl) as [-> (q & Hq)]. apply serve_applied in Hq. set_solver.
Qed.

(** *** Proposals *)

Lemma report_quiet document entry : quiet (fetch_report build tls document entry).
Proof.
  assert (∀ address, quiet (fetch_document_and_hello build tls address (c_cluster_id document))) as Hf by (intros; apply fetch_hello_quiet).
  unfold fetch_report. quiet.
Qed.

Lemma fetch_all_quiet document skip : quiet (fetch_all_except build tls document skip).
Proof.
  unfold fetch_all_except. induction (asked document skip) as [|entry l IH]; cbn [nmapM]; [apply quiet_ret|].
  pose proof (report_quiet document entry). quiet.
Qed.

Lemma asked_all c : asked c None = active_nodes c.
Proof. unfold asked. induction (active_nodes c) as [|n l IH]; [done|]. rewrite filter_cons_True by done. by rewrite IH. Qed.

Lemma apply_next_safe K current next applied entry :
  (∀ a, first_address current (n_id entry) = Ok a → offerable K a next) →
  safe K (apply_next build tls current next applied entry) (λ _, [next]).
Proof.
  intros Ho. unfold apply_next. eapply (safe_bind_pure _ _ _ (λ a, first_address current (n_id entry) = Ok a)); [apply quiet_lift| |].
  { intros s a s' Hr. by apply lift_ok_inv in Hr as [? _]. }
  intros a Ha. eapply safe_bind; [apply safe_attempt, apply_safe, Ho, Ha|]. intros [u|e|]; [|destruct applied|].
  - apply safe_ret. set_solver.
  - apply safe_throw.
  - apply safe_throw.
  - apply safe_panic.
Qed.

Lemma propose_safe K current next : current ∈ K → c_version next = wrap64 (c_version current + 1) →
  safe K (propose build tls current next) (λ _, []).
Proof.
  intros Hc Hv. unfold propose, propose_skipping. pose proof (fetch_all_quiet current None) as Hq.
  eapply safe_bind; [apply safe_quiet, quiet_lift|intros ?]. eapply safe_bind; [by apply safe_quiet|intros reports].
  eapply safe_bind; [apply safe_quiet, quiet_lift|intros docs]. eapply safe_bind; [apply safe_quiet, quiet_lift|intros ?].
  eapply safe_bind; [apply safe_quiet, quiet_lift|intros ?]. cbn [app]. rewrite asked_all.
  apply (safe_bind _ _ _ (λ _, [])); [|intros; apply safe_ret; set_solver].
  destruct (active_nodes current) as [|entry rest] eqn:Ha; cbn [nfold]; [apply safe_ret; set_solver|].
  eapply safe_bind; [apply apply_next_safe|].
  - intros addr Hfa. right. exists current, (n_id entry). unfold first_active. by rewrite Ha.
  - intros applied. apply safe_fold. intros b n. apply (safe_mono _ (next :: K) _ _ (λ _, [next])); [set_solver|set_solver|].
    apply apply_next_safe. intros addr _. left. set_solver.
Qed.

(** *** What a successful proposal leaves *)

(** Every node holds a document at least as new as before. *)
Definition ahead x y : Prop := x.2 ⊆ y.2 ∧ ∀ id t, x.1 !! id = Some t →
  ∃ t', y.1 !! id = Some t' ∧ c_version (nd_document t.1) ≤ c_version (nd_document t'.1).

#[local] Instance ahead_preorder : PreOrder ahead.
Proof.
  split; [by intros x; split; [|intros id t Ht; exists t]|]. intros x y z [Kxy Hxy] [Kyz Hyz]. split; [by etrans|]. intros id t Ht.
  destruct (Hxy id t Ht) as (t' & Ht' & ?).
  destruct (Hyz id t' Ht') as (t'' & ? & ?). exists t''. split; [done|lia].
Qed.

Lemma offer_ahead x id d : ahead x (offer x id d).
Proof.
  split; [apply offer_known|]. intros i t Ht. unfold offer. destruct (x.1 !! id) as [t0|] eqn:H0'; [|by exists t]. cbn [fst]. destruct (decide (id = i)) as [->|Hne].
  - rewrite lookup_insert_eq. eexists. split; [done|]. rewrite H0' in Ht. injection Ht as ->. apply adopt_version.
  - rewrite lookup_insert_ne by done. by exists t.
Qed.

Lemma steps_ahead x y : steps x y → ahead x y.
Proof. induction 1 as [|x y z [x' id d _] _ IH]; [done|]. etrans; [apply (offer_ahead x' id d)|exact IH]. Qed.

(** The node at an address has adopted [d], and holds it or a newer one. *)
Definition has_reached (a : str) d x : Prop := d ∈ x.2 ∧ ∃ id t, listens a = Some id ∧ x.1 !! id = Some t ∧ c_version d ≤ c_version (nd_document t.1).

Lemma has_reached_ahead a d x y : has_reached a d x → ahead x y → has_reached a d y.
Proof.
  intros [Hd (id & t & Hl & Ht & Hv)] [Hk Hxy]. split; [by apply Hk|]. destruct (Hxy id t Ht) as (t' & Ht' & ?). exists id, t'. split_and!; [done|done|lia].
Qed.

Lemma apply_to_reaches a cluster_id d s r s' : apply_to build tls a cluster_id d s = Some (r, s') →
  ahead (view s) (view s') ∧ ∀ u, r = Ok u → has_reached a d (view s').
Proof.
  unfold apply_to. intros Hr. apply bind_inv in Hr as [(ch & s1 & R & Hr)|(r0 & R & Hno)].
  2: { unfold nmap_err in R. destruct (connect_with _ _ _ s) as [[r1 s1]|] eqn:Hc; [|done]. injection R as _ ->.
       split; [by eapply steps_ahead, quiet_connect|]. intros u ->. by destruct (Hno u). }
  apply map_err_ok_inv in R. pose proof (quiet_connect _ _ _ _ _ _ R) as S0%steps_ahead. apply connect_line in R as (id & Hid & Hline).
  destruct (applied_parts _ _ _ _ _ _ Hr) as (rs & s2 & R & -> & Hok).
  eapply request_moves in R as (y & z & rid & S1%steps_ahead & Hz & S2%steps_ahead & Ha); [|exact Hline]. rewrite serve_apply in Hz, Ha.
  assert (ahead y z) as Hyz by (destruct Hz as [->| ->]; [done|apply offer_ahead]).
  split; [etrans; [exact S0|]; etrans; [exact S1|]; by etrans|]. intros u ->. destruct (Ha _ (Hok u eq_refl) eq_refl) as [-> (q & Hq)].
  eapply has_reached_ahead; [|exact S2]. split; [by eapply serve_applied|]. exists id. unfold serve, offer, adopt in *. destruct (y.1 !! id) as [t|]; [|done]. cbn [fst snd] in *.
  rewrite lookup_insert_eq. destruct (apply_document_guards t.1 d t.2) as [[Hacc _]|[_ (r & Hr' & Hno)]].
  - pose proof (wp_apply_document t.1 d t.2 Hacc) as Hwp. unfold wp in Hwp.
    destruct (apply_document t.1 d t.2) as [[n'|e|] w']; try done. destruct Hwp as [(_ & _ & Hn) _].
    destruct (Hn n' eq_refl) as [-> _]. eexists. by split_and!.
  - rewrite Hr' in Hq. destruct r as [n'|e|]; [by destruct (Hno n')|done|done].
Qed.

Lemma apply_next_reaches current next applied entry s r s' : apply_next build tls current next applied entry s = Some (r, s') →
  ahead (view s) (view s')
  ∧ ∀ u, r = Ok u → ∃ a, first_address current (n_id entry) = Ok a ∧ has_reached a next (view s').
Proof.
  unfold apply_next. intros [(a & s1 & R & Hr)|(r0 & R & Hno)]%bind_inv.
  2: { injection R as _ <-. split; [done|]. intros u ->. by destruct (Hno u). }
  apply lift_ok_inv in R as [Ha ->]. apply bind_inv in Hr as [(o & s1 & R & Hr)|(r0 & R & Hno)]; unfold nattempt in R;
    destruct (apply_to _ _ _ _ _ s) as [[r1 s2]|] eqn:Hp; try done; apply apply_to_reaches in Hp as [Hs Hok].
  - destruct r1 as [u|e|]; [| |done]; injection R as <- <-; [|destruct applied]; injection Hr as <- <-; (split; [done|]); try done.
    intros v _. exists a. split; [done|]. by apply (Hok u).
  - destruct r1; injection R as <- <-; (split; [done|]); intros u ->; by destruct (Hno u).
Qed.

Lemma apply_all_reaches current next l : ∀ applied s u s', nfold (apply_next build tls current next) l applied s = Some (Ok u, s') →
  ahead (view s) (view s') ∧ ∀ entry, entry ∈ l → ∃ a, first_address current (n_id entry) = Ok a ∧ has_reached a next (view s').
Proof.
  induction l as [|entry l IH]; intros applied s u s' Hr; cbn [nfold] in Hr.
  { apply ret_ok_inv in Hr as [_ ->]. split; [done|]. intros e He. by apply elem_of_nil in He. }
  next Hr. apply apply_next_reaches in R as [S1 H1']. destruct (IH _ _ _ _ Hr) as [S2 H2']. split; [by etrans|].
  intros e [->|He]%elem_of_cons; [|by apply H2']. destruct (H1' x eq_refl) as (a & Ha & Hreach). exists a. split; [done|].
  by eapply has_reached_ahead.
Qed.

Lemma mapM_length {E A B : Type} (f : A → net (Peers Sys) E B) l : ∀ s ys s', nmapM f l s = Some (Ok ys, s') → length ys = length l.
Proof.
  induction l as [|a l IH]; intros s ys s' Hr; cbn [nmapM] in Hr; [by apply ret_ok_inv in Hr as [-> _]|].
  next Hr. next Hr. apply ret_ok_inv in Hr as [-> _]. cbn. by rewrite (IH _ _ _ R0).
Qed.

Lemma documents_of_length reports documents : documents_of reports = Ok documents → length documents = length reports.
Proof. intros Hd%map_res_Ok. by apply Forall2_length in Hd. Qed.

Lemma check_versions_ok current (documents : list (NodeId * ClusterDocument)) u :
  check_versions current (prod_map id c_version <$> documents) = Ok u → Forall (λ nd : NodeId * ClusterDocument, c_version nd.2 = c_version current) documents.
Proof.
  unfold check_versions. destruct (forallb _ _) eqn:Hb.
  - intros _. apply Forall_forall. intros [n d] Hin. apply Z.eqb_eq. rewrite List.forallb_forall in Hb. apply (Hb (n, c_version d)).
    apply list_elem_of_In. by apply (list_elem_of_fmap_2 (prod_map id c_version) _ (n, d)).
  - destruct documents as [|[n d] l]; [done|]. intros Hx. cbn in Hx. by destruct (_ && _).
Qed.


Lemma removed_not_active c id : is_active_member (document_with_node_removed c id) id = false.
Proof.
  unfold is_active_member, document_with_node_removed, Cluster.node. cbn.
  induction (c_nodes c) as [|n l IH]; [done|]. cbn. destruct (Z.eqb_spec (n_id n) id) as [Hn|Hn]; cbn; rewrite ?Hn, ?Z.eqb_refl; [done|].
  by rewrite (proj2 (Z.eqb_neq _ _) Hn).
Qed.

(** C39. The forced removal of a node does not notice what that node may have:
    when a successor of the document it starts from exists already (the node
    removed is listed first, adopted it and was lost before any other node
    did), a forced removal that succeeds adds a second, different document of
    the same version, which [Diverged] calls impossible. *)
Theorem forced_removal_diverges plan a s next s' :
  execute_forced_removal build tls plan s = Some (Ok next, s') →
  asked (fr_current plan) (Some (fr_node plan)) ≠ [] →
  a ∈ (view s).2 → c_version a = wrap64 (c_version (fr_current plan) + 1) → is_active_member a (fr_node plan) = true →
  a ∈ (view s').2 ∧ next ∈ (view s').2 ∧ c_version a = c_version next ∧ a ≠ next.
Proof.
  unfold execute_forced_removal. intros Hr Hasked Ha Hv Hact. next Hr. apply ret_ok_inv in Hr as [-> ->].
  set (next := document_with_node_removed _ _) in *. unfold propose_skipping in R.
  next R. apply lift_ok_inv in R0 as [_ ->]. next R. pose proof (steps_ahead _ _ (fetch_all_quiet _ _ _ _ _ R0)) as S1. clear R0.
  next R. apply lift_ok_inv in R0 as [_ ->]. next R. apply lift_ok_inv in R0 as [_ ->]. next R. apply lift_ok_inv in R0 as [_ ->].
  next R. apply ret_ok_inv in R as [_ ->]. apply apply_all_reaches in R0 as [S2 Hall]. split_and!.
  - apply S2, S1, Ha.
  - destruct (asked _ _) as [|entry l]; [done|]. by destruct (Hall entry (list_elem_of_here _ _)) as (ad & _ & Hd & _).
  - done.
  - intros ->. unfold next in Hact. by rewrite removed_not_active in Hact.
Qed.

(** *** Every procedure *)

(** A change that offers nothing and whose successor is the next version. *)
Definition changes (change : ClusterDocument → net (Peers Sys) AdminError (option ClusterDocument)) : Prop := ∀ c,
  quiet (change c) ∧ ∀ s next s', change c s = Some (Ok (Some next), s') → c_version next = wrap64 (c_version c + 1).

Lemma retrying_safe K attempts peer cluster_id change : changes change →
  safe K (retrying build tls attempts peer cluster_id change) (λ _, []).
Proof.
  intros Hch. revert K. induction attempts as [|attempts IH]; intros K; cbn [retrying]; [apply safe_throw|].
  eapply safe_bind; [apply fetch_safe|]. intros current. destruct (Hch current) as [Hq Hnext].
  eapply (safe_bind_pure _ _ _ (λ o, ∀ next, o = Some next → c_version next = wrap64 (c_version current + 1))); [done| |].
  { intros s o s' Hr next ->. by eapply Hnext. }
  intros [next|] Hv; [|apply safe_ret; set_solver].
  eapply safe_bind; [apply safe_attempt, propose_safe; [set_solver|by apply Hv]|].
  intros [u|e|]; [apply safe_ret; set_solver| |apply safe_panic].
  destruct e; try apply safe_throw; apply IH.
Qed.

Lemma quiet_pages fuel ch unreachable device : ∀ records after, quiet (reference_pages fuel ch unreachable device records after).
Proof.
  induction fuel as [|fuel IH]; intros records after; cbn [reference_pages]; [done|].
  assert (∀ r, (∀ d, r ≠ ApplyClusterConfig d) → quiet (request ch r)) as Hq by apply quiet_request. quiet.
Qed.

Lemma quiet_scan fuel document devices skip : quiet (scan_references build tls fuel document devices skip).
Proof.
  unfold scan_references, scan_node, scan_device. pose proof quiet_connect. pose proof quiet_pages. quiet.
Qed.

Lemma quiet_tls_ready current cluster_id entry : quiet (check_tls_ready build tls current cluster_id entry).
Proof.
  unfold check_tls_ready. pose proof quiet_connect. assert (∀ ch, quiet (request ch LocalStatus)) by (intros; by apply quiet_request). quiet.
Qed.

(** What an administrator may ask for. *)
Inductive Procedure :=
| DoSetDeviceState (peer : str) (cluster_id : Z) (device : DeviceId) (state : DeviceState)
| DoSetScheme (peer : str) (cluster_id k m : Z) (block_size : option Z)
| DoSetLimits (peer : str) (cluster_id : Z) (key object metadata : option Z)
| DoSetNodeLabel (peer : str) (cluster_id : Z) (id : NodeId) (label : option str)
| DoSetClusterName (peer : str) (cluster_id : Z) (name : option str)
| DoSetNodeAddresses (peer : str) (cluster_id : Z) (id : NodeId) (addresses : list str)
| DoSetDeviceLabel (peer : str) (cluster_id : Z) (device : DeviceId) (label : option str)
| DoSetTransport (peer : str) (cluster_id : Z) (transport : Transport)
| DoRemoveDeviceForced (peer : str) (cluster_id : Z) (device : DeviceId)
| DoRemoveDevice (peer : str) (cluster_id : Z) (device : DeviceId)
| DoRemoveNode (peer : str) (cluster_id : Z) (id : NodeId)
| DoSync (seed : str) (cluster_id : Z).

Definition perform (fuel : nat) (p : Procedure) : net (Peers Sys) AdminError unit :=
  match p with
  | DoSetDeviceState peer cl device state => _ ← set_device_state build tls peer cl device state; mret tt
  | DoSetScheme peer cl k m b => _ ← set_scheme build tls peer cl k m b; mret tt
  | DoSetLimits peer cl k o m => _ ← set_limits build tls peer cl k o m; mret tt
  | DoSetNodeLabel peer cl id label => _ ← set_node_label build tls peer cl id label; mret tt
  | DoSetClusterName peer cl name => _ ← set_cluster_name build tls peer cl name; mret tt
  | DoSetNodeAddresses peer cl id addresses => _ ← set_node_addresses build tls peer cl id addresses; mret tt
  | DoSetDeviceLabel peer cl device label => _ ← set_device_label build tls peer cl device label; mret tt
  | DoSetTransport peer cl transport => _ ← set_transport build tls peer cl transport; mret tt
  | DoRemoveDeviceForced peer cl device => _ ← remove_device_forced build tls peer cl device; mret tt
  | DoRemoveDevice peer cl device => _ ← remove_device build tls fuel peer cl device; mret tt
  | DoRemoveNode peer cl id => _ ← remove_node build tls fuel peer cl id; mret tt
  | DoSync seed cl => _ ← sync build tls seed cl; mret tt
  end.

(** One procedure after the other, whatever became of the one before. *)
Definition administer (fuel : nat) (ps : list Procedure) : net (Peers Sys) AdminError unit :=
  nfold (λ _ p, _ ← nattempt (perform fuel p); mret tt) ps tt.

Lemma changes_lookup {X : Type} (find : ClusterDocument → option X) (missing : AdminError) (same : X → bool)
    (edit : ClusterDocument → ClusterDocument) : (∀ c, c_version (edit c) = c_version c) →
  changes (λ current, entry ← nlift (ok_or (find current) missing);
    if same entry then mret None else mret (Some (edit (bumped current)))).
Proof.
  intros He c. split; [quiet|]. intros s next s' Hr. next Hr. destruct (same x); apply ret_ok_inv in Hr as [Hr _]; [done|].
  injection Hr as ->. by rewrite He.
Qed.

Lemma highest_known (K : list ClusterDocument) seed reports : seed ∈ K → (∀ r d, r ∈ reports → no_result r = inr d → d ∈ K) → highest_of seed reports ∈ K.
Proof.
  unfold highest_of. revert seed. induction reports as [|r reports IH]; intros seed Hs Hr; cbn [fold_left]; [done|].
  apply IH; [|intros r' d Hr'; apply Hr; by apply list_elem_of_further].
  destruct (no_result r) as [e|d] eqn:Hd; [done|]. destruct (_ <? _); [|done]. eapply Hr; [apply list_elem_of_here|done].
Qed.

Definition reported (reports : list NodeDocument) : list ClusterDocument :=
  omap (λ r, match no_result r with inr d => Some d | inl _ => None end) reports.

Lemma fetch_all_safe K document skip : safe K (fetch_all_except build tls document skip) reported.
Proof.
  unfold fetch_all_except. generalize (asked document skip). intros l. revert K. induction l as [|entry l IH]; intros K; cbn [nmapM]; [apply safe_ret; set_solver|].
  eapply (safe_bind _ _ _ (λ r, reported [r])).
  - apply safe_known; [apply report_quiet|]. intros s r s' Hr Hh. unfold fetch_report in Hr. next Hr. apply attempt_ok_inv in R.
    destruct x as [[d h]|e|]; [|apply ret_ok_inv in Hr as [-> ->]; set_solver|done]. apply ret_ok_inv in Hr as [-> ->].
    next R. apply lift_ok_inv in R0 as [_ ->]. eapply fetch_hello_known in R; [|done]. cbn in *. set_solver.
  - intros r. eapply safe_bind; [apply IH|]. intros rs. apply safe_ret. unfold reported. cbn. destruct (no_result r); set_solver.
Qed.

Lemma sync_safe K seed cluster_id : safe K (sync build tls seed cluster_id) (λ _, []).
Proof.
  unfold sync. eapply safe_bind; [apply fetch_safe|]. intros seed_document. eapply safe_bind; [apply fetch_all_safe|]. intros reports.
  set (highest := highest_of seed_document reports).
  assert (∀ X, highest ∈ X ++ reported reports ++ [seed_document] ++ K) as Hh.
  { intros X. apply elem_of_app. right. apply highest_known; [set_solver|]. intros r d Hr Hd. apply elem_of_app. left.
    apply list_elem_of_omap. exists r. by rewrite Hd. }
  eapply (safe_bind _ _ _ (λ _, [])); [|intros rs].
  { destruct (_ =? _); [apply safe_ret; set_solver|]. apply safe_quiet, fetch_all_quiet. }
  eapply safe_bind; [apply safe_quiet, quiet_lift|]. intros u. apply safe_fold. intros b r. unfold sync_node.
  destruct (no_result r) as [e|d]; [apply safe_ret; set_solver|]. destruct (_ =? _); [apply safe_ret; set_solver|].
  eapply safe_bind; [apply safe_quiet, quiet_lift|]. intros a.
  eapply safe_bind; [apply safe_attempt, apply_safe; left; apply (Hh [])|]. intros [v|e|]; [apply safe_ret; set_solver..|apply safe_panic].
Qed.

Lemma perform_safe fuel K p : safe K (perform fuel p) (λ _, []).
Proof.
  destruct p; cbn [perform]; (eapply (safe_bind _ _ _ (λ _, [])); [|intros; apply safe_ret; set_solver]).
  all: try (by apply sync_safe).
  all: try (unfold remove_node; eapply (safe_bind _ _ _ (λ _, [])); [|intros; apply safe_ret; set_solver]).
  all: apply retrying_safe; try (by apply changes_lookup).
  all: intros c; cbv beta zeta; pose proof quiet_scan; pose proof quiet_tls_ready; (split; [quiet|]); intros s nxt s' Hr.
  all: repeat match type of Hr with
       | (mbind _ _) _ = _ => next Hr
       | (if ?b then _ else _) _ = _ => destruct b
       end.
  all: apply ret_ok_inv in Hr as [Hr _]; [discriminate || (injection Hr as ->; reflexivity)].
Qed.

Lemma administer_safe fuel K ps : safe K (administer fuel ps) (λ _, []).
Proof.
  unfold administer. apply safe_fold. intros u p. eapply (safe_bind _ _ _ (λ _, [])); [|intros; apply safe_ret; set_solver].
  eapply safe_mono; [done| |apply safe_attempt, perform_safe]. intros [?|?|]; set_solver.
Qed.


End network.

(** ** Witnesses: a change that is overtaken, a sync, and the change again *)

Section witnesses.
#[local] Existing Instance decimal_uuid.
#[local] Instance bare_texts : CoordTexts := {| BUILD := []; ctext := λ _, [] |}.
#[local] Instance bare_documents : DocumentText := {| document_pretty := λ _, []; document_from_str := λ _, None |}.

Definition document20 : ClusterDocument :=
  with_nodes [Cluster.mkNode 11 [lit "10.0.0.1:5263"] None NodeActive; Cluster.mkNode 12 [lit "10.0.0.2:5263"] None NodeActive] doc1.
Definition rival20 : ClusterDocument := with_name (Some (lit "a")) (bumped document20).

Definition node20 : Node unit := Node.mkNodeState config1 document20 [] ∅ ∅ false ∅ None.
Definition listens20 (a : str) : option NodeId :=
  if str_eqb a (lit "10.0.0.1:5263") then Some 11 else if str_eqb a (lit "10.0.0.2:5263") then Some 12 else None.
Definition silent20 (n : Node unit) (id : Z) (r : Request) : list Message := [].

Definition world20 : World := cluster1.2.
Definition view20 : View (TlsMaterial := unit) := ({[11 := (node20, world20); 12 := (node20, world20)]}, [document20]).

(** The rival reaches the first node just before the change would. *)
Definition script20 : list (list (NodeId * ClusterDocument) * Fault) := replicate 15 ([], Well) ++ [([(11, rival20)], Well)].
Definition peers20 : Peers (Sys (TlsMaterial := unit)) := mkPeers (mkSys view20 ∅ script20) [] [].

Definition procedures20 : list Procedure :=
  [DoSetClusterName (lit "10.0.0.2:5263") 193 (Some (lit "b")); DoSync (lit "10.0.0.2:5263") 193;
   DoSetClusterName (lit "10.0.0.2:5263") 193 (Some (lit "b"))].

Definition run20 := administer (λ _, []) listens20 silent20 [] false 0 procedures20 peers20.

Definition check20 : bool :=
  match run20 with
  | Some (Ok _, s') =>
      forallb (λ c, bool_decide (c_nodes c = c_nodes document20)) (sy_view (pe_net s')).2
      && bool_decide (list_max (Z.to_nat <$> (c_version <$> (sy_view (pe_net s')).2)) = 3%nat)
  | _ => false
  end.
Lemma leads20 (K : list ClusterDocument) : (∀ c, c ∈ K → c_nodes c = c_nodes document20) → leads listens20 K.
Proof.
  intros HK c id a Hc Hf. right. unfold first_address, Cluster.node in Hf. rewrite (HK c Hc) in Hf.
  cbn [c_nodes document20 with_nodes List.find n_id] in Hf.
  destruct (Z.eqb_spec 11 id) as [<-|_]; [|destruct (Z.eqb_spec 12 id) as [<-|_]]; [vm_compute in Hf; injection Hf as <-; reflexivity..|done].
Qed.

Lemma run20_leads : ∃ u s', run20 = Some (Ok u, s') ∧ leads listens20 (view s').2.
Proof.
  assert (check20 = true) as Hc by (vm_compute; reflexivity). unfold check20 in Hc.
  destruct run20 as [[[u|e|] s']|]; try done. exists u, s'. split; [done|]. apply andb_true_iff in Hc as [Hc _].
  apply leads20. intros c Hin. eapply List.forallb_forall in Hc; [by apply bool_decide_eq_true in Hc|by apply list_elem_of_In].
Qed.

Lemma consistent20 : consistent 1 view20.
Proof.
  assert (∀ c : ClusterDocument, c ∈ [document20] → c = document20) as Hk by (intros c Hc; by apply list_elem_of_singleton in Hc).
  split; cbn [view20 fst snd].
  - intros id s [[<- <-]|[_ Hs]]%lookup_insert_Some; [apply list_elem_of_here|].
    apply lookup_singleton_Some in Hs as [<- <-]. apply list_elem_of_here.
  - intros c ->%Hk. by vm_compute.
  - by intros c d ->%Hk ->%Hk.
  - intros d ->%Hk. by left.
Qed.

Definition success20 := propose (H := Cluster_network (λ _, []) listens20 silent20) [] false document20 rival20 (mkPeers (mkSys view20 ∅ []) [] []).


(** The first node adopted a change and is lost; the other is asked to go on
    without it. *)
Definition listens21 (a : str) : option NodeId := if str_eqb a (lit "10.0.0.2:5263") then Some 12 else None.
Definition view21 : View (TlsMaterial := unit) := offer view20 11 rival20.
Definition plan21 := plan_forced_removal (H := Cluster_network (λ _, []) listens21 silent20) [] false 0
  (lit "10.0.0.2:5263") 193 11 (mkPeers (mkSys view21 ∅ []) [] []).
Definition forced21 (plan : ForcedRemovalPlan) :=
  execute_forced_removal (H := Cluster_network (λ _, []) listens21 silent20) [] false plan (mkPeers (mkSys view21 ∅ []) [] []).

Lemma run21 : ∃ plan s1 next s2, plan21 = Some (Ok plan, s1) ∧ forced21 plan = Some (Ok next, s2)
  ∧ asked (fr_current plan) (Some (fr_node plan)) ≠ [] ∧ fr_node plan = 11
  ∧ c_version rival20 = wrap64 (c_version (fr_current plan) + 1).
Proof.
  assert (match plan21 with
          | Some (Ok plan, _) =>
              match forced21 plan with Some (Ok _, _) => true | _ => false end
              && negb (bool_decide (length (asked (fr_current plan) (Some (fr_node plan))) = 0%nat)) && (fr_node plan =? 11)
              && (c_version (fr_current plan) =? 1)
          | _ => false
          end = true) as Hc by (vm_compute; reflexivity).
  destruct plan21 as [[[plan|e|] s1]|]; [|discriminate Hc..]. apply andb_true_iff in Hc as [Hc Hv%Z.eqb_eq].
  apply andb_true_iff in Hc as [Hc Hn%Z.eqb_eq]. apply andb_true_iff in Hc as [Hc Hl%negb_true_iff%bool_decide_eq_false].
  destruct (forced21 plan) as [[[next|e|] s2]|] eqn:Hf; [|discriminate Hc..]. exists plan, s1, next, s2. rewrite Hv.
  split_and!; [reflexivity|exact Hf| |exact Hn|reflexivity]. intros Hnil. by rewrite Hnil in Hl.
Qed.

Lemma forced_removal_diverges_witness : ∃ plan next s', forced21 plan = Some (Ok next, s')
  ∧ rival20 ∈ (view s').2 ∧ next ∈ (view s').2 ∧ c_version rival20 = c_version next ∧ rival20 ≠ next.
Proof.
  destruct run21 as (plan & s1 & next & s2 & _ & Hf & Ha & Hn & Hv). exists plan, next, s2. split; [exact Hf|].
  apply (forced_removal_diverges _ _ _ [] false plan rival20 _ next s2 Hf Ha).
  - apply (bool_decide_unpack _). vm_compute. exact I.
  - exact Hv.
  - rewrite Hn. vm_compute. reflexivity.
Defined.


End witnesses.
End AdminSpec.
