(* ===== verification/Recover.v ===== *)
(** [djbod-recover/src/main.rs]: given device directories and no running
    cluster, list the versions present and reassemble any of them.  It reads
    the objects trees directly.

    What is printed is returned: the rows of the listing, the problems found.
    The object is written through a [BufWriter], whose buffer is explicit: an
    error carries what is still in it, which is written when it is dropped. *)

From S2P Require Import Prelude Text Checksum KeyHash VersionId Erasure Layout Stripe FileSystem ShardFile Record Device.

Module Recover.

(** ** What is found *)

Inductive Problem :=
| NoBucket (root : path)
| NotAKeyHash (p : path)
| CannotRead (p : path) (e : io_error)
| DamagedRecord (p : path) (e : RecordError)
| MisplacedRecord (p : path)
| Disagrees (p : path)
| MisplacedShard (p : path)
| DamagedShard (p : path) (e : ShardFileError).

Inductive RecoverError :=
| Reading (dir : path) (e : io_error)
| OutExists (out : path)
| NoRecordOf (key : str)
| NotAVersion (text : str)
| NoRecordAt (key text : str)
| InvalidScheme (e : SchemeError)
| Creating (p : path) (e : io_error)
| ImpossibleSize
| TooFewShards (intact : nat)
| Decoding (e : StripeError)
| UnrecoverableStripe (stripe usable needed : Z) (faults : list BlockFault)
| Writing (e : io_error)
| WrongChecksum (computed recorded : BlockChecksum)
| Renaming (from to : path) (e : io_error).

(** An error there is none of. *)
Definition no_error {E : Type} (e : Empty_set) : E := match e with end.

(** [Ord] of the pairs the maps are keyed by *)
Definition pair_compare (p q : list Z * list Z) : comparison :=
  match lex_compare p.1 q.1 with Eq => lex_compare p.2 q.2 | c => c end.

(** [BTreeMap::insert] and [get] *)
Fixpoint map_insert {K A : Type} (cmp : K → K → comparison) (k : K) (v : A) (m : list (K * A)) : list (K * A) :=
  match m with
  | [] => [(k, v)]
  | (k', v') :: rest =>
      match cmp k k' with
      | Lt => (k, v) :: m
      | Eq => (k', v) :: rest
      | Gt => (k', v') :: map_insert cmp k v rest
      end
  end.

Fixpoint map_get {K A : Type} (cmp : K → K → comparison) (k : K) (m : list (K * A)) : option A :=
  match m with
  | [] => None
  | (k', v') :: rest => match cmp k k' with Eq => Some v' | _ => map_get cmp k rest end
  end.

Record Found := mkRecovered {
  fo_records : list ((str * VersionId) * MetadataRecord);
  fo_shards : list ((KeyHash * VersionId) * list (ShardIndex * path));
  fo_problems : list Problem;
}.

Definition problem (found : Found) (p : Problem) : Found :=
  mkRecovered (fo_records found) (fo_shards found) (fo_problems found ++ [p]).

(** The winning record for a version: the highest revision seen. *)
Definition note_record (entry : path) (record : MetadataRecord) (found : Found) : Found :=
  let slot := (r_key record, r_version record) in
  let inserted := mkRecovered (map_insert pair_compare slot record (fo_records found)) (fo_shards found) (fo_problems found) in
  match map_get pair_compare slot (fo_records found) with
  | Some existing =>
      if r_revision record <? r_revision existing then found
      else if (r_revision existing =? r_revision record) && negb (bool_decide (existing = record))
           then problem found (Disagrees entry) else inserted
  | None => inserted
  end.

Definition note_shard_file (entry : path) (hash : KeyHash) (version : VersionId) (index : ShardIndex) (found : Found) : Found :=
  let shards := default [] (map_get pair_compare (hash, version) (fo_shards found)) in
  mkRecovered (fo_records found)
    (map_insert pair_compare (hash, version) (map_insert Z.compare index entry shards) (fo_shards found)) (fo_problems found).

(** ** Names *)

(** [OsStr] split at its last dot *)
Fixpoint rsplit_dot (s : str) : option (str * str) :=
  match s with
  | [] => None
  | c :: s =>
      match rsplit_dot s with
      | Some (before, after) => Some (c :: before, after)
      | None => if c =? 46 then Some ([], s) else None
      end
  end.

(** [Path::extension] and [Path::file_stem] of a name *)
Definition extension (name : str) : option str :=
  match rsplit_dot name with Some ([], _) => None | Some (_, after) => Some after | None => None end.
Definition file_stem (name : str) : str :=
  match rsplit_dot name with Some ([], _) => name | Some (before, _) => before | None => name end.

Definition with_extension (p : path) (ext : str) : path :=
  match file_name p with
  | Some name => with_file_name p (file_stem name ++ lit "." ++ ext)
  | None => p
  end.

(** The file the object is written to before it is renamed. *)
Definition partial_path (out : path) : path :=
  with_extension out
    (match file_name out with
     | Some name => match extension name with Some ext => ext ++ lit ".partial" | None => lit "partial" end
     | None => lit "partial"
     end).

(** ** Scanning *)

Section recover.
Context `{Sha256} `{Xxh3} `{SerdeJson} `{Uuid} `{Rfc3339} `{ReedSolomonLib}.
Abbreviation run A := (io RecoverError A).

Definition sorted_entries (dir : path) : run (list path) :=
  names ← io_map_err (Reading dir) (fs_read_dir dir);
  mret (join dir <$> merge_sort lex_le names).

Definition scan_record_file (dir_hash : KeyHash) (version : VersionId) (found : Found) (entry : path) : run Found :=
  r ← attempt (read_to_string entry);
  match r with
  | Err e => mret (problem found (CannotRead entry e))
  | Panic => lift Panic
  | Ok json =>
      match from_json json with
      | Err e => mret (problem found (DamagedRecord entry e))
      | Panic => lift Panic
      | Ok record =>
          if bool_decide (r_key_hash record = dir_hash) && bool_decide (r_version record = version)
          then mret (note_record entry record found) else mret (problem found (MisplacedRecord entry))
      end
  end.

Definition scan_shard_file (dir_hash : KeyHash) (version : VersionId) (index : ShardIndex) (found : Found) (entry : path) : run Found :=
  r ← attempt (ShardFileReader_open entry);
  match r with
  | Ok reader =>
      let header := sr_header reader in
      if bool_decide (sh_key_hash header = dir_hash) && bool_decide (sh_version header = version) && (sh_index header =? index)
      then mret (note_shard_file entry dir_hash version index found) else mret (problem found (MisplacedShard entry))
  | Err e => mret (problem found (DamagedShard entry e))
  | Panic => lift Panic
  end.

Definition scan_entry (dir_hash : KeyHash) (found : Found) (entry : path) : run Found :=
  match parse_record_file_name (name_of entry) with
  | Some version => scan_record_file dir_hash version found entry
  | None =>
      match parse_shard_file_name (name_of entry) with
      | Some (version, index) => scan_shard_file dir_hash version index found entry
      | None => mret found
      end
  end.

Definition scan_key_directory (found : Found) (key_dir : path) : run Found :=
  hash ← lift (map_err no_error (hash_from_hex (name_of key_dir)));
  match hash with
  | None => mret (problem found (NotAKeyHash key_dir))
  | Some dir_hash => entries ← sorted_entries key_dir; io_fold (scan_entry dir_hash) entries found
  end.

Definition scan_second (found : Found) (second : path) : run Found :=
  keys ← sorted_entries second;
  io_fold (λ found key_dir,
    is_dir ← fs_is_dir key_dir;
    if is_dir : bool then scan_key_directory found key_dir else mret found) keys found.

Definition scan_first (found : Found) (first : path) : run Found :=
  seconds ← sorted_entries first; io_fold scan_second seconds found.

Definition scan_root (found : Found) (root : path) : run Found :=
  is_dir ← fs_is_dir (bucket_path root);
  if is_dir : bool then firsts ← sorted_entries (bucket_path root); io_fold scan_first firsts found
  else mret (problem found (NoBucket root)).

Definition scan (device_paths : list path) : run Found := io_fold scan_root device_paths (mkRecovered [] [] []).

(** ** Listing *)

Record Row := mkRow {
  row_key : str + KeyHash; row_version : VersionId; row_revision : option Z; row_size : option Z;
  row_present : nat; row_total : option Z; row_recoverable : bool;
}.

Definition record_row (found : Found) (e : (str * VersionId) * MetadataRecord) : Row :=
  let record := e.2 in
  let present := length (default [] (map_get pair_compare (r_key_hash record, e.1.2) (fo_shards found))) in
  mkRow (inl e.1.1) e.1.2 (Some (r_revision record)) (Some (r_size record)) present (Some (r_k record + r_m record))
    ((r_size record =? 0) || (r_k record <=? Z.of_nat present)).

Definition orphan_row (found : Found) (e : (KeyHash * VersionId) * list (ShardIndex * path)) : option Row :=
  if existsb (λ r : (str * VersionId) * MetadataRecord, bool_decide (r_key_hash r.2 = e.1.1) && bool_decide (r_version r.2 = e.1.2)) (fo_records found)
  then None else Some (mkRow (inr e.1.1) e.1.2 None None (length e.2) None false).

(** The rows, the problems, and the exit code. *)
Definition list_versions (device_paths : list path) : run (list Row * list Problem * Z) :=
  found ← scan device_paths;
  let rows := (record_row found <$> fo_records found) ++ omap (orphan_row found) (fo_shards found) in
  let unrecoverable := length (filter (λ r, row_recoverable r = false) rows) in
  mret (rows, fo_problems found, if (0 <? unrecoverable)%nat || negb (bool_decide (length (fo_problems found) = 0%nat)) then 2 else 0).

(** ** Writing an object *)

(** The capacity of a [BufWriter]. *)
Definition BUFFER_CAPACITY : nat := 8 * 1024.

(** A step that fails with what is left in the buffer. *)
Abbreviation buffered A := (io (RecoverError * list Z) A).

Definition flush_buf (p : path) (buffer : list Z) : buffered unit :=
  match buffer with
  | [] => mret tt
  | _ =>
      f ← io_map_err (λ e, (Writing e, buffer)) next_fault;
      match f with
      | Some f => _ ← write_bytes p (take (f_done f) buffer); throw (Writing (Failed (f_kind f)), drop (f_done f) buffer)
      | None => write_bytes p buffer
      end
  end.

Definition buf_write_all (p : path) (buffer data : list Z) : buffered (list Z) :=
  if (length data <? BUFFER_CAPACITY - length buffer)%nat then mret (buffer ++ data)
  else
    buffer ← (if (BUFFER_CAPACITY - length buffer <? length data)%nat then _ ← flush_buf p buffer; mret [] else mret buffer);
    if (BUFFER_CAPACITY <=? length data)%nat
    then _ ← io_map_err (λ e, (Writing e, buffer)) (fs_write_all p data); mret buffer
    else mret (buffer ++ data).

(** The reader of a shard that describes this version's object. *)
Definition open_reader (record : MetadataRecord) (s : Scheme) (count : Z) (readers : list (ShardIndex * ShardFileReader))
    (e : ShardIndex * path) : buffered (list (ShardIndex * ShardFileReader)) :=
  r ← attempt (ShardFileReader_open e.2);
  match r with
  | Ok reader =>
      let header := sr_header reader in
      let footer := sr_footer reader in
      if bool_decide (sh_scheme header = s) && (sh_block_length header =? r_block_size record)
         && (sf_object_size footer =? r_size record) && (sf_object_checksum footer =? r_object_checksum record)
         && (sf_block_count footer =? count)
      then mret (readers ++ [(e.1, reader)]) else mret readers
  | Err _ => mret readers
  | Panic => lift Panic
  end.

Definition read_column (stripe : Z) (received : list ShardBlock) (e : ShardIndex * ShardFileReader) : buffered (list ShardBlock) :=
  r ← attempt (read_block e.2 stripe);
  match r with
  | Ok block => mret (received ++ [block])
  | Err _ => mret received
  | Panic => lift Panic
  end.

(** What has been written so far, and what of it is in the buffer. *)
Record Progress := mkProgress { pr_hashed : list Z; pr_buffer : list Z }.

Definition write_stripe (p : path) (record : MetadataRecord) (s : Scheme) (code : ReedSolomonCode)
    (readers : list (ShardIndex * ShardFileReader)) (done : Progress) (stripe : Z) : buffered Progress :=
  received ← io_fold (read_column stripe) readers [];
  let stripe_size := wrap64 (data_shards s * r_block_size record) in
  let stripe_len := Z.min (wrap64 (r_size record - wrap64 (stripe * stripe_size))) stripe_size in
  decoded ← lift (map_err (λ e, (Decoding e, pr_buffer done)) (decode_stripe code (shard_indices s) received stripe_len));
  data ← lift match decoded with
              | Intact data | Repaired data _ => Ok data
              | Unrecoverable usable needed faults => Err (UnrecoverableStripe stripe usable needed faults, pr_buffer done)
              end;
  buffer ← buf_write_all p (pr_buffer done) data;
  mret (mkProgress (pr_hashed done ++ data) buffer).

Definition fill (p : path) (record : MetadataRecord) (s : Scheme) (found : Found) (key_hash : KeyHash) : buffered unit :=
  if r_size record =? 0 then mret tt
  else
    geometry ← lift (shard_geometry s (r_block_size record) (r_size record));
    geometry ← lift (ok_or geometry (ImpossibleSize, []));
    let paths := default [] (map_get pair_compare (key_hash, r_version record) (fo_shards found)) in
    readers ← io_fold (open_reader record s (g_block_count geometry)) paths [];
    _ ← lift (ensure (negb (Z.of_nat (length readers) <? data_shards s)) (TooFewShards (length readers), []));
    code ← lift (map_err no_error (ReedSolomonCode_new s));
    done ← io_fold (write_stripe p record s code readers) (seqZ 0 (g_block_count geometry)) (mkProgress [] []);
    _ ← flush_buf p (pr_buffer done);
    let computed := checksum_block (pr_hashed done) in
    lift (ensure (computed =? r_object_checksum record) (WrongChecksum computed (r_object_checksum record), [])).

Definition write_object (record : MetadataRecord) (s : Scheme) (found : Found) (key_hash : KeyHash) (partial : path) : run unit :=
  _ ← io_map_err (Creating partial) (fs_create partial);
  r ← attempt (fill partial record s found key_hash);
  match r with
  | Ok _ => mret tt
  | Err (e, buffer) => _ ← ignore (flush_buf partial buffer); throw e
  | Panic => lift Panic
  end.

(** ** Extracting *)

Definition select_record (key : str) (version : option str) (found : Found) : res RecoverError MetadataRecord :=
  let versions := snd <$> filter (λ e : (str * VersionId) * MetadataRecord, e.1.1 = key) (fo_records found) in
  _ ← ensure (negb (bool_decide (length versions = 0%nat))) (NoRecordOf key);
  match version with
  | Some text =>
      wanted ← ok_or (from_text text) (NotAVersion text);
      ok_or (List.find (λ r, bool_decide (r_version r = wanted)) versions) (NoRecordAt key text)
  | None => expect (last versions)
  end.

Definition extract (key : str) (version : option str) (out : path) (device_paths : list path) : run unit :=
  exists_already ← fs_exists out;
  _ ← lift (ensure (negb exists_already) (OutExists out));
  found ← scan device_paths;
  record ← lift (select_record key version found);
  s ← lift (map_err InvalidScheme (record_scheme record));
  let partial := partial_path out in
  r ← attempt (write_object record s found (hash_key (as_bytes key)) partial);
  match r with
  | Ok _ => io_map_err (Renaming partial out) (fs_rename partial out)
  | Err e => _ ← ignore (fs_remove_file partial); throw e
  | Panic => lift Panic
  end.
End recover.
End Recover.
