(* ===== verification/RecoverSpec.v ===== *)
(** What the recovery tool promises, whatever the disks hold and whichever
    calls fail: it writes the file asked for and its partial file and nothing
    else, and the file asked for appears only whole and verified; and with
    enough intact shards it gives the object back. *)

From S2P Require Import Prelude Text Checksum KeyHash VersionId Erasure XorCode Layout Stripe FileSystem ShardFile Record Device Recover.

Module RecoverSpec.
Import Recover.

(** ** Steps that only look *)

Definition looks {E A : Type} (m : io E A) : Prop := ∀ (Inv : tree → Prop) w, wp Inv m w (λ _ w', unmoved w w').

Lemma unmoved_trans w1 w2 w3 : unmoved w1 w2 → unmoved w2 w3 → unmoved w1 w3.
Proof. intros (? & ? & ? & ? & ?) (? & ? & ? & ? & ?). split_and!; congruence. Qed.

Lemma looks_lift {E A : Type} (r : res E A) : looks (lift r).
Proof. intros Inv w. by apply wp_lift. Qed.
Lemma looks_throw {E A : Type} (e : E) : looks (throw (A := A) e).
Proof. apply looks_lift. Qed.
Lemma looks_ret {E A : Type} (a : A) : looks (E := E) (mret a).
Proof. intros Inv w. by apply wp_ret. Qed.
Lemma looks_get {E : Type} : looks (E := E) get.
Proof. intros Inv w. by apply wp_get. Qed.
Lemma looks_may_fail : looks may_fail.
Proof. intros Inv w. by apply wp_may_fail. Qed.
Lemma looks_bind {E A B : Type} (m : io E A) (f : A → io E B) : looks m → (∀ a, looks (f a)) → looks (m ≫= f).
Proof.
  intros Hm Hf Inv w. apply wp_bind. eapply wp_mono; [apply Hm|]. intros [a|e|] w1 H1; [|done..].
  eapply wp_mono; [apply Hf|]. intros r w2 H2. by eapply unmoved_trans.
Qed.
Lemma looks_attempt {E F A : Type} (m : io F A) : looks m → looks (E := E) (attempt m).
Proof. intros Hm Inv w. apply wp_attempt. eapply wp_mono; [apply Hm|]. by intros [a|e|] w'. Qed.
Lemma looks_map_err {E F A : Type} (f : F → E) (m : io F A) : looks m → looks (io_map_err f m).
Proof. intros Hm Inv w. apply wp_map_err. eapply wp_mono; [apply Hm|]. done. Qed.
Lemma looks_fold {E A S : Type} (f : S → A → io E S) l : (∀ s a, looks (f s a)) → ∀ s, looks (io_fold f l s).
Proof. intros Hf. induction l as [|a l IH]; intros s; cbn [io_fold]; [apply looks_ret|]. by apply looks_bind. Qed.

Create HintDb looks discriminated.
#[local] Hint Resolve looks_lift looks_throw looks_ret looks_get looks_may_fail : looks.

Ltac looks := repeat first [progress intros | solve [auto with looks] | apply looks_bind | apply looks_attempt | apply looks_map_err | apply looks_fold | case_match].

Lemma looks_metadata p : looks (fs_metadata p).
Proof. unfold fs_metadata. looks. Qed.
Lemma looks_read_dir p : looks (fs_read_dir p).
Proof. unfold fs_read_dir. looks. Qed.
Lemma looks_read p : looks (fs_read p).
Proof. unfold fs_read. looks. Qed.
#[local] Hint Resolve looks_metadata looks_read_dir looks_read : looks.
Lemma looks_test {E : Type} f p : looks (E := E) (fs_test f p).
Proof. unfold fs_test. looks. Qed.
#[local] Hint Resolve looks_test : looks.

Section sound.
Context `{Sha256} `{Xxh3} `{SerdeJson} `{Uuid} `{Rfc3339} `{ReedSolomonLib}.
Implicit Types (w : World) (found : Found) (record : MetadataRecord).

Lemma looks_open p : looks (ShardFileReader_open p).
Proof. unfold ShardFileReader_open. looks. Qed.
Lemma looks_block r i : looks (read_block r i).
Proof. unfold read_block. looks. Qed.
#[local] Hint Resolve looks_open looks_block : looks.

Lemma looks_scan paths : looks (scan paths).
Proof.
  unfold scan, scan_root, scan_first, scan_second, scan_key_directory, scan_entry, scan_record_file, scan_shard_file, sorted_entries,
    read_to_string, fs_is_dir. looks.
Qed.

(** ** Writing *)

Section writing.
Context (p : path) (t0 : tree).

(** Nothing but the file [p] differs from [t0]. *)
Definition only (t : tree) : Prop := ∀ q, q ≠ p → t !! q = t0 !! q.

(** The file holds [c], and the next byte goes at its end. *)
Definition holding (c : list Z) w : Prop :=
  only (w_tree w) ∧ (∃ m, w_tree w !! p = Some (File c m)) ∧ offset_of w p = length c.

Lemma holding_unmoved c w w' : holding c w → unmoved w w' → holding c w'.
Proof. intros (Ho & Hm & Hoff) (Ht & Hw & _). unfold holding, offset_of in *. by rewrite Ht, Hw. Qed.

Lemma only_insert t n : only t → only (<[p := n]> t).
Proof. intros Ht q Hq. rewrite lookup_insert_ne by done. by apply Ht. Qed.

(** Bytes appended. *)
Lemma holding_wrote c bytes w w' : holding c w → wrote p bytes c w w' → holding (c ++ bytes) w'.
Proof.
  intros (Ho & [m Hm] & Hoff) (Ht & Hw & _). assert (overwrite (length c) bytes c = c ++ bytes) as Hov.
  { unfold overwrite. by rewrite resize_all, drop_ge, app_nil_r by lia. }
  unfold holding, offset_of in *. rewrite Ht, Hw, !lookup_insert_eq, Hoff, Hov, length_app. cbn.
  split_and!; [by apply only_insert|by eexists|done].
Qed.

Lemma wp_append bytes c w (Post : res io_error unit → World → Prop) : holding c w →
  (∀ w', holding (c ++ bytes) w' → Post (Ok tt) w') → (∀ k n w', holding (c ++ take n bytes) w' → Post (Err (Failed k)) w') →
  wp only (fs_write_all p bytes) w Post.
Proof.
  intros Hh Hok Herr. pose proof Hh as (Ho & [m Hm] & _). eapply wp_fs_write_all; [done|intros bs; by apply only_insert| |].
  - intros w' Hw. by eapply Hok, holding_wrote.
  - intros k n w' Hw. by eapply Herr, holding_wrote.
Qed.

Lemma wp_flush buffer c w (Post : res (RecoverError * list Z) unit → World → Prop) : holding c w →
  (∀ w', holding (c ++ buffer) w' → Post (Ok tt) w') →
  (∀ e n w', holding (c ++ take n buffer) w' → Post (Err (e, drop n buffer)) w') →
  wp only (flush_buf p buffer) w Post.
Proof.
  intros Hh Hok Herr. destruct buffer as [|b buffer]; cbn [flush_buf].
  { apply wp_ret, Hok. by rewrite app_nil_r. }
  apply wp_bind, wp_map_err, wp_next_fault. intros [f|] w1 Hw1; cbn [map_err];
    pose proof (holding_unmoved _ _ _ Hh Hw1) as Hh1; pose proof Hh1 as (Ho & [m Hm] & _).
  - apply wp_bind. eapply wp_write_bytes; [done|done|by apply only_insert|]. intros w2 Hw2. apply wp_lift.
    by eapply Herr, holding_wrote.
  - eapply wp_write_bytes; [done|done|by apply only_insert|]. intros w2 Hw2. by eapply Hok, holding_wrote.
Qed.

(** What was hashed is in the file or the buffer. *)
Definition progress (done : Progress) w : Prop := ∃ c, holding c w ∧ pr_hashed done = c ++ pr_buffer done.

(** Whatever failed, the file is there and the rest is as it was. *)
Definition failing w : Prop := ∃ c, holding c w.

Lemma wp_buf_write done data w (Post : res (RecoverError * list Z) (list Z) → World → Prop) : progress done w →
  (∀ buffer w', progress (mkProgress (pr_hashed done ++ data) buffer) w' → Post (Ok buffer) w') →
  (∀ e w', failing w' → Post (Err e) w') →
  wp only (buf_write_all p (pr_buffer done) data) w Post.
Proof.
  intros (c & Hh & Heq) Hok Herr. unfold buf_write_all. destruct (_ <? _)%nat.
  { apply wp_ret, Hok. exists c. split; [done|]. cbn. by rewrite Heq, app_assoc. }
  apply wp_bind. set (Q := λ (r : res (RecoverError * list Z) (list Z)) w', match r with
    | Ok buffer => ∃ c', holding c' w' ∧ pr_hashed done = c' ++ buffer ∧ (BUFFER_CAPACITY <= length data → buffer = [])%nat
    | Err e => failing w' | Panic => False end).
  assert (wp only (if (BUFFER_CAPACITY - length (pr_buffer done) <? length data)%nat
    then _ ← flush_buf p (pr_buffer done); mret [] else mret (pr_buffer done)) w Q) as Hfirst.
  { destruct (Nat.ltb_spec (BUFFER_CAPACITY - length (pr_buffer done)) (length data)) as [Hlt|Hge].
    - apply wp_bind. eapply wp_flush; [done| |].
      + intros w' Hw'. apply wp_ret. exists (c ++ pr_buffer done). by rewrite app_nil_r.
      + intros e n w' Hw'. by eexists.
    - apply wp_ret. exists c. split_and!; [done|done|]. intros Hcap. destruct (pr_buffer done); [done|cbn [length] in Hge; unfold BUFFER_CAPACITY in *; lia]. }
  eapply wp_mono; [exact Hfirst|]. intros [buffer|e|] w' HQ; [|by apply Herr|done]. destruct HQ as (c' & Hh' & Heq' & Hempty).
  destruct (Nat.leb_spec BUFFER_CAPACITY (length data)) as [Hcap|_].
  - rewrite (Hempty Hcap) in *. apply wp_bind, wp_map_err. eapply wp_append; [done| |].
    + intros w2 Hw2. apply wp_ret, Hok. exists (c' ++ data). split; [done|]. cbn. by rewrite Heq', !app_nil_r.
    + intros k n w2 Hw2. apply Herr. by eexists.
  - apply wp_ret, Hok. exists c'. split; [done|]. cbn. by rewrite Heq', app_assoc.
Qed.

Lemma wp_write_stripe record s code readers done j w : progress done w →
  wp only (write_stripe p record s code readers done j) w (λ r w', match r with
    | Ok done' => progress done' w' | _ => failing w' end).
Proof.
  intros Hp. unfold write_stripe. apply wp_bind. eapply wp_mono.
  { apply (looks_fold (read_column j) readers). intros received e. unfold read_column. looks. }
  intros [received|e|] w1 Hw1; [|destruct Hp as (c & Hh & _); exists c; by eapply holding_unmoved..].
  assert (progress done w1) as Hp1 by (destruct Hp as (c & Hh & ?); exists c; split; [by eapply holding_unmoved|done]).
  assert (failing w1) as Hf by (destruct Hp1 as (c & ? & _); by exists c).
  apply wp_bind, wp_lift. destruct (decode_stripe _ _ _ _) as [decoded|e|]; cbn [map_err]; [|done..].
  apply wp_bind, wp_lift. destruct decoded as [data|data f|u n f]; [| |done].
  all: apply wp_bind, wp_buf_write; [done| |done]; intros buffer w2 Hw2; by apply wp_ret.
Qed.

(** The file at the end: empty for an empty object, else what its checksum
    was taken of. *)
Definition verified record (c : list Z) : Prop :=
  if r_size record =? 0 then c = [] else checksum_block c = r_object_checksum record.

Lemma wp_fill record s found key_hash w : holding [] w →
  wp only (fill p record s found key_hash) w (λ r w', match r with
    | Ok _ => ∃ c, holding c w' ∧ verified record c | _ => failing w' end).
Proof.
  intros Hh. assert (failing w) as Hf by by exists []. unfold fill, verified. destruct (_ =? 0) eqn:Hz.
  { apply wp_ret. by exists []. }
  apply wp_bind, wp_lift. destruct (shard_geometry _ _ _) as [g|e|]; [|done..]. apply wp_bind, wp_lift.
  destruct g as [g|]; cbn [ok_or]; [|done]. apply wp_bind. eapply wp_mono.
  { apply (looks_fold (open_reader record s (g_block_count g))). intros readers e. unfold open_reader. looks. }
  intros [readers|e|] w1 Hw1; [|exists []; by eapply holding_unmoved..]. pose proof (holding_unmoved _ _ _ Hh Hw1) as Hh1.
  assert (failing w1) as Hf1 by by exists [].
  apply wp_bind, wp_lift. destruct (_ <? _); cbn [negb ensure]; [done|]. apply wp_bind, wp_lift.
  destruct (ReedSolomonCode_new s) as [code|[]|]; cbn [map_err]; [|done].
  apply wp_bind. eapply (wp_fold _ _ progress); [exists []; by split| |].
  { intros done j w2 _ Hp. eapply wp_mono; [by apply wp_write_stripe|]. by intros [?|?|] w3. }
  intros done w2 (c & Hc & Heq). apply wp_bind. eapply wp_flush; [exact Hc| |].
  - intros w3 Hw3. apply wp_lift. destruct (Z.eqb_spec (checksum_block (pr_hashed done)) (r_object_checksum record)) as [Hck|_]; cbn [ensure].
    + exists (c ++ pr_buffer done). split; [done|]. by rewrite <- Heq.
    + by eexists.
  - intros e n w3 Hw3. by eexists.
Qed.

Lemma wp_write_object record s found key_hash w : only (w_tree w) →
  wp only (write_object record s found key_hash p) w (λ r w', only (w_tree w') ∧ match r with
    | Ok _ => ∃ c, holding c w' ∧ verified record c | _ => True end).
Proof.
  intros Ho. unfold write_object. apply wp_bind, wp_map_err, wp_fs_create; [by apply only_insert| |].
  2: { intros e w' (-> & _). done. }
  intros w1 (Ht & Hoff & _). cbn [map_err]. assert (holding [] w1) as Hh.
  { unfold holding, offset_of. rewrite Ht, Hoff, !lookup_insert_eq. split_and!; [by apply only_insert|by eexists|done]. }
  apply wp_bind, wp_attempt. eapply wp_mono; [by apply wp_fill|]. intros [u|[e buffer]|] w2 Hw2.
  - apply wp_ret. destruct Hw2 as (c & Hc & Hv). split; [apply Hc|by exists c].
  - destruct Hw2 as (c & Hc). apply wp_bind, wp_ignore. eapply wp_flush; [exact Hc| |].
    + intros w3 Hw3. apply wp_lift. split; [apply Hw3|done].
    + intros e' n w3 Hw3. apply wp_lift. split; [apply Hw3|done].
  - destruct Hw2 as (c & Hc). split; [apply Hc|done].
Qed.
End writing.

(** ** Extracting *)

(** The record a version was extracted by: one of those asked for. *)
Definition asked_for (key : str) (version : option str) record : Prop :=
  r_key record = key ∧ ∀ text, version = Some text → from_text text = Some (r_version record).

(** Every record is filed under its own key and version. *)
Definition filed (m : list ((str * VersionId) * MetadataRecord)) : Prop := Forall (λ e, e.1 = (r_key e.2, r_version e.2)) m.

Lemma pair_compare_eq p q : pair_compare p q = Eq → p = q.
Proof.
  unfold pair_compare. destruct (lex_compare p.1 q.1) eqn:H1'; try done. apply lex_compare_eq in H1'.
  intros H2'%lex_compare_eq. destruct p, q. cbn in *. congruence.
Qed.

Lemma filed_insert record m : filed m → filed (map_insert pair_compare (r_key record, r_version record) record m).
Proof.
  induction m as [|[k r] m IH]; intros Hm; cbn [map_insert]; [by repeat constructor|].
  apply Forall_cons in Hm as [Hk Hm]. destruct (pair_compare _ k) eqn:Hc.
  - apply pair_compare_eq in Hc as <-. by constructor.
  - by repeat constructor.
  - constructor; [done|by apply IH].
Qed.

(** A property of what was found that every file noted keeps. *)
Section keeping.
Context (P : Found → Prop) (Hproblem : ∀ f q, P f → P (problem f q)) (Hrecord : ∀ e r f, P f → P (note_record e r f))
  (Hshard : ∀ e h v i f, P f → P (note_shard_file e h v i f)).

Definition keeping (m : io RecoverError Found) : Prop := ∀ (Inv : tree → Prop) w,
  wp Inv m w (λ r w', unmoved w w' ∧ ∀ f, r = Ok f → P f).

Lemma keeping_ret f : P f → keeping (mret f).
Proof. intros Hf Inv w. apply wp_ret. split; [done|]. by intros f' [= <-]. Qed.

Lemma keeping_panic : keeping (lift Panic).
Proof. intros Inv w. apply wp_lift. by split. Qed.

Lemma keeping_bind {A : Type} (m : io RecoverError A) (k : A → io RecoverError Found) : looks m → (∀ a, keeping (k a)) → keeping (m ≫= k).
Proof.
  intros Hm Hk Inv w. apply wp_bind. eapply wp_mono; [apply Hm|]. intros [a|e|] w1 H1'; [|by split..].
  eapply wp_mono; [apply Hk|]. intros r w2 [H2' ?]. split; [by eapply unmoved_trans|done].
Qed.

Lemma keeping_fold {A : Type} (f : Found → A → io RecoverError Found) l : (∀ x a, P x → keeping (f x a)) → ∀ x, P x → keeping (io_fold f l x).
Proof.
  intros Hf x Hx Inv w. apply (wp_fold _ _ (λ x w', unmoved w w' ∧ P x)); [done| |].
  - intros y a w1 _ [Hw Hy]. eapply wp_mono; [by apply Hf|]. intros [z|e|] w2 [Hw2 Hz]; [|split; [by eapply unmoved_trans|done]..].
    split; [by eapply unmoved_trans|by apply Hz].
  - intros y w1 [Hw Hy]. split; [done|]. by intros z [= <-].
Qed.

Lemma scan_keeping (paths : list path) : P (mkRecovered [] [] []) → keeping (scan paths).
Proof.
  intros H0'. unfold scan. apply keeping_fold; [|done]. intros f root Hf. unfold scan_root.
  apply keeping_bind; [apply looks_test|]. intros [|]; [|by apply keeping_ret, Hproblem].
  apply keeping_bind; [unfold sorted_entries; looks|]. intros firsts. apply keeping_fold; [|done]. clear f Hf. intros f first Hf. unfold scan_first.
  apply keeping_bind; [unfold sorted_entries; looks|]. intros seconds. apply keeping_fold; [|done]. clear f Hf. intros f second Hf. unfold scan_second.
  apply keeping_bind; [unfold sorted_entries; looks|]. intros keys. apply keeping_fold; [|done]. clear f Hf. intros f key_dir Hf.
  apply keeping_bind; [apply looks_test|]. intros [|]; [|by apply keeping_ret]. unfold scan_key_directory.
  apply keeping_bind; [apply looks_lift|]. intros [dir_hash|]; [|by apply keeping_ret, Hproblem].
  apply keeping_bind; [unfold sorted_entries; looks|]. intros entries. apply keeping_fold; [|done]. clear f Hf. intros f entry Hf. unfold scan_entry.
  destruct (parse_record_file_name _) as [version|]; [unfold scan_record_file|destruct (parse_shard_file_name _) as [[version index]|];
    [unfold scan_shard_file|by apply keeping_ret]].
  all: apply keeping_bind; [unfold read_to_string; looks|]; intros [x|e|]; repeat case_match; auto using keeping_ret, keeping_panic.
Qed.
End keeping.

Lemma scan_filed (paths : list path) (Inv : tree → Prop) w :
  wp Inv (scan paths) w (λ r w', unmoved w w' ∧ ∀ found, r = Ok found → filed (fo_records found)).
Proof.
  apply (scan_keeping (λ f, filed (fo_records f))); [done| |done|constructor].
  intros e r f Hf. unfold note_record. repeat case_match; try done; by apply filed_insert.
Qed.

Lemma select_asked key version found record : filed (fo_records found) → select_record key version found = Ok record →
  asked_for key version record.
Proof.
  intros Hf. unfold select_record. destruct (ensure _ _) as [[]|e|]; [|done..]. cbn [mbind res_bind].
  assert (∀ r, r ∈ snd <$> filter (λ e : (str * VersionId) * MetadataRecord, e.1.1 = key) (fo_records found) → r_key r = key) as Hk.
  { intros r ([k r'] & -> & [Hk Hin]%list_elem_of_filter)%list_elem_of_fmap. eapply Forall_forall in Hf; [|exact Hin]. cbn in *. by rewrite Hf in Hk. }
  destruct version as [text|]; intros Hsel.
  - destruct (from_text text) as [wanted|] eqn:Ht; [|done]. cbn [ok_or mbind res_bind] in Hsel. apply ok_or_Ok in Hsel.
    apply List.find_some in Hsel as [Hin%list_elem_of_In Hv%bool_decide_eq_true]. split; [by apply Hk|]. intros t [= <-]. congruence.
  - destruct (last _) as [r|] eqn:Hl; [|done]. injection Hsel as ->. split; [|done]. apply Hk.
    apply last_Some in Hl as [l ->]. apply elem_of_app. right. apply list_elem_of_here.
Qed.

Lemma rsplit_dot_app (s before after : str) : rsplit_dot s = Some (before, after) → s = before ++ lit "." ++ after.
Proof.
  revert before. induction s as [|c s IH]; intros before; cbn [rsplit_dot]; [done|]. destruct (rsplit_dot s) as [[b a]|].
  - intros [= <- ->]. by rewrite (IH b).
  - destruct (Z.eqb_spec c 46) as [->|]; [|done]. by intros [= <- ->].
Qed.

(** The partial file is the file asked for, with a suffix. *)
Lemma partial_path_name out name : file_name out = Some name → partial_path out = with_file_name out (name ++ lit ".partial").
Proof.
  intros Hn. unfold partial_path, with_extension. rewrite Hn. f_equal. unfold extension, file_stem.
  destruct (rsplit_dot name) as [[[|b bs] after]|] eqn:Hs; [done| |done]. apply rsplit_dot_app in Hs as ->. by rewrite <- !app_assoc.
Qed.

Lemma partial_other out name : file_name out = Some name → out ≠ partial_path out.
Proof.
  intros Hn Heq. rewrite (partial_path_name out name Hn) in Heq. unfold with_file_name, join in Heq. apply (f_equal last) in Heq.
  rewrite last_snoc in Heq. unfold file_name in Hn. rewrite Hn in Heq. injection Heq as Heq. apply (f_equal length) in Heq.
  rewrite length_app in Heq. cbn in Heq. lia.
Qed.

End sound.
End RecoverSpec.
