(* ===== verification/RecoverRun.v ===== *)
(** The recovery tool gives the object back: when no call fails and every
    stripe has [k] undamaged blocks among the shard files found, [extract]
    ends well and the file asked for holds the object. *)

From S2P Require Import Prelude Text Checksum KeyHash VersionId Erasure XorCode Layout Stripe FileSystem ShardFile Record Device DeviceSpec Scrub Get StoredObject GetSpec Degraded Recover RecoverSpec.

Module RecoverRun.
Import Get StoredObject GetSpec Recover RecoverSpec.

(** ** Runs that succeed *)

Definition ends_ok {E A : Type} (m : io E A) (w : World) (Post : A → World → Prop) : Prop :=
  ∃ a w', m w = (Ok a, w') ∧ Post a w'.

Lemma ends_bind {E A B : Type} (m : io E A) (f : A → io E B) w (Post : B → World → Prop) :
  ends_ok m w (λ a w', ends_ok (f a) w' Post) → ends_ok (m ≫= f) w Post.
Proof. intros (a & w1 & Hm & b & w2 & Hf & HP). exists b, w2. split; [|done]. by rewrite (io_run_ok _ _ _ _ _ Hm). Qed.

Lemma ends_ret {E A : Type} (a : A) w (Post : A → World → Prop) : Post a w → ends_ok (E := E) (mret a) w Post.
Proof. by exists a, w. Qed.

Lemma ends_lift {E A : Type} (a : A) (r : res E A) w (Post : A → World → Prop) : r = Ok a → Post a w → ends_ok (lift r) w Post.
Proof. intros ->. by exists a, w. Qed.

Lemma ends_mono {E A : Type} (m : io E A) w (P Q : A → World → Prop) : ends_ok m w P → (∀ a w', P a w' → Q a w') → ends_ok m w Q.
Proof. intros (a & w' & Hm & HP) HPQ. exists a, w'. auto. Qed.

Lemma ends_map_err {E F A : Type} (f : E → F) (m : io E A) w (Post : A → World → Prop) : ends_ok m w Post → ends_ok (io_map_err f m) w Post.
Proof. intros (a & w' & Hm & HP). exists a, w'. split; [|done]. unfold io_map_err. by rewrite Hm. Qed.

Lemma ends_attempt {E F A : Type} (m : io E A) w (Post : res E A → World → Prop) :
  ends_ok m w (λ a, Post (Ok a)) → ends_ok (E := F) (attempt m) w Post.
Proof. intros (a & w' & Hm & HP). exists (Ok a), w'. split; [|done]. unfold attempt. by rewrite Hm. Qed.

(** ** Writing *)

Section writing.
Context (p : path) (t0 : tree).

Definition held (c : list Z) (w : World) : Prop := holding p t0 c w ∧ no_faults w.

Lemma ends_write_bytes {E : Type} bytes c w : held c w → ends_ok (E := E) (write_bytes p bytes) w (λ _, held (c ++ bytes)).
Proof.
  intros [Hh Hn]. pose proof Hh as (_ & [m Hm] & _).
  assert (wp (λ _, True) (write_bytes (E := E) p bytes) w (λ r w', r = Ok tt ∧ holding p t0 (c ++ bytes) w')) as Hw.
  { eapply wp_write_bytes; [done|done|done|]. intros w' Hw'. split; [done|]. by eapply holding_wrote. }
  assert (w_faults (write_bytes (E := E) p bytes w).2 = []) as Hf.
  { unfold write_bytes, get, put_tree, put_offset, mbind, io_bind. rewrite Hm. exact Hn. }
  unfold wp in Hw. destruct (write_bytes p bytes w) as [r w'] eqn:He. destruct Hw as [[-> Hh'] _]. by exists tt, w'.
Qed.

Lemma ends_append bytes c w : held c w → ends_ok (fs_write_all p bytes) w (λ _, held (c ++ bytes)).
Proof.
  intros Hh. apply ends_bind. exists None, w. split; [|by apply ends_write_bytes]. unfold next_fault. by rewrite (proj2 Hh).
Qed.

Lemma ends_flush buffer c w : held c w → ends_ok (flush_buf p buffer) w (λ _, held (c ++ buffer)).
Proof.
  intros Hh. destruct buffer as [|b buffer]; cbn [flush_buf]; [apply ends_ret; by rewrite app_nil_r|].
  apply ends_bind, ends_map_err. exists None, w. split; [|by apply ends_write_bytes]. unfold next_fault. by rewrite (proj2 Hh).
Qed.

Definition gone_on (hashed : list Z) (done : Progress) w : Prop :=
  pr_hashed done = hashed ∧ ∃ c, held c w ∧ hashed = c ++ pr_buffer done.

Lemma ends_buf_write hashed done data w : gone_on hashed done w →
  ends_ok (buf_write_all p (pr_buffer done) data) w (λ buffer, gone_on (hashed ++ data) (mkProgress (pr_hashed done ++ data) buffer)).
Proof.
  intros (Hd & c & Hh & Heq). unfold buf_write_all.
  assert (∀ w c buffer, held c w → hashed = c ++ buffer → gone_on (hashed ++ data) (mkProgress (pr_hashed done ++ data) (buffer ++ data)) w) as Hput.
  { intros w' c' buffer Hw' ->. split; cbn; [by rewrite Hd|]. exists c'. by rewrite app_assoc. }
  destruct (_ <? _)%nat; [apply ends_ret; by eapply Hput|].
  apply ends_bind. apply (ends_mono _ _ (λ buffer w', ∃ c', held c' w' ∧ hashed = c' ++ buffer ∧ (BUFFER_CAPACITY <= length data → buffer = [])%nat)).
  { destruct (Nat.ltb_spec (BUFFER_CAPACITY - length (pr_buffer done)) (length data)) as [Hlt|Hge].
    - apply ends_bind. eapply ends_mono; [by apply ends_flush|]. intros [] w' Hw'. apply ends_ret. exists (c ++ pr_buffer done).
      by rewrite app_nil_r.
    - apply ends_ret. exists c. split_and!; [done|done|]. intros Hcap. destruct (pr_buffer done); [done|cbn [length] in Hge; unfold BUFFER_CAPACITY in *; lia]. }
  intros buffer w' (c' & Hc' & Heq' & Hempty). destruct (Nat.leb_spec BUFFER_CAPACITY (length data)) as [Hcap|_]; [|apply ends_ret; by eapply Hput].
  rewrite (Hempty Hcap) in *. apply ends_bind, ends_map_err. eapply ends_mono; [by apply ends_append|]. intros [] w2 Hw2. apply ends_ret.
  split; cbn; [by rewrite Hd|]. exists (c' ++ data). by rewrite Heq', !app_nil_r.
Qed.
End writing.

(** ** The shards of a version: one file for each index *)

Lemma map_get_Forall {K A : Type} cmp (k : K) (Q : A → Prop) m v : Forall (λ e, Q e.2) m → map_get cmp k m = Some v → Q v.
Proof.
  induction 1 as [|[k' v'] m Hv _ IH]; cbn [map_get]; [done|]. destruct (cmp k k'); [by intros [= <-]|done..].
Qed.

Lemma map_insert_Forall {K A : Type} cmp (k : K) (Q : A → Prop) m v : Forall (λ e, Q e.2) m → Q v → Forall (λ e, Q e.2) (map_insert cmp k v m).
Proof.
  intros Hm Hv. induction Hm as [|[k' v'] m Hv' Hm IH]; cbn [map_insert]; [by repeat constructor|]. destruct (cmp k k'); by repeat constructor.
Qed.

Definition ascending {A : Type} (m : list (Z * A)) : Prop := StronglySorted Z.lt m.*1.

Lemma map_insert_keys {A : Type} i (v : A) m x : x ∈ (map_insert Z.compare i v m).*1 → x = i ∨ x ∈ m.*1.
Proof.
  induction m as [|[k' v'] m IH]; cbn [map_insert]; [set_solver|]. destruct (i ?= k'); set_solver.
Qed.

Lemma ascending_insert {A : Type} i (v : A) m : ascending m → ascending (map_insert Z.compare i v m).
Proof.
  unfold ascending. induction m as [|[k' v'] m IH]; intros Hm; cbn [map_insert]; [by repeat constructor|].
  apply StronglySorted_inv in Hm as [Hm Hk]. cbn in Hk. destruct (Z.compare_spec i k') as [->|Hlt|Hgt]; rewrite ?fmap_cons.
  - by constructor.
  - constructor; [by constructor|]. constructor; [done|]. eapply Forall_impl; [exact Hk|]. cbn. intros x Hx. lia.
  - constructor; [by apply IH|]. apply Forall_forall. intros x [->|Hx]%map_insert_keys; [done|]. rewrite Forall_forall in Hk. by apply Hk.
Qed.

Lemma ascending_NoDup {A : Type} (m : list (Z * A)) : ascending m → NoDup m.*1.
Proof.
  unfold ascending. induction 1 as [|x l _ IH Hx]; constructor; [|done]. intros Hin. rewrite Forall_forall in Hx. specialize (Hx x Hin). lia.
Qed.

Lemma scan_ascending `{Sha256} `{Xxh3} `{SerdeJson} `{Uuid} `{Rfc3339} (paths : list path) w found w' k :
  scan paths w = (Ok found, w') → NoDup (default [] (map_get pair_compare k (fo_shards found))).*1.
Proof.
  intros Hs. apply ascending_NoDup. set (P := λ f, Forall (λ e : (KeyHash * VersionId) * list (ShardIndex * path), ascending e.2) (fo_shards f)).
  assert (∀ k f, P f → ascending (default [] (map_get pair_compare k (fo_shards f)))) as Hget.
  { intros k' f Hf. destruct (map_get _ _ _) as [m|] eqn:Hm; [by eapply (map_get_Forall _ _ ascending)|constructor]. }
  apply Hget. assert (keeping P (scan paths)) as Hk.
  { apply scan_keeping; [done| | |constructor].
    - intros e r f Hf. unfold note_record. by repeat case_match.
    - intros e h v i f Hf. apply (map_insert_Forall _ _ ascending); [done|]. by apply ascending_insert, Hget. }
  specialize (Hk (λ _, True) w). unfold wp in Hk. rewrite Hs in Hk. destruct Hk as [[_ Hk] _]. by apply Hk.
Qed.

(** ** The shard files *)

Section recovering.
Context `{Sha256} `{Xxh3} `{SerdeJson} `{Uuid} `{Rfc3339} `{ReedSolomonLib}.
Context (record : MetadataRecord) (code : ReedSolomonCode) (body : list Z) (cols : list (list block)) (Hos : object_stored record code body cols).
Context (p : path) (t0 : tree).
Abbreviation stripes := (chunks (stripe_bytes record code) body).

(** A shard file whose header and footer are intact, with [x.2] for its
    blocks; a block that changed does not have its checksum any more. *)
Definition copy (t : tree) (e : ShardIndex * path) (x : ShardIndex * list block) : Prop :=
  e.1 = x.1 ∧ ∃ h col last m, sh_index h = x.1 ∧ sh_scheme h = scheme code ∧ sh_block_length h = r_block_size record
    ∧ cols !! Z.to_nat x.1 = Some col ∧ shard_ok h col last (r_size record) (r_object_checksum record)
    ∧ Forall2 (λ a b, length a = length b) x.2 col
    ∧ (∀ j b b', col !! j = Some b → x.2 !! j = Some b' → checksum_block b' = checksum_block b → b' = b)
    ∧ t !! e.2 = Some (File (damaged_image h col last (r_size record) (r_object_checksum record) x.2) m).

(** The block of a shard for a stripe is what was written. *)
Definition whole_at (j : nat) (x : ShardIndex * list block) : Prop :=
  match cols !! Z.to_nat x.1 with Some col => x.2 !! j = col !! j | None => False end.
#[export] Instance whole_at_dec j x : Decision (whole_at j x).
Proof. unfold whole_at. destruct (cols !! Z.to_nat x.1); apply _. Defined.

(** The block read from it. *)
Definition block_of (j : nat) (x : ShardIndex * list block) : ShardBlock :=
  mkShardBlock x.1 (default [] (x.2 !! j)) (checksum_block (default [] (col ← cols !! Z.to_nat x.1; col !! j))).

(** A reader that gives those blocks. *)
Definition gives (e : ShardIndex * ShardFileReader) (x : ShardIndex * list block) : Prop :=
  ∀ j, (j < length stripes)%nat → block_bytes e.2 (Z.of_nat j) = Ok (block_of j x).

Lemma copy_range t e x : copy t e x → 0 ≤ x.1 < total_shards (scheme code).
Proof. intros (_ & h & col & last & m & <- & <- & _ & _ & Hok & _). by destruct (so_header _ _ _ _ _ Hok) as (_ & ? & _). Qed.

Lemma ends_open t e x count readers w : copy t e x → count = Z.of_nat (length stripes) → w_tree w !! e.2 = t !! e.2 → no_faults w →
  ends_ok (open_reader record (scheme code) count readers e) w (λ readers' w', w' = w ∧ ∃ r, readers' = readers ++ [r] ∧ gives r x).
Proof.
  intros (Hi & h & col & last & m & Hx & Hs & Hbl & Hcol & Hok & Hst & _ & Hf) -> Ht Hn.
  assert (length col = length stripes) as Hlen.
  { pose proof (os_lengths Hos) as Hall. rewrite Forall_forall in Hall. by eapply Hall, list_elem_of_lookup_2. }
  set (image := damaged_image _ _ _ _ _ _) in Hf. apply ends_bind, ends_attempt.
  exists (mkReader image h (footer_for col last (r_size record) (r_object_checksum record))), w. split.
  { unfold ShardFileReader_open, fs_read, io_map_err, mbind, io_bind. rewrite (may_fail_run w Hn). unfold get. rewrite Ht, Hf.
    unfold lift. cbn [mret io_ret map_err]. unfold image. by rewrite open_damaged. }
  cbn [sr_header sr_footer footer_for sf_object_size sf_object_checksum sf_block_count].
  rewrite bool_decide_eq_true_2, Hbl, Hlen, !Z.eqb_refl by done. cbn [andb]. apply ends_ret. split; [done|]. eexists. split; [done|].
  intros j Hj. destruct (lookup_lt_is_Some_2 col j) as [b Hb]; [lia|]. pose proof (Forall2_length _ _ _ Hst).
  destruct (lookup_lt_is_Some_2 x.2 j) as [b' Hb']; [lia|]. cbn [snd]. unfold image. erewrite read_damaged by done.
  unfold block_of. rewrite Hx, Hcol. cbn [mbind option_bind]. by rewrite Hb, Hb'.
Qed.

Lemma ends_open_all t listed contents count w : Forall2 (copy t) listed contents → count = Z.of_nat (length stripes) →
  (∀ e, e ∈ listed → w_tree w !! e.2 = t !! e.2) → no_faults w →
  ends_ok (io_fold (open_reader record (scheme code) count) listed []) w (λ readers w', w' = w ∧ Forall2 gives readers contents).
Proof.
  intros Hc Hcount Ht Hn. assert (∀ readers before, Forall2 gives readers before →
    ends_ok (io_fold (open_reader record (scheme code) count) listed readers) w (λ readers' w', w' = w ∧ Forall2 gives readers' (before ++ contents))) as Hall.
  2: { apply (Hall [] []). constructor. }
  induction Hc as [|e x listed contents He _ IH]; intros readers before Hr; cbn [io_fold].
  { apply ends_ret. by rewrite app_nil_r. }
  apply ends_bind. eapply ends_mono; [apply (ends_open t e x); [done|done|apply Ht; by left|done]|].
  intros readers' w' (-> & r & -> & Hg). rewrite (cons_middle x before contents), app_assoc. apply IH; [intros; apply Ht; by right|].
  apply Forall2_app; [done|by repeat constructor].
Qed.

Lemma ends_columns readers contents j w : Forall2 gives readers contents → (j < length stripes)%nat → no_faults w →
  ends_ok (io_fold (read_column (Z.of_nat j)) readers []) w (λ received w', w' = w ∧ received = block_of j <$> contents).
Proof.
  intros Hg Hj Hn. assert (∀ received, ends_ok (io_fold (read_column (Z.of_nat j)) readers received) w
    (λ received' w', w' = w ∧ received' = received ++ (block_of j <$> contents))) as Hall; [|by apply (Hall [])].
  induction Hg as [|e x readers contents He _ IH]; intros received; cbn [io_fold].
  { apply ends_ret. by rewrite app_nil_r. }
  apply ends_bind, ends_bind, ends_attempt. exists (block_of j x), w. split; [by apply read_block_run, He|].
  apply ends_ret. eapply ends_mono; [apply IH|]. intros r w' (-> & ->). split; [done|]. by rewrite <- app_assoc.
Qed.

(** ** Decoding *)

Section decoding.
Context (listed : list (ShardIndex * path)) (contents : list (ShardIndex * list block)) (t : tree).
Context (Hcopies : Forall2 (copy t) listed contents) (Hdup : NoDup listed.*1).

Lemma contents_indices : contents.*1 = listed.*1.
Proof. pose proof Hcopies as Hc. clear -Hc. induction Hc as [|e x l l' He _ IH]; [done|]. rewrite !fmap_cons, IH. by destruct He as [-> _]. Qed.

Lemma contents_range x : x ∈ contents → 0 ≤ x.1 < total_shards (scheme code).
Proof. intros [n Hn]%list_elem_of_lookup. destruct (Forall2_lookup_r _ _ _ _ _ Hcopies Hn) as (e & _ & He). by eapply copy_range. Qed.

Context (j : nat) (stripe : list Z) (Hst : stripes !! j = Some stripe).
Context (blocks : list ShardBlock) (Henc : encode_stripe code stripe (r_block_size record) = Ok blocks)
  (Hcols : ∀ i b, blocks !! i = Some b → ∃ col, cols !! i = Some col ∧ col !! j = Some (sb_bytes b)).

(** The block written for a shard, and what is read of it. *)
Lemma block_written x : x ∈ contents → ∃ col bytes, cols !! Z.to_nat x.1 = Some col ∧ col !! j = Some bytes
  ∧ mkShardBlock x.1 bytes (checksum_block bytes) ∈ blocks ∧ sb_checksum (block_of j x) = checksum_block bytes
  ∧ (sb_bytes (block_of j x) = bytes ↔ whole_at j x) ∧ (checksum_block (sb_bytes (block_of j x)) = checksum_block bytes → whole_at j x).
Proof.
  intros Hx. pose proof (contents_range x Hx) as Hr. apply list_elem_of_lookup in Hx as [n Hn].
  destruct (Forall2_lookup_r _ _ _ _ _ Hcopies Hn) as (e & _ & _ & h & col & last & m & _ & _ & _ & Hcol & Hok & Hlen & Hdet & _).
  destruct (encoded_block _ _ _ _ _ (os_code Hos) Henc Hr) as (bytes & Hb). destruct (Hcols _ _ Hb) as (col' & Hcol' & Hj). cbn in Hj.
  assert (col' = col) as -> by congruence. exists col, bytes. destruct (Forall2_lookup_r _ _ _ _ _ Hlen Hj) as (stored & Hs & _).
  unfold block_of, whole_at. rewrite Hcol. cbn. rewrite Hs, Hj. cbn. split_and!; [done|done|by eapply list_elem_of_lookup_2|done|naive_solver|].
  intros Hck. by rewrite (Hdet _ _ _ Hj Hs Hck).
Qed.

Lemma stripe_decodes : data_shards (scheme code) ≤ Z.of_nat (length (filter (whole_at j) contents)) →
  ∃ decoded, decode_stripe code (shard_indices (scheme code)) (block_of j <$> contents) (Z.of_nat (length stripe)) = Ok decoded
    ∧ (decoded = Intact stripe ∨ ∃ faults, decoded = Repaired stripe faults).
Proof.
  intros Hk. destruct (os_code Hos) as [Hs _]. set (received := block_of j <$> contents).
  assert (sb_index <$> received = contents.*1) as Hidx by (unfold received; rewrite <- list_fmap_compose; by apply list_fmap_ext).
  assert (NoDup (sb_index <$> received)) as Hnd by (rewrite Hidx, contents_indices; done).
  assert (∀ i, i ∈ shard_indices (scheme code) ↔ 0 ≤ i < total_shards (scheme code)) as Hall.
  { intros i. pose proof (scheme_ok_total _ Hs). apply elem_of_indices_upto. lia. }
  assert (exchange_ok (scheme code) (shard_indices (scheme code)) received) as Hex.
  { split_and!; [apply NoDup_indices_upto; pose proof (scheme_ok_total _ Hs); lia|by apply shard_indices_range|done|].
    apply Forall_forall. intros b (x & -> & Hx)%list_elem_of_fmap. apply Hall. by apply contents_range. }
  assert (corruption_detected blocks received (block_length_for code (Z.of_nat (length stripe)))) as Hdet.
  { intros b (x & -> & Hx)%list_elem_of_fmap _ Hck. destruct (block_written x Hx) as (col & bytes & _ & _ & Hin & Hsum & Hw & Hck').
    rewrite Hsum in Hck. apply Hck', Hw in Hck. unfold block_of in *. cbn in *. by rewrite Hsum, Hck. }
  rewrite (decode_damaged code stripe (r_block_size record) blocks) by (done || apply (os_code Hos)). cbn zeta.
  set (usable := usable_blocks _ _ _ _). destruct (Z.ltb_spec (Z.of_nat (length usable)) (data_shards (scheme code))) as [Hlt|_].
  2: { eexists. split; [done|]. destruct (block_faults _ _ _ _) as [|f fs]; [by left|right; by eexists]. }
  exfalso. assert ((filter (whole_at j) contents).*1 ⊆+ usable.*1) as Hsub.
  { apply NoDup_submseteq; [apply (sublist_NoDup _ contents.*1); [by rewrite contents_indices|apply fmap_sublist, sublist_filter]|].
    intros i (x & -> & [Hw Hx]%list_elem_of_filter)%list_elem_of_fmap. destruct (block_written x Hx) as (col & bytes & _ & _ & Hin & Hsum & Hwh & _).
    apply Hwh in Hw. assert (block_of j x = mkShardBlock x.1 bytes (checksum_block bytes)) as Hb by (unfold block_of in *; cbn in *; by rewrite Hsum, Hw).
    apply list_elem_of_fmap. exists (x.1, bytes). split; [done|]. apply list_elem_of_omap. exists x.1.
    split; [apply list_elem_of_filter; split; by apply Hall, contents_range|].
    destruct (encode_stripe_inv _ _ _ _ (os_code Hos) Henc) as (parity & _ & Hcw & Hseal). rewrite <- Hb in Hin.
    pose proof (verdict_encoded code stripe parity received (block_of j x) (os_code Hos) Hcw Hnd) as Hv.
    rewrite Hb in Hv. cbn in Hv. rewrite Hv; [done| |rewrite <- Hb, <- Hseal; done]. rewrite <- Hb. by apply list_elem_of_fmap_2. }
  apply submseteq_length in Hsub. rewrite !length_fmap in Hsub. lia.
Qed.
End decoding.

(** ** The whole file *)

Lemma stripe_len_eq j stripe : stripes !! j = Some stripe →
  Z.min (wrap64 (r_size record - wrap64 (Z.of_nat j * wrap64 (data_shards (scheme code) * r_block_size record))))
    (wrap64 (data_shards (scheme code) * r_block_size record)) = Z.of_nat (length stripe).
Proof.
  intros Hj. rewrite <- (stripe_length_eq Hos j stripe Hj). change (wrap64 (data_shards (scheme code) * r_block_size record)) with (stripe_size (scheme code) record).
  rewrite (stripe_size_eq Hos). pose proof (stripe_bytes_pos Hos) as Hpos. rewrite lookup_chunks in Hj by done.
  destruct (Nat.ltb_spec (j * stripe_bytes record code) (length body)) as [Hlt|]; [|done]. pose proof (os_size Hos). pose proof (os_bound Hos) as [? ?].
  assert (0 ≤ Z.of_nat j * Z.of_nat (stripe_bytes record code) < r_size record) as Hlt' by nia.
  unfold wrap. rewrite (Z.mod_small (Z.of_nat j * _)), Z.mod_small by lia. done.
Qed.

Context (listed : list (ShardIndex * path)) (contents : list (ShardIndex * list block)).
Context (Hcopies : Forall2 (copy t0) listed contents) (Hdup : NoDup listed.*1) (Hpaths : ∀ e, e ∈ listed → e.2 ≠ p).
Context (Henough : ∀ j, (j < length stripes)%nat → data_shards (scheme code) ≤ Z.of_nat (length (filter (whole_at j) contents))).

Lemma ends_write_stripe readers j stripe done w : stripes !! j = Some stripe → Forall2 gives readers contents →
  gone_on p t0 (concat (take j stripes)) done w →
  ends_ok (write_stripe p record (scheme code) code readers done (Z.of_nat j)) w (gone_on p t0 (concat (take (S j) stripes))).
Proof.
  intros Hj Hr Hg. pose proof Hg as (_ & c & [_ Hn] & _). pose proof (lookup_lt_Some _ _ _ Hj) as Hlt.
  apply ends_bind. eapply ends_mono; [by apply (ends_columns readers contents)|]. intros received w' (-> & ->).
  destruct (os_columns Hos j stripe Hj) as (blocks & Henc & Hcols).
  destruct (stripe_decodes listed contents t0 Hcopies Hdup j stripe blocks Henc Hcols (Henough j Hlt)) as (decoded & Hdec & Hcase).
  apply ends_bind. apply (ends_lift decoded); [by rewrite (stripe_len_eq j stripe Hj), Hdec|].
  apply ends_bind. apply (ends_lift stripe); [by destruct Hcase as [->|[faults ->]]|].
  apply ends_bind. eapply ends_mono; [by apply ends_buf_write|]. intros buffer w' Hw'. apply ends_ret.
  rewrite (take_S_r _ _ _ Hj), concat_app. cbn [concat]. by rewrite app_nil_r.
Qed.

Lemma ends_stripes readers n : ∀ j done w, (j + n = length stripes)%nat → Forall2 gives readers contents →
  gone_on p t0 (concat (take j stripes)) done w →
  ends_ok (io_fold (write_stripe p record (scheme code) code readers) (seqZ (Z.of_nat j) (Z.of_nat n)) done) w (gone_on p t0 body).
Proof.
  induction n as [|n IH]; intros j done w Hj Hr Hg.
  { rewrite firstn_all2, concat_chunks in Hg by (lia || apply (stripe_bytes_pos Hos)). by apply ends_ret. }
  rewrite seqZ_cons by lia. cbn [io_fold]. destruct (lookup_lt_is_Some_2 stripes j) as [stripe Hst]; [lia|].
  apply ends_bind. eapply ends_mono; [by eapply ends_write_stripe|]. intros done' w' Hg'.
  replace (Z.succ (Z.of_nat j)) with (Z.of_nat (S j)) by lia. replace (Z.pred (Z.of_nat (S n))) with (Z.of_nat n) by lia.
  apply IH; [lia|done|done].
Qed.

Lemma ends_fill found key_hash w : default [] (map_get pair_compare (key_hash, r_version record) (fo_shards found)) = listed →
  held p t0 [] w → ends_ok (fill p record (scheme code) found key_hash) w (λ _, held p t0 body).
Proof.
  intros Hlisted Hh. pose proof Hh as [[Honly _] Hn]. unfold fill. pose proof (os_size Hos) as Hsize.
  destruct (Z.eqb_spec (r_size record) 0) as [Hz|Hnz].
  { apply ends_ret. destruct body; [done|cbn in Hsize; lia]. }
  assert (body ≠ []) as Hne by (intros ->; cbn in Hsize; lia).
  destruct (geometry_run (E := RecoverError * list Z) Hos) as (g & Hgeo & Hcount). specialize (Hcount Hne).
  rewrite Z.max_l in Hgeo by lia.
  apply ends_bind, (ends_lift (Some g)); [done|]. apply ends_bind, (ends_lift g); [done|]. rewrite Hlisted.
  apply ends_bind. eapply ends_mono; [apply (ends_open_all t0 listed contents); [done|done|intros e He; by apply Honly, Hpaths|done]|].
  intros readers w' (-> & Hr). pose proof (Forall2_length _ _ _ Hr) as Hlen.
  assert (0 < length stripes)%nat as Hpos.
  { pose proof (concat_chunks (stripe_bytes record code) body (stripe_bytes_pos Hos)) as Hc. destruct stripes; [by rewrite <- Hc in Hne|cbn; lia]. }
  apply ends_bind, (ends_lift tt).
  { pose proof (Henough 0%nat Hpos) as Hk. pose proof (length_filter (whole_at 0) contents). rewrite (proj2 (Z.ltb_ge _ _)) by lia. done. }
  apply ends_bind, (ends_lift code); [by rewrite (os_new Hos)|]. apply ends_bind. rewrite Hcount.
  eapply ends_mono; [apply (ends_stripes readers (length stripes) 0); [lia|done|split; [done|by exists []]]|].
  intros done w2 (Hd & c & Hc & Heq). apply ends_bind. eapply ends_mono; [by apply ends_flush|]. intros [] w3 Hw3. rewrite <- Heq in Hw3.
  apply (ends_lift tt); [|done]. rewrite Hd, (os_checksum Hos). unfold checksum_block. by rewrite Z.eqb_refl.
Qed.
End recovering.

Section extracting.
Context `{Sha256} `{Xxh3} `{SerdeJson} `{Uuid} `{Rfc3339} `{ReedSolomonLib}.

Lemma parent_snoc (p : path) n : parent (p ++ [n]) = p.
Proof. apply removelast_last. Qed.

Lemma partial_parent out name : file_name out = Some name → parent (partial_path out) = parent out ∧ parent out ≠ partial_path out.
Proof.
  intros Hn. rewrite (partial_path_name _ _ Hn). unfold with_file_name, join. rewrite parent_snoc. split; [done|].
  intros Heq. apply (f_equal length) in Heq. rewrite length_app in Heq. cbn in Heq. lia.
Qed.

Lemma ends_create p w : no_faults w → w_tree w !! p = None → w_tree w !! parent p = Some Dir →
  ends_ok (fs_create p) w (λ _, held p (w_tree w) []).
Proof.
  intros Hn Hp Hd. unfold fs_create. apply ends_bind. exists tt, w. split; [by apply may_fail_run|]. apply ends_bind. exists w, w. split; [done|].
  rewrite Hp. apply ends_bind. unfold need_parent. rewrite Hd. apply ends_ret. eexists tt, _. split; [done|].
  split; [|done]. unfold holding, offset_of. cbn. rewrite !lookup_insert_eq. split_and!; [|by eexists|done].
  intros q Hq. by rewrite lookup_insert_ne.
Qed.

Lemma ends_rename a b c m w : no_faults w → w_tree w !! a = Some (File c m) → w_tree w !! b = None → w_tree w !! parent b = Some Dir →
  ends_ok (fs_rename a b) w (λ _ w', w_tree w' = <[b := File c m]> (delete a (w_tree w))).
Proof.
  intros Hn Ha Hb Hd. unfold fs_rename. apply ends_bind. exists tt, w. split; [by apply may_fail_run|]. apply ends_bind. exists w, w. split; [done|].
  rewrite Ha, Hb. apply ends_bind. unfold need_parent. rewrite Hd. apply ends_ret. by eexists tt, _.
Qed.

End extracting.

(** ** Witnesses: one disk, with three shards of which one is damaged *)

Section witnesses.
#[local] Existing Instance poly_xxh3.
#[local] Existing Instance poly_sha256.
#[local] Existing Instance packed_json.
#[local] Existing Instance decimal_uuid.
#[local] Existing Instance decimal_time.
#[local] Existing Instance xor_lib.

Definition dir9 : path := device_object_directory device5 (r_key_hash Degraded.record6).
Definition json9 : str := match to_json Degraded.record6 with Ok text => text | _ => [] end.
Definition shard9 (i : Z) : path := join dir9 (shard_file_name (r_version Degraded.record6) i).
Definition header9 (i : Z) : ShardFileHeader := mkHeader (mkScheme 2 1) i 4096 (r_key_hash Degraded.record6) (r_version Degraded.record6).
Definition column9 (i : nat) : list block := default [] (Degraded.columns6 !! i).
Definition contents9 : list (ShardIndex * list block) := [(0, column9 0); (1, [[1; 2; 3]]); (2, column9 2)].
Definition image9 (i : nat) : list Z :=
  damaged_image (header9 (Z.of_nat i)) (column9 i) 3 5 (r_object_checksum Degraded.record6) (default [] (contents9.*2 !! i)).

Definition tree9 : tree :=
  <[shard9 0 := File (image9 0) 0]> (<[shard9 1 := File (image9 1) 0]> (<[shard9 2 := File (image9 2) 0]>
    (<[join dir9 (record_file_name (r_version Degraded.record6)) := File (as_bytes json9) 0]>
      (w_tree (fs_create_dir_all 1 dir9 blank_world).2)))).
Definition world9 : World := mkWorld tree9 ∅ 100 7 0 [] [].

Definition found9 : Found := mkRecovered [((lit "a", r_version Degraded.record6), Degraded.record6)]
  [((r_key_hash Degraded.record6, r_version Degraded.record6), [(0, shard9 0); (1, shard9 1); (2, shard9 2)])] [].

Lemma scan9 : ∃ w1, scan [[lit "d"]] world9 = (Ok found9, w1) ∧ no_faults w1.
Proof.
  assert ((scan [[lit "d"]] world9).1 = Ok found9) as Hr by (vm_compute; reflexivity).
  assert (w_faults (scan [[lit "d"]] world9).2 = []) as Hf by (vm_compute; reflexivity).
  destruct (scan [[lit "d"]] world9) as [r w1]. exists w1. cbn in Hr. by rewrite Hr.
Qed.

Lemma shard9_ok i b : 0 ≤ i < 3 → length b = 3%nat → shard_ok (header9 i) [b] 3 5 (r_object_checksum Degraded.record6).
Proof.
  intros Hi Hb. split; [|lia|by split; vm_compute|by vm_compute|by vm_compute| |by vm_compute|by vm_compute].
  - split_and!; [by (split; vm_compute)|exact (proj1 Hi)|exact (proj2 Hi)|by (split; vm_compute)|apply poly_sha_ok|].
    split; [reflexivity|apply Forall_replicate; split; lia].
  - exists [], b. split_and!; [reflexivity|constructor|exact Hb|lia|cbn; lia].
Qed.

Lemma file9 i : i = 0 ∨ i = 1 ∨ i = 2 → tree9 !! shard9 i = Some (File (image9 (Z.to_nat i)) 0).
Proof.
  unfold tree9.
  intros [->|[->| ->]]. { apply lookup_insert_eq. } { rewrite lookup_insert_ne by (by vm_compute). apply lookup_insert_eq. }
  rewrite !lookup_insert_ne by (by vm_compute). apply lookup_insert_eq.
Qed.

Lemma copy9 i b b' : i = 0 ∨ i = 1 ∨ i = 2 → column9 (Z.to_nat i) = [b] → contents9.*2 !! Z.to_nat i = Some [b'] →
  length b = 3%nat → length b' = 3%nat → (checksum_block b' = checksum_block b → b' = b) →
  copy Degraded.record6 code21 Degraded.columns6 tree9 (i, shard9 i) (i, [b']).
Proof.
  intros Hi Hc Hs Hb Hb' Hd. split; [reflexivity|]. exists (header9 i), [b], 3, 0. split_and!; [reflexivity|reflexivity|reflexivity| | | | |].
  - cbn [fst]. unfold column9 in Hc. destruct (Degraded.columns6 !! Z.to_nat i) as [col|]; [|done]. exact (f_equal Some Hc).
  - apply shard9_ok; [lia|done].
  - repeat constructor. by rewrite Hb.
  - intros [|j] x x' [= <-] [= <-]. exact Hd.
  - cbn [snd]. rewrite file9 by done. unfold image9. by rewrite Hc, Hs, Z2Nat.id by lia.
Qed.

Lemma copies9 : Forall2 (copy Degraded.record6 code21 Degraded.columns6 tree9) [(0, shard9 0); (1, shard9 1); (2, shard9 2)] contents9.
Proof.
  assert (∃ b0 b1 b2, column9 0 = [b0] ∧ column9 1 = [b1] ∧ column9 2 = [b2] ∧ length b0 = 3%nat ∧ length b1 = 3%nat ∧ length b2 = 3%nat
    ∧ checksum_block [1; 2; 3] ≠ checksum_block b1) as (b0 & b1 & b2 & H0 & H1 & H2 & L0 & L1 & L2 & Hne).
  { do 3 eexists. split_and!; [vm_compute; reflexivity..|]. by vm_compute. }
  unfold contents9. rewrite H0, H2. constructor; [|constructor; [|constructor; [|constructor]]].
  - apply (copy9 0 b0 b0); [by left|done|cbn; by rewrite H0|done..].
  - apply (copy9 1 b1 [1; 2; 3]); [by right; left|done|reflexivity|done|done|]. intros Hck. by destruct Hne.
  - apply (copy9 2 b2 b2); [by right; right|done|cbn; by rewrite H2|done..].
Qed.


End witnesses.
End RecoverRun.
