(* ===== verification/Client.v ===== *)
(** [djbod-client]: the conversations of [connection.rs] that move objects,
    shards and events, and the client of [client.rs], which keeps one
    connection open and reconnects to the next node when it fails.

    The state of a client is next to the state of its connections; a method
    that fails keeps what it did to both.  An error text made of another error
    is represented by that error. *)

From S2P Require Import Prelude Text Checksum KeyHash VersionId Erasure Layout Stripe FileSystem ShardFile Record Device Cluster Scrub Frame Handshake Message Connection.

Module Client.
Import Message Connection.

(** ** Bytes to send and bytes received *)

(** What a source has to give: each read gives some of the next piece, or
    fails, or has come to the end. *)
Abbreviation Source := (list (option (list Z))).

Definition source_read (want : nat) (source : Source) : res WireError (list Z * Source) :=
  match source with
  | [] => Ok ([], [])
  | None :: _ => Err WireIo
  | Some piece :: rest =>
      Ok (take want piece, match drop want piece with [] => rest | more => Some more :: rest end)
  end.

(** A sink takes everything, or fails once it is full, or when flushed. *)
Record Sink := mkSink { sk_written : list Z; sk_room : option nat; sk_flushes : bool }.

Definition sink_write_all (sink : Sink) (bytes : list Z) : res WireError unit * Sink :=
  match sk_room sink with
  | None => (Ok tt, mkSink (sk_written sink ++ bytes) None (sk_flushes sink))
  | Some room =>
      (if (length bytes <=? room)%nat then Ok tt else Err WireIo,
       mkSink (sk_written sink ++ take room bytes) (Some (room - length bytes)%nat) (sk_flushes sink))
  end.

Definition sink_flush (sink : Sink) : res WireError unit := if sk_flushes sink then Ok tt else Err WireIo.

Definition body_frame `{Xxh3} (seq : Z) (bytes : list Z) : DataFrame := mkDataFrame seq (checksum_block bytes) bytes.

Definition violation (message : str) : ConnectionError := StreamFailed (ErrorDetail_new ProtocolViolation message).

Definition upload_ended (e : StreamEnd) : ConnectionError :=
  StreamFailed (default (ErrorDetail_new ProtocolViolation (lit "upload ended without a version")) (se_error e)).

(** ** Conversations *)

Section conversations.
Context {N : Type} `{Network N} `{Xxh3}.
Abbreviation call A := (net (Peers N) ConnectionError A).

(** Send the request that starts an operation, and take the one answer to it. *)
Definition expecting {A : Type} (expected : str) (f : Response → option A) (response : Response) : call A :=
  match f response with
  | Some a => mret a
  | None => nthrow (UnexpectedMessage expected (GotResponse response))
  end.

Definition put_shard (ch : nat) (r : Request) (blocks : list ShardBlock) (object_size : Z) (object_checksum : BlockChecksum) : call unit :=
  id ← send_request ch r;
  ready ← read_response ch id;
  _ ← expecting (lit "PutShardReady") (λ r, match r with PutShardReady => Some tt | _ => None end) ready;
  _ ← nfold (λ stripe block, _ ← send_data ch id (mkDataFrame stripe (sb_checksum block) (sb_bytes block)); mret (stripe + 1)) blocks 0;
  _ ← send_end ch id (mkStreamEnd None (Some object_size) (Some object_checksum) [] []);
  finished ← read_response ch id;
  expecting (lit "PutShardDone") (λ r, match r with PutShardDone => Some tt | _ => None end) finished.

Fixpoint collect_blocks (fuel : nat) (ch : nat) (id : Z) (index : ShardIndex) (blocks : list ShardBlock) : call (list ShardBlock) :=
  match fuel with
  | O => still_running
  | S fuel =>
      item ← read_stream_item ch id;
      match item with
      | ItemData data => collect_blocks fuel ch id index (blocks ++ [mkShardBlock index (df_bytes data) (df_checksum data)])
      | ItemEnd e => match se_error e with Some error => nthrow (StreamFailed error) | None => mret blocks end
      end
  end.

Definition get_shard (fuel : nat) (ch : nat) (r : Request) (index : ShardIndex) : call (list ShardBlock) :=
  id ← send_request ch r;
  response ← read_response ch id;
  _ ← expecting (lit "GetShard") (λ r, match r with RespGetShard count => Some count | _ => None end) response;
  collect_blocks fuel ch id index [].

Definition DEFAULT_BODY_CHUNK : Z := 2 ^ 20.

(** After a write failed, what the coordinator had said before. *)
Definition refusal_behind_write_error (ch : nat) (write_error : ConnectionError) : call ConnectionError :=
  r ← nattempt (read_message ch);
  mret match r with
       | Ok (MEndOfStream _ e) => upload_ended e
       | Ok (MResponse _ (RespError detail)) => Remote detail
       | _ => write_error
       end.

(** A write during an upload. *)
Definition upload_write (ch : nat) (m : call unit) : call unit :=
  r ← nattempt m;
  match r with
  | Err e => refusal ← refusal_behind_write_error ch e; nthrow refusal
  | _ => mret tt
  end.

Definition source_ended (remaining size : Z) : StreamEnd :=
  StreamEnd_failed (ErrorDetail_new WriteFailed
    (lit "source ended with " ++ fmt_dec remaining ++ lit " of " ++ fmt_dec size ++ lit " bytes unsent")).

(** The body, chunk by chunk: what is left to send. *)
Fixpoint upload_body (fuel : nat) (ch : nat) (id size : Z) (chunk : nat) (source : Source) (remaining seq : Z) : call Z :=
  if remaining <=? 0 then mret remaining
  else match fuel with
  | O => still_running
  | S fuel =>
      let want := Nat.min (Z.to_nat remaining) chunk in
      '(bytes, source) ← nlift (map_err CeWire (source_read want source));
      match bytes with
      | [] => _ ← send_end ch id (source_ended remaining size); mret remaining
      | _ =>
          _ ← upload_write ch (send_data ch id (body_frame seq bytes));
          upload_body fuel ch id size chunk source (remaining - Z.of_nat (length bytes)) (wrap64 (seq + 1))
      end
  end.

Definition put_object_with_metadata (ch : nat) (key : str) (size : Z) (source : Source) (chunk : nat)
    (content_type : option str) (user_metadata : list (str * str)) : call ObjectWrite :=
  id ← send_request ch (PutObject key size content_type user_metadata);
  remaining ← upload_body (Z.to_nat size) ch id size (Nat.max chunk 1) source size 0;
  _ ← (if remaining =? 0 then upload_write ch (send_end ch id StreamEnd_ok) else mret tt);
  m ← nmap_err CeWire (read_message ch);
  match m with
  | MResponse got (RespPutObject version unavailable) =>
      if got =? id then mret (mkObjectWrite version unavailable) else nthrow (UnexpectedMessage (lit "PutObject") (GotMessage m))
  | MResponse _ (RespError detail) => nthrow (Remote detail)
  | MEndOfStream _ e => nthrow (upload_ended e)
  | _ => nthrow (UnexpectedMessage (lit "PutObject") (GotMessage m))
  end.

Definition put_object_from_reader (ch : nat) (key : str) (size : Z) (source : Source) (chunk : nat) (content_type : option str) : call ObjectWrite :=
  put_object_with_metadata ch key size source chunk content_type [].

(** A slice as a source. *)
Definition cursor (body : list Z) : Source := match body with [] => [] | _ => [Some body] end.

Definition put_object (ch : nat) (key : str) (body : list Z) (chunk : nat) (content_type : option str) : call ObjectWrite :=
  put_object_from_reader ch key (Z.of_nat (length body)) (cursor body) chunk content_type.

(** The body of an object into the sink, whose content a failure keeps. *)
Fixpoint download_body (fuel : nat) (ch : nat) (id : Z) (expected_sequence : Z) (sink : Sink) : call (res ConnectionError StreamEnd * Sink) :=
  match fuel with
  | O => still_running
  | S fuel =>
      r ← nattempt (read_stream_item ch id);
      match r with
      | Ok (ItemData data) =>
          if negb (sequence data =? expected_sequence) || negb (checksum_block (df_bytes data) =? df_checksum data)
          then mret (Err (violation (lit "body chunk " ++ fmt_dec (sequence data) ++ lit " out of order or corrupt in transit")), sink)
          else match sink_write_all sink (df_bytes data) with
               | (Ok _, sink) => download_body fuel ch id (wrap64 (expected_sequence + 1)) sink
               | (Err e, sink) => mret (Err (CeWire e), sink)
               | (Panic, sink) => nlift Panic
               end
      | Ok (ItemEnd e) =>
          match se_error e with
          | Some error => mret (Err (StreamFailed error), sink)
          | None => mret (match sink_flush sink with Ok _ => Ok e | Err e => Err (CeWire e) | Panic => Panic end, sink)
          end
      | Err e => mret (Err e, sink)
      | Panic => nlift Panic
      end
  end.

Definition get_object_to_writer (fuel : nat) (ch : nat) (key : str) (sink : Sink) : call (res ConnectionError ObjectRead * Sink) :=
  r ← nattempt (id ← send_request ch (GetObject key);
                response ← read_response ch id;
                record ← expecting (lit "GetObject") (λ r, match r with RespGetObject record => Some record | _ => None end) response;
                mret (id, record));
  match r with
  | Ok (id, record) =>
      '(ended, sink) ← download_body fuel ch id 0 sink;
      mret (match ended with
            | Ok e => Ok (mkObjectRead record (se_reconstructed e) (se_missing_records e))
            | Err e => Err e
            | Panic => Panic
            end, sink)
  | Err e => mret (Err e, sink)
  | Panic => nlift Panic
  end.

(** A vector as a sink. *)
Definition vec_sink : Sink := mkSink [] None true.

Definition get_object (fuel : nat) (ch : nat) (key : str) : call (ObjectRead * list Z) :=
  '(read, sink) ← get_object_to_writer fuel ch key vec_sink;
  read ← nlift read;
  mret (read, sk_written sink).

(** ** Operations that stream events *)

Definition start (expected : str) (f : Response → bool) (ch : nat) (r : Request) : call Z :=
  id ← send_request ch r;
  response ← read_response ch id;
  expecting expected (λ r, if f r then Some id else None) response.

Definition start_scrub (ch : nat) (max_bytes_per_second : option Z) (repair : bool) : call Z :=
  start (lit "ScrubStarted") (λ r, match r with ScrubStarted => true | _ => false end) ch (Scrub max_bytes_per_second repair).
Definition start_drain (ch : nat) (device : DeviceId) (partial : bool) : call Z :=
  start (lit "DrainStarted") (λ r, match r with DrainStarted => true | _ => false end) ch (Drain device partial).
Definition start_inventory (ch : nat) (q : InventoryQuery) : call Z :=
  start (lit "InventoryStarted") (λ r, match r with InventoryStarted => true | _ => false end) ch (Inventory q).

(** [codec_text] is what the CBOR library says of bytes it cannot read. *)
Definition next_event {E : Type} `{Cbor E} (codec_text : list Z → str) (ch : nat) (id : Z) : call (E + StreamEnd) :=
  item ← read_stream_item ch id;
  match item with
  | ItemData data =>
      if negb (checksum_block (df_bytes data) =? df_checksum data) then nthrow (violation (lit "event corrupt in transit"))
      else match decode_cbor (df_bytes data) with
           | Some event => mret (inl event)
           | None => nthrow (violation (codec_text (df_bytes data)))
           end
  | ItemEnd e => mret (inr e)
  end.
End conversations.

(** ** The client *)

Record ClientOptions := mkOptions { co_nodes : list str; co_cluster : option Z; co_tls : bool; co_body_chunk : nat }.

Definition ClientOptions_new (nodes : list str) : ClientOptions := mkOptions nodes None false (Z.to_nat DEFAULT_BODY_CHUNK).

Inductive ClientError :=
| NoNodes
| Unreachable (attempts : list (str * ClientError))
| ClConnection (e : ConnectionError)
| UnexpectedResponse (request : str) (got : Response).

Definition detail (e : ClientError) : option ErrorDetail :=
  match e with
  | ClConnection (Remote d) | ClConnection (StreamFailed d) => Some d
  | _ => None
  end.

Definition is_not_found (e : ClientError) : bool := bool_decide (e_code <$> detail e = Some NotFound).

Definition is_connection_failure (e : ClientError) : bool :=
  match e with ClConnection (CeWire _) => true | _ => false end.

Record StatusReport := mkStatusReport {
  st_cluster_id : Z; st_cluster_name : option str; st_document_version : Z; st_coordinator : NodeId;
  st_nodes : list NodeStatus; st_transport : Transport; st_devices : list DeviceStatus;
}.

Record Identity := mkClientIdentity {
  id_address : str; id_cluster_id : Z; id_cluster_name : option str; id_node : option NodeId; id_build : str; id_document_version : Z;
}.

Record MoveShardReport := mkMoveShardReport {
  mr_record : MetadataRecord; mr_source : DeviceId; mr_source_cleaned : bool; mr_rebuilt : bool;
}.

(** A run of events owns its connection. *)
Record EventRun := mkEventRun { er_connection : nat; er_id : Z }.

Record ListPage := mkListPage { lp_keys : list KeyEntry; lp_truncated : bool; lp_unread : list UnavailableDevice; lp_complete : bool }.

Definition next_start_after (page : ListPage) : option str :=
  if lp_truncated page then ke_key <$> last (lp_keys page) else None.

(** The fields of a [Client] that change. *)
Record Session := mkClientState { cl_connection : option (str * nat); cl_next_node : nat }.

#[global] Instance UnavailableDevice_eq_dec : EqDecision UnavailableDevice.
Proof. solve_decision. Defined.

Section client.
Context {N : Type} `{Network N} `{Xxh3} (build : str) (options : ClientOptions).

Record Clients := mkClients { cl_peers : Peers N; cl_session : Session }.
Abbreviation op A := (net Clients ClientError A).

Definition on_wire {E A : Type} (m : net (Peers N) E A) : net Clients E A := λ s,
  match m (cl_peers s) with
  | Some (r, p) => Some (r, mkClients p (cl_session s))
  | None => None
  end.

(** [?] on a conversation *)
Definition conversing {A : Type} (m : net (Peers N) ConnectionError A) : op A := nmap_err ClConnection (on_wire m).

Definition session {E : Type} : net Clients E Session := λ s, Some (Ok (cl_session s), s).
Definition set_session {E : Type} (c : Session) : net Clients E unit := λ s, Some (Ok tt, mkClients (cl_peers s) c).

(** [self.connection = None] *)
Definition forget_connection {E : Type} : net Clients E unit := c ← session; set_session (mkClientState None (cl_next_node c)).

Definition identity_of (address : str) (hello : Handshake.Hello) : Identity :=
  mkClientIdentity address (Handshake.cluster_id hello) (Handshake.cluster_name hello) (Handshake.node_id hello) (Handshake.build hello)
    (Handshake.document_version hello).

(** The nil UUID *)
Definition ask (address : str) : net (Peers N) ClientError Identity :=
  ch ← nmap_err ClConnection (connect_with (co_tls options) address (client_hello build 0));
  hello ← peer_hello ch;
  mret (identity_of address hello).

Definition ask_cluster_id (address : str) : net (Peers N) ClientError Z := identity ← ask address; mret (id_cluster_id identity).

Definition connect_node (cluster : Z) (address : str) : net (Peers N) ClientError nat :=
  nmap_err ClConnection (connect_with (co_tls options) address (client_hello build cluster)).

(** [(position + 1) % len] *)
Definition after_position (position : nat) : nat := ((position + 1) mod length (co_nodes options))%nat.

(** One node tried by [Client::connect]: the cluster and the connection. *)
Definition connect_first (address : str) : net (Peers N) ClientError (Z * nat) :=
  cluster ← match co_cluster options with Some cluster => mret cluster | None => ask_cluster_id address end;
  ch ← connect_node cluster address;
  mret (cluster, ch).

Fixpoint connect_any {A : Type} (f : str → net (Peers N) ClientError A) (nodes : list (nat * str)) (attempts : list (str * ClientError))
    : net (Peers N) ClientError (nat * str * A) :=
  match nodes with
  | [] => nthrow (Unreachable attempts)
  | (position, address) :: nodes =>
      r ← nattempt (f address);
      match r with
      | Ok a => mret (position, address, a)
      | Err e => connect_any f nodes (attempts ++ [(address, e)])
      | Panic => nlift Panic
      end
  end.

(** The cluster the client is for, and the client. *)
Definition connect : net (Peers N) ClientError (Z * Session) :=
  match co_nodes options with
  | [] => nthrow NoNodes
  | nodes =>
      '(position, address, (cluster, ch)) ← connect_any connect_first (zip (seq 0 (length nodes)) nodes) [];
      mret (cluster, mkClientState (Some (address, ch)) (after_position position))
  end.

Context (cluster : Z).

(** Every node once, from the one to try next. *)
Definition rotation (first : nat) : list (nat * str) :=
  let count := length (co_nodes options) in
  omap (λ offset, let position := ((first + offset) mod count)%nat in pair position <$> co_nodes options !! position) (seq 0 count).

Definition reconnect : op unit :=
  c ← session;
  '(position, address, ch) ← on_wire (connect_any (connect_node cluster) (rotation (cl_next_node c)) []);
  set_session (mkClientState (Some (address, ch)) (after_position position)).

Definition connection : op nat :=
  c ← session;
  _ ← match cl_connection c with None => reconnect | Some _ => mret tt end;
  c ← session;
  nlift (expect (snd <$> cl_connection c)).

Fixpoint request_attempts (attempts : nat) (r : Request) : op Response :=
  match attempts with
  | O => still_running
  | S attempts_left =>
      ch ← connection;
      result ← nattempt (conversing (Connection.request ch r));
      match result with
      | Ok (RespError d) => nthrow (ClConnection (Remote d))
      | Ok response => mret response
      | Err e =>
          if is_connection_failure e
          then _ ← forget_connection;
               match attempts_left with O => nthrow e | _ => request_attempts attempts_left r end
          else nthrow e
      | Panic => nlift Panic
      end
  end.

Definition request (r : Request) (retry : bool) : op Response := request_attempts (if retry then 2 else 1) r.

Definition forget_connection_on_failure {A : Type} (result : res ClientError A) : op unit :=
  match result with
  | Err e => if is_connection_failure e then forget_connection else mret tt
  | _ => mret tt
  end.

(** A conversation on the open connection, forgotten if it fails. *)
Definition streaming {A : Type} (m : nat → net (Peers N) ConnectionError A) : op A :=
  ch ← connection;
  result ← nattempt (conversing (m ch));
  _ ← forget_connection_on_failure result;
  nlift result.

Definition answering {A : Type} (name : str) (f : Response → option A) (r : Request) (retry : bool) : op A :=
  response ← request r retry;
  match f response with Some a => mret a | None => nthrow (UnexpectedResponse name response) end.

(** *** Objects *)

Definition put_from_reader (key : str) (size : Z) (source : Source) (content_type : option str) (user_metadata : list (str * str)) : op ObjectWrite :=
  streaming (λ ch, put_object_with_metadata ch key size source (co_body_chunk options) content_type user_metadata).

Definition put (key : str) (body : list Z) (content_type : option str) : op ObjectWrite :=
  put_from_reader key (Z.of_nat (length body)) (cursor body) content_type [].

(** The sink comes back with the result. *)
Definition get_to_writer (fuel : nat) (key : str) (sink : Sink) : op (res ClientError ObjectRead * Sink) :=
  ch ← connection;
  '(result, sink) ← on_wire (nmap_err ClConnection (get_object_to_writer fuel ch key sink));
  let result := map_err ClConnection result in
  _ ← forget_connection_on_failure result;
  mret (result, sink).

Definition get (fuel : nat) (key : str) : op (ObjectRead * list Z) :=
  '(read, sink) ← get_to_writer fuel key vec_sink;
  read ← nlift read;
  mret (read, sk_written sink).

Definition head (key : str) : op ObjectRead :=
  answering (lit "HeadObject") (λ r, match r with RespHeadObject record missing => Some (mkObjectRead record [] missing) | _ => None end)
    (HeadObject key) true.

Definition delete (key : str) : op unit :=
  answering (lit "DeleteObject") (λ r, match r with RespDeleteObject => Some tt | _ => None end) (DeleteObject key) false.

Definition list_keys (q : ListQuery) : op ListPage :=
  answering (lit "ListKeys") (λ r, match r with RespListKeys keys truncated unread complete => Some (mkListPage keys truncated unread complete) | _ => None end)
    (ListKeys q) true.

Definition note_unread (all : list UnavailableDevice) (device : UnavailableDevice) : list UnavailableDevice :=
  if bool_decide (device ∈ all) then all else all ++ [device].

Definition add_page (all page : ListPage) : ListPage :=
  mkListPage (lp_keys all ++ lp_keys page) (lp_truncated all) (foldl note_unread (lp_unread all) (lp_unread page))
    (lp_complete all && lp_complete page).

Fixpoint list_pages (fuel : nat) (prefix : option str) (all : ListPage) (start_after : option str) : op ListPage :=
  match fuel with
  | O => still_running
  | S fuel =>
      page ← list_keys (mkListQuery prefix start_after None);
      match next_start_after page with
      | None => mret (add_page all page)
      | after => list_pages fuel prefix (add_page all page) after
      end
  end.

Definition list_all (fuel : nat) (prefix : option str) : op ListPage := list_pages fuel prefix (mkListPage [] false [] true) None.

Definition device_contents (device : DeviceId) : op DeviceContents :=
  answering (lit "DeviceContents") (λ r, match r with RespDeviceContents c => Some c | _ => None end) (ReqDeviceContents device) true.

Definition move_shard (key : str) (shard_index : Z) (target : option DeviceId) : op MoveShardReport :=
  answering (lit "MoveShard") (λ r, match r with RespMoveShard record source cleaned rebuilt => Some (mkMoveShardReport record source cleaned rebuilt) | _ => None end)
    (MoveShard key shard_index target) false.

(** The connection leaves the client. *)
Definition start_run (f : nat → net (Peers N) ConnectionError Z) : op EventRun :=
  ch ← connection;
  _ ← forget_connection;
  id ← conversing (f ch);
  mret (mkEventRun ch id).

Definition scrub (max_bytes_per_second : option Z) (repair : bool) : op EventRun := start_run (λ ch, start_scrub ch max_bytes_per_second repair).
Definition drain (device : DeviceId) (partial : bool) : op EventRun := start_run (λ ch, start_drain ch device partial).
Definition inventory (q : InventoryQuery) : op EventRun := start_run (λ ch, start_inventory ch q).

Definition run_next_event {E : Type} `{Cbor E} (codec_text : list Z → str) (run : EventRun) : net (Peers N) ClientError (E + StreamEnd) :=
  nmap_err ClConnection (next_event codec_text (er_connection run) (er_id run)).

Definition repair (key : str) : op RepairReport :=
  answering (lit "RepairObject") (λ r, match r with RespRepairObject report => Some report | _ => None end) (RepairObject key) false.

(** *** The cluster *)

Definition status : op StatusReport :=
  answering (lit "Status") (λ r, match r with
    | RespStatus id name version coordinator nodes transport devices => Some (mkStatusReport id name version coordinator nodes transport devices)
    | _ => None end) Status true.

Definition cluster_document : op ClusterDocument :=
  answering (lit "GetClusterConfig") (λ r, match r with RespGetClusterConfig document => Some document | _ => None end) GetClusterConfig true.

Definition identity : op Identity :=
  _ ← connection;
  c ← session;
  match cl_connection c with
  | Some (address, ch) => hello ← on_wire (peer_hello ch); mret (identity_of address hello)
  | None => nlift Panic
  end.
End client.
End Client.
