(* ===== verification/ClientSpec.v ===== *)
(** What the client promises: the body of a download is what arrived in order
    and verified, an upload streams the source, and the two ends together, the
    client and the coordinator, move objects whole; a request goes out no more
    often than it may; a listing page after page is the whole listing. *)

From S2P Require Import Prelude Text Checksum KeyHash VersionId Erasure Layout Stripe FileSystem ShardFile Record Device Cluster Scrub Frame Handshake Message Node LocalOps LocalOpsSpec Lookup Connection Coordinator Log Get StoredObject GetSpec Put PutSpec Client.

Module ClientSpec.
Import Message LocalOps LocalOpsSpec Lookup Connection Coordinator Log Get StoredObject GetSpec Put PutSpec Client.

(** ** Streams *)

Section streams.
Context `{Xxh3}.

(** A stream is read in one way only. *)
Lemma body_stream_unique j todo body rest : body_stream j todo body rest → ∀ body' rest', body_stream j todo body' rest' → body' = body ∧ rest' = rest.
Proof.
  induction 1 as [j i e rest He|j i data todo bytes rest Hs Hc Hb IH]; intros body' rest' H2; inversion H2; subst; [done|].
  destruct (IH _ _ ltac:(eassumption)) as [-> ->]. done.
Qed.

(** More may follow. *)
Lemma body_stream_more j todo body rest more : body_stream j todo body rest → body_stream j (todo ++ more) body (rest ++ more).
Proof. induction 1; cbn [app]; by constructor. Qed.

(** A stream that says it failed is no body. *)
Lemma failed_stream j (frames : list DataFrame) i e more body rest : is_Some (se_error e) →
  ¬ body_stream j ((Arrives <$> (MData i <$> frames) ++ [MEndOfStream i e]) ++ more) body rest.
Proof.
  intros [d He]. revert j body. induction frames as [|f frames IH]; intros j body Hb; inversion Hb; subst; [congruence|]. by eapply IH.
Qed.
End streams.

(** What a source gives before it ends or fails. *)
Fixpoint source_bytes (source : Source) : list Z :=
  match source with
  | Some (b :: piece) :: rest => (b :: piece) ++ source_bytes rest
  | _ => []
  end.

Lemma source_read_ok want source bytes source' : (0 < want)%nat → source_read want source = Ok (bytes, source') →
  (length bytes ≤ want)%nat ∧ (bytes ≠ [] → source_bytes source = bytes ++ source_bytes source') ∧ (bytes = [] → source_bytes source = []).
Proof.
  intros Hw. destruct source as [|[[|b piece]|] rest]; cbn [source_read]; [| | |done].
  - intros [= <- <-]. cbn. split_and!; [lia|done|done].
  - intros [= <- <-]. rewrite take_nil. split_and!; [cbn; lia|done|done].
  - intros [= <- <-]. rewrite length_take. split_and!; [lia| |intros He; destruct want; [lia|done]].
    intros _. cbn [source_bytes]. rewrite <- (take_drop want (b :: piece)) at 1. rewrite <- app_assoc. f_equal.
    destruct (drop want (b :: piece)) as [|b' more]; done.
Qed.

Section conversations.
Context {N : Type} `{Network N} `{Xxh3} `{CoordTexts}.
Implicit Types s : Peers N.

Definition item_message (id : Z) (item : StreamItem) : Message :=
  match item with ItemData d => MData id d | ItemEnd e => MEndOfStream id e end.

Lemma read_item_ok ch id s item s' :
  read_stream_item ch id s = Some (Ok item, s') → pe_log s' = pe_log s ++ [Got ch (item_message id item)].
Proof.
  unfold read_stream_item. intros Hr. next Hr. apply map_err_ok_inv, read_ok in R as [Hl _].
  destruct x; try done; destruct (Z.eqb_spec id0 id) as [->|]; try done; apply ret_ok_inv in Hr as [-> ->]; done.
Qed.

(** Whatever was not accepted was not written. *)
Lemma download_ok fuel ch id : ∀ seq sink s e sink' s',
  download_body fuel ch id seq sink s = Some (Ok (Ok e, sink'), s') →
  ∃ frames body, pe_log s' = pe_log s ++ (Got ch <$> (MData id <$> frames) ++ [MEndOfStream id e]) ∧ se_error e = None
    ∧ body_stream seq (Arrives <$> (MData id <$> frames) ++ [MEndOfStream id e]) body [] ∧ sk_written sink' = sk_written sink ++ body.
Proof.
  induction fuel as [|fuel IH]; intros seq sink s e sink' s' Hr; cbn [download_body] in Hr; [done|].
  next Hr. apply attempt_ok_inv in R. destruct x as [[data|end_]|err|]; [| |by apply ret_ok_inv in Hr as [? _]|done]; apply read_item_ok in R.
  - destruct (Z.eqb_spec (sequence data) seq) as [Hs|]; [|by apply ret_ok_inv in Hr as [? _]].
    destruct (Z.eqb_spec (checksum_block (df_bytes data)) (df_checksum data)) as [Hc|]; [|by apply ret_ok_inv in Hr as [? _]]. cbn [negb orb] in Hr.
    destruct (sink_write_all sink (df_bytes data)) as [[u|e'|] sink1] eqn:Hw; [|by apply ret_ok_inv in Hr as [? _]|done].
    assert (sk_written sink1 = sk_written sink ++ df_bytes data) as Hw1.
    { unfold sink_write_all in Hw. destruct (sk_room sink) as [room|]; [|by injection Hw as <- <-].
      destruct (Nat.leb_spec (length (df_bytes data)) room); [|done]. injection Hw as <- <-. cbn. by rewrite take_ge by lia. }
    destruct (IH _ _ _ _ _ _ Hr) as (frames & body & Hl & He & Hb & Hk). exists (data :: frames), (df_bytes data ++ body).
    rewrite Hl, R, Hk, Hw1. cbn [fmap list_fmap app]. rewrite <- !app_assoc. split_and!; [done|done| |done]. by constructor.
  - destruct (se_error end_) eqn:He; [by apply ret_ok_inv in Hr as [? _]|]. apply ret_ok_inv in Hr as [Hr ->].
    unfold sink_flush in Hr. destruct (sk_flushes sink); [|done]. injection Hr as -> ->. exists [], [].
    rewrite R, app_nil_r. split_and!; [done|done| |done]. by constructor.
Qed.

Lemma expecting_ok {A : Type} (expected : str) (f : Response → option A) response s a s' :
  expecting (N := N) expected f response s = Some (Ok a, s') → f response = Some a ∧ s' = s.
Proof. unfold expecting. destruct (f response); [|done]. intros [-> ->]%ret_ok_inv. done. Qed.

Lemma get_to_writer_ok fuel ch key sink s read sink' s' :
  get_object_to_writer fuel ch key sink s = Some (Ok (Ok read, sink'), s') →
  ∃ id frames e body,
    pe_log s' = pe_log s ++ Sent ch (MRequest id (GetObject key)) :: Got ch (MResponse id (RespGetObject (or_record read)))
      :: (Got ch <$> (MData id <$> frames) ++ [MEndOfStream id e])
    ∧ se_error e = None ∧ body_stream 0 (Arrives <$> (MData id <$> frames) ++ [MEndOfStream id e]) body []
    ∧ sk_written sink' = sk_written sink ++ body
    ∧ read = mkObjectRead (or_record read) (se_reconstructed e) (se_missing_records e).
Proof.
  unfold get_object_to_writer. intros Hr. next Hr. apply attempt_ok_inv in R.
  destruct x as [[id record]|e|]; [|by apply ret_ok_inv in Hr as [? _]|done].
  next R. next R. next R. apply ret_ok_inv in R as [[= -> ->] ->]. apply send_request_ok in R0 as [L1 _]. apply read_response_ok in R1 as (L2 & _).
  apply expecting_ok in R2 as [Hf ->]. destruct x0; try done. injection Hf as ->.
  next Hr. destruct x0 as [ended sink1]. apply ret_ok_inv in Hr as [Hr ->]. destruct ended as [e|e|]; [|done..]. injection Hr as -> <-.
  destruct (download_ok _ _ _ _ _ _ _ _ _ R) as (frames & body & L3 & He & Hb & Hk). exists x, frames, e, body. rewrite L3, L2, L1, <- !app_assoc. done.
Qed.

(** ** Uploads *)

Lemma attempt_no_panic {E F A : Type} (m : net (Peers N) E A) s r s' : nattempt (F := F) m s = Some (Ok r, s') → m s = Some (r, s') ∧ r ≠ Panic.
Proof. unfold nattempt. destruct (m s) as [[[a|e|] s1]|]; naive_solver. Qed.

Lemma upload_write_ok ch m s u s' : upload_write (N := N) ch m s = Some (Ok u, s') → m s = Some (Ok tt, s').
Proof.
  unfold upload_write. intros Hr. next Hr. apply attempt_no_panic in R as [R Hp]. destruct x as [[]|e|]; [by apply ret_ok_inv in Hr as [_ ->]| |done].
  next Hr. done.
Qed.

Lemma upload_body_ok fuel ch id size chunk : (0 < chunk)%nat → ∀ source remaining seq s left s',
  upload_body fuel ch id size chunk source remaining seq s = Some (Ok left, s') → 0 ≤ remaining →
  ∃ frames body, let ended := if left =? 0 then [] else [MEndOfStream id (source_ended left size)] in
    pe_log s' = pe_log s ++ (Sent ch <$> (MData id <$> frames) ++ ended) ∧ 0 ≤ left
    ∧ remaining = Z.of_nat (length body) + left ∧ body = take (Z.to_nat remaining) (source_bytes source)
    ∧ ∀ e more, se_error e = None → body_stream seq (Arrives <$> (MData id <$> frames) ++ MEndOfStream id e :: more) body (Arrives <$> more).
Proof.
  intros Hchunk. induction fuel as [|fuel IH]; intros source remaining seq s left s' Hr Hrem; cbn [upload_body] in Hr;
    destruct (Z.leb_spec remaining 0) as [Hz|Hpos]; try done.
  1-2: apply ret_ok_inv in Hr as [-> ->]; exists [], []; assert (remaining = 0) as -> by lia; cbn zeta;
    split_and!; [by rewrite app_nil_r|done|done|done|by constructor].
  next Hr. destruct x as [bytes source1]. apply lift_ok_inv in R as [Hread ->]. apply map_err_Ok in Hread.
  apply source_read_ok in Hread as (Hlen & Hmore & Hnone); [|lia]. destruct bytes as [|b bytes].
  - next Hr. apply ret_ok_inv in Hr as [-> ->]. apply map_err_ok_inv, write_ok in R as [Hl _]. exists [], []. rewrite (proj2 (Z.eqb_neq _ _)) by lia.
    cbn zeta. split_and!; [by rewrite Hl|lia|cbn; lia|by rewrite Hnone, take_nil by done|by constructor].
  - set (bs := b :: bytes) in *. next Hr. apply upload_write_ok, map_err_ok_inv, write_ok in R as [Hl _].
    destruct (IH _ _ _ _ _ _ Hr) as (frames & body & Hl' & Hleft & Hsum & Hbody & Hst); [lia|]. cbn zeta in *.
    exists (body_frame seq bs :: frames), (bs ++ body). split_and!; [|done| | |].
    + rewrite Hl', Hl. cbn [fmap list_fmap app]. by rewrite <- !app_assoc.
    + rewrite length_app. lia.
    + rewrite Hmore, take_app_ge by (done || lia). f_equal. rewrite Hbody. f_equal. lia.
    + intros e more He. cbn [fmap list_fmap app]. constructor; [done|done|]. by apply Hst.
Qed.

Lemma put_object_ok ch key size source chunk content_type user_metadata s write s' :
  put_object_with_metadata ch key size source chunk content_type user_metadata s = Some (Ok write, s') → 0 ≤ size →
  ∃ id frames body e,
    pe_log s' = pe_log s ++ Sent ch (MRequest id (PutObject key size content_type user_metadata))
      :: (Sent ch <$> (MData id <$> frames) ++ [MEndOfStream id e])
      ++ [Got ch (MResponse id (RespPutObject (ow_version write) (ow_unavailable write)))]
    ∧ body = take (Z.to_nat size) (source_bytes source)
    ∧ (is_Some (se_error e) ∨ Z.of_nat (length body) = size
         ∧ ∀ more, body_stream 0 (Arrives <$> (MData id <$> frames) ++ MEndOfStream id e :: more) body (Arrives <$> more)).
Proof.
  unfold put_object_with_metadata. intros Hr Hsize. next Hr. next Hr. next Hr. next Hr. apply send_request_ok in R as [L1 _].
  apply upload_body_ok in R0 as (frames & body & L2 & Hleft & Hsum & Hbody & Hst); [|lia|done]. cbn zeta in L2.
  apply map_err_ok_inv, read_ok in R2 as [L4 _].
  assert (∃ e, pe_log t1 = pe_log t ++ (Sent ch <$> (MData x <$> frames) ++ [MEndOfStream x e])
    ∧ (is_Some (se_error e) ∨ Z.of_nat (length body) = size ∧ se_error e = None)) as (e & L3 & He).
  { destruct (Z.eqb_spec x0 0) as [->|Hne].
    - apply upload_write_ok, map_err_ok_inv, write_ok in R1 as [L3 _]. exists StreamEnd_ok. rewrite L3, L2, app_nil_r, fmap_app, <- app_assoc.
      split; [done|]. right. split; [lia|done].
    - apply ret_ok_inv in R1 as [_ ->]. exists (source_ended x0 size). split; [done|]. left. by eexists. }
  assert (x2 = MResponse x (RespPutObject (ow_version write) (ow_unavailable write)) ∧ s' = t2) as [-> ->].
  { destruct x2 as [| |i response| |]; try done. destruct response; try done. destruct (Z.eqb_spec i x) as [->|]; [|done].
    apply ret_ok_inv in Hr as [-> ->]. done. }
  exists x, frames, body, e. split_and!; [|done|].
  - rewrite L4, L3, L1, <- !app_assoc. done.
  - destruct He as [He|[Hl He]]; [by left|]. right. split; [done|]. intros more. by apply Hst.
Qed.
End conversations.

(** ** The two ends together *)

(** What arrived on a connection. *)
Definition got_on (ch : nat) (log : list Event) : list Message :=
  omap (λ e, match e with Got c m => if (c =? ch)%nat then Some m else None | _ => None end) log.

Lemma got_on_app ch l1 l2 : got_on ch (l1 ++ l2) = got_on ch l1 ++ got_on ch l2.
Proof. apply omap_app. Qed.

Lemma got_on_got ch l : got_on ch (Got ch <$> l) = l.
Proof. unfold got_on. induction l as [|m l IH]; [done|]. cbn. rewrite Nat.eqb_refl. by f_equal. Qed.

Lemma got_on_sent ch ch' l : got_on ch (Sent ch' <$> l) = [].
Proof. unfold got_on. by induction l. Qed.

Lemma sent_on_sent ch l : sent_on ch (Sent ch <$> l) = l.
Proof. unfold sent_on. induction l as [|m l IH]; [done|]. cbn. rewrite decide_True by done. by f_equal. Qed.

Section both.
Context `{Xxh3}.

Lemma stream_frames j i (frames : list DataFrame) e body rest : body_stream j (Arrives <$> (MData i <$> frames) ++ [MEndOfStream i e]) body rest →
  body = concat (df_bytes <$> frames).
Proof.
  revert j body. induction frames as [|f frames IH]; intros j body Hb; inversion Hb; subst; [done|]. cbn. f_equal. by eapply IH.
Qed.

(** The frames that arrived before the end are all that were sent before it. *)
Lemma frames_whole i k (frames : list DataFrame) (parts : list (list Z)) e e' :
  (MData i <$> frames) ++ [MEndOfStream i e] `prefix_of` data_messages i k parts ++ [MEndOfStream i e'] → df_bytes <$> frames = parts.
Proof.
  revert k parts. induction frames as [|f frames IH]; intros k [|p parts] Hp.
  - done.
  - rewrite data_messages_cons in Hp. apply prefix_cons_inv_1 in Hp. discriminate.
  - apply prefix_cons_inv_1 in Hp. discriminate.
  - rewrite data_messages_cons in Hp. pose proof (prefix_cons_inv_1 _ _ _ _ Hp) as [= ->]. apply prefix_cons_inv_2 in Hp. cbn. f_equal. by eapply IH.
Qed.
End both.

Section ends.
Context {N M : Type} `{Network N} `{Network M} `{CoordTexts} `{Sha256} `{Uuid} `{Xxh3} `{ReedSolomonLib} {TlsMaterial : Type}.

(** C5. From the disks to the client, a read tells the truth: let the client
    ask and the coordinator serve the request, each on whatever network, and
    let what the client received be some beginning of what the coordinator
    wrote.  When the client's call succeeds, it has the record of the key it
    asked for and a body of the size and the checksum that record gives. *)
Theorem client_read_honest (cfuel fuel : nat) (ch : nat) (key : str) (s s' : Peers N) (read : ObjectRead) (body : list Z) (new : list Event)
    (n : Node TlsMaterial) (id : Z) (c : Conn) (t t' : Peers M) (e : Ended) (out : list Message) :
  Client.get_object cfuel ch key s = Some (Ok (read, body), s') → pe_log s' = pe_log s ++ new →
  Sent ch (MRequest id (GetObject key)) ∈ new →
  Get.get_object fuel n id c key t = Some (Ok e, t') → wrote_since c e.2 out → got_on ch new `prefix_of` out →
  r_key (or_record read) = key ∧ Z.of_nat (length body) = r_size (or_record read) ∧ checksum_block body = r_object_checksum (or_record read).
Proof.
  unfold Client.get_object. intros Hc Hnew Hsent Hg Hout Hpre. next Hc. destruct x as [read' sink]. next Hc. apply lift_ok_inv in R0 as [-> ->].
  apply ret_ok_inv in Hc as [[= <- ->] ->]. apply get_to_writer_ok in R as (id' & frames & end_ & body & Hl & Hend & Hst & Hsink & _).
  rewrite Hsink. cbn [sk_written vec_sink app]. rewrite Hl in Hnew. apply app_inv_head in Hnew as <-.
  assert (id' = id) as ->.
  { apply elem_of_cons in Hsent as [[= ->]|[Hx|Hx]%elem_of_cons]; [done|done|]. by apply list_elem_of_fmap in Hx as (m & ? & _). }
  change (got_on ch (Sent ch ?a :: Got ch ?b :: ?l)) with (got_on ch ([Sent ch a] ++ (Got ch <$> [b]) ++ l)) in Hpre.
  rewrite !got_on_app, !got_on_got in Hpre. cbn [got_on omap list_omap app] in Hpre.
  destruct (get_object_honest _ _ _ _ _ _ _ _ Hg) as [Hok Hearly]. assert (e.1 = Ok tt ∨ e.1 ≠ Ok tt) as [Hr|Hr] by (destruct e.1 as [[]|f|]; [by left|by right..]).
  - destruct (Hok Hr) as (record & parts & reconstructed & missing & Hw & Hkey & Hsize & Hsum & _). unfold wrote_since in Hout, Hw.
    rewrite Hw in Hout. apply app_inv_head in Hout as <-. pose proof (prefix_cons_inv_1 _ _ _ _ Hpre) as [= ->].
    apply prefix_cons_inv_2, frames_whole in Hpre. rewrite (stream_frames _ _ _ _ _ _ Hst), Hpre. done.
  - destruct (Hearly Hr) as [_ (out' & Hw & Hno)]. unfold wrote_since in Hout, Hw. rewrite Hw in Hout. apply app_inv_head in Hout as <-.
    exfalso. rewrite Forall_forall in Hno. apply (Hno (MEndOfStream id end_)); [|by exists end_].
    eapply elem_of_prefix; [|exact Hpre]. right. apply elem_of_app. right. by apply list_elem_of_singleton.
Qed.

End ends.

(** ** How often a request goes out *)

(** The requests that were sent, and on which connection. *)
Definition requests_in (log : list Event) : list (nat * Request) :=
  omap (λ e, match e with Sent ch (MRequest _ r) => Some (ch, r) | _ => None end) log.

Lemma requests_in_app l1 l2 : requests_in (l1 ++ l2) = requests_in l1 ++ requests_in l2.
Proof. apply omap_app. Qed.

Lemma requests_in_none l : Forall (says (λ _, False)) l → requests_in l = [].
Proof. induction 1 as [|e l He _ IH]; [done|]. destruct e as [ch|ch m|ch m]; [done| |done]. by destruct m. Qed.

Section retries.
Context {N : Type} `{Network N} `{Xxh3} (build : str) (options : ClientOptions) (cluster : Z).
Implicit Types s : Clients (N := N).
Abbreviation count s := (length (pe_conns (cl_peers s))).
Abbreviation log s := (pe_log (cl_peers s)).

(** The connection kept is one that was opened. *)
Definition session_ok s : Prop := ∀ a ch, cl_connection (cl_session s) = Some (a, ch) → (ch < count s)%nat.

Lemma bind_any {S E A B : Type} (m : net S E A) (f : A → net S E B) (s : S) r (s' : S) (Q : res E B → S → Prop) :
  (m ≫= f) s = Some (r, s') → (∀ a (s1 : S), m s = Some (Ok a, s1) → f a s1 = Some (r, s') → Q r s') →
  (∀ r0, m s = Some (r0, s') → (∀ b, r ≠ Ok b) → Q r s') → Q r s'.
Proof. intros Hr H1' H2'. destruct (bind_inv _ _ _ _ _ Hr) as [(a & s1 & Hm & Hf)|(r0 & Hm & Hn)]; eauto. Qed.

Lemma adds_connect_with P tls address hello : adds P (connect_with (N := N) tls address hello).
Proof. unfold connect_with. adds. Qed.

Lemma connect_with_ok tls address hello (s : Peers N) ch (s' : Peers N) : connect_with tls address hello s = Some (Ok ch, s') →
  ch = length (pe_conns s) ∧ length (pe_conns s') = S ch.
Proof.
  unfold connect_with. intros Hr. next Hr. next Hr. next Hr. apply map_err_ok_inv in R. apply map_err_ok_inv, write_ok in R0 as [_ C1].
  apply map_err_ok_inv, read_ok in R1 as [_ C2]. unfold open_connection in R. destruct (dial _ _ _ _) as [[|] net']; [|done]. injection R as <- <-. cbn in C1.
  destruct x1; try done; [|by destruct response]. destruct (negb _ && negb _); [done|]. next Hr. unfold set_peer_hello in R. injection R as <- <-.
  apply ret_ok_inv in Hr as [-> ->]. cbn. rewrite length_alter, C2, C1, length_app. cbn. split; [done|lia].
Qed.

(** Trying the nodes sends greetings only, and ends on a new connection. *)
Lemma connect_any_log nodes : ∀ attempts (s : Peers N) r (s' : Peers N),
  connect_any (connect_node build options cluster) nodes attempts s = Some (r, s') →
  ∃ new, pe_log s' = pe_log s ++ new ∧ requests_in new = [] ∧ (length (pe_conns s) ≤ length (pe_conns s'))%nat
    ∧ ∀ position address ch, r = Ok (position, address, ch) → (length (pe_conns s) ≤ ch < length (pe_conns s'))%nat.
Proof.
  induction nodes as [|[position address] nodes IH]; intros attempts s r s' Hr; cbn [connect_any] in Hr.
  { unfold nthrow, nlift in Hr. injection Hr as <- <-. exists []. by rewrite app_nil_r. }
  assert (adds (λ _, False) (connect_node (N := N) build options cluster address)) as Ha by (unfold connect_node; apply adds_map_err, adds_connect_with).
  eapply bind_any; [exact Hr| |]; clear Hr.
  - intros x s1 R Hr. apply attempt_no_panic in R as [R Hp]. destruct (Ha _ _ _ R) as (new1 & L1 & F1 & C1).
    destruct x as [ch|e|]; [| |done].
    + unfold mret, net_ret in Hr. injection Hr as <- <-. exists new1. split_and!; [done|by apply requests_in_none|done|].
      intros p a c [= <- <- <-]. apply map_err_ok_inv, connect_with_ok in R as [-> ->]. lia.
    + destruct (IH _ _ _ _ Hr) as (new2 & L2 & F2 & C2 & Hok). exists (new1 ++ new2). rewrite L2, L1, requests_in_app, (requests_in_none _ F1), <- app_assoc.
      split_and!; [done|done|lia|]. intros p a c Hx. specialize (Hok p a c Hx). lia.
  - intros r0 R Hn. assert (∃ r1, connect_node build options cluster address s = Some (r1, s')) as [r1 R1].
    { unfold nattempt in R. destruct (connect_node _ _ _ _ s) as [[[?|?|] ?]|]; try done; injection R as <- <-; by eexists. }
    destruct (Ha _ _ _ R1) as (new1 & L1 & F1 & C1). exists new1. split_and!; [done|by apply requests_in_none|done|]. intros p a c ->. by destruct (Hn (p, a, c)).
Qed.

Lemma session_bind {E A : Type} (f : Session → net Clients E A) s : (session ≫= f) s = f (cl_session s) s.
Proof. done. Qed.
Lemma ret_bind {E A B : Type} (a : A) (f : A → net Clients E B) s : (mret a ≫= f) s = f a s.
Proof. done. Qed.

Lemma on_wire_inv {E A : Type} (m : net (Peers N) E A) s r s' : on_wire m s = Some (r, s') →
  m (cl_peers s) = Some (r, cl_peers s') ∧ cl_session s' = cl_session s.
Proof. unfold on_wire. destruct (m (cl_peers s)) as [[x p]|]; [|done]. by intros [= <- <-]. Qed.

(** What having a connection takes: it is the one kept, or a new one. *)
Definition usable s (ch : nat) : Prop :=
  match cl_connection (cl_session s) with Some (_, kept) => ch = kept | None => (count s ≤ ch)%nat end.

Lemma connection_log s r s' : connection build options cluster s = Some (r, s') → session_ok s →
  ∃ new, log s' = log s ++ new ∧ requests_in new = [] ∧ (count s ≤ count s')%nat
    ∧ ∀ ch, r = Ok ch → usable s ch ∧ (ch < count s')%nat.
Proof.
  unfold connection, usable. intros Hr Hok. rewrite session_bind in Hr.
  destruct (cl_connection (cl_session s)) as [[a ch]|] eqn:Hc.
  - rewrite ret_bind, session_bind, Hc in Hr. injection Hr as <- <-.
    exists []. rewrite app_nil_r. split_and!; [done|done|done|]. intros c [= <-]. split; [done|by eapply Hok].
  - assert (∀ (r1 : res ClientError unit) (s1 : Clients), reconnect build options cluster s = Some (r1, s1) →
      ∃ new, log s1 = log s ++ new ∧ requests_in new = [] ∧ (count s ≤ count s1)%nat
        ∧ ∀ u, r1 = Ok u → ∃ a ch, cl_connection (cl_session s1) = Some (a, ch) ∧ (count s ≤ ch < count s1)%nat) as Hre.
    { intros r1 s1 H1'. unfold reconnect in H1'. rewrite session_bind in H1'.
      apply bind_inv in H1' as [([[position address] ch] & s2 & R & H1')|(r0 & R & Hn)]; apply on_wire_inv in R as [R _];
        destruct (connect_any_log _ _ _ _ _ R) as (new & L & Hq & Hle & Hnew).
      - injection H1' as <- <-. exists new. split_and!; [done|done|done|]. intros u _. exists address, ch. split; [done|]. by eapply Hnew.
      - exists new. split_and!; [done|done|done|]. intros u ->. by destruct (Hn u). }
    apply bind_inv in Hr as [(u & s1 & R & Hr)|(r0 & R & Hn)].
    + destruct (Hre _ _ R) as (new & L & Hq & Hle & Hnew). destruct (Hnew u eq_refl) as (a & ch & Hc1 & Hch).
      rewrite session_bind, Hc1 in Hr. injection Hr as <- <-.
      exists new. split_and!; [done|done|done|]. intros c [= <-]. split; [lia|lia].
    + destruct (Hre _ _ R) as (new & L & Hq & Hle & _). exists new. split_and!; [done|done|done|]. intros ch ->. by destruct (Hn ch).
Qed.

Lemma conversing_request ch r s x s' : conversing (Connection.request ch r) s = Some (x, s') →
  ∃ new, log s' = log s ++ new ∧ (requests_in new = [] ∨ requests_in new = [(ch, r)]) ∧ (count s ≤ count s')%nat ∧ cl_session s' = cl_session s.
Proof.
  unfold conversing, nmap_err. destruct (on_wire _ s) as [[x1 s1]|] eqn:Hw; [|done]. intros [= <- <-]. apply on_wire_inv in Hw as [Hw Hs].
  unfold Connection.request in Hw. apply bind_inv in Hw as [(id & p & R & Hw)|(r0 & R & _)].
  - pose proof (send_request_ok _ _ _ _ _ R) as [L1 C1]. destruct (adds_read_response (λ _, False) _ _ _ _ _ Hw) as (new & L2 & F2 & C2).
    exists ([Sent ch (MRequest id r)] ++ new). rewrite L2, L1, <- app_assoc, requests_in_app, (requests_in_none _ F2). split_and!; [done|by right|lia|done].
  - assert (pe_log (cl_peers s1) = pe_log (cl_peers s) ++ [] ∨ ∃ id, pe_log (cl_peers s1) = pe_log (cl_peers s) ++ [Sent ch (MRequest id r)]) as Hl.
    { unfold send_request, mbind, net_bind, allocate_request_id, nmap_err, write_message in R.
      destruct (transmit _ _ _) as [[e|] net'] in R; cbn in R; injection R as _ <-; cbn; [left; by rewrite app_nil_r|right; by eexists]. }
    assert (adds (λ _, True) (send_request (N := N) ch r)) as Ha by (by apply adds_send_request). destruct (Ha _ _ _ R) as (_ & _ & _ & C).
    destruct Hl as [Hl|[id Hl]]; eexists; (split; [exact Hl|]); cbn; split_and!; [by left|done|done|by right|done|done].
Qed.

Lemma request_attempts_log attempts r : ∀ s x s', request_attempts build options cluster attempts r s = Some (x, s') → session_ok s →
  ∃ new channels, log s' = log s ++ new ∧ requests_in new = (λ ch, (ch, r)) <$> channels ∧ (length channels ≤ attempts)%nat ∧ NoDup channels
    ∧ Forall (λ ch, usable s ch ∨ (count s ≤ ch)%nat) channels.
Proof.
  induction attempts as [|attempts IH]; intros s x s' Hr Hok; cbn [request_attempts] in Hr; [done|].
  apply bind_inv in Hr as [(ch & s1 & R & Hr)|(r0 & R & Hn)]; destruct (connection_log _ _ _ R Hok) as (new1 & L1 & Q1 & C1 & Hch).
  2: { exists new1, []. split_and!; [done|done|cbn; lia|constructor|constructor]. }
  destruct (Hch ch eq_refl) as [Huse Hlt].
  assert (∀ x1 (s2 : Clients), conversing (Connection.request ch r) s1 = Some (x1, s2) →
    ∃ new channels, log s2 = log s ++ new ∧ requests_in new = (λ ch, (ch, r)) <$> channels ∧ channels `sublist_of` [ch] ∧ (ch < count s2)%nat
      ∧ (count s ≤ count s2)%nat ∧ cl_next_node (cl_session s2) = cl_next_node (cl_session s1)) as Hone.
  { intros x1 s2 R2. destruct (conversing_request _ _ _ _ _ R2) as (new2 & L2 & Q2 & C2 & S2). exists (new1 ++ new2).
    exists (if decide (requests_in new2 = []) then [] else [ch]). rewrite L2, L1, requests_in_app, Q1, <- app_assoc, S2. cbn [app].
    destruct Q2 as [->| ->]; [rewrite decide_True by done|rewrite decide_False by done]; split_and!; try done; try lia.
    apply sublist_nil_l. }
  assert (∀ new channels (s2 : Clients (N := N)), log s2 = log s ++ new → requests_in new = (λ ch, (ch, r)) <$> channels → channels `sublist_of` [ch] →
    ∃ new channels, log s2 = log s ++ new ∧ requests_in new = (λ ch, (ch, r)) <$> channels ∧ (length channels ≤ S attempts)%nat ∧ NoDup channels
      ∧ Forall (λ ch, usable s ch ∨ (count s ≤ ch)%nat) channels) as Hend.
  { intros new channels s2 L2 Q2 Hsub. exists new, channels. apply sublist_length in Hsub as Hlen. cbn in Hlen. split_and!; [done|done|lia| |].
    - eapply sublist_NoDup; [|exact Hsub]. apply NoDup_singleton.
    - apply Forall_forall. intros c Hc. eapply elem_of_sublist in Hsub; [|exact Hc]. apply list_elem_of_singleton in Hsub as ->. by left. }
  apply bind_inv in Hr as [(result & s2 & R2 & Hr)|(r0 & R2 & Hn)].
  2: { assert (∃ x1, conversing (Connection.request ch r) s1 = Some (x1, s')) as [x1 R3].
       { unfold nattempt in R2. destruct (conversing _ s1) as [[[?|?|] ?]|]; try done; injection R2 as <- <-; by eexists. }
       destruct (Hone _ _ R3) as (new & channels & L2 & Q2 & Hsub & _). by eapply Hend. }
  apply attempt_ok_inv in R2. destruct (Hone _ _ R2) as (new & channels & L2 & Q2 & Hsub & Hc2 & Hle & _).
  destruct result as [response|e|].
  - assert (s' = s2) as -> by (by destruct response; injection Hr). by eapply Hend.
  - destruct (is_connection_failure e); [|injection Hr as <- <-; by eapply Hend]. unfold forget_connection in Hr.
    set (s3 := mkClients (cl_peers s2) (mkClientState None (cl_next_node (cl_session s2)))).
    change (match attempts with O => nthrow e | S _ => request_attempts build options cluster attempts r end s3 = Some (x, s')) in Hr.
    destruct attempts as [|attempts]; [injection Hr as <- <-; by eapply (Hend _ _ s3)|].
    destruct (IH s3 _ _ Hr) as (new' & channels' & L3 & Q3 & Hlen & Hnd & Hall); [done|]. exists (new ++ new'), (channels ++ channels').
    rewrite L3, requests_in_app, Q2, Q3, fmap_app, length_app. change (log s3) with (log s2). rewrite L2, <- app_assoc.
    assert (∀ c, c ∈ channels → c = ch) as Hsame by (intros c Hc; eapply elem_of_sublist in Hsub; [|exact Hc]; by apply list_elem_of_singleton in Hsub).
    assert (∀ c, c ∈ channels' → (count s2 ≤ c)%nat) as Hlater by (rewrite Forall_forall in Hall; intros c Hc; destruct (Hall c Hc); done).
    apply sublist_length in Hsub as Hl1. cbn in Hl1. split_and!; [done|done|lia| |].
    + apply NoDup_app. split_and!; [|intros c Hc Hc'; apply Hsame in Hc as ->; apply Hlater in Hc'; lia|done].
      eapply sublist_NoDup; [apply NoDup_singleton|exact Hsub].
    + apply Forall_app. split; apply Forall_forall; intros c Hc; [left; by rewrite (Hsame c Hc)|right]. specialize (Hlater c Hc). lia.
  - injection Hr as <- <-. by eapply Hend.
Qed.

(** C27. A request the client may not repeat is sent at most once, and one it
    may repeat at most twice, then on two connections, whatever the network
    does and however the call ends; nothing else is asked of any node. *)
Theorem request_sent_once (r : Request) (retry : bool) (s s' : Clients (N := N)) (x : res ClientError Response) :
  session_ok s → request build options cluster r retry s = Some (x, s') →
  ∃ new channels, log s' = log s ++ new ∧ requests_in new = (λ ch, (ch, r)) <$> channels
    ∧ (length channels ≤ if retry then 2 else 1)%nat ∧ NoDup channels.
Proof.
  intros Hok Hr. destruct (request_attempts_log _ _ _ _ _ Hr Hok) as (new & channels & Hl & Hq & Hlen & Hnd & _). exists new, channels. done.
Qed.
End retries.
End ClientSpec.
