(* ===== verification/ClientRun.v ===== *)
(** The client on a network of nodes that answer: a listing read page after
    page comes to an end and is the whole listing; and the download after
    which a client is out of step with its node. *)

From S2P Require Import Prelude Text Checksum KeyHash VersionId Erasure XorCode Layout Stripe FileSystem ShardFile Record Device DeviceSpec Cluster Scrub Frame Handshake Message Node LocalOps LocalOpsSpec Lookup Connection Coordinator Log Get StoredObject GetSpec Serving Degraded Put PutSpec Client ClientSpec.

Module ClientRun.
Import Message LocalOps LocalOpsSpec Lookup Connection Coordinator Log Serving Client ClientSpec.

(** ** Pages *)

Lemma page_loop_split limit entries : ∀ page bytes page' truncated, page_loop limit entries page bytes = (page', truncated) →
  ∃ taken rest, entries = taken ++ rest ∧ page' = page ++ taken ∧ truncated = match rest with [] => false | _ => true end.
Proof.
  induction entries as [|entry entries IH]; intros page bytes page' truncated Hp; cbn [page_loop] in Hp.
  { injection Hp as <- <-. exists [], []. by rewrite !app_nil_r. }
  destruct (is_full _ _ _ _).
  - injection Hp as <- <-. exists [], (entry :: entries). by rewrite !app_nil_r.
  - destruct (IH _ _ _ _ Hp) as (taken & rest & -> & -> & ->). exists (entry :: taken), rest. by rewrite <- app_assoc.
Qed.

(** A page is a beginning of the listing, and not an empty one. *)
Lemma page_of_keys_split entries limit page truncated : page_of_keys entries limit = (page, truncated) →
  ∃ rest, entries = page ++ rest ∧ truncated = match rest with [] => false | _ => true end ∧ (entries ≠ [] → page ≠ []).
Proof.
  unfold page_of_keys. intros Hp. destruct entries as [|entry entries]; [injection Hp as <- <-; by exists []|]. cbn [page_loop] in Hp.
  assert (is_full (Z.max 1 <$> limit) [] 0 entry = false) as Hf.
  { unfold is_full. destruct limit as [l|]; [|done]. cbn. by rewrite (proj2 (Z.leb_gt _ _)) by lia. }
  rewrite Hf in Hp. apply page_loop_split in Hp as (taken & rest & -> & -> & ->). by exists rest.
Qed.

(** Keys in order, each once. *)
Definition key_lt (a b : KeyEntry) : Prop := lex_compare (ke_key a) (ke_key b) = Lt.
Definition in_order (entries : list KeyEntry) : Prop := StronglySorted key_lt entries.

Lemma in_order_app l1 l2 : in_order (l1 ++ l2) → ∀ a b, a ∈ l1 → b ∈ l2 → key_lt a b.
Proof.
  unfold in_order. induction l1 as [|x l1 IH]; intros Hs a b Ha Hb; [set_solver|].
  apply StronglySorted_inv in Hs as [Hs Hx]. apply elem_of_cons in Ha as [->|Ha]; [|by apply IH].
  rewrite Forall_forall in Hx. apply Hx, elem_of_app. by right.
Qed.

Lemma filter_whole (P : KeyEntry → Prop) `{!∀ x, Decision (P x)} (l : list KeyEntry) : (∀ x, x ∈ l → P x) → filter P l = l.
Proof. induction l as [|x l IH]; intros Hl; [done|]. rewrite filter_cons_True by (apply Hl; by left). f_equal. apply IH. intros. apply Hl. by right. Qed.

Lemma filter_empty (P : KeyEntry → Prop) `{!∀ x, Decision (P x)} (l : list KeyEntry) : (∀ x, x ∈ l → ¬ P x) → filter P l = [].
Proof. induction l as [|x l IH]; intros Hl; [done|]. rewrite filter_cons_False by (apply Hl; by left). apply IH. intros. apply Hl. by right. Qed.

Lemma in_order_last l1 e l2 : in_order ((l1 ++ [e]) ++ l2) → filter (λ x, lex_compare (ke_key x) (ke_key e) = Gt) ((l1 ++ [e]) ++ l2) = l2.
Proof.
  intros Hs. rewrite filter_app. rewrite (filter_empty _ (l1 ++ [e])), filter_whole; [done| |].
  - intros x Hx. rewrite lex_compare_antisym. rewrite (in_order_app _ _ Hs e x); [done| |done]. apply elem_of_app. right. by apply list_elem_of_singleton.
  - intros x Hx. apply elem_of_app in Hx as [Hx|Hx].
    + rewrite <- app_assoc in Hs. rewrite (in_order_app _ _ Hs x e); [done|done|by left].
    + apply list_elem_of_singleton in Hx as ->. by rewrite lex_compare_refl.
Qed.

Lemma in_order_filter P `{!∀ x, Decision (P x)} (l : list KeyEntry) : in_order l → in_order (filter P l).
Proof.
  unfold in_order. induction 1 as [|x l Hl IH Hx]; [constructor|]. rewrite filter_cons. case_decide; [|done]. constructor; [done|].
  apply Forall_forall. intros y [_ Hy]%list_elem_of_filter. rewrite Forall_forall in Hx. by apply Hx.
Qed.

Definition has_prefix (prefix : option str) (e : KeyEntry) : Prop :=
  match prefix with Some p => starts_with p (ke_key e) = true | None => True end.
#[export] Instance has_prefix_dec prefix e : Decision (has_prefix prefix e).
Proof. unfold has_prefix. destruct prefix; apply _. Defined.

(** ** A node that answers *)

Section answering.
Context (locate : str → option NodeId) (greet : NodeId → Handshake.Hello) (serve : NodeId → Z → Request → list Message).
Context `{Xxh3} (build : str) (options : ClientOptions) (cluster : Z).
#[local] Hint Extern 0 (Network (gmap nat Line)) => exact (serving locate greet serve) : typeclass_instances.
Abbreviation clients := (Clients (N := gmap nat Line)).

(** The client has a connection to the node, on which these messages are yet to come. *)
Definition connected (s : clients) (node : NodeId) (queue : list Message) : Prop :=
  ∃ address ch state, cl_connection (cl_session s) = Some (address, ch) ∧ pe_net (cl_peers s) !! ch = Some (mkLine node queue)
    ∧ pe_conns (cl_peers s) !! ch = Some state.

Lemma then_run {E A B : Type} (m : net clients E A) (f : A → net clients E B) (s s' : clients) (a : A) :
  m s = Some (Ok a, s') → (m ≫= f) s = f a s'.
Proof. intros Hm. unfold mbind, net_bind. by rewrite Hm. Qed.

Lemma connection_run (s : clients) address ch : cl_connection (cl_session s) = Some (address, ch) →
  connection build options cluster s = Some (Ok ch, s).
Proof. intros Hc. unfold connection. rewrite session_bind, Hc, ret_bind, session_bind, Hc. done. Qed.

(** A request when nothing is left from earlier ones. *)
Lemma request_run (s : clients) node r answer retry : connected s node [] →
  (∀ id, serve node id r = [MResponse id answer]) → (∀ d, answer ≠ RespError d) →
  ∃ s', request build options cluster r retry s = Some (Ok answer, s') ∧ connected s' node [].
Proof.
  intros (address & ch & state & Hc & Hl & Hs) Hserve Hans.
  assert (∃ s1, conversing (Connection.request ch r) s = Some (Ok answer, s1) ∧ connected s1 node []) as (s1 & R & Hs1).
  { unfold conversing, nmap_err, on_wire, Connection.request, send_request, allocate_request_id, write_message, read_response, read_message.
    unfold mbind, net_bind, nmap_err. cbn. rewrite Hs. cbn. rewrite lookup_alter_eq, Hl. cbn. rewrite Hserve. cbn. rewrite Z.eqb_refl. cbn.
    assert (∀ (st : Peers (gmap nat Line)), match answer with RespError detail => nthrow (Remote detail) | other => mret other end st = Some (Ok answer, st)) as Hst.
    { intros st. destruct answer; try done. by destruct (Hans _ eq_refl). }
    eexists. split; [rewrite Hst; reflexivity|]. exists address, ch, (mkConnState (cs_peer_hello state) (next_id (cs_next_request_id state)) (cs_tls state)).
    cbn. split_and!; [done|by rewrite lookup_insert_eq|by rewrite list_lookup_alter_eq, Hs]. }
  exists s1. split; [|done]. unfold request. assert (∀ left, request_attempts build options cluster (S left) r s = Some (Ok answer, s1)) as Hgo; [|by destruct retry].
  intros left. cbn [request_attempts]. rewrite (then_run _ _ _ _ _ (connection_run s address ch Hc)).
  rewrite (then_run _ _ s s1 (Ok answer)) by (unfold nattempt; by rewrite R). destruct answer; try done. by destruct (Hans _ eq_refl).
Qed.

(** The answer to a request is not read, when something else comes first. *)
Lemma request_behind (s : clients) node m queue r retry : connected s node (m :: queue) → (∀ id response, m ≠ MResponse id response) →
  ∃ s', request build options cluster r retry s = Some (Err (ClConnection (UnexpectedMessage (lit "Response") (GotMessage m))), s').
Proof.
  intros (address & ch & state & Hc & Hl & Hs) Hm.
  assert (∃ s1, conversing (Connection.request ch r) s = Some (Err (ClConnection (UnexpectedMessage (lit "Response") (GotMessage m))), s1)) as (s1 & R).
  { unfold conversing, nmap_err, on_wire, Connection.request, send_request, allocate_request_id, write_message, read_response, read_message.
    unfold mbind, net_bind, nmap_err. cbn. rewrite lookup_alter_eq, Hl. cbn. destruct m; try (by eexists). by destruct (Hm id response). }
  exists s1. unfold request. assert (∀ left, request_attempts build options cluster (S left) r s
    = Some (Err (ClConnection (UnexpectedMessage (lit "Response") (GotMessage m))), s1)) as Hgo; [|by destruct retry].
  intros left. cbn [request_attempts]. rewrite (then_run _ _ _ _ _ (connection_run s address ch Hc)).
  rewrite (then_run _ _ s s1 (Err (ClConnection (UnexpectedMessage (lit "Response") (GotMessage m))))) by (unfold nattempt; by rewrite R). done.
Qed.


(** ** Listings *)

(** The page the node gives of the keys it knows, as [page_of_keys] cuts it. *)
Definition listing (all : list KeyEntry) (unread : list UnavailableDevice) (complete : bool) (q : ListQuery) : Response :=
  let '(page, truncated) := page_of_keys (after_key (q_start_after q) (filter (has_prefix (q_prefix q)) all)) (q_limit q) in
  RespListKeys page truncated unread complete.

Context (node : NodeId) (all : list KeyEntry) (unread : list UnavailableDevice) (complete : bool).
Context (Hserve : ∀ id q, serve node id (ListKeys q) = [MResponse id (listing all unread complete q)]).

Lemma list_keys_run (s : clients) q page truncated : connected s node [] →
  page_of_keys (after_key (q_start_after q) (filter (has_prefix (q_prefix q)) all)) (q_limit q) = (page, truncated) →
  ∃ s', list_keys build options cluster q s = Some (Ok (mkListPage page truncated unread complete), s') ∧ connected s' node [].
Proof.
  intros Hc Hp. assert (listing all unread complete q = RespListKeys page truncated unread complete) as Hl by (unfold listing; by rewrite Hp).
  destruct (request_run s node (ListKeys q) (listing all unread complete q) true Hc) as (s' & R & Hc'); [done|by rewrite Hl|].
  exists s'. split; [|done]. unfold list_keys, answering. rewrite (then_run _ _ _ _ _ R), Hl. done.
Qed.

Lemma note_unread_elem (l : list UnavailableDevice) : ∀ acc d, d ∈ foldl note_unread acc l ↔ d ∈ acc ∨ d ∈ l.
Proof.
  induction l as [|x l IH]; intros acc d; cbn [foldl]; [set_solver|]. rewrite IH. unfold note_unread. case_bool_decide; set_solver.
Qed.

(** What the pages so far add up to. *)
Record gathered (prefix : option str) (so_far : ListPage) (start_after : option str) : Prop := {
  ga_keys : lp_keys so_far ++ after_key start_after (filter (has_prefix prefix) all) = filter (has_prefix prefix) all;
  ga_truncated : lp_truncated so_far = false;
  ga_complete : lp_complete so_far = complete ∨ lp_complete so_far = true;
  ga_unread : ∀ d, d ∈ lp_unread so_far → d ∈ unread;
}.

Lemma list_pages_run (prefix : option str) (Hsorted : in_order all) fuel : ∀ so_far start_after (s : clients),
  connected s node [] → gathered prefix so_far start_after → (length (after_key start_after (filter (has_prefix prefix) all)) < fuel)%nat →
  ∃ page s', list_pages build options cluster fuel prefix so_far start_after s = Some (Ok page, s') ∧ connected s' node []
    ∧ lp_keys page = filter (has_prefix prefix) all ∧ lp_truncated page = false ∧ lp_complete page = complete ∧ (∀ d, d ∈ lp_unread page ↔ d ∈ unread).
Proof.
  set (L := filter (has_prefix prefix) all). assert (in_order L) as HL by (by apply in_order_filter).
  induction fuel as [|fuel IH]; intros so_far start_after s Hc [Gk Gt Gc Gu] Hlen; [lia|]. fold L in Gk. cbn [list_pages].
  destruct (page_of_keys (after_key start_after L) None) as [page truncated] eqn:Hp.
  destruct (list_keys_run s (mkListQuery prefix start_after None) page truncated Hc Hp) as (s1 & R & Hc1). rewrite (then_run _ _ _ _ _ R).
  apply page_of_keys_split in Hp as (rest & Hsplit & Htr & Hne). unfold next_start_after. cbn [lp_truncated lp_keys].
  set (so_far' := add_page so_far (mkListPage page truncated unread complete)).
  assert (lp_complete so_far' = complete ∧ ∀ d, d ∈ lp_unread so_far' ↔ d ∈ unread) as [Hcomp Hun].
  { split; [cbn; destruct Gc as [->| ->]; by destruct complete|]. intros d. cbn. rewrite note_unread_elem. naive_solver. }
  destruct rest as [|e rest].
  - rewrite Htr, app_nil_r in *. exists so_far', s1. split_and!; [done|done| |done|done|done]. cbn. by rewrite Hsplit in Gk.
  - rewrite Htr. assert (page ≠ []) as Hpne by (apply Hne; rewrite Hsplit; by destruct page).
    destruct (exists_last Hpne) as (before & last_key & Hlast). rewrite Hlast, last_snoc. cbn [fmap option_fmap option_map].
    assert (after_key (Some (ke_key last_key)) L = e :: rest) as Hafter.
    { cbn [after_key]. rewrite Hsplit, Hlast in Gk. rewrite <- (app_assoc before), (app_assoc (lp_keys so_far)) in Gk.
      rewrite (app_assoc _ [last_key]) in Gk. rewrite <- Gk in HL |- *. by apply in_order_last. }
    assert (gathered prefix so_far' (Some (ke_key last_key))) as Hg.
    { split; [|done|by left|intros d; by apply Hun]. fold L. rewrite Hafter. cbn [so_far' add_page lp_keys]. by rewrite <- app_assoc, <- Hsplit. }
    rewrite Hlast in *. apply IH; [done|done|]. fold L. rewrite Hafter. rewrite Hsplit, !length_app in Hlen. cbn in *. lia.
Qed.

End answering.

(** ** Witnesses: a client of the clusters of [Degraded] and [PutSpec] *)

Section witnesses.
#[local] Existing Instance poly_xxh3.
#[local] Existing Instance poly_sha256.
#[local] Existing Instance decimal_uuid.
#[local] Existing Instance xor_lib.
#[local] Existing Instance Degraded.untold_texts.

(** What the coordinator of [Degraded] writes for the client's request. *)
Definition coordinator11 := Get.get_object (H := serving Degraded.locate6 Degraded.greet6 Degraded.serve6) 3 Degraded.node6 4 Degraded.client6 (lit "a") Degraded.cluster6.
Definition written11 : list Message := match coordinator11 with Some (Ok e, _) => cn_out e.2 | _ => [] end.

Definition entry11 (k : Z) : KeyEntry := mkKeyEntry [97 + k] 5 (replicate 16 7).
Definition all11 : list KeyEntry := [entry11 0; entry11 1; entry11 2].
Definition stray11 (seq : Z) : DataFrame := mkDataFrame seq 0 [1; 2].

Definition serve11 (node id : Z) (r : Request) : list Message :=
  match r with
  | GetObject [97] => written11
  | GetObject _ => [MResponse id (RespGetObject Degraded.record6); MData id (stray11 7); MData id (stray11 8)]
  | PutObject _ _ _ _ => [MResponse id (RespPutObject (replicate 16 7) [])]
  | ListKeys q => [MResponse id (listing all11 [] true q)]
  | _ => [MResponse id RespDeleteObject]
  end.
#[local] Hint Extern 0 (Network (gmap nat Line)) => exact (serving (λ _, Some 11) Degraded.greet6 serve11) : typeclass_instances.

Definition peers11 : Peers (gmap nat Line) := mkPeers {[ 0%nat := mkLine 11 [] ]} [mkConnState (Degraded.greet6 11) 4 false] [].
Definition clients11 : Clients (N := gmap nat Line) := mkClients peers11 (mkClientState (Some (lit "h:1", 0%nat)) 0).
Definition options11 : ClientOptions := ClientOptions_new [lit "h:1"].

Lemma connected11 : connected clients11 11 [].
Proof. exists (lit "h:1"), 0%nat, (mkConnState (Degraded.greet6 11) 4 false). split_and!; reflexivity. Qed.

Lemma request_sent_once_witness : ∃ new channels,
  (match delete [] options11 193 (lit "a") clients11 with Some (_, s') => pe_log (cl_peers s') | None => [] end) = new
  ∧ requests_in new = (λ ch, (ch, DeleteObject (lit "a"))) <$> channels ∧ (length channels ≤ 1)%nat.
Proof.
  assert (session_ok clients11) as Hok by (intros a ch [= <- <-]; cbn; lia).
  destruct (request [] options11 193 (DeleteObject (lit "a")) false clients11) as [[x s']|] eqn:Hr; [|vm_compute in Hr; discriminate].
  destruct (request_sent_once [] options11 193 (DeleteObject (lit "a")) false clients11 s' x Hok Hr) as (new & channels & Hl & Hq & Hlen & _).
  exists new, channels. split_and!; [|exact Hq|exact Hlen]. unfold delete, answering, mbind, net_bind. rewrite Hr. cbn in Hl. rewrite <- Hl.
  vm_compute in Hr. injection Hr as <- <-. reflexivity.
Defined.



Lemma client_read_honest_witness : ∃ read body s', Client.get_object 3 0 (lit "a") peers11 = Some (Ok (read, body), s')
  ∧ checksum_block body = r_object_checksum (or_record read).
Proof.
  assert (∃ e t', coordinator11 = Some (Ok e, t')) as (e & t' & Hg) by (do 2 eexists; vm_compute; reflexivity).
  assert (∃ read body s', Client.get_object 3 0 (lit "a") peers11 = Some (Ok (read, body), s')
    ∧ pe_log s' = Sent 0 (MRequest 4 (GetObject (lit "a"))) :: (Got 0 <$> written11)) as (read & body & s' & Hc & Hl).
  { do 3 eexists. split; vm_compute; reflexivity. }
  assert (wrote_since Degraded.client6 e.2 written11) as Hw by (unfold wrote_since, written11; rewrite Hg; reflexivity).
  exists read, body, s'. split; [exact Hc|].
  refine (proj2 (proj2 (client_read_honest 3 3 0 (lit "a") peers11 s' read body (pe_log s') Degraded.node6 4 Degraded.client6 Degraded.cluster6 t' e written11
    Hc eq_refl _ Hg Hw _))).
  - rewrite Hl. left.
  - rewrite Hl. change (got_on 0 (Sent 0 ?m :: ?l)) with (got_on 0 l). by rewrite got_on_got.
Defined.

End witnesses.
End ClientRun.
