(* ===== verification/Membership.v ===== *)
(** [djbod-node/src/membership.rs]: the changes of membership that touch a
    node's own state directory and disks.  A node joins a cluster or adds
    devices by initialising its disks, proposing a document that lists them,
    and saving what was accepted; at startup it takes over a newer document
    from its peers and has its own address corrected.

    The code runs on a file system and talks to peers, so its state is both
    ([Site]).  [load] is what [TlsMaterial::load] gives for the configured
    paths; a connector is whether it speaks TLS. *)

From S2P Require Import Prelude Text Checksum KeyHash VersionId Erasure Layout Stripe FileSystem ShardFile Record Device Cluster Scrub Frame Handshake Message Lookup Node Connection Admin.
Open Scope Z_scope.

Module Membership.
Import Message Lookup Connection Admin.

Inductive MembershipError :=
| MAdmin (e : AdminError)
| MNode (e : NodeError)
| MDevice (e : DeviceError)
| MTls
| AlreadyMember (p : path)
| RemovedNode (node : NodeId)
| RemovedDevice (p : path) (device : DeviceId)
| AddressChangeFailed (configured : str) (listed : list str) (reason : AdminError).

(** ** A file system next to the connections *)

Record Site (N : Type) := mkSite { st_world : World; st_peers : Peers N }.
Arguments mkSite {N} _ _.
Arguments st_world {N} _.
Arguments st_peers {N} _.

Definition on_disk {N E F A : Type} (f : E → F) (m : io E A) : net (Site N) F A := λ s,
  let '(r, w) := m (st_world s) in Some (map_err f r, mkSite w (st_peers s)).

Definition on_net {N E F A : Type} (f : E → F) (m : net (Peers N) E A) : net (Site N) F A := λ s,
  match m (st_peers s) with
  | Some (r, p) => Some (map_err f r, mkSite (st_world s) p)
  | None => None
  end.

Section membership.
Context {N : Type} `{Network N} `{Uuid} `{SerdeJson} `{Rfc3339} `{DocumentText}.
Context {TlsMaterial : Type} (load : TlsPaths → option TlsMaterial) (BUILD : str) (config : NodeConfig).
Abbreviation act A := (net (Site N) MembershipError A).

(** The device is in the document and not retired. *)
Definition in_service (document : ClusterDocument) (id : DeviceId) : bool :=
  match device document id with Some d => negb (bool_decide (de_state d = Removed)) | None => false end.

(** [fresh]: what [Uuid::new_v4] and the clock would give *)
Definition open_or_initialise (p : path) (document : ClusterDocument) (wipe_removed : bool) (fresh : Z * Z)
    : io MembershipError Device :=
  opened ← attempt (Device_open p (Some (c_cluster_id document)));
  match opened with
  | Ok existing =>
      if in_service document (device_id existing) then mret existing
      else if wipe_removed then io_map_err MDevice (wipe_and_initialise p (c_cluster_id document) fresh.1 fresh.2)
      else throw (RemovedDevice p (device_id existing))
  | Err (NotInitialised _) => io_map_err MDevice (initialise p (c_cluster_id document) fresh.1 fresh.2)
  | Err e => throw (MDevice e)
  | Panic => lift Panic
  end.

(** ** Connectors *)

Definition connector_for_unknown_transport (peer : str) (cluster_id : Z) : act bool :=
  match nc_tls config with
  | Some paths =>
      _ ← nlift (ok_or (load paths) MTls);
      answer ← on_net MAdmin (nattempt (fetch_document BUILD true peer cluster_id));
      match answer with Ok _ => mret true | _ => mret false end
  | None => mret false
  end.

Definition connector_for (document : ClusterDocument) : res MembershipError bool :=
  if bool_decide (c_transport document = Plain) then Ok false
  else match nc_tls config with
       | Some paths => _ ← ok_or (load paths) MTls; Ok true
       | None => Err (MAdmin (ATlsRequired (c_transport document)))
       end.

(** ** Joining and adding devices *)

Definition save (document : ClusterDocument) : act unit := on_disk MNode (save_document_for config document).

Definition listed (document : ClusterDocument) (device_ids : list DeviceId) : bool :=
  bool_decide (is_Some (Cluster.node document (nc_node_id config)))
  && forallb (λ d, bool_decide (is_Some (device document d))) device_ids.

Fixpoint propose_with_retry (attempts : nat) (tls : bool) (current : ClusterDocument) (device_ids : list DeviceId)
    (peer : str) (cluster_id : Z) : act ClusterDocument :=
  match attempts with
  | O => nthrow (MAdmin (TooManyRetries MAX_PROPOSAL_ATTEMPTS))
  | S attempts =>
      if listed current device_ids then _ ← save current; mret current
      else
        let next := document_with_this_node config current device_ids in
        outcome ← on_net MAdmin (nattempt (propose BUILD tls current next));
        match outcome with
        | Ok _ => _ ← save next; mret next
        | Err (Superseded _ _) | Err (StaleProposal _ _) =>
            current ← on_net MAdmin (fetch_document BUILD tls peer cluster_id);
            _ ← save current;
            propose_with_retry attempts tls current device_ids peer cluster_id
        | Err e => nthrow (MAdmin e)
        | Panic => nlift Panic
        end
  end.

(** The paths in turn, each opened or initialised. *)
Definition prepare_devices (check : path → io MembershipError unit) (paths : list path) (document : ClusterDocument)
    (wipe : bool) (fresh : nat → Z * Z) : io MembershipError (list DeviceId) :=
  io_fold (λ ids (x : nat * path),
    _ ← check x.2;
    d ← open_or_initialise x.2 document wipe (fresh x.1);
    mret (ids ++ [device_id d])) (imap pair paths) [].

Definition join (peer : str) (cluster_id : Z) (wipe_removed_devices : bool) (fresh : nat → Z * Z) : act ClusterDocument :=
  tls ← connector_for_unknown_transport peer cluster_id;
  current ← on_net MAdmin (fetch_document BUILD tls peer cluster_id);
  _ ← nlift (ensure (bool_decide (c_transport current = Plain) || bool_decide (is_Some (nc_tls config)))
               (MAdmin (ATlsRequired (c_transport current))));
  let removed := match Cluster.node current (nc_node_id config) with
                 | Some n => bool_decide (n_state n = NodeRemoved)
                 | None => false
                 end in
  _ ← nlift (ensure (negb removed) (RemovedNode (nc_node_id config)));
  _ ← save current;
  device_ids ← on_disk id (prepare_devices (λ _, mret tt) (nc_devices config) current wipe_removed_devices fresh);
  propose_with_retry MAX_PROPOSAL_ATTEMPTS tls current device_ids peer cluster_id.

(** A path that is a device in service already is refused. *)
Definition refuse_member (cluster_id : Z) (current : ClusterDocument) (p : path) : io MembershipError unit :=
  opened ← attempt (Device_open p (Some cluster_id));
  match opened with
  | Ok existing => lift (ensure (negb (in_service current (device_id existing))) (AlreadyMember p))
  | _ => mret tt
  end.

Definition add_devices (paths : list path) (peer : str) (cluster_id : Z) (wipe_removed_devices : bool) (fresh : nat → Z * Z)
    : act ClusterDocument :=
  tls ← connector_for_unknown_transport peer cluster_id;
  current ← on_net MAdmin (fetch_document BUILD tls peer cluster_id);
  device_ids ← on_disk id (prepare_devices (refuse_member cluster_id current) paths current wipe_removed_devices fresh);
  propose_with_retry MAX_PROPOSAL_ATTEMPTS tls current device_ids peer cluster_id.

(** ** Startup *)

(** The newest of the documents reported, each saved as it is taken over. *)
Definition adopt_newer (document : ClusterDocument) (report : NodeDocument) : act ClusterDocument :=
  match no_result report with
  | inr theirs => if c_version document <? c_version theirs then _ ← save theirs; mret theirs else mret document
  | inl _ => mret document
  end.

Fixpoint adopt_configured_address (attempts : nat) (tls : bool) (document : ClusterDocument) : act ClusterDocument :=
  match attempts with
  | O => nthrow (MAdmin (TooManyRetries MAX_PROPOSAL_ATTEMPTS))
  | S attempts =>
      let id := nc_node_id config in
      let configured := advertised_address config in
      match Cluster.node document id with
      | None => mret document
      | Some entry =>
          if bool_decide (configured ∈ n_addresses entry) then mret document
          else
            let next := with_node_addresses document id [configured] in
            outcome ← on_net MAdmin (nattempt (propose_skipping BUILD tls document next (Some id)));
            match outcome with
            | Ok _ => _ ← save next; mret next
            | Err (Superseded _ _) | Err (StaleProposal _ _) | Err (VersionsDiffer _) =>
                reports ← on_net MAdmin (fetch_all_except BUILD tls document (Some id));
                document ← nfold adopt_newer reports document;
                adopt_configured_address attempts tls document
            | Err reason => nthrow (AddressChangeFailed configured (n_addresses entry) reason)
            | Panic => nlift Panic
            end
      end
  end.

(** One bootstrap peer. *)
Definition consult (document : ClusterDocument) (peer : str) : act ClusterDocument :=
  if SocketAddr.parses peer then
    tls ← nlift (connector_for document);
    answer ← on_net MAdmin (nattempt (fetch_document BUILD tls peer (c_cluster_id document)));
    match answer with
    | Ok theirs => if c_version document <? c_version theirs then _ ← save theirs; mret theirs else mret document
    | Err (AWrongCluster address expected found) => nthrow (MAdmin (AWrongCluster address expected found))
    | Err _ => mret document
    | Panic => nlift Panic
    end
  else mret document.

Definition adopt_from_peers : act ClusterDocument :=
  loaded ← on_disk MNode (load_document_for config);
  document ← nlift (ok_or loaded (MNode (NodeIo (document_path config) FileSystem.NotFound)));
  document ← nfold consult (nc_bootstrap_peers config) document;
  tls ← nlift (connector_for document);
  adopt_configured_address MAX_PROPOSAL_ATTEMPTS tls document.
End membership.
End Membership.
