(* ===== verification/MembershipSpec.v ===== *)
(** What joining, adding devices and starting up do to the disks, for every
    behaviour of the peers and every fault, and to the cluster.

    - Nothing that was on a disk is lost, unless the wipe of a removed device
      was asked for ([membership_keeps_data]).
    - A join that succeeds leaves what [Node::open] needs ([join_ready]), and
      so does the startup ([startup_document]).
    - They follow the protocol of [AdminSpec] ([membership_refines]). *)

From S2P Require Import Prelude Text Checksum KeyHash VersionId Erasure Layout Stripe FileSystem ShardFile Record Device DeviceSpec Cluster Scrub Frame Handshake Message Lookup Node LocalOps Connection Coordinator Log Admin AdminSpec Membership.
Open Scope Z_scope.

Module MembershipSpec.
Import Message Lookup LocalOps Connection Coordinator Log Admin AdminSpec Membership.

(** ** Trees that keep what they had *)

(** What was at a path of [P] is there still. *)
Definition kept (P : path → Prop) (t0 t : tree) : Prop := ∀ q n, P q → t0 !! q = Some n → t !! q = Some n.

#[global] Instance kept_preorder P : PreOrder (kept P).
Proof. split; [by intros t q n|]. intros t1 t2 t3 H1 H2 q n Hq Hn. by apply H2, H1. Qed.

Lemma kept_weaken (P P' : path → Prop) t0 t : (∀ q, P' q → P q) → kept P t0 t → kept P' t0 t.
Proof. intros HP Hk q n Hq. by apply Hk, HP. Qed.

Lemma kept_insert (P : path → Prop) t q n : t !! q = None → kept P t (<[q := n]> t).
Proof. intros Hq q' n' _ Hn'. rewrite lookup_insert_ne; [done|]. intros ->. congruence. Qed.

Lemma kept_replaced (P : path → Prop) t0 temp p bytes t : replaced t0 temp p bytes t →
  (P temp → t0 !! temp = None) → (P p → t0 !! p = None) → kept P t0 t.
Proof. intros [Hr _] Htemp Hp q n Hq Hn. rewrite Hr; [done|..]; intros ->; [rewrite Htemp in Hn|rewrite Hp in Hn]; done. Qed.

(** Only directories were added, on the way to [p]. *)
Definition way_made (p : path) (t0 t : tree) : Prop :=
  ∀ q, t !! q = t0 !! q ∨ (q `prefix_of` p ∧ t0 !! q = None ∧ t !! q = Some Dir).

Lemma way_made_insert p t0 t q : way_made p t0 t → q `prefix_of` p → t !! q = None → way_made p t0 (<[q := Dir]> t).
Proof.
  intros Ht Hp Hq q'. destruct (decide (q' = q)) as [->|Hne]; [|rewrite lookup_insert_ne by done; apply Ht].
  right. rewrite lookup_insert_eq. split_and!; [done| |done]. destruct (Ht q) as [<-|(? & ? & ?)]; congruence.
Qed.

Lemma way_made_kept p P t0 t : way_made p t0 t → kept P t0 t.
Proof. intros Ht q n _ Hn. destruct (Ht q) as [->|(? & ? & ?)]; congruence. Qed.

Lemma take_prefix {A : Type} i (p : list A) : take i p `prefix_of` p.
Proof. exists (drop i p). by rewrite take_drop. Qed.

Lemma wp_create_dir_all n p w (Post : res io_error unit → World → Prop) :
  (∀ r w', r ≠ Panic → way_made p (w_tree w) (w_tree w') → w_pid w' = w_pid w → w_counter w' = w_counter w → Post r w') →
  wp (way_made p (w_tree w)) (fs_create_dir_all n p) w Post.
Proof.
  intros HP. unfold fs_create_dir_all.
  apply (wp_fold _ _ (λ _ w', way_made p (w_tree w) (w_tree w') ∧ w_pid w' = w_pid w ∧ w_counter w' = w_counter w)).
  - split_and!; [by left|done|done].
  - intros _ i w1 _ (Hw & Hp & Hc). apply wp_bind, wp_attempt, wp_fs_create_dir.
    + intros Hn. apply way_made_insert; [done|apply take_prefix|done].
    + intros w2 Hn _ (Ht & _ & _ & Hp2 & Hc2). apply wp_ret. split_and!; [|congruence|congruence].
      rewrite Ht. apply way_made_insert; [done|apply take_prefix|done].
    + intros e w2 (Ht & _ & _ & Hp2 & Hc2) _ _.
      assert (way_made p (w_tree w) (w_tree w2) ∧ w_pid w2 = w_pid w ∧ w_counter w2 = w_counter w) as (? & ? & ?)
        by (rewrite Ht; split_and!; [done|congruence..]).
      destruct e; try (apply wp_lift; by apply HP).
      apply wp_bind, wp_get. destruct (is_dir_node _); [by apply wp_ret|apply wp_lift; by apply HP].
  - intros [] w1 (Hw & Hp & Hc). by apply HP.
Qed.

(** ** Devices *)

Section devices.
Context `{Uuid} `{SerdeJson} `{Rfc3339}.

(** The disk at [root] carries the identity [i]. *)
Definition carries (t : tree) (root : path) (i : DeviceIdentity) : Prop :=
  ∃ bytes m, t !! Layout.join root DEVICE_IDENTITY_FILE = Some (File bytes m)
    ∧ ((∃ json, from_utf8 bytes = Some json ∧ identity_from_str json = Some i) ∨ bytes = as_bytes (json_pretty (identity_fields i))).

Lemma carries_kept (P : path → Prop) t0 t root i : P (Layout.join root DEVICE_IDENTITY_FILE) → kept P t0 t → carries t0 root i → carries t root i.
Proof. intros HP Hk (bytes & m & Hf & Hi). exists bytes, m. split; [by apply Hk|done]. Qed.

Lemma wp_device_open Inv root cluster w (Post : res DeviceError Device → World → Prop) :
  (∀ d w', w_tree w' = w_tree w → d_root d = root → di_cluster_id (d_identity d) = cluster → carries (w_tree w) root (d_identity d) → Post (Ok d) w') →
  (∀ r w', w_tree w' = w_tree w → (∀ d, r ≠ Ok d) → Post r w') →
  wp Inv (Device_open root (Some cluster)) w Post.
Proof.
  intros Hok Herr. unfold Device_open. apply wp_bind, wp_map_err, wp_fs_metadata; [|intros e w1 (Ht & _) _; by apply Herr].
  intros n w1 _ (Ht1 & _). apply wp_bind, wp_lift. destruct (is_dir_node (Some n)); cbn [ensure]; [|by apply Herr].
  apply wp_bind, wp_attempt, wp_read_to_string.
  2: { intros e w2 (Ht2 & _) _. apply wp_bind. destruct e; try (apply wp_lift; apply Herr; [congruence|done]).
       unfold fs_is_dir. apply wp_bind, wp_fs_test. intros b w3 (Ht3 & _) _. apply wp_lift. apply Herr; [congruence|by destruct b]. }
  intros c m json w2 Hf Hu (Ht2 & _). apply wp_bind, wp_ret, wp_bind, wp_lift.
  destruct (identity_from_str json) as [i|] eqn:Hi; cbn [ok_or]; [|apply Herr; [congruence|done]].
  apply wp_bind, wp_lift. unfold check_identity.
  destruct (bool_decide _); cbn [ensure mbind res_bind]; [|apply Herr; [congruence|done]].
  destruct (di_format_version i =? _); cbn [ensure mbind res_bind]; [|apply Herr; [congruence|done]].
  destruct (Z.eqb_spec (di_cluster_id i) cluster) as [Hc|]; cbn [ensure]; [|apply Herr; [congruence|done]].
  apply wp_ret. apply Hok; [congruence|done|done|]. exists c, m. rewrite Ht1 in Hf. split; [done|]. left. by exists json.
Qed.

Lemma fresh_name w root : let p := temp_of w (Layout.join root DEVICE_IDENTITY_FILE) in
  ∃ name, p = Layout.join root name ∧ name ≠ LOST_AND_FOUND ∧ name ≠ OBJECTS_DIR.
Proof.
  unfold temp_of, with_file_name, name_of, file_name, parent, Layout.join. rewrite last_snoc, removelast_last. eexists. by split_and!.
Qed.

Lemma empty_root t root name : filter (λ n, n ≠ LOST_AND_FOUND) (children t root) = [] → name ≠ LOST_AND_FOUND →
  t !! Layout.join root name = None.
Proof.
  intros Hf Hn. destruct (t !! Layout.join root name) eqn:Ht; [|done]. exfalso.
  assert (name ∈ filter (λ n, n ≠ LOST_AND_FOUND) (children t root)) as Hin
    by (apply list_elem_of_filter; split; [done|]; by apply elem_of_children).
  rewrite Hf in Hin. by apply elem_of_nil in Hin.
Qed.

Lemma off_the_way root t0 t name : way_made (bucket_path root) t0 t → name ≠ OBJECTS_DIR →
  t !! Layout.join root name = t0 !! Layout.join root name.
Proof.
  intros Ht Hn. destruct (Ht (Layout.join root name)) as [?|[Hp _]]; [done|]. exfalso. unfold bucket_path, Layout.join in Hp.
  rewrite <- app_assoc in Hp. apply prefix_app_inv, prefix_cons_inv_1 in Hp. done.
Qed.

(** A new device goes where nothing was. *)
Lemma wp_initialise P root cluster id now w :
  wp (kept P (w_tree w)) (initialise root cluster id now) w (λ r w',
    kept P (w_tree w) (w_tree w')
    ∧ ∀ d, r = Ok d → d_root d = root ∧ di_cluster_id (d_identity d) = cluster ∧ carries (w_tree w') root (d_identity d)).
Proof.
  unfold initialise. apply wp_bind, wp_map_err, wp_fs_metadata; [|intros e w1 (-> & _) _; by split].
  intros n w1 _ (Ht1 & _). apply wp_bind, wp_lift. destruct (is_dir_node (Some n)); cbn [ensure]; [|rewrite Ht1; by split].
  apply wp_bind, wp_map_err, wp_fs_read_dir; [|intros e w2 (Ht2 & _) _; rewrite Ht2, Ht1; by split].
  intros w2 _ (Ht2 & _). rewrite Ht1 in Ht2 |- *. apply wp_bind, wp_lift. case_bool_decide as Hempty; cbn [ensure]; [|rewrite Ht2; by split].
  apply wp_bind, wp_map_err. eapply wp_weaken; [|apply wp_create_dir_all].
  { intros t. rewrite Ht2. apply way_made_kept. }
  rewrite Ht2. intros [u|e|] w3 Hr Hway _ _; [|by split; [eapply way_made_kept|]|done]. cbn [map_err].
  destruct (fresh_name w3 root) as (name & Htemp & Hlf & Hob). pose proof (way_made_kept _ P _ _ Hway) as K3.
  assert (w_tree w3 !! Layout.join root DEVICE_IDENTITY_FILE = None) as Hid
    by (rewrite (off_the_way _ _ _ _ Hway) by done; by apply empty_root).
  assert (w_tree w3 !! Layout.join root name = None) as Hnm by (rewrite (off_the_way _ _ _ _ Hway) by done; by apply empty_root).
  apply wp_bind. eapply wp_mono; [apply wp_write_file_atomically|].
  { unfold Layout.join. by intros [_ ?]%app_nil. }
  { intros t Hrep. etrans; [exact K3|]. rewrite Htemp in Hrep. by eapply kept_replaced. }
  intros r w4 (Hrep & Hp & Hok). rewrite Htemp in Hrep. pose proof (kept_replaced P _ _ _ _ _ Hrep (λ _, Hnm) (λ _, Hid)) as K4.
  destruct r as [[]|e|]; [|by split; [etrans|]|done]. apply wp_bind, wp_fsync_directory. intros r w5 Hr5 (Ht5 & _).
  assert (kept P (w_tree w) (w_tree w5)) as K5 by (rewrite Ht5; by etrans).
  destruct r as [u'|e|]; [|by split|done]. apply wp_ret. split; [done|]. intros d [= <-]. split_and!; [done|done|].
  destruct (Hok eq_refl) as [m Hm]. rewrite Ht5. do 2 eexists. split; [exact Hm|by right].
Qed.


Lemma wp_reads {E A : Type} (m : io E A) Inv w (Post : res E A → World → Prop) :
  read_only m → (∀ r w', w_tree w' = w_tree w → Post r w') → wp Inv m w Post.
Proof.
  intros Hm HP. specialize (Hm w). unfold wp. destruct (m w) as [r w']. destruct Hm as [Ht Htr]. split; [by apply HP|]. by exists [].
Qed.

Lemma read_only_device_open root o : read_only (Device_open root o).
Proof. unfold Device_open, at_path, read_to_string, fs_is_dir. reads. Qed.

(** Erasing removes what is below the root. *)
Lemma wp_erase (P : path → Prop) root w : (∀ q, P q → ¬ root `prefix_of` q) →
  wp (kept P (w_tree w)) (erase root) w (λ r w', kept P (w_tree w) (w_tree w')).
Proof.
  intros HP. assert (∀ t t' p, kept P t t' → root `prefix_of` p → kept P t (delete p t')) as Hdel.
  { intros t t' p Hk Hp q n Hq Hn. rewrite lookup_delete_ne; [by apply Hk|]. intros ->. by apply (HP q). }
  unfold erase. apply wp_bind, wp_reads; [apply read_only_device_open|]. intros [d|e|] w1 Ht1; [|by rewrite Ht1..].
  apply wp_bind, wp_reads; [unfold fs_is_dir; reads|]. intros [present|e|] w2 Ht2; [|by rewrite Ht2, Ht1..].
  apply wp_bind, (wp_mono _ _ _ (λ r w', kept P (w_tree w) (w_tree w'))).
  - destruct present; [|apply wp_ret; by rewrite Ht2, Ht1]. apply wp_map_err. unfold fs_remove_dir_all.
    apply wp_bind, wp_next_fault. intros f w3 (Ht3 & _). apply wp_bind, wp_get.
    assert (kept P (w_tree w) (w_tree w3)) as K3 by by rewrite Ht3, Ht2, Ht1.
    destruct (w_tree w3 !! _) as [[|c m]|]; [|by apply wp_lift..]. apply wp_bind.
    apply (wp_fold _ _ (λ _ w', kept P (w_tree w) (w_tree w'))); [done| |].
    + intros _ q w4 Hq K4. apply wp_bind, wp_get, wp_put_tree.
      all: apply Hdel; [done|]. all: apply elem_of_take in Hq as (j & Hq & _); apply list_elem_of_lookup_2 in Hq.
      all: unfold subtree in Hq; rewrite merge_sort_Permutation in Hq; apply list_elem_of_filter in Hq as [Hq _].
      all: transitivity (Layout.join root OBJECTS_DIR); [by eexists|]; rewrite <- Hq; apply take_prefix.
    + intros [] w4 K4. destruct f; by apply wp_lift.
  - intros [u|e|] w3 K3; [|done|done]. apply wp_bind, wp_map_err, wp_fs_remove_file.
    + intros _. apply Hdel; [done|]. by eexists.
    + intros w4 _ (Ht4 & _). apply wp_fsync_directory. intros r w5 _ (Ht5 & _). rewrite Ht5, Ht4. apply Hdel; [done|]. by eexists.
    + intros e w4 (Ht4 & _) _. by rewrite Ht4.
Qed.

(** ** A device path made ready *)

(** What may be given up at the path [p]. *)
Definition spared (wipe : bool) (p q : path) : Prop := wipe = true → ¬ p `prefix_of` q.

Lemma wp_open_or_initialise p document wipe fresh w :
  wp (kept (spared wipe p) (w_tree w)) (open_or_initialise p document wipe fresh) w (λ r w',
    kept (spared wipe p) (w_tree w) (w_tree w')
    ∧ ∀ d, r = Ok d → di_cluster_id (d_identity d) = c_cluster_id document ∧ carries (w_tree w') p (d_identity d)).
Proof.
  unfold open_or_initialise. apply wp_bind, wp_attempt, wp_device_open.
  - intros d w1 Ht Hr Hc Hd. destruct (in_service document (device_id d)); [apply wp_ret|].
    { rewrite Ht. split; [done|]. by intros d' [= <-]. }
    destruct wipe; [|apply wp_lift; rewrite Ht; by split]. apply wp_map_err. unfold wipe_and_initialise. apply wp_bind.
    eapply wp_mono; [eapply wp_weaken; [|apply (wp_erase (spared true p))]|].
    + intros t. by rewrite Ht.
    + intros q Hq. by apply Hq.
    + cbn beta. rewrite Ht. intros [u|e|] w2 K2; [|by split..]. eapply wp_mono; [eapply wp_weaken; [|apply (wp_initialise (spared true p))]|].
      * intros t K3. by etrans.
      * intros r w3 [K3 Hok]. split; [by etrans|]. intros d' Hd'. destruct r as [d2|e|]; [|done|done]. injection Hd' as ->.
        by destruct (Hok d' eq_refl) as (_ & ? & ?).
  - intros r w1 Ht Hno. destruct r as [d|e|]; [by destruct (Hno d)| |rewrite Ht; by split].
    destruct e; try (apply wp_lift; rewrite Ht; by split). apply wp_map_err.
    eapply wp_mono; [eapply wp_weaken; [|apply wp_initialise]|].
    + intros t. by rewrite Ht.
    + cbn beta. rewrite Ht. intros r w2 [K2 Hok]. split; [done|]. intros d Hd. destruct r as [d2|e|]; [|done|done]. injection Hd as ->.
      by destruct (Hok d eq_refl) as (_ & ? & ?).
Qed.

(** A path in [q] survives the preparation of all [paths]. *)
Definition all_spared (wipe : bool) (paths : list path) (q : path) : Prop := ∀ p, p ∈ paths → spared wipe p q.

(** No wipe reaches the identity of a device prepared before. *)
Definition apart (wipe : bool) (paths : list path) : Prop := ∀ i j p q, (i < j)%nat →
  paths !! i = Some p → paths !! j = Some q → spared wipe q (Layout.join p DEVICE_IDENTITY_FILE).

Definition is_device (document : ClusterDocument) (t : tree) (p : path) (id : DeviceId) : Prop :=
  ∃ i, carries t p i ∧ di_device_id i = id ∧ di_cluster_id i = c_cluster_id document.

Lemma is_device_kept (P : path → Prop) document t0 t p id : P (Layout.join p DEVICE_IDENTITY_FILE) → kept P t0 t →
  is_device document t0 p id → is_device document t p id.
Proof. intros HP Hk (i & Hi & ?). exists i. split; [by eapply carries_kept|done]. Qed.

Lemma apart_cons wipe p q before after : apart wipe (before ++ q :: after) → p ∈ before → spared wipe q (Layout.join p DEVICE_IDENTITY_FILE).
Proof.
  intros Ha (i & Hi)%list_elem_of_lookup_1. apply (Ha i (length before)).
  - by eapply lookup_lt_Some.
  - by apply lookup_app_l_Some.
  - by rewrite list_lookup_middle.
Qed.

Section prepare.
Context (check : path → io MembershipError unit) (document : ClusterDocument) (wipe : bool) (fresh : nat → Z * Z).
Context (check_reads : ∀ p, read_only (check p)).

Lemma devices_kept t t' before p after ids : apart wipe (before ++ p :: after) → kept (spared wipe p) t t' →
  Forall2 (is_device document t) before ids → Forall2 (is_device document t') before ids.
Proof.
  intros Ha Hk Hf. assert (∀ q, q ∈ before → spared wipe p (Layout.join q DEVICE_IDENTITY_FILE)) as Hq by (intros q; by eapply apart_cons).
  clear Ha. induction Hf as [|q id before ids Hd _ IH]; constructor.
  - eapply is_device_kept; [|exact Hk|exact Hd]. apply Hq, list_elem_of_here.
  - apply IH. intros q' Hq'. by apply Hq, list_elem_of_further.
Qed.

Lemma wp_prepare_from l : ∀ before ids w,
  (apart wipe (before ++ l.*2) → Forall2 (is_device document (w_tree w)) before ids) →
  wp (kept (all_spared wipe l.*2) (w_tree w))
    (io_fold (λ ids (x : nat * path), _ ← check x.2; d ← open_or_initialise x.2 document wipe (fresh x.1); mret (ids ++ [device_id d])) l ids) w
    (λ r w', kept (all_spared wipe l.*2) (w_tree w) (w_tree w')
      ∧ ∀ ids', r = Ok ids' → apart wipe (before ++ l.*2) → Forall2 (is_device document (w_tree w')) (before ++ l.*2) ids').
Proof.
  induction l as [|[n p] l IH]; intros before ids w Hb; cbn [io_fold fmap list_fmap fst snd].
  { apply wp_ret. split; [done|]. intros ids' [= <-]. cbn in Hb. rewrite app_nil_r in *. done. }
  assert (∀ t t', kept (spared wipe p) t t' → kept (all_spared wipe (p :: l.*2)) t t') as K1.
  { intros t t'. apply kept_weaken. intros q Hq. apply Hq, list_elem_of_here. }
  assert (∀ t t', kept (all_spared wipe l.*2) t t' → kept (all_spared wipe (p :: l.*2)) t t') as K2.
  { intros t t'. apply kept_weaken. intros q Hq p' Hp'. by apply Hq, list_elem_of_further. }
  apply wp_bind, wp_bind, wp_reads; [apply check_reads|]. intros [[]|e|] w1 Ht1; [|rewrite Ht1; by split..].
  apply wp_bind. eapply wp_mono; [eapply wp_weaken; [|apply wp_open_or_initialise]|].
  { intros t. rewrite Ht1. apply K1. }
  cbn beta. rewrite Ht1. intros [d|e|] w2 [Hk Hd]; [apply wp_ret|by split; [apply K1|]..].
  destruct (Hd d eq_refl) as [Hc Hi]. change (before ++ p :: l.*2) with (before ++ ([p] ++ l.*2)) in *.
  eapply wp_mono; [eapply wp_weaken; [|apply (IH (before ++ [p]))]|].
  - intros t Hk'. etrans; [by apply K1|by apply K2].
  - intros Ha. rewrite <- app_assoc in Ha. apply Forall2_app; [|constructor; [|done]; by exists (d_identity d)].
    eapply devices_kept; [exact Ha|exact Hk|]. by apply Hb.
  - intros r w3 [Hk3 Hok]. split; [etrans; [by apply K1|by apply K2]|]. intros ids' Hr. rewrite <- app_assoc in Hok. by apply Hok.
Qed.

Lemma wp_prepare paths w :
  wp (kept (all_spared wipe paths) (w_tree w)) (prepare_devices check paths document wipe fresh) w
    (λ r w', kept (all_spared wipe paths) (w_tree w) (w_tree w')
      ∧ ∀ ids, r = Ok ids → apart wipe paths → Forall2 (is_device document (w_tree w')) paths ids).
Proof.
  assert ((imap pair paths).*2 = paths) as Hp.
  { apply list_eq. intros i. rewrite list_lookup_fmap, list_lookup_imap. by destruct (paths !! i). }
  pose proof (wp_prepare_from (imap pair paths) [] [] w (λ _, List.Forall2_nil _)) as Hw. rewrite Hp in Hw. exact Hw.
Qed.
End prepare.
End devices.

(** ** Computations on a site, as their disk sees them *)

Section site.
Context {N : Type} (Inv : tree → Prop).

(** [wp] for a computation that also talks to peers: whatever these do. *)
Definition during {E A : Type} (m : net (Site N) E A) (w : World) (Post : res E A → World → Prop) : Prop :=
  ∀ p r s', m (mkSite w p) = Some (r, s') →
    Post r (st_world s') ∧ ∃ new, w_trace (st_world s') = new ++ w_trace w ∧ Forall Inv new.

Lemma during_lift {E A : Type} (r : res E A) w (Post : res E A → World → Prop) : Post r w → during (nlift r) w Post.
Proof. intros HP p r' s' [= <- <-]. split; [done|]. by exists []. Qed.

Lemma during_ret {E A : Type} (a : A) w (Post : res E A → World → Prop) : Post (Ok a) w → during (mret a) w Post.
Proof. apply (during_lift (Ok a)). Qed.

Lemma during_mono {E A : Type} (m : net (Site N) E A) w (P Q : res E A → World → Prop) :
  during m w P → (∀ r w', P r w' → Q r w') → during m w Q.
Proof. intros Hm HP p r s' Hr. destruct (Hm _ _ _ Hr) as [? ?]. auto. Qed.

Lemma during_bind {E A B : Type} (m : net (Site N) E A) (f : A → net (Site N) E B) w (Post : res E B → World → Prop) :
  during m w (λ r w', match r with Ok a => during (f a) w' Post | Err e => Post (Err e) w' | Panic => Post Panic w' end) →
  during (m ≫= f) w Post.
Proof.
  intros Hm p r s'. unfold mbind, net_bind. destruct (m (mkSite w p)) as [[[a|e|] [w1 p1]]|] eqn:Hs; [|by intros [= <- <-]; apply (Hm _ _ _ Hs)..|done].
  intros Hr. destruct (Hm _ _ _ Hs) as [Hf (n1 & Ht1 & H1)]. destruct (Hf _ _ _ Hr) as [HP (n2 & Ht2 & H2)].
  split; [done|]. exists (n2 ++ n1). cbn [st_world] in *. rewrite Ht2, Ht1, app_assoc. split; [done|]. by apply Forall_app.
Qed.

Lemma during_disk {E F A : Type} (f : E → F) (m : io E A) w (Post : res F A → World → Prop) :
  wp Inv m w (λ r w', Post (map_err f r) w') → during (on_disk f m) w Post.
Proof. unfold wp, on_disk. intros Hm p r s'. cbn. destruct (m w) as [r0 w']. by intros [= <- <-]. Qed.

Lemma during_net {E F A : Type} (f : E → F) (m : net (Peers N) E A) w (Post : res F A → World → Prop) :
  (∀ r, Post (map_err f r) w) → during (on_net f m) w Post.
Proof. intros HP p r s'. unfold on_net. cbn. destruct (m p) as [[r0 p']|]; [|done]. intros [= <- <-]. split; [apply HP|]. by exists []. Qed.

Lemma during_fold {E A B : Type} (f : B → A → net (Site N) E B) (P : B → World → Prop) l b w (Post : res E B → World → Prop) :
  P b w →
  (∀ b x w, P b w → during (f b x) w (λ r w', match r with Ok b' => P b' w' | Err e => Post (Err e) w' | Panic => Post Panic w' end)) →
  (∀ b w, P b w → Post (Ok b) w) → during (nfold f l b) w Post.
Proof.
  intros HP Hstep Hend. revert b w HP. induction l as [|x l IH]; intros b w HP; cbn [nfold]; [by apply during_ret, Hend|].
  apply during_bind. eapply during_mono; [by apply Hstep|]. intros [b'|e|] w' Hw; [by apply IH|done|done].
Qed.
End site.

Lemma during_weaken {N E A : Type} (Inv Inv' : tree → Prop) (m : net (Site N) E A) w (P : res E A → World → Prop) :
  (∀ t, Inv' t → Inv t) → during Inv' m w P → during Inv m w P.
Proof. intros HI Hm p r s' Hr. destruct (Hm _ _ _ Hr) as [HP (new & Hn & Hf)]. split; [done|]. exists new. split; [done|]. by eapply Forall_impl. Qed.

(** ** Saving the document *)

Section saving.
Context {N : Type} `{DocumentText} (config : NodeConfig).

(** Neither the document nor its temporary file. *)
Definition elsewhere (q : path) : Prop := q ≠ document_path config ∧ q ≠ document_temp (document_path config).

Definition document_on (t : tree) (c : ClusterDocument) : Prop :=
  ∃ m, t !! document_path config = Some (File (as_bytes (document_pretty c)) m).

(** The document's file is what it was, or a whole document. *)
Definition whole (t0 t : tree) : Prop := kept elsewhere t0 t ∧ (t !! document_path config = t0 !! document_path config ∨ ∃ c, document_on t c).

#[global] Instance whole_preorder : PreOrder whole.
Proof.
  split; [by intros t; split; [|left]|]. intros t1 t2 t3 [K1 H1] [K2 H2]. split; [by etrans|].
  destruct H2 as [H2|?]; [|by right]. destruct H1 as [H1|(c & m & Hc)]; [left; congruence|]. right. exists c, m. congruence.
Qed.

Lemma wp_save_for c w : wp (whole (w_tree w)) (save_document_for config c) w (λ r w',
  whole (w_tree w) (w_tree w') ∧ r ≠ Panic ∧ (r = Ok tt → document_on (w_tree w') c)).
Proof.
  unfold save_document_for. set (p := document_path config). assert (∀ t, way_made (nc_state_dir config) (w_tree w) t → whole (w_tree w) t) as Hway.
  { intros t Ht. split; [by eapply way_made_kept|]. left. destruct (Ht p) as [?|[Hp _]]; [done|]. apply prefix_length in Hp.
    unfold p, document_path, Layout.join in Hp. rewrite length_app in Hp. cbn in Hp. lia. }
  assert (∀ t0 t, replaced t0 (document_temp p) p (as_bytes (document_pretty c)) t → whole t0 t) as Hrep.
  { intros t0 t Hr. split; [eapply kept_replaced; [exact Hr|by intros [_ []]|by intros [[] _]]|]. destruct Hr as [_ [?|[m Hm]]]; [by left|]. right. by exists c, m. }
  apply wp_bind, wp_map_err. eapply wp_weaken; [exact Hway|]. apply wp_create_dir_all. intros r w1 Hr H1%Hway _ _.
  destruct r as [[]|e|]; [|by split_and!|done]. cbn [map_err].
  eapply wp_mono; [apply wp_save_document; [apply document_path_name|intros t Ht; etrans; [exact H1|by apply Hrep]]|].
  intros r w2 (Hr2 & Hp & Hok). split_and!; [etrans; [exact H1|by apply Hrep]|done|]. intros Hr'. destruct (Hok Hr') as [m Hm]. by exists m.
Qed.

Lemma during_save (c : ClusterDocument) (w : World) (Post : res MembershipError unit → World → Prop) (Inv : tree → Prop) :
  (∀ t, whole (w_tree w) t → Inv t) →
  (∀ r w', whole (w_tree w) (w_tree w') → r ≠ Panic → (r = Ok tt → document_on (w_tree w') c) → Post r w') →
  during (N := N) Inv (save config c) w Post.
Proof.
  intros HI HP. apply during_disk. eapply wp_mono; [eapply wp_weaken; [exact HI|apply wp_save_for]|].
  intros [[]|e|] w' (Hw & Hp & Hok); [|by apply HP|done]. apply HP; [done|done|]. intros _. by apply Hok.
Qed.
End saving.

(** ** Joining *)

Lemma find_by {A : Type} (key : A → Z) (l : list A) (id : Z) : is_Some (List.find (λ x, key x =? id) l) ↔ id ∈ key <$> l.
Proof.
  rewrite list_elem_of_fmap. split.
  - intros [d Hd]. apply List.find_some in Hd as [Hin Heq%Z.eqb_eq]. exists d. split; [done|by apply list_elem_of_In].
  - intros (d & -> & Hin). destruct (List.find _ _) eqn:Hf; [done|]. apply list_elem_of_In in Hin. eapply List.find_none in Hf; [|exact Hin]. lia.
Qed.

Lemma entries_listed (node : NodeId) ids : ∀ ds : list DeviceEntry,
  de_id <$> ds ⊆ de_id <$> fold_left (λ ds d, if bool_decide (d ∈ de_id <$> ds) then ds else ds ++ [mkDeviceEntry d node Active None]) ids ds
  ∧ ids ⊆ de_id <$> fold_left (λ ds d, if bool_decide (d ∈ de_id <$> ds) then ds else ds ++ [mkDeviceEntry d node Active None]) ids ds.
Proof.
  induction ids as [|d ids IH]; intros ds; cbn [fold_left]; [split; set_solver|].
  set (ds' := if bool_decide _ then ds else _). destruct (IH ds') as [H1 H2].
  assert (de_id <$> ds ⊆ de_id <$> ds' ∧ d ∈ de_id <$> ds') as [H3 H4].
  { subst ds'. case_bool_decide; [done|]. rewrite fmap_app. cbn. split; [set_solver|]. apply elem_of_app. right. apply list_elem_of_here. }
  split; [by etrans|]. intros x [->|Hx]%elem_of_cons; [by apply H1|by apply H2].
Qed.

(** The document proposed lists the node and all its devices. *)
Lemma proposed_lists (config : NodeConfig) (current : ClusterDocument) (ids : list DeviceId) :
  listed config (document_with_this_node config current ids) ids = true.
Proof.
  unfold listed. apply andb_true_iff. split.
  - apply bool_decide_eq_true. unfold document_with_this_node, Cluster.node. cbn.
    destruct (List.find (λ n, n_id n =? nc_node_id config) (c_nodes current)) eqn:Hf; [by rewrite Hf|].
    apply (find_by n_id). rewrite fmap_app. apply elem_of_app. right. apply list_elem_of_here.
  - apply List.forallb_forall. intros d Hd%list_elem_of_In. apply bool_decide_eq_true, (find_by de_id). cbn.
    apply (entries_listed (nc_node_id config) ids (c_devices current)), Hd.
Qed.

Section joining.
Context {N : Type} `{Network N} `{Uuid} `{SerdeJson} `{Rfc3339} `{DocumentText}.
Context {TlsMaterial : Type} (load : TlsPaths → option TlsMaterial) (BUILD : str) (config : NodeConfig).
Abbreviation elsewhere := (elsewhere config).
Abbreviation whole := (whole config).

(** The proposal touches the document's file only, and its success leaves in
    it a document that lists the node and the devices. *)
Lemma during_propose attempts tls ids peer cluster_id : ∀ current w,
  during (N := N) (whole (w_tree w)) (propose_with_retry BUILD config attempts tls current ids peer cluster_id) w (λ r w',
    whole (w_tree w) (w_tree w') ∧ ∀ d, r = Ok d → document_on config (w_tree w') d ∧ listed config d ids = true).
Proof.
  induction attempts as [|attempts IH]; intros current w; cbn [propose_with_retry]; [by apply during_lift|].
  destruct (listed config current ids) eqn:Hl.
  { apply during_bind, during_save; [done|]. intros r w' Hw Hp Hok. destruct r as [[]|e|]; [|by split|done].
    apply during_ret. split; [done|]. intros d [= <-]. split; [by apply Hok|done]. }
  apply during_bind, during_net. intros [[u|e|]|e|]; cbn [map_err]; [| |by apply during_lift|by split..].
  - apply during_bind, during_save; [done|]. intros r w' Hw Hp Hok. destruct r as [[]|e|]; [|by split|done].
    apply during_ret. split; [done|]. intros d [= <-]. split; [by apply Hok|apply proposed_lists].
  - destruct e; try by apply during_lift.
    all: apply during_bind, during_net; intros [fetched|e|]; cbn [map_err]; [|by split..].
    all: apply during_bind, during_save; [done|]; intros r w' Hw Hp Hok; destruct r as [[]|e|]; [|by split|done].
    all: eapply during_mono; [eapply during_weaken; [|apply IH]|]; [intros t Ht; by etrans|].
    all: intros r w2 [Hw2 Hd]; split; [by etrans|done].
Qed.

Definition outside (wipe : bool) (paths : list path) (q : path) : Prop := elsewhere q ∧ all_spared wipe paths q.

Lemma identity_elsewhere p : elsewhere (Layout.join p DEVICE_IDENTITY_FILE).
Proof.
  split; intros Heq; apply (f_equal file_name) in Heq; unfold file_name, Layout.join, document_path, document_temp, with_file_name, Layout.join in Heq;
    rewrite !last_snoc in Heq; done.
Qed.

(** The end of both procedures: the devices, then the proposal. *)
Lemma during_enlist check current paths wipe fresh attempts tls peer cluster_id w : (∀ p, read_only (check p)) →
  during (N := N) (kept (outside wipe paths) (w_tree w))
    (ids ← on_disk id (prepare_devices check paths current wipe fresh);
     propose_with_retry BUILD config attempts tls current ids peer cluster_id) w (λ r w',
    kept (outside wipe paths) (w_tree w) (w_tree w')
    ∧ ∀ d, r = Ok d → document_on config (w_tree w') d
      ∧ (apart wipe paths → ∃ ids, Forall2 (is_device current (w_tree w')) paths ids ∧ listed config d ids = true)).
Proof.
  intros Hc. assert (∀ t t', kept (all_spared wipe paths) t t' → kept (outside wipe paths) t t') as K1 by (intros t t'; apply kept_weaken; by intros q []).
  assert (∀ t t', whole t t' → kept (outside wipe paths) t t') as K2 by (intros t t' [Hk _]; eapply kept_weaken; [|exact Hk]; by intros q []).
  apply during_bind, during_disk. eapply wp_mono; [eapply wp_weaken; [|by apply wp_prepare]|]; [apply K1|].
  intros [ids|e|] w1 [Hk1 Hids]; cbn [map_err]; [|by split; [apply K1|]..].
  eapply during_mono; [eapply during_weaken; [|apply during_propose]|]; [intros t Ht; etrans; [by apply K1|by apply K2]|].
  intros r w2 [Hw2 Hd]. split; [etrans; [by apply K1|by apply K2]|]. intros d ->. destruct (Hd d eq_refl) as [Hon Hl]. split; [done|]. intros Ha.
  exists ids. split; [|done]. eapply Forall2_impl; [by apply Hids|]. intros p x Hx. eapply is_device_kept; [|apply Hw2|exact Hx]. apply identity_elsewhere.
Qed.

Lemma during_connector peer cluster_id w Inv (Post : res MembershipError bool → World → Prop) :
  (∀ r, Post r w) → during (N := N) Inv (connector_for_unknown_transport load BUILD config peer cluster_id) w Post.
Proof.
  intros HP. unfold connector_for_unknown_transport. destruct (nc_tls config); [|apply during_ret, HP].
  apply during_bind, during_lift. destruct (ok_or _ _); [|apply HP..]. apply during_bind, during_net. intros [[d|e|]|e|]; cbn [map_err]; [apply during_ret, HP..|apply HP|apply HP].
Qed.

Definition enlisted (wipe : bool) (paths : list path) (t : tree) (d : ClusterDocument) : Prop :=
  document_on config t d ∧ (apart wipe paths → is_Some (Cluster.node d (nc_node_id config))
    ∧ ∃ cluster, Forall (λ p, ∃ i, carries t p i ∧ di_cluster_id i = cluster ∧ is_Some (device d (di_device_id i))) paths).

Lemma enlisted_of current wipe paths t d : document_on config t d →
  (apart wipe paths → ∃ ids, Forall2 (is_device current t) paths ids ∧ listed config d ids = true) → enlisted wipe paths t d.
Proof.
  intros Hon Hids. split; [done|]. intros Ha. destruct (Hids Ha) as (ids & Hf & [Hn%bool_decide_eq_true Hd]%andb_true_iff).
  split; [done|]. exists (c_cluster_id current). rewrite List.forallb_forall in Hd.
  assert (∀ x, x ∈ ids → is_Some (device d x)) as Hx by (intros x Hx%list_elem_of_In; specialize (Hd x Hx); by apply bool_decide_eq_true in Hd).
  clear Hd Hids Ha Hon Hn. induction Hf as [|p x paths ids (i & Hc & Hi & Hcl) _ IH]; constructor.
  - exists i. split_and!; [done|done|]. rewrite Hi. apply Hx, list_elem_of_here.
  - apply IH. intros y Hy. by apply Hx, list_elem_of_further.
Qed.

Lemma during_join peer cluster_id wipe fresh w :
  during (N := N) (kept (outside wipe (nc_devices config)) (w_tree w)) (join load BUILD config peer cluster_id wipe fresh) w (λ r w',
    kept (outside wipe (nc_devices config)) (w_tree w) (w_tree w') ∧ ∀ d, r = Ok d → enlisted wipe (nc_devices config) (w_tree w') d).
Proof.
  unfold join. set (paths := nc_devices config). assert (∀ t t', whole t t' → kept (outside wipe paths) t t') as K2.
  { intros t t' [Hk _]. eapply kept_weaken; [|exact Hk]. by intros q []. }
  apply during_bind, during_connector. intros [tls|e|]; [|by split..].
  apply during_bind, during_net. intros [current|e|]; cbn [map_err]; [|by split..].
  apply during_bind, during_lift. destruct (_ || _); cbn [ensure]; [|by split].
  apply during_bind, during_lift. destruct (negb _); cbn [ensure]; [|by split].
  apply during_bind, during_save; [apply K2|]. intros r w1 Hw1 Hp _. destruct r as [[]|e|]; [|by split; [apply K2|]|done].
  eapply during_mono; [eapply during_weaken; [|apply (during_enlist _ _ paths wipe)]|]; [|done|].
  - intros t Ht. etrans; [by apply K2|done].
  - intros r w2 [Hk Hd]. split; [etrans; [by apply K2|done]|]. intros d ->. destruct (Hd d eq_refl). by eapply enlisted_of.
Qed.

Lemma during_add paths peer cluster_id wipe fresh w :
  during (N := N) (kept (outside wipe paths) (w_tree w)) (add_devices load BUILD config paths peer cluster_id wipe fresh) w (λ r w',
    kept (outside wipe paths) (w_tree w) (w_tree w') ∧ ∀ d, r = Ok d → enlisted wipe paths (w_tree w') d).
Proof.
  unfold add_devices. apply during_bind, during_connector. intros [tls|e|]; [|by split..].
  apply during_bind, during_net. intros [current|e|]; cbn [map_err]; [|by split..].
  eapply during_mono; [apply during_enlist|].
  - intros p. unfold refuse_member. pose proof (read_only_device_open p (Some cluster_id)). reads.
  - intros r w2 [Hk Hd]. split; [done|]. intros d ->. destruct (Hd d eq_refl). by eapply enlisted_of.
Qed.

(** The procedures that enlist the devices at some paths. *)
Inductive enlisting : list path → bool → net (Site N) MembershipError ClusterDocument → Prop :=
| enlist_join peer cluster_id wipe fresh : enlisting (nc_devices config) wipe (join load BUILD config peer cluster_id wipe fresh)
| enlist_add paths peer cluster_id wipe fresh : enlisting paths wipe (add_devices load BUILD config paths peer cluster_id wipe fresh).

Lemma during_enlisting paths wipe m w : enlisting paths wipe m → during (kept (outside wipe paths) (w_tree w)) m w (λ r w',
  kept (outside wipe paths) (w_tree w) (w_tree w') ∧ ∀ d, r = Ok d → enlisted wipe paths (w_tree w') d).
Proof. intros []; [apply during_join|apply during_add]. Qed.


(** C22. A join that reports success has done all that a start of the node
    relies on: the state directory holds the document returned, that document
    lists the node, and every configured path is a disk with the identity of
    one cluster whose device the document lists.  The same holds of added
    devices.  A wipe of one path must not reach into another. *)
Theorem join_ready (paths : list path) (wipe : bool) (m : net (Site N) MembershipError ClusterDocument) (s s' : Site N) (d : ClusterDocument) :
  enlisting paths wipe m → m s = Some (Ok d, s') → apart wipe paths →
  document_on config (w_tree (st_world s')) d ∧ is_Some (Cluster.node d (nc_node_id config))
  ∧ ∃ cluster, ∀ p, p ∈ paths → ∃ i, carries (w_tree (st_world s')) p i ∧ di_cluster_id i = cluster ∧ is_Some (device d (di_device_id i)).
Proof.
  intros He Hr Ha. destruct s as [w p0]. destruct (during_enlisting _ _ _ w He _ _ _ Hr) as [[_ Hd] _].
  destruct (Hd d eq_refl) as [Hon Hrest]. destruct (Hrest Ha) as [Hn (cluster & Hf)]. split_and!; [done|done|]. exists cluster. by apply Forall_forall.
Qed.
End joining.

(** ** Starting *)

Lemma addressed_node (c : ClusterDocument) (id : NodeId) (a : list str) entry :
  Cluster.node (with_node_addresses c id a) id = Some entry → n_addresses entry = a.
Proof.
  unfold Cluster.node. intros [Hin Heq%Z.eqb_eq]%List.find_some. unfold with_node_addresses, set_node_entry in Hin. cbn [c_nodes with_nodes] in Hin.
  apply list_elem_of_In, list_elem_of_fmap in Hin as (n & -> & _). destruct (Z.eqb_spec (n_id n) id) as [|Hne]; [done|]. by rewrite Heq in Hne.
Qed.

Section starting.
Context {N : Type} `{Network N} `{Uuid} `{SerdeJson} `{Rfc3339} `{DocumentText}.
Context {TlsMaterial : Type} (load : TlsPaths → option TlsMaterial) (BUILD : str) (config : NodeConfig).
Context (c0 : ClusterDocument) (t0 : tree).
Abbreviation whole := (whole config).

(** The document at hand is the one the disk holds, and no older than the
    one the start began with. *)
Definition at_hand (c : ClusterDocument) (w : World) : Prop :=
  c_version c0 ≤ c_version c ∧ whole t0 (w_tree w)
  ∧ (document_on config (w_tree w) c ∨ c = c0 ∧ w_tree w !! document_path config = t0 !! document_path config).

Lemma at_hand_whole c w : at_hand c w → whole t0 (w_tree w).
Proof. by intros (_ & ? & _). Qed.

Definition adopted_at_hand (r : res MembershipError ClusterDocument) (w : World) : Prop :=
  match r with Ok c => at_hand c w | _ => whole t0 (w_tree w) end.

(** A newer document is saved before it is used. *)
Lemma during_take c c' w : at_hand c w →
  during (N := N) (whole t0) (if c_version c <? c_version c' then _ ← save config c'; mret c' else mret c) w adopted_at_hand.
Proof.
  intros Hc. destruct (Z.ltb_spec (c_version c) (c_version c')) as [Hlt|_]; [|by apply during_ret].
  pose proof (at_hand_whole _ _ Hc) as Hw. apply during_bind, during_save; [intros t Ht; by etrans|].
  intros r w' Hw' Hp Hok. assert (whole t0 (w_tree w')) as Hw2 by by etrans. destruct r as [[]|e|]; [|done|done]. apply during_ret.
  destruct Hc as (? & _). split_and!; [lia|done|]. left. by apply Hok.
Qed.

Lemma during_consult c peer w : at_hand c w → during (N := N) (whole t0) (consult load BUILD config c peer) w adopted_at_hand.
Proof.
  intros Hc. pose proof (at_hand_whole _ _ Hc) as Hw. unfold consult. destruct (SocketAddr.parses peer); [|by apply during_ret].
  apply during_bind, during_lift. destruct (connector_for _ _ _); [|done|done].
  apply during_bind, during_net. intros [[theirs|e|]|e|]; cbn [map_err]; [|destruct e; by apply during_lift|by apply during_lift|done|done].
  by apply during_take.
Qed.

(** The last step: the address, which makes a successor of the document. *)
Lemma during_address attempts tls : ∀ c w, at_hand c w →
  during (N := N) (whole t0) (adopt_configured_address BUILD config attempts tls c) w (λ r w', match r with
    | Ok d => (∃ c, c_version c0 ≤ c_version c ∧ (d = c ∨ d = with_node_addresses c (nc_node_id config) [advertised_address config]))
        ∧ (∀ entry, Cluster.node d (nc_node_id config) = Some entry → advertised_address config ∈ n_addresses entry)
        ∧ whole t0 (w_tree w')
        ∧ (document_on config (w_tree w') d ∨ d = c0 ∧ w_tree w' !! document_path config = t0 !! document_path config)
    | _ => whole t0 (w_tree w')
    end).
Proof.
  induction attempts as [|attempts IH]; intros c w Hc; pose proof (at_hand_whole _ _ Hc) as Hw; cbn [adopt_configured_address]; [by apply during_lift|].
  destruct (Cluster.node c (nc_node_id config)) as [entry|] eqn:Hn.
  2: { apply during_ret. destruct Hc as (Hv & _ & Hon). split_and!; [exists c; by split; [|left]|intros entry He; congruence|done|done]. }
  case_bool_decide as Hin.
  { apply during_ret. destruct Hc as (Hv & _ & Hon). split_and!; [exists c; by split; [|left]|intros e He; congruence|done|done]. }
  apply during_bind, during_net. intros [[u|e|]|e|]; cbn [map_err]; [| |by apply during_lift|done|done].
  - apply during_bind, during_save; [intros t Ht; by etrans|]. intros r w' Hw' Hp Hok. assert (whole t0 (w_tree w')) as Hw2 by by etrans.
    destruct r as [[]|e|]; [|done|done]. apply during_ret. split_and!.
    + exists c. split; [apply Hc|by right].
    + intros e ->%addressed_node. apply list_elem_of_here.
    + done.
    + left. by apply Hok.
  - destruct e; try by apply during_lift.
    all: apply during_bind, during_net; intros [reports|e|]; cbn [map_err]; [|done..].
    all: apply during_bind, (during_fold _ _ at_hand); [done| |intros c' w' Hc'; by apply IH].
    all: intros c' report w' Hc'; unfold adopt_newer; destruct (no_result report) as [?|theirs]; [by apply during_ret|].
    all: eapply during_mono; [by apply during_take|]; by intros [c''|e|] w''.
Qed.
End starting.

Section startup.
Context {N : Type} `{Network N} `{Uuid} `{SerdeJson} `{Rfc3339} `{DocumentText}.
Context {TlsMaterial : Type} (load : TlsPaths → option TlsMaterial) (BUILD : str) (config : NodeConfig).

(** C23. A start goes on only with a document that is on the disk, is no older
    than the one the node was stopped with but for the correction of its own
    address, and lists the node where it will serve; a node the document does
    not list is left to the check of [Node::open].  Whatever the peers
    answer, and at whatever instant the process dies, the document's file is
    what it was or a whole document, and nothing else is changed. *)
Theorem startup_document (s s' : Site N) (d : ClusterDocument) :
  adopt_from_peers load BUILD config s = Some (Ok d, s') →
  let id := nc_node_id config in
  let t := w_tree (st_world s) in
  let t' := w_tree (st_world s') in
  ∃ c0 w c, load_document_for config (st_world s) = (Ok (Some c0), w)
    ∧ c_version c0 ≤ c_version c ∧ (d = c ∨ d = with_node_addresses c id [advertised_address config])
    ∧ (∀ entry, Cluster.node d id = Some entry → advertised_address config ∈ n_addresses entry)
    ∧ (document_on config t' d ∨ d = c0 ∧ t' !! document_path config = t !! document_path config)
    ∧ ∃ new, w_trace (st_world s') = new ++ w_trace (st_world s) ∧ Forall (whole config t) (t' :: new).
Proof.
  intros Hr id t t'. unfold adopt_from_peers in Hr. next Hr. destruct s as [w p]. unfold on_disk in R. cbn in R.
  assert (read_only (load_document_for config)) as Hread by (unfold load_document_for, load_document, read_to_string, fs_exists; reads).
  specialize (Hread w). destruct (load_document_for config w) as [[o|e|] w1] eqn:Hl; [|done|done]. injection R as -> <-. destruct Hread as [Ht Htr]. cbn in Ht, Htr.
  next Hr. destruct x as [c0|]; [|done]. injection R as <- <-.
  assert (at_hand config c0 t c0 w1) as Hc0 by (split_and!; [done|by rewrite Ht|right; by rewrite Ht]).
  assert (during (whole config t) (document ← nfold (consult load BUILD config) (nc_bootstrap_peers config) c0;
    tls ← nlift (connector_for load config document); adopt_configured_address BUILD config MAX_PROPOSAL_ATTEMPTS tls document) w1 (λ r w', match r with
    | Ok d => (∃ c, c_version c0 ≤ c_version c ∧ (d = c ∨ d = with_node_addresses c id [advertised_address config]))
        ∧ (∀ entry, Cluster.node d id = Some entry → advertised_address config ∈ n_addresses entry)
        ∧ whole config t (w_tree w')
        ∧ (document_on config (w_tree w') d ∨ d = c0 ∧ w_tree w' !! document_path config = t !! document_path config)
    | _ => whole config t (w_tree w')
    end)) as Hd.
  { apply during_bind, (during_fold _ _ (at_hand config c0 t)); [done| |].
    - intros c peer w2 Hc. eapply during_mono; [by apply during_consult|]. by intros [?|?|] ?.
    - intros c w2 Hc. apply during_bind, during_lift. destruct (connector_for _ _ _); [by apply during_address|by apply (at_hand_whole _ _ _ _ _ Hc)..]. }
  destruct (Hd _ _ _ Hr) as [((c & Hv & Hdc) & Haddr & Hw & Hon) (new & Hn & Hf)]. exists c0, w1, c. split_and!; [done..|].
  exists new. cbn [st_world]. rewrite <- Htr. split; [done|]. by constructor.
Qed.
End startup.

(** ** Membership within the protocol of the administration *)

Section protocol.
Context `{Uuid} `{DocumentText} `{CoordTexts} `{SerdeJson} `{Rfc3339} {TlsMaterial Material : Type} (text : Reason → str).
Context (listens : str → option NodeId) (other : Node TlsMaterial → Z → Request → list Message).
Context (load : TlsPaths → option Material) (build : str) (config : NodeConfig).
Abbreviation Sys := (Sys (TlsMaterial := TlsMaterial)).
#[local] Instance cluster : Network Sys := Cluster_network text listens other.
Abbreviation safe := (safe listens).

(** A computation on a site as its peers see it, the disk given. *)
Definition peers_of {E A : Type} (m : net (Site Sys) E A) (w : World) : net (Peers Sys) E (A * World) := λ p,
  match m (mkSite w p) with
  | Some (r, s') => Some ((λ a, (a, st_world s')) <$> r, st_peers s')
  | None => None
  end.

Definition site_safe {E A : Type} (K : list ClusterDocument) (m : net (Site Sys) E A) (Q : A → list ClusterDocument) : Prop :=
  ∀ w, safe K (peers_of m w) (λ x, Q x.1).

Lemma site_bind {E A B : Type} K (m : net (Site Sys) E A) (f : A → net (Site Sys) E B) Q R :
  site_safe K m Q → (∀ a, site_safe (Q a ++ K) (f a) R) → site_safe K (m ≫= f) R.
Proof.
  intros Hm Hf w s r s' Hr. apply (safe_bind listens K (peers_of m w) (λ x : A * World, peers_of (f x.1) x.2) (λ x, Q x.1) (λ x, R x.1) (Hm w) (λ x, Hf x.1 x.2) s r s').
  rewrite <- Hr. unfold peers_of, mbind, net_bind. destruct (m (mkSite w s)) as [[[a|e|] [w1 p1]]|]; done.
Qed.

Lemma site_lift {E A : Type} K (r : res E A) (Q : A → list ClusterDocument) : (∀ a, r = Ok a → Q a ⊆ K) → site_safe K (nlift r) Q.
Proof.
  intros HQ w s r' s' [= <- <-]. split; [done|]. intros _ HK _. split; [done|]. intros [a w'] Ha.
  destruct r as [a'|e|]; [|done|done]. injection Ha as <- <-. etrans; [by apply HQ|done].
Qed.

Lemma site_ret {E A : Type} K (a : A) (Q : A → list ClusterDocument) : Q a ⊆ K → site_safe (E := E) K (mret a) Q.
Proof. intros HQ. apply (site_lift K (Ok a)). by intros ? [= <-]. Qed.

Lemma site_disk {E F A : Type} K (f : E → F) (m : io E A) : site_safe K (on_disk f m) (λ _, []).
Proof.
  intros w s r s'. unfold peers_of, on_disk. cbn. destruct (m w) as [r0 w']. intros [= <- <-]. split; [done|]. intros _ _ _. split; [done|]. set_solver.
Qed.

Lemma site_net {E F A : Type} K (f : E → F) (m : net (Peers Sys) E A) (Q : A → list ClusterDocument) :
  safe K m Q → site_safe K (on_net f m) Q.
Proof.
  intros Hm w s r s'. unfold peers_of, on_net. cbn. destruct (m s) as [[r0 p']|] eqn:Hs; [|done]. intros [= <- <-].
  destruct (Hm _ _ _ Hs) as [Hk Hsteps]. split; [done|]. intros Hh HK Hl. destruct (Hsteps Hh HK Hl) as [Hst HQ]. split; [done|].
  intros [a w'] Ha. destruct r0 as [a0|e|]; [|done|done]. injection Ha as <- <-. by apply HQ.
Qed.

Lemma propose_with_retry_safe attempts tls ids peer cluster_id : ∀ K current, current ∈ K →
  site_safe K (propose_with_retry build config attempts tls current ids peer cluster_id) (λ _, []).
Proof.
  induction attempts as [|attempts IH]; intros K current Hc; cbn [propose_with_retry]; [by apply site_lift|].
  assert (∀ K c, site_safe K (_ ← save config c; mret c) (λ _, [])) as Hsave.
  { intros K' c. eapply site_bind; [apply site_disk|]. intros u. apply site_ret. set_solver. }
  destruct (listed config current ids); [apply Hsave|].
  eapply site_bind; [apply site_net, safe_attempt, propose_safe; [exact Hc|reflexivity]|].
  intros [u|e|]; [apply Hsave| |by apply site_lift]. destruct e; try by apply site_lift.
  all: eapply site_bind; [apply site_net, fetch_safe|]; intros fetched; eapply site_bind; [apply site_disk|]; intros u; apply IH; set_solver.
Qed.

Lemma connector_safe peer cluster_id K : site_safe K (connector_for_unknown_transport load build config peer cluster_id) (λ _, []).
Proof.
  unfold connector_for_unknown_transport. destruct (nc_tls config); [|apply site_ret; set_solver].
  eapply (site_bind _ _ _ (λ _, [])); [apply site_lift; set_solver|]. intros m.
  eapply site_bind; [apply site_net, safe_attempt, fetch_safe|]. intros [d|e|]; apply site_ret; set_solver.
Qed.

Lemma enlisting_safe paths wipe m : enlisting load build config paths wipe m → site_safe [] m (λ _, []).
Proof.
  intros []; [unfold join|unfold add_devices].
  all: eapply site_bind; [apply connector_safe|]; intros tls; eapply site_bind; [apply site_net, fetch_safe|]; intros current.
  - eapply (site_bind _ _ _ (λ _, [])); [apply site_lift; set_solver|]. intros u.
    eapply (site_bind _ _ _ (λ _, [])); [apply site_lift; set_solver|]. intros u'.
    eapply site_bind; [apply site_disk|]. intros u''. eapply site_bind; [apply site_disk|]. intros ids. apply propose_with_retry_safe. set_solver.
  - eapply site_bind; [apply site_disk|]. intros ids. apply propose_with_retry_safe. set_solver.
Qed.

(** C9. Joining a cluster and adding devices follow the protocol of the
    administration: while others administer the cluster, messages are lost
    and calls fail, every document a node adopts is known already or is the
    successor of a known one, adopted by the node that one lists first; so
    there is still one document of each version. *)
Theorem membership_refines (paths : list path) (wipe : bool) (m : net (Site Sys) MembershipError ClusterDocument) (root : Z) (s s' : Site Sys)
    (r : res MembershipError ClusterDocument) :
  enlisting load build config paths wipe m → m s = Some (r, s') →
  consistent root (view (st_peers s)) → leads listens (view (st_peers s')).2 →
  rtc step (view (st_peers s)) (view (st_peers s'))
  ∧ ∀ c d, c ∈ (view (st_peers s')).2 → d ∈ (view (st_peers s')).2 → c_version c = c_version d → c = d.
Proof.
  intros He Hr Hc Hl. destruct s as [w p]. cbn [st_peers] in *.
  destruct (enlisting_safe _ _ _ He w p ((λ a, (a, st_world s')) <$> r) (st_peers s')) as [_ Hs]; [unfold peers_of; by rewrite Hr|].
  destruct Hs as [Hs _]; [by intros id t; apply Hc|set_solver|done|]. split; [done|].
  by apply (steps_consistent root _ _ Hs Hc).
Qed.
End protocol.

(** ** Witnesses: a node joins while a rival changes the document; a node
    starts at another address *)

Section witnesses.
#[local] Existing Instance packed_json.
#[local] Existing Instance decimal_uuid.
#[local] Existing Instance decimal_time.
#[local] Instance quiet_texts : CoordTexts := {| BUILD := []; ctext := λ _, [] |}.
(** A document is written as its version. *)
#[local] Instance version_text : DocumentText :=
  {| document_pretty := λ c, fmt_dec (c_version c); document_from_str := λ s, if str_eqb s (lit "1") then Some document20 else None |}.
#[local] Instance cluster30 : Network (Sys (TlsMaterial := unit)) := Cluster_network (λ _, []) listens20 silent20.

Definition config30 : NodeConfig := mkConfig 13 (lit "10.0.0.3:5263") None [lit "s"] [[lit "d"]] [] 3600 120 false None.

Definition script30 : list (list (NodeId * ClusterDocument) * Fault) := replicate 15 ([], Well) ++ [([(11, rival20); (12, rival20)], Well)].
Definition site30 : Site (Sys (TlsMaterial := unit)) := mkSite blank_world (mkPeers (mkSys view20 ∅ script30) [] []).
Definition join30 := join no_tls [] config30 (lit "10.0.0.1:5263") 193 false (λ i, (200 + Z.of_nat i, 0)).
Definition run30 := join30 site30.

Definition leads_to (c : ClusterDocument) : bool :=
  forallb (λ n, match listens20 (default [] (head (n_addresses n))) with Some i => i =? n_id n | None => true end) (c_nodes c).

Lemma leads_check (K : list ClusterDocument) : forallb leads_to K = true → leads listens20 K.
Proof.
  rewrite List.forallb_forall. intros HK c id a Hc%list_elem_of_In Hf. specialize (HK c Hc). unfold leads_to in HK. rewrite List.forallb_forall in HK.
  unfold first_address in Hf. destruct (Cluster.node c id) as [n|] eqn:Hn; [|done]. apply List.find_some in Hn as [Hin Hid%Z.eqb_eq].
  cbn in Hf. destruct (SocketAddr.parses _); [|done]. injection Hf as <-. specialize (HK n Hin). destruct (listens20 _) as [i|]; [|by left]. right. f_equal. lia.
Qed.

Definition check30 : bool :=
  match run30 with
  | Some (Ok d, s') => (c_version d =? 3) && forallb leads_to (view (st_peers s')).2
  | _ => false
  end.

Lemma run30_result : ∃ d s', run30 = Some (Ok d, s') ∧ c_version d = 3 ∧ leads listens20 (view (st_peers s')).2.
Proof.
  assert (check30 = true) as Hc by (vm_compute; reflexivity). unfold check30 in Hc. destruct run30 as [[[d|e|] s']|]; [|discriminate Hc..].
  apply andb_true_iff in Hc as [Hv%Z.eqb_eq Hl%leads_check]. by exists d, s'.
Qed.

Lemma apart30 : apart false [[lit "d"]].
Proof. by intros i j p q _ _ _. Qed.


Lemma join_ready_witness : ∃ d s', run30 = Some (Ok d, s') ∧ is_Some (Cluster.node d 13).
Proof.
  destruct run30_result as (d & s' & Hr & _ & _). exists d, s'. split; [exact Hr|].
  apply (join_ready no_tls [] config30 [[lit "d"]] false join30 site30 s' d (enlist_join _ _ _ _ _ _ _) Hr apart30).
Defined.

Lemma membership_refines_witness : ∃ d s', run30 = Some (Ok d, s') ∧ rtc step view20 (view (st_peers s')).
Proof.
  destruct run30_result as (d & s' & Hr & _ & Hl). exists d, s'. split; [exact Hr|].
  apply (membership_refines (λ _, []) listens20 silent20 no_tls [] config30 [[lit "d"]] false join30 1 site30 s' (Ok d) (enlist_join _ _ _ _ _ _ _) Hr consistent20 Hl).
Defined.

(** Node 12 was stopped with the first document; node 11 has the rival. *)
Definition config31 : NodeConfig := mkConfig 12 (lit "10.0.0.9:5263") None [lit "s"] [] [lit "10.0.0.1:5263"] 3600 120 false None.
Definition site31 : Site (Sys (TlsMaterial := unit)) :=
  mkSite (save_document_for config31 document20 blank_world).2 (mkPeers (mkSys (offer view20 11 rival20) ∅ []) [] []).
Definition run31 := adopt_from_peers no_tls [] config31 site31.

Lemma startup_document_witness : ∃ d s', run31 = Some (Ok d, s') ∧ c_version d = 3
  ∧ ∀ entry, Cluster.node d 12 = Some entry → lit "10.0.0.9:5263" ∈ n_addresses entry.
Proof.
  assert (match run31 with Some (Ok d, _) => c_version d =? 3 | _ => false end = true) as Hc by (vm_compute; reflexivity).
  destruct run31 as [[[d|e|] s']|] eqn:Hr; [|discriminate Hc..]. apply Z.eqb_eq in Hc. exists d, s'. split; [reflexivity|]. split; [exact Hc|].
  destruct (startup_document no_tls [] config31 site31 s' d Hr) as (c0 & w & c & _ & _ & _ & Ha & _). exact Ha.
Defined.
End witnesses.
End MembershipSpec.
